(** * Miro frame extraction: a shallow embedding of [frame_to_mermaid],
      [frame_to_erd] and the helpers they call

    The TypeScript server reads JSON items and connectors from the Miro REST
    API and derives a Mermaid diagram from them.  The definitions below follow
    the source function by function and keep its names.

    - A JavaScript number is an IEEE-754 binary64 value: [spec_float] with a
      53-bit significand and maximal exponent 1024, and the arithmetic of
      [SpecFloat] (round to nearest, ties to even).
    - A JavaScript string is a [string]; its characters stand for the code
      units 0..255.
    - A [Map] or [Set] is an association list in insertion order, which is the
      order JavaScript iterates them in.
    - An item or connector is a record of the fields the code reads.  A numeric
      field is [Some n] when [typeof] gives ['number'] and [None] otherwise
      (absent, [null], or of another type); a string field is [Some s] when
      the property is present. *)

From Stdlib Require Import ZArith List String Ascii Bool Lia Relations DecimalString.
From Stdlib Require Import Floats.SpecFloat.
Import ListNotations.

Local Open Scope string_scope.
Local Open Scope list_scope.

(** ** JavaScript numbers *)

Module Num.

Definition number : Set := spec_float.

Definition prec : Z := 53.
Definition emax : Z := 1024.

Definition add : number -> number -> number := SFadd prec emax.
Definition sub : number -> number -> number := SFsub prec emax.
Definition mul : number -> number -> number := SFmul prec emax.
Definition div : number -> number -> number := SFdiv prec emax.

(** [a < b], [a <= b], [a > b], [a >= b]: all false when an operand is NaN. *)
Definition ltb (a b : number) : bool := SFltb a b.
Definition leb (a b : number) : bool := SFleb a b.
Definition gtb (a b : number) : bool := SFltb b a.
Definition geb (a b : number) : bool := SFleb b a.

(** The double that an integer literal denotes. *)
Definition of_Z (z : Z) : number := binary_normalize prec emax z 0 false.

(** The double that a decimal literal [n/d] denotes: the correctly rounded
    quotient, e.g. [decimal 102 100] for [1.02]. *)
Definition decimal (n d : Z) : number := div (of_Z n) (of_Z d).

Definition zero : number := S754_zero false.
Definition POSITIVE_INFINITY : number := S754_infinity false.

Definition is_nan (a : number) : bool :=
  match a with S754_nan => true | _ => false end.

(** [Number.isFinite]. *)
Definition isFinite (a : number) : bool :=
  match a with S754_zero _ | S754_finite _ _ _ => true | _ => false end.

(** Truthiness of a number: everything but [0], [-0] and [NaN]. *)
Definition truthy (a : number) : bool :=
  match a with S754_zero _ | S754_nan => false | _ => true end.

(** [Math.max] and [Math.min] on two arguments: NaN if either is NaN, and
    [+0] counts as larger than [-0]. *)
Definition max (a b : number) : number :=
  match SFcompare a b with
  | None => S754_nan
  | Some Lt => b
  | Some Gt => a
  | Some Eq => match a with S754_zero true => b | _ => a end
  end.

Definition min (a b : number) : number :=
  match SFcompare a b with
  | None => S754_nan
  | Some Lt => a
  | Some Gt => b
  | Some Eq => match a with S754_zero false => b | _ => a end
  end.

Definition abs : number -> number := SFabs.

(** The representation is the canonical one of a double. *)
Definition valid (a : number) : bool := valid_binary prec emax a.

End Num.

Abbreviation number := Num.number.

(** ** JavaScript strings *)

Module Str.

(** Truthiness of a string: non-empty. *)
Definition truthy (s : string) : bool :=
  match s with EmptyString => false | _ => true end.

(** Truthiness of a possibly undefined string. *)
Definition truthy_opt (s : option string) : bool :=
  match s with Some s => truthy s | None => false end.

(** [a || b] on possibly undefined strings. *)
Definition or (a b : option string) : option string :=
  if truthy_opt a then a else b.

(** [a || ''] *)
Definition or_empty (a : option string) : string :=
  match a with Some s => s | None => "" end.

(** [a === b] on possibly undefined strings. *)
Definition eq_opt (a b : option string) : bool :=
  match a, b with
  | Some a, Some b => String.eqb a b
  | None, None => true
  | _, _ => false
  end.

(** WhiteSpace and LineTerminator code units below 256: what [\s] matches
    and what [trim] removes. *)
Definition is_space (c : ascii) : bool :=
  let n := nat_of_ascii c in
  ((9 <=? n) && (n <=? 13) || (n =? 32) || (n =? 160))%nat.

Fixpoint trimStart (s : string) : string :=
  match s with
  | String c r => if is_space c then trimStart r else s
  | EmptyString => EmptyString
  end.

(** Drops the trailing white space: a character is kept when it is not
    white space or something is kept after it. *)
Fixpoint trimEnd (s : string) : string :=
  match s with
  | EmptyString => EmptyString
  | String c r =>
      match trimEnd r with
      | EmptyString => if is_space c then EmptyString else String c EmptyString
      | r' => String c r'
      end
  end.

Definition trim (s : string) : string := trimEnd (trimStart s).

(** [s.slice(0, n)] *)
Fixpoint take (n : nat) (s : string) : string :=
  match n, s with
  | S n, String c r => String c (take n r)
  | _, _ => EmptyString
  end.

(** [lines.join(sep)] *)
Fixpoint join (sep : string) (l : list string) : string :=
  match l with
  | [] => ""
  | [s] => s
  | s :: r => s ++ sep ++ join sep r
  end.

Definition quote : string := String "034"%char EmptyString.
Definition newline : string := String "010"%char EmptyString.

End Str.

(** ** [Map<string, V>] and [Set<string>] in insertion order *)

Module JsMap.
Section WithValue.
Context {V : Type}.

Definition t : Type := list (string * V).

Fixpoint get (m : t) (k : string) : option V :=
  match m with
  | [] => None
  | (k', v) :: r => if String.eqb k' k then Some v else get r k
  end.

(** [m.set(k, v)]: an existing key keeps its place, a new key goes last. *)
Fixpoint set (m : t) (k : string) (v : V) : t :=
  match m with
  | [] => [(k, v)]
  | (k', v') :: r => if String.eqb k' k then (k', v) :: r else (k', v') :: set r k v
  end.

Definition has (m : t) (k : string) : bool :=
  match get m k with Some _ => true | None => false end.

Definition keys (m : t) : list string := map fst m.

End WithValue.
Arguments t : clear implicits.
End JsMap.

Module JsSet.

Definition t : Type := list string.

Definition has (s : t) (k : string) : bool := existsb (String.eqb k) s.

Definition add (s : t) (k : string) : t := if has s k then s else s ++ [k].

End JsSet.

(** ** [Array.prototype.sort(compareFn)]

    The sort is stable, and [b] is moved before [a] only when
    [compareFn(a, b) > 0]; a NaN result counts as 0.  For a consistent
    comparator every stable sort gives this result. *)

Module JsArray.
Section Sort.
Context {A : Type}.
Variable compareFn : A -> A -> number.

Fixpoint insert (a : A) (sorted : list A) : list A :=
  match sorted with
  | [] => [a]
  | b :: r =>
      if Num.gtb (compareFn a b) Num.zero then b :: insert a r
      else a :: b :: r
  end.

Definition sort (l : list A) : list A := fold_right insert [] l.

End Sort.
End JsArray.

(** ** The data the REST API returns *)

Module Position.
Record t : Set := { x : option number; y : option number }.
(** [{}] *)
Definition empty : t := {| x := None; y := None |}.
End Position.

Module Geometry.
Record t : Set :=
  { x : option number; y : option number;
    width : option number; height : option number }.
Definition empty : t := {| x := None; y := None; width := None; height := None |}.
End Geometry.

Module Style.
Record t : Set :=
  { fillColor : option string;
    cardTheme : option string;
    backgroundColor : option string }.
Definition empty : t :=
  {| fillColor := None; cardTheme := None; backgroundColor := None |}.
End Style.

Module Data.
Record t : Set := { title : option string; content : option string }.
Definition empty : t := {| title := None; content := None |}.
End Data.

Module Item.
Record t : Set :=
  { id : string;
    type : option string;
    position : option Position.t;
    geometry : option Geometry.t;
    style : option Style.t;
    data : option Data.t }.
End Item.

Module Caption.
Record t : Set := { content : option string }.
End Caption.

Module ConnectorStyle.
Record t : Set :=
  { startStrokeCap : option string; endStrokeCap : option string }.
Definition empty : t := {| startStrokeCap := None; endStrokeCap := None |}.
End ConnectorStyle.

Module Connector.
(** [startItem] and [endItem] hold [c.startItem?.id] and [c.endItem?.id]. *)
Record t : Set :=
  { id : string;
    startItem : option string;
    endItem : option string;
    style : option ConnectorStyle.t;
    captions : list Caption.t }.
End Connector.

(** [v || {}] on an optional object. *)
Definition or_else {A : Type} (v : option A) (d : A) : A :=
  match v with Some a => a | None => d end.

(** [typeof a === 'number' ? a : b] *)
Definition number_or (a b : option number) : option number :=
  match a with Some _ => a | None => b end.

(** ** Regular-expression replacement

    A pattern is given by its matcher: the length of the match that starts at
    the head of the string, if there is one.  Every pattern below matches
    non-empty text only, and none needs backtracking. *)

Module Re.

Definition matcher : Type := string -> option nat.

(** [s.replace(/re/g, f)]: matches are found left to right and do not
    overlap; the replacement text is not scanned again.  [skip] counts the
    characters of the current match still to be dropped. *)
Fixpoint replace_go (re : matcher) (f : string -> string) (skip : nat) (s : string) : string :=
  match s with
  | EmptyString => EmptyString
  | String c r =>
      match skip with
      | S k => replace_go re f k r
      | O =>
          match re s with
          | Some (S k) => f (Str.take (S k) s) ++ replace_go re f k r
          | _ => String c (replace_go re f O r)
          end
      end
  end.

Definition replace_with (re : matcher) (f : string -> string) (s : string) : string :=
  replace_go re f O s.

Definition replace (re : matcher) (by_ : string) (s : string) : string :=
  replace_with re (fun _ => by_) s.

(** Lower case of an ASCII letter, for patterns with the [i] flag. *)
Definition lower (c : ascii) : ascii :=
  let n := nat_of_ascii c in
  if ((65 <=? n) && (n <=? 90))%nat then ascii_of_nat (n + 32) else c.

(** [s] starts with the literal [w]. *)
Fixpoint starts_with (w s : string) : bool :=
  match w, s with
  | EmptyString, _ => true
  | String a w', String c s' => Ascii.eqb a c && starts_with w' s'
  | _, EmptyString => false
  end.

(** [s] starts with the lower-case literal [w], letter case ignored. *)
Fixpoint starts_with_ci (w s : string) : bool :=
  match w, s with
  | EmptyString, _ => true
  | String a w', String c s' => Ascii.eqb a (lower c) && starts_with_ci w' s'
  | _, EmptyString => false
  end.

Fixpoint drop (n : nat) (s : string) : string :=
  match n, s with
  | S n, String _ r => drop n r
  | _, _ => s
  end.

(** Length of the run of white space at the head of [s]: [\s*]. *)
Fixpoint spaces (s : string) : nat :=
  match s with
  | String c r => if Str.is_space c then S (spaces r) else O
  | EmptyString => O
  end.

(** A literal. *)
Definition lit (w : string) : matcher :=
  fun s => if starts_with w s then Some (String.length w) else None.

(** A lower-case literal under the [i] flag. *)
Definition lit_ci (w : string) : matcher :=
  fun s => if starts_with_ci w s then Some (String.length w) else None.

(** [/&(amp|lt|gt|quot|#39);/] *)
Definition entity : matcher :=
  fun s =>
    if starts_with "&amp;" s then Some 5
    else if starts_with "&lt;" s then Some 4
    else if starts_with "&gt;" s then Some 4
    else if starts_with "&quot;" s then Some 6
    else if starts_with "&#39;" s then Some 5
    else None.

(** The pattern for line breaks: [<br], white space, an optional [/], [>]
    and the white space after it, under the [i] flag. *)
Definition br : matcher :=
  fun s =>
    if starts_with_ci "<br" s then
      let r1 := drop 3 s in
      let n1 := spaces r1 in
      let r2 := drop n1 r1 in
      let n2 := if starts_with "/" r2 then 1 else 0 in
      let r3 := drop n2 r2 in
      if starts_with ">" r3 then Some (3 + n1 + n2 + 1 + spaces (drop 1 r3))
      else None
    else None.

(** Length of the run of characters other than [>] at the head of [s]. *)
Fixpoint not_gt (s : string) : nat :=
  match s with
  | String c r => if Ascii.eqb c ">"%char then O else S (not_gt r)
  | EmptyString => O
  end.

(** [/<[^>]+>/] *)
Definition tag : matcher :=
  fun s =>
    if starts_with "<" s then
      let r := drop 1 s in
      let n := not_gt r in
      if (Nat.ltb 0 n && starts_with ">" (drop n r))%bool then Some (n + 2) else None
    else None.

(** [/\s+/] *)
Definition ws : matcher :=
  fun s => match spaces s with O => None | n => Some n end.

(** [\w] *)
Definition is_word (c : ascii) : bool :=
  let n := nat_of_ascii c in
  ((48 <=? n) && (n <=? 57) || (65 <=? n) && (n <=? 90)
   || (97 <=? n) && (n <=? 122) || (n =? 95))%nat.

Definition head_is_word (s : string) : bool :=
  match s with String c _ => is_word c | EmptyString => false end.

(** [/\bw\b/i.test(s)] for a lower-case word [w]: some occurrence of [w],
    letter case ignored, with no word character right before or after it.
    [prev] tells whether the character before the head is a word character. *)
Fixpoint test_word_go (w : string) (prev : bool) (s : string) : bool :=
  match s with
  | EmptyString => false
  | String c r =>
      (negb prev && starts_with_ci w s && negb (head_is_word (drop (String.length w) s)))
      || test_word_go w (is_word c) r
  end.

Definition test_word (w s : string) : bool := test_word_go w false s.

(** [s] contains [w], letter case ignored. *)
Fixpoint contains_ci (w s : string) : bool :=
  starts_with_ci w s
  || match s with String _ r => contains_ci w r | EmptyString => false end.

(** [s.split(/\r?\n/)] *)
Fixpoint split_lines (s : string) : list string :=
  match s with
  | EmptyString => [""]
  | String c r =>
      if Ascii.eqb c "010"%char then "" :: split_lines r
      else if (Ascii.eqb c "013"%char && starts_with Str.newline r)%bool then split_lines r
      else
        match split_lines r with
        | l :: ls => String c l :: ls
        | [] => [String c ""]
        end
  end.

End Re.

(** ** [htmlToPlain] and [plainSnippet] *)

Definition entityMap (m : string) : string :=
  if String.eqb m "&amp;" then "&"
  else if String.eqb m "&lt;" then "<"
  else if String.eqb m "&gt;" then ">"
  else if String.eqb m "&quot;" then Str.quote
  else if String.eqb m "&#39;" then "'"
  else m.

Definition htmlToPlain (textHtml : option string) : string :=
  if negb (Str.truthy_opt textHtml) then ""
  else
    let txt := Str.or_empty textHtml in
    let txt := Re.replace_with Re.entity entityMap txt in
    let txt := Re.replace Re.br Str.newline txt in
    let txt := Re.replace (Re.lit_ci "</p>") Str.newline (Re.replace (Re.lit_ci "<p>") "" txt) in
    let txt := Re.replace Re.tag "" txt in
    Str.trim (Re.replace Re.ws " " txt).

Definition plainSnippet (textHtml : option string) (maxLen : nat) : string :=
  let base := htmlToPlain textHtml in
  if (String.length base <=? maxLen)%nat then base else Str.take maxLen base.

(** ** Derived records *)

Module Rect.
Record t : Set := { left : number; right : number; top : number; bottom : number }.
End Rect.

Module BBox.
Record t : Set :=
  { left : number; right : number; top : number; bottom : number;
    width : number; height : number }.
End BBox.

Module Node.
Record t : Set :=
  { id : string; alias : string; type : option string; label : string }.
End Node.

Module Edge.
Record t : Set :=
  { fromId : string; toId : string;
    fromAlias : string; toAlias : string;
    connectorId : string; label : option string }.
End Edge.

(** Decimal rendering of a counter, as a template literal prints it. *)
Definition string_of_nat (n : nat) : string := NilEmpty.string_of_uint (Nat.to_uint n).

(** The numeric literals of the heuristics. *)
Definition lit_2 : number := Num.of_Z 2.
Definition lit_3 : number := Num.of_Z 3.
Definition lit_1_02 : number := Num.decimal 102 100.
Definition lit_1_05 : number := Num.decimal 105 100.
Definition lit_0_6 : number := Num.decimal 6 10.
Definition lit_0_8 : number := Num.decimal 8 10.
Definition lit_0_3 : number := Num.decimal 3 10.
Definition lit_0_5 : number := Num.decimal 5 10.
Definition lit_0_75 : number := Num.decimal 75 100.

(** ** [frame_to_mermaid]: from the fetched lists to the diagram *)

Module Mermaid.

(** [computeFrameBBox], local to [fetchFrameItems]. *)
Definition computeFrameBBox (frame : Item.t) : option Rect.t :=
  let position := or_else (Item.position frame) Position.empty in
  let geometry := or_else (Item.geometry frame) Geometry.empty in
  let x := number_or (Position.x position) (Geometry.x geometry) in
  let y := number_or (Position.y position) (Geometry.y geometry) in
  let width := Geometry.width geometry in
  let height := Geometry.height geometry in
  match x, y, width, height with
  | Some x, Some y, Some width, Some height =>
      let halfW := Num.div width lit_2 in
      let halfH := Num.div height lit_2 in
      Some {| Rect.left := Num.sub x halfW;
              Rect.right := Num.add x halfW;
              Rect.top := Num.sub y halfH;
              Rect.bottom := Num.add y halfH |}
  | _, _, _, _ => None
  end.

Definition computeItemBBox (item : Item.t) : option BBox.t :=
  let position := or_else (Item.position item) Position.empty in
  let geometry := or_else (Item.geometry item) Geometry.empty in
  let x := number_or (Position.x position) (Geometry.x geometry) in
  let y := number_or (Position.y position) (Geometry.y geometry) in
  let width := Geometry.width geometry in
  let height := Geometry.height geometry in
  match x, y, width, height with
  | Some x, Some y, Some width, Some height =>
      let halfW := Num.div width lit_2 in
      let halfH := Num.div height lit_2 in
      Some {| BBox.left := Num.sub x halfW;
              BBox.right := Num.add x halfW;
              BBox.top := Num.sub y halfH;
              BBox.bottom := Num.add y halfH;
              BBox.width := width;
              BBox.height := height |}
  | _, _, _, _ => None
  end.

Definition getItemColor (item : option Item.t) : option string :=
  match item with
  | None => None
  | Some item =>
      let style := or_else (Item.style item) Style.empty in
      Str.or (Str.or (Str.or (Style.fillColor style) (Style.cardTheme style))
                (Style.backgroundColor style))
        None
  end.

Definition nodeTypes : JsSet.t := ["shape"; "sticky_note"; "card"].

Definition isNodeType (type : option string) : bool :=
  match type with Some ty => JsSet.has nodeTypes ty | None => false end.

Definition nodeLabel (it : Item.t) : string :=
  let id := Item.id it in
  let data := or_else (Item.data it) Data.empty in
  let labelSource := Str.or_empty (Str.or (Str.or (Data.title data) (Data.content data)) (Some "")) in
  let label := plainSnippet (Some (if Str.truthy labelSource then labelSource else id)) 80 in
  if Str.truthy label then label else id.

(** The loop that numbers the nodes: [counter] is the next alias number. *)
Fixpoint makeNodes (counter : nat) (nodeItems : list Item.t) : list Node.t :=
  match nodeItems with
  | [] => []
  | it :: rest =>
      {| Node.id := Item.id it;
         Node.alias := "n" ++ string_of_nat counter;
         Node.type := Item.type it;
         Node.label := nodeLabel it |} :: makeNodes (S counter) rest
  end.

(** The key of an ordered pair in [existingPairs]. *)
Definition pairKey (fromId toId : string) : string := fromId ++ "->" ++ toId.

Definition captionLabel (captions : list Caption.t) (maxLen : nat) : option string :=
  match captions with
  | cap :: _ =>
      if Str.truthy_opt (Caption.content cap) then
        let cleaned := plainSnippet (Caption.content cap) maxLen in
        if Str.truthy cleaned then Some cleaned else None
      else None
  | [] => None
  end.

Section Extract.

Variable frameItems : list Item.t.
Variable allConnectors : list Connector.t.

Definition nodeItems : list Item.t :=
  filter (fun it => isNodeType (Item.type it)) frameItems.

Definition nodes : list Node.t := makeNodes 1 nodeItems.

Definition idToAlias : JsMap.t string :=
  fold_left (fun m n => JsMap.set m (Node.id n) (Node.alias n)) nodes [].

Definition idToItem : JsMap.t Item.t :=
  fold_left (fun m it => JsMap.set m (Item.id it) it) nodeItems [].

Definition idToNode : JsMap.t Node.t :=
  fold_left (fun m n => JsMap.set m (Node.id n) n) nodes [].

(** One turn of the loop over [allConnectors]; the state is
    [(edges, existingPairs)]. *)
Definition connectorStep (st : list Edge.t * JsSet.t) (c : Connector.t) : list Edge.t * JsSet.t :=
  let '(edges, existingPairs) := st in
  let startId := Connector.startItem c in
  let endId := Connector.endItem c in
  if negb (Str.truthy_opt startId) || negb (Str.truthy_opt endId) then st
  else
    let startId := Str.or_empty startId in
    let endId := Str.or_empty endId in
    let fromAlias := JsMap.get idToAlias startId in
    let toAlias := JsMap.get idToAlias endId in
    if negb (Str.truthy_opt fromAlias) || negb (Str.truthy_opt toAlias) then st
    else
      let edge :=
        {| Edge.fromId := startId;
           Edge.toId := endId;
           Edge.fromAlias := Str.or_empty fromAlias;
           Edge.toAlias := Str.or_empty toAlias;
           Edge.connectorId := Connector.id c;
           Edge.label := captionLabel (Connector.captions c) 40 |} in
      (edges ++ [edge], JsSet.add existingPairs (pairKey startId endId)).

Definition explicitEdges : list Edge.t * JsSet.t :=
  fold_left connectorStep allConnectors ([], []).

Definition idToBBox : JsMap.t BBox.t :=
  fold_left
    (fun m node =>
       match JsMap.get idToItem (Node.id node) with
       | None => m
       | Some item =>
           match computeItemBBox item with
           | Some bbox => JsMap.set m (Node.id node) bbox
           | None => m
           end
       end)
    nodes [].

Definition nodeIds : list string := map Node.id nodes.

Definition boxArea (box : BBox.t) : number := Num.mul (BBox.width box) (BBox.height box).

(** One turn of the loop that fills [areas] and [colorStats]; a statistic is
    [(count, totalArea)]. *)
Definition statsStep (st : list number * JsMap.t (nat * number)) (id : string)
  : list number * JsMap.t (nat * number) :=
  let '(areas, colorStats) := st in
  match JsMap.get idToBBox id with
  | None => st
  | Some box =>
      let area := boxArea box in
      let areas := areas ++ [area] in
      let color := getItemColor (JsMap.get idToItem id) in
      if Str.truthy_opt color then
        let color := Str.or_empty color in
        let stat := or_else (JsMap.get colorStats color) (O, Num.zero) in
        (areas, JsMap.set colorStats color (S (fst stat), Num.add (snd stat) area))
      else (areas, colorStats)
  end.

Definition stats : list number * JsMap.t (nat * number) :=
  fold_left statsStep nodeIds ([], []).

Definition areas : list number := JsArray.sort (fun a b => Num.sub a b) (fst stats).

Definition colorStats : JsMap.t (nat * number) := snd stats.

Definition medianArea : number := nth (Nat.div (List.length areas) 2) areas Num.zero.

Definition regionThreshold : number :=
  if Num.gtb medianArea Num.zero then Num.mul medianArea lit_3 else Num.zero.

Definition colorEntries : list (string * (nat * number)) :=
  JsArray.sort (fun a b => Num.sub (snd (snd b)) (snd (snd a))) colorStats.

(** The loop over [colorEntries], which stops at the first colour below 30%
    of the top one. *)
Fixpoint regionColorsLoop (topArea : number) (entries : list (string * (nat * number)))
  (regionColors : JsSet.t) : JsSet.t :=
  match entries with
  | [] => regionColors
  | (color, stat) :: rest =>
      if Num.geb (snd stat) (Num.mul topArea lit_0_3)
      then regionColorsLoop topArea rest (JsSet.add regionColors color)
      else regionColors
  end.

Definition regionColors : JsSet.t :=
  match colorEntries with
  | [] => []
  | top :: _ => regionColorsLoop (snd (snd top)) colorEntries []
  end.

(** One turn of the inner loop over candidate parents; the state is
    [(bestParentId, bestParentArea)], and [continue] leaves it as it is. *)
Definition parentStep (childId : string) (childBox : BBox.t)
  (best : option string * number) (parentId : string) : option string * number :=
  if String.eqb parentId childId then best
  else
    match JsMap.get idToBBox parentId with
    | None => best
    | Some parentBox =>
        let parentItem := JsMap.get idToItem parentId in
        let childItem := JsMap.get idToItem childId in
        let parentColor := getItemColor parentItem in
        let childColor := getItemColor childItem in
        if Str.truthy_opt parentColor && Str.truthy_opt childColor
           && Str.eq_opt parentColor childColor
        then best
        else
          let parentArea := Num.mul (BBox.width parentBox) (BBox.height parentBox) in
          let childArea := Num.mul (BBox.width childBox) (BBox.height childBox) in
          let parentIsRegionColor :=
            if Str.truthy_opt parentColor
            then JsSet.has regionColors (Str.or_empty parentColor) else false in
          let minScale := if parentIsRegionColor then lit_1_02 else lit_1_05 in
          if Num.ltb (BBox.width parentBox) (Num.mul (BBox.width childBox) minScale)
             || Num.ltb (BBox.height parentBox) (Num.mul (BBox.height childBox) minScale)
          then best
          else
            let interLeft := Num.max (BBox.left parentBox) (BBox.left childBox) in
            let interRight := Num.min (BBox.right parentBox) (BBox.right childBox) in
            let interTop := Num.max (BBox.top parentBox) (BBox.top childBox) in
            let interBottom := Num.min (BBox.bottom parentBox) (BBox.bottom childBox) in
            let interWidth := Num.sub interRight interLeft in
            let interHeight := Num.sub interBottom interTop in
            if Num.leb interWidth Num.zero || Num.leb interHeight Num.zero then best
            else
              let intersectionArea := Num.mul interWidth interHeight in
              let fracInside := Num.div intersectionArea childArea in
              let requiredFrac := if parentIsRegionColor then lit_0_6 else lit_0_8 in
              if Num.ltb fracInside requiredFrac then best
              else if Num.ltb parentArea (snd best) then (Some parentId, parentArea)
              else best
    end.

Definition bestParent (childId : string) (childBox : BBox.t) : option string * number :=
  fold_left (parentStep childId childBox) nodeIds (None, Num.POSITIVE_INFINITY).

(** One turn of the loop over children; the state is [(parentOf, childrenOf)].
    A value [None] in [parentOf] is JavaScript's [null]. *)
Definition containmentStep
  (st : JsMap.t (option string) * JsMap.t (list string)) (childId : string)
  : JsMap.t (option string) * JsMap.t (list string) :=
  let '(parentOf, childrenOf) := st in
  match JsMap.get idToBBox childId with
  | None => st
  | Some childBox =>
      let bestParentId := fst (bestParent childId childBox) in
      if Str.truthy_opt bestParentId then
        let bestParentId := Str.or_empty bestParentId in
        let arr := or_else (JsMap.get childrenOf bestParentId) [] in
        (JsMap.set parentOf childId (Some bestParentId),
         JsMap.set childrenOf bestParentId (arr ++ [childId]))
      else (JsMap.set parentOf childId None, childrenOf)
  end.

Definition containment : JsMap.t (option string) * JsMap.t (list string) :=
  fold_left containmentStep nodeIds ([], []).

Definition parentOf : JsMap.t (option string) := fst containment.
Definition childrenOf : JsMap.t (list string) := snd containment.

(** [parentOf.get(id) || '__root__'] *)
Definition groupKeyFor (id : string) : string :=
  match JsMap.get parentOf id with
  | Some (Some p) => if Str.truthy p then p else "__root__"
  | _ => "__root__"
  end.

Definition groups : JsMap.t (list string) :=
  fold_left
    (fun groups id =>
       let key := groupKeyFor id in
       let arr := or_else (JsMap.get groups key) [] in
       JsMap.set groups key (arr ++ [id]))
    nodeIds [].

Definition centerY (box : BBox.t) : number :=
  Num.div (Num.add (BBox.top box) (BBox.bottom box)) lit_2.

(** [ids.map(...).filter(x => x.box)]: the ids of a group that have a box,
    each with its box. *)
Fixpoint withBoxes (ids : list string) : list (string * BBox.t) :=
  match ids with
  | [] => []
  | id :: rest =>
      match JsMap.get idToBBox id with
      | Some box => (id, box) :: withBoxes rest
      | None => withBoxes rest
      end
  end.

Definition sortedGroup (ids : list string) : list (string * BBox.t) :=
  JsArray.sort (fun a b => Num.sub (centerY (snd a)) (centerY (snd b))) (withBoxes ids).

(** One turn of the loop over [i]: [a = sorted[i]], [b = sorted[i + 1]]; the
    state is [(edges, existingPairs)]. *)
Definition stackStep (st : list Edge.t * JsSet.t) (a b : string * BBox.t)
  : list Edge.t * JsSet.t :=
  let '(edges, existingPairs) := st in
  let boxA := snd a in
  let boxB := snd b in
  let horizontalOverlap :=
    Num.sub (Num.min (BBox.right boxA) (BBox.right boxB))
            (Num.max (BBox.left boxA) (BBox.left boxB)) in
  if Num.leb horizontalOverlap Num.zero then st
  else
    let centerYA := centerY boxA in
    let centerYB := centerY boxB in
    let verticalGap := Num.abs (Num.sub centerYB centerYA) in
    let minHeight := Num.min (BBox.height boxA) (BBox.height boxB) in
    if Num.gtb verticalGap (Num.mul minHeight lit_0_75) then st
    else
      let topId := if Num.leb centerYA centerYB then fst a else fst b in
      let bottomId := if Num.leb centerYA centerYB then fst b else fst a in
      let key := pairKey topId bottomId in
      if JsSet.has existingPairs key then st
      else
        let fromAlias := JsMap.get idToAlias topId in
        let toAlias := JsMap.get idToAlias bottomId in
        if negb (Str.truthy_opt fromAlias) || negb (Str.truthy_opt toAlias) then st
        else
          (edges ++ [ {| Edge.fromId := topId;
                         Edge.toId := bottomId;
                         Edge.fromAlias := Str.or_empty fromAlias;
                         Edge.toAlias := Str.or_empty toAlias;
                         Edge.connectorId := "inferred-dependency";
                         Edge.label := None |} ],
           JsSet.add existingPairs key).

(** The loop [for (i = 0; i < sorted.length - 1; i++)]. *)
Fixpoint stackLoop (st : list Edge.t * JsSet.t) (sorted : list (string * BBox.t))
  : list Edge.t * JsSet.t :=
  match sorted with
  | a :: ((b :: _) as rest) => stackLoop (stackStep st a b) rest
  | _ => st
  end.

(** One turn of the loop over [groups]. *)
Definition groupStep (st : list Edge.t * JsSet.t) (group : string * list string)
  : list Edge.t * JsSet.t :=
  let ids := snd group in
  if (List.length ids <? 2)%nat then st
  else stackLoop st (sortedGroup ids).

(** [edges] and [existingPairs] after the explicit and the inferred edges. *)
Definition allEdges : list Edge.t * JsSet.t :=
  fold_left groupStep groups explicitEdges.

Definition edges : list Edge.t := fst allEdges.

(** The region-like shapes. *)
Definition regionStep (regionIds : JsSet.t) (id : string) : JsSet.t :=
  match JsMap.get idToBBox id with
  | None => regionIds
  | Some box =>
      let area := Num.mul (BBox.width box) (BBox.height box) in
      let item := JsMap.get idToItem id in
      let color := getItemColor item in
      if Num.truthy regionThreshold && Num.geb area regionThreshold
      then JsSet.add regionIds id
      else if Str.truthy_opt color && JsSet.has regionColors (Str.or_empty color)
              && Num.truthy medianArea && Num.geb area (Num.mul medianArea lit_0_5)
      then JsSet.add regionIds id
      else regionIds
  end.

Definition regionIds : JsSet.t := fold_left regionStep nodeIds [].

(** *** The text *)

Variable direction : string.
Variable frame_id : string.
Variable frameTitle : option string.

(** The replacement of every quote by a quote (the label is unchanged). *)
Definition safeQuotes (label : string) : string :=
  Re.replace (Re.lit Str.quote) Str.quote label.

Definition backslash : string := String "092"%char EmptyString.

(** The replacement of every quote by a backslash and a quote. *)
Definition escapeQuotes (label : string) : string :=
  Re.replace (Re.lit Str.quote) (backslash ++ Str.quote)%string label.

Definition bracketed (label : string) : string :=
  ("[" ++ Str.quote ++ label ++ Str.quote ++ "]")%string.

Definition nodeLine (node : Node.t) : string :=
  ("  " ++ Node.alias node ++ bracketed (safeQuotes (Node.label node)))%string.

(** [emitSubgraph(parentId, indent)]; [lines] is the array it pushes to.  The
    recursion follows [childrenOf]; [fuel] bounds its depth and the result is
    [None] when it is used up. *)
Fixpoint emitSubgraph (fuel : nat) (parentId indent : string) (lines : list string)
  : option (list string) :=
  match fuel with
  | O => None
  | S fuel =>
      let parentNode := JsMap.get idToNode parentId in
      let label :=
        match parentNode with
        | Some n => if Str.truthy (Node.label n) then Node.label n else parentId
        | None => parentId
        end in
      let safeLabel := safeQuotes label in
      let parentAlias :=
        match parentNode with
        | Some n => if Str.truthy (Node.alias n) then Node.alias n else parentId
        | None => parentId
        end in
      let children := or_else (JsMap.get childrenOf parentId) [] in
      match children with
      | [] => Some lines
      | _ :: _ =>
          let lines := lines ++ [(indent ++ "subgraph sg_" ++ parentAlias ++ bracketed safeLabel)%string] in
          let body :=
            fold_left
              (fun (acc : option (list string)) (childId : string) =>
                 match acc with
                 | None => None
                 | Some lines =>
                     if JsMap.has childrenOf childId
                     then emitSubgraph fuel childId (indent ++ "  ")%string lines
                     else
                       let childAlias := JsMap.get idToAlias childId in
                       if Str.truthy_opt childAlias
                       then Some (lines ++ [(indent ++ "  " ++ Str.or_empty childAlias)%string])
                       else Some lines
                 end)
              children (Some lines) in
          match body with
          | None => None
          | Some lines => Some (lines ++ [(indent ++ "end")%string])
          end
      end
  end.

Definition emitRegionSubgraph (id indent : string) (lines : list string) : list string :=
  match JsMap.get idToNode id with
  | None => lines
  | Some node =>
      lines ++ [(indent ++ "subgraph sg_" ++ Node.alias node
                 ++ bracketed (safeQuotes (Node.label node)))%string;
                (indent ++ "  " ++ Node.alias node)%string;
                (indent ++ "end")%string]
  end.

Definition edgeLine (e : Edge.t) : string :=
  if Str.truthy_opt (Edge.label e)
  then ("  " ++ Edge.fromAlias e ++ " -- " ++ Str.quote
        ++ escapeQuotes (Str.or_empty (Edge.label e)) ++ Str.quote ++ " --> " ++ Edge.toAlias e)%string
  else ("  " ++ Edge.fromAlias e ++ " --> " ++ Edge.toAlias e)%string.

(** The lines of the flowchart, or [None] when [fuel] is too small for the
    depth of the containment hierarchy. *)
Definition mermaidLines (fuel : nat) : option (list string) :=
  let lines := [("flowchart " ++ direction)%string] in
  let lines := lines ++ map nodeLine nodes in
  let rootLabel : string :=
    if Str.truthy_opt frameTitle then Str.or_empty frameTitle else ("Frame " ++ frame_id)%string in
  let lines := lines ++ [("  subgraph sg_root" ++ bracketed (safeQuotes rootLabel))%string] in
  let containers :=
    fold_left
      (fun (acc : option (list string)) (parentId : string) =>
         match acc with
         | None => None
         | Some lines =>
             match JsMap.get parentOf parentId with
             | Some (Some p) =>
                 if Str.truthy p then Some lines else emitSubgraph fuel parentId "    " lines
             | _ => emitSubgraph fuel parentId "    " lines
             end
         end)
      (JsMap.keys childrenOf) (Some lines) in
  match containers with
  | None => None
  | Some lines =>
      let lines :=
        fold_left
          (fun lines id =>
             if JsMap.has childrenOf id then lines else emitRegionSubgraph id "    " lines)
          regionIds lines in
      let lines := lines ++ ["  end"] in
      Some (lines ++ map edgeLine edges)
  end.

Definition mermaid (fuel : nat) : option string :=
  match mermaidLines fuel with
  | Some lines => Some (Str.join Str.newline lines)
  | None => None
  end.

End Extract.
End Mermaid.

(** ** [frame_to_erd]: from the fetched lists to the diagram *)

Module Entity.
Record t : Set :=
  { id : string; entityName : string; label : string; pkCandidates : list string }.
End Entity.

Module Relationship.
Record t : Set :=
  { fromId : string; toId : string;
    fromEntity : string; toEntity : string;
    leftCardinality : string; rightCardinality : string;
    label : option string;
    connectorId : string }.
End Relationship.

Module Erd.

(** [/[^A-Za-z0-9]+/] *)
Definition is_alnum (c : ascii) : bool :=
  let n := nat_of_ascii c in
  ((48 <=? n) && (n <=? 57) || (65 <=? n) && (n <=? 90) || (97 <=? n) && (n <=? 122))%nat.

Fixpoint not_alnum_run (s : string) : nat :=
  match s with
  | String c r => if is_alnum c then O else S (not_alnum_run r)
  | EmptyString => O
  end.

Definition re_not_alnum : Re.matcher :=
  fun s => match not_alnum_run s with O => None | n => Some n end.

(** [base.replace(/^_+|_+$/g, '')]: the underscores at both ends go. *)
Fixpoint stripStart (s : string) : string :=
  match s with
  | String c r => if Ascii.eqb c "_"%char then stripStart r else s
  | EmptyString => EmptyString
  end.

Fixpoint stripEnd (s : string) : string :=
  match s with
  | EmptyString => EmptyString
  | String c r =>
      match stripEnd r with
      | EmptyString => if Ascii.eqb c "_"%char then EmptyString else String c EmptyString
      | r' => String c r'
      end
  end.

Definition is_digit (c : ascii) : bool :=
  let n := nat_of_ascii c in ((48 <=? n) && (n <=? 57))%nat.

Definition makeEntityName (label : string) (fallbackIndex : nat) : string :=
  let base : string :=
    if Str.truthy label then label else ("Entity_" ++ string_of_nat fallbackIndex)%string in
  let base := Re.replace re_not_alnum "_" base in
  let base := stripEnd (stripStart base) in
  let base : string :=
    if Str.truthy base then base else ("Entity_" ++ string_of_nat fallbackIndex)%string in
  match base with
  | String c _ => if is_digit c then ("E_" ++ base)%string else base
  | EmptyString => base
  end.

Definition capToCardinality (cap : option string) : string :=
  if negb (Str.truthy_opt cap) then "||"
  else
    let cap := Str.or_empty cap in
    if String.eqb cap "erd_one" || String.eqb cap "erd_only_one" then "||"
    else if String.eqb cap "erd_zero_or_one" then "o|"
    else if String.eqb cap "erd_many" || String.eqb cap "erd_one_or_many" then "|{"
    else if String.eqb cap "erd_zero_or_many" then "o{"
    else "||".

Definition computeItemBBox (item : option Item.t) : option Rect.t :=
  match item with
  | None => None
  | Some item =>
      let position := or_else (Item.position item) Position.empty in
      let geometry := or_else (Item.geometry item) Geometry.empty in
      let x := number_or (Position.x position) (Geometry.x geometry) in
      let y := number_or (Position.y position) (Geometry.y geometry) in
      let width := Geometry.width geometry in
      let height := Geometry.height geometry in
      match x, y, width, height with
      | Some x, Some y, Some width, Some height =>
          let halfW := Num.div width lit_2 in
          let halfH := Num.div height lit_2 in
          Some {| Rect.left := Num.sub x halfW;
                  Rect.right := Num.add x halfW;
                  Rect.top := Num.sub y halfH;
                  Rect.bottom := Num.add y halfH |}
      | _, _, _, _ => None
      end
  end.

(** The text [extractPkCandidatesFromItem] works on:
    [htmlToPlain(`${title || ''}\n${content || ''}`.trim()) || '']. *)
Definition pkPlainText (item : option Item.t) : string :=
  let data := match item with
              | Some item => or_else (Item.data item) Data.empty
              | None => Data.empty
              end in
  let titleHtml := Data.title data in
  let contentHtml := Data.content data in
  let merged :=
    Str.trim (Str.or_empty (Str.or titleHtml (Some "")) ++ Str.newline
              ++ Str.or_empty (Str.or contentHtml (Some "")))%string in
  htmlToPlain (Some merged).

(** [plain.split(/\r?\n/).map((l) => l.trim()).filter(Boolean)] *)
Definition pkLines (plain : string) : list string :=
  filter Str.truthy (map Str.trim (Re.split_lines plain)).

Definition extractPkCandidatesFromItem (item : option Item.t) : list string :=
  let plain := pkPlainText item in
  if negb (Str.truthy plain) then []
  else
    let lines := pkLines plain in
    let candidates :=
      filter (fun line => Re.test_word "pk" line || Re.test_word "id" line) lines in
    let candidates :=
      match candidates, lines with
      | [], first :: _ => [first]
      | _, _ => candidates
      end in
    firstn 3 candidates.

Definition isSticky (item : option Item.t) : bool :=
  match item with
  | Some item => Str.eq_opt (Item.type item) (Some "sticky_note")
  | None => false
  end.

Section Extract.

Variable frameItems : list Item.t.
Variable allConnectors : list Connector.t.

Definition idToItem : JsMap.t Item.t :=
  fold_left (fun m it => JsMap.set m (Item.id it) it) frameItems [].

Definition relationshipConnectors : list Connector.t :=
  filter
    (fun c =>
       let startId := Connector.startItem c in
       let endId := Connector.endItem c in
       if negb (Str.truthy_opt startId) || negb (Str.truthy_opt endId) then false
       else
         let startItem := JsMap.get idToItem (Str.or_empty startId) in
         let endItem := JsMap.get idToItem (Str.or_empty endId) in
         match startItem, endItem with
         | Some _, Some _ => negb (isSticky startItem || isSticky endItem)
         | _, _ => false
         end)
    allConnectors.

Definition entityIds : JsSet.t :=
  fold_left
    (fun ids c =>
       let startId := Str.or_empty (Connector.startItem c) in
       let endId := Str.or_empty (Connector.endItem c) in
       let ids := if Str.truthy startId then JsSet.add ids startId else ids in
       if Str.truthy endId then JsSet.add ids endId else ids)
    relationshipConnectors [].

Definition entityLabel (id : string) (it : Item.t) : string :=
  let data := or_else (Item.data it) Data.empty in
  let labelSource := Str.or_empty (Str.or (Str.or (Data.title data) (Data.content data)) (Some "")) in
  let label := plainSnippet (Some (if Str.truthy labelSource then labelSource else id)) 80 in
  if Str.truthy label then label else id.

(** The loop over [entityIds]; [counter] moves on only when an entity is kept. *)
Fixpoint makeEntities (counter : nat) (ids : list string) : list Entity.t :=
  match ids with
  | [] => []
  | id :: rest =>
      match JsMap.get idToItem id with
      | None => makeEntities counter rest
      | Some it =>
          if Str.eq_opt (Item.type it) (Some "sticky_note") then makeEntities counter rest
          else
            let label := entityLabel id it in
            {| Entity.id := id;
               Entity.entityName := makeEntityName label counter;
               Entity.label := label;
               Entity.pkCandidates := extractPkCandidatesFromItem (Some it) |}
            :: makeEntities (S counter) rest
      end
  end.

Definition entities : list Entity.t := makeEntities 1 entityIds.

Definition idToEntityName : JsMap.t string :=
  fold_left (fun m e => JsMap.set m (Entity.id e) (Entity.entityName e)) entities [].

Definition relationshipOf (c : Connector.t) : option Relationship.t :=
  let startId := Connector.startItem c in
  let endId := Connector.endItem c in
  if negb (Str.truthy_opt startId) || negb (Str.truthy_opt endId) then None
  else
    let startId := Str.or_empty startId in
    let endId := Str.or_empty endId in
    let fromEntity := JsMap.get idToEntityName startId in
    let toEntity := JsMap.get idToEntityName endId in
    if negb (Str.truthy_opt fromEntity) || negb (Str.truthy_opt toEntity) then None
    else
      let style := or_else (Connector.style c) ConnectorStyle.empty in
      Some {| Relationship.fromId := startId;
              Relationship.toId := endId;
              Relationship.fromEntity := Str.or_empty fromEntity;
              Relationship.toEntity := Str.or_empty toEntity;
              Relationship.leftCardinality := capToCardinality (ConnectorStyle.startStrokeCap style);
              Relationship.rightCardinality := capToCardinality (ConnectorStyle.endStrokeCap style);
              Relationship.label := Mermaid.captionLabel (Connector.captions c) 60;
              Relationship.connectorId := Connector.id c |}.

Definition relationships : list Relationship.t :=
  flat_map (fun c => match relationshipOf c with Some r => [r] | None => [] end)
    relationshipConnectors.

Definition entityLines : list string :=
  snd (fold_left
         (fun (st : JsSet.t * list string) e =>
            let '(seenNames, lines) := st in
            if JsSet.has seenNames (Entity.entityName e) then st
            else (JsSet.add seenNames (Entity.entityName e),
                  lines ++ [("  %% " ++ Entity.entityName e ++ " = " ++ Entity.label e)%string]))
         entities ([], [])).

Definition relationshipLine (r : Relationship.t) : string :=
  let mid : string :=
    (Relationship.leftCardinality r ++ "--" ++ Relationship.rightCardinality r)%string in
  let suffix : string :=
    match Relationship.label r with
    | Some label =>
        if Str.truthy label
        then (" : " ++ Re.replace (Re.lit Str.quote) Str.quote label)%string else ""
    | None => ""
    end in
  ("  " ++ Relationship.fromEntity r ++ " " ++ mid ++ " " ++ Relationship.toEntity r ++ suffix)%string.

Definition lines : list string :=
  ["erDiagram"; "  %% Entities discovered inside the frame"]
  ++ entityLines
  ++ [""; "  %% Relationships inferred from connectors"]
  ++ map relationshipLine relationships.

Definition erd : string := Str.join Str.newline lines.

End Extract.
End Erd.


(** ** The REST client and the tool entry points

    A request either throws or returns its payload.  The answer may change
    from one request to the next, so the API is indexed by the number of
    requests issued so far in the invocation; that number is the state the
    computations thread.  Loops that wait for the last page take fuel, and
    running out of it is the outcome [Diverge]. *)

Module Net.

(** A thrown error: its message and, for an HTTP error, the status and the
    body of the response, both rendered. *)
Record Error : Set := { message : string; response : option (string * string) }.

(** A page of a listing: [payload?.data || []] and [payload?.cursor?.after]. *)
Record Page (A : Type) : Type := { data : list A; after : option string }.
Arguments data {A}.
Arguments after {A}.

Definition Params : Set := list (string * string).

(** [miroClient.get], by endpoint: one item (its [data], if any), the items
    of a board, the connectors of a board.  The first argument is the number
    of requests issued before this one. *)
Record Api : Type :=
  { getItem : nat -> string -> string -> Error + option Item.t;
    getItems : nat -> string -> Params -> Error + Page Item.t;
    getConnectors : nat -> string -> Params -> Error + Page Connector.t }.

Inductive outcome (A : Type) : Type :=
  | Return (a : A)
  | Throw (e : Error)
  | Diverge.
Arguments Return {A}.
Arguments Throw {A}.
Arguments Diverge {A}.

Definition M (A : Type) : Type := nat -> outcome A * nat.

Definition ret {A : Type} (a : A) : M A := fun n => (Return a, n).

Definition throw {A : Type} (e : Error) : M A := fun n => (Throw e, n).

Definition diverge {A : Type} : M A := fun n => (Diverge, n).

Definition bind {A B : Type} (m : M A) (k : A -> M B) : M B :=
  fun n =>
    match m n with
    | (Return a, n') => k a n'
    | (Throw e, n') => (Throw e, n')
    | (Diverge, n') => (Diverge, n')
    end.

(** [try { m } catch (e) { handler e }] *)
Definition try_catch {A : Type} (m : M A) (handler : Error -> M A) : M A :=
  fun n =>
    match m n with
    | (Throw e, n') => handler e n'
    | r => r
    end.

(** [await miroClient.get(...)] *)
Definition request {A : Type} (endpoint : nat -> Error + A) : M A :=
  fun n =>
    match endpoint n with
    | inl e => (Throw e, S n)
    | inr a => (Return a, S n)
    end.

Notation "x <- m ;; k" := (bind m (fun x => k))
  (at level 61, m at next level, right associativity).

(** What reading a property of [undefined] throws. *)
Definition typeError : Error :=
  {| message := "Cannot read properties of undefined"; response := None |}.

Definition formatApiError (error : Error) : Error :=
  let errorMessage : string :=
    match response error with
    | Some (status, responseData) =>
        ("Miro API Error (" ++ status ++ "): " ++ responseData)%string
    | None => ("Miro API Request Error: " ++ message error)%string
    end in
  {| message := errorMessage; response := None |}.

Definition noActiveBoard : Error :=
  {| message := "No active board set. Use set_active_board or provide board_id parameter.";
     response := None |}.

(** [resolveBoardId(args)]; [board_id] is [args.board_id] when [args] is
    given and the value is a string, [activeBoardId] is the global. *)
Definition resolveBoardId (activeBoardId : option string) (board_id : option string)
  : Error + string :=
  let candidate :=
    match board_id with
    | Some s => if Str.truthy (Str.trim s) then Some (Str.trim s) else None
    | None => None
    end in
  if Str.truthy_opt candidate then inr (Str.or_empty candidate)
  else if negb (Str.truthy_opt activeBoardId) then inl noActiveBoard
  else inr (Str.or_empty activeBoardId).

(** A tool that starts with [const boardId = resolveBoardId(args)]. *)
Definition withBoard {A : Type} (activeBoardId board_id : option string)
  (body : string -> M A) : M A :=
  match resolveBoardId activeBoardId board_id with
  | inl e => throw e
  | inr boardId => body boardId
  end.

Definition cursorParam (cursor : option string) : Params :=
  if Str.truthy_opt cursor then [("cursor", Str.or_empty cursor)] else [].

(** [limit && count >= limit] *)
Definition limitReached (limit : option nat) (count : nat) : bool :=
  match limit with
  | Some (S l) => (S l <=? count)%nat
  | _ => false
  end.

Section Fetch.

Variable api : Api.
Variable boardId : string.
Variable limitPerFrame : option nat.
Variable maxConnectors : option nat.

(** The loop of [fetchFrameItems] that lists the frames of the board. *)
Fixpoint listFrames (fuel : nat) (targetFrameId : string) (cursor : option string)
  (allFrames : list Item.t) : M (list Item.t) :=
  match fuel with
  | O => diverge
  | S fuel =>
      let params := [("limit", "50"); ("type", "frame")] ++ cursorParam cursor in
      payload <- request (fun n => getItems api n boardId params) ;;
      let allFrames :=
        allFrames
        ++ filter (fun fr => negb (String.eqb (Item.id fr) targetFrameId)) (data payload) in
      let cursor := Str.or (after payload) None in
      if Str.truthy_opt cursor then listFrames fuel targetFrameId cursor allFrames
      else ret allFrames
  end.

Definition insideRoot (bbox rootBBox : Rect.t) : bool :=
  Num.geb (Rect.left bbox) (Rect.left rootBBox)
  && Num.leb (Rect.right bbox) (Rect.right rootBBox)
  && Num.geb (Rect.top bbox) (Rect.top rootBBox)
  && Num.leb (Rect.bottom bbox) (Rect.bottom rootBBox).

(** The [try] block of [fetchFrameItems] and its [catch]: the seed frames. *)
Definition seedFrameIds (fuel : nat) (targetFrameId : string) : M JsSet.t :=
  try_catch
    (rootResp <- request (fun n => getItem api n boardId targetFrameId) ;;
     match rootResp with
     | None => throw typeError
     | Some rootFrame =>
         let rootBBox := Mermaid.computeFrameBBox rootFrame in
         let seedFrameIds := JsSet.add [] targetFrameId in
         match rootBBox with
         | None => ret seedFrameIds
         | Some rootBBox =>
             allFrames <- listFrames fuel targetFrameId None [] ;;
             ret (fold_left
                    (fun seedFrameIds fr =>
                       match Mermaid.computeFrameBBox fr with
                       | None => seedFrameIds
                       | Some bbox =>
                           if insideRoot bbox rootBBox
                           then JsSet.add seedFrameIds (Item.id fr)
                           else seedFrameIds
                       end)
                    allFrames seedFrameIds)
         end
     end)
    (fun _ => ret (JsSet.add [] targetFrameId)).

(** One turn of the loop over a batch in [fetchDirectChildren]; after the
    limit is reached nothing more is pushed. *)
Definition pushChild (st : list Item.t * list string) (it : Item.t) : list Item.t * list string :=
  let '(items, childFrameIds) := st in
  if limitReached limitPerFrame (List.length items) then st
  else
    (items ++ [it],
     if Str.eq_opt (Item.type it) (Some "frame") then childFrameIds ++ [Item.id it]
     else childFrameIds).

(** [fetchDirectChildren(frameId)], with the shared array [items]. *)
Fixpoint fetchDirectChildren (fuel : nat) (frameId : string) (cursor : option string)
  (items : list Item.t) (childFrameIds : list string) : M (list Item.t * list string) :=
  match fuel with
  | O => diverge
  | S fuel =>
      if limitReached limitPerFrame (List.length items) then ret (items, childFrameIds)
      else
        let params := [("parent_item_id", frameId); ("limit", "50")] ++ cursorParam cursor in
        payload <- request (fun n => getItems api n boardId params) ;;
        let '(items, childFrameIds) := fold_left pushChild (data payload) (items, childFrameIds) in
        let cursor := Str.or (after payload) None in
        if Str.truthy_opt cursor && negb (limitReached limitPerFrame (List.length items))
        then fetchDirectChildren fuel frameId cursor items childFrameIds
        else ret (items, childFrameIds)
  end.

(** The loop over [queue] of [fetchFrameItems]. *)
Fixpoint traverse (fuel : nat) (queue : list string) (visitedFrames : JsSet.t)
  (items : list Item.t) : M (list Item.t) :=
  match fuel with
  | O => diverge
  | S fuel =>
      match queue with
      | [] => ret items
      | frameId :: queue =>
          if limitReached limitPerFrame (List.length items) then ret items
          else if negb (Str.truthy frameId) || JsSet.has visitedFrames frameId
          then traverse fuel queue visitedFrames items
          else
            let visitedFrames := JsSet.add visitedFrames frameId in
            found <- fetchDirectChildren fuel frameId None items [] ;;
            let '(items, newlyFound) := found in
            let queue :=
              queue ++ filter (fun childId => negb (JsSet.has visitedFrames childId)) newlyFound in
            traverse fuel queue visitedFrames items
      end
  end.

Definition fetchFrameItems (fuel : nat) (targetFrameId : string) : M (list Item.t) :=
  seeds <- seedFrameIds fuel targetFrameId ;;
  traverse fuel seeds [] [].

Definition pushConnector (connectors : list Connector.t) (c : Connector.t) : list Connector.t :=
  if limitReached maxConnectors (List.length connectors) then connectors
  else connectors ++ [c].

Fixpoint fetchConnectors (fuel : nat) (cursor : option string) (connectors : list Connector.t)
  : M (list Connector.t) :=
  match fuel with
  | O => diverge
  | S fuel =>
      if limitReached maxConnectors (List.length connectors) then ret connectors
      else
        let params := [("limit", "50")] ++ cursorParam cursor in
        payload <- request (fun n => getConnectors api n boardId params) ;;
        let connectors := fold_left pushConnector (data payload) connectors in
        let cursor := Str.or (after payload) None in
        if Str.truthy_opt cursor && negb (limitReached maxConnectors (List.length connectors))
        then fetchConnectors fuel cursor connectors
        else ret connectors
  end.

(** The title of the frame for the root label; a failed request gives none. *)
Definition fetchFrameTitle (frame_id : string) : M (option string) :=
  try_catch
    (frameResp <- request (fun n => getItem api n boardId frame_id) ;;
     let data :=
       match frameResp with
       | Some frameItem => or_else (Item.data frameItem) Data.empty
       | None => Data.empty
       end in
     let titleHtml := Data.title data in
     if Str.truthy_opt titleHtml then ret (Some (plainSnippet titleHtml 80)) else ret None)
    (fun _ => ret None).

End Fetch.

(** The arguments of [frame_to_mermaid]. *)
Record Args : Set :=
  { board_id : option string;
    frame_id : string;
    direction : option string;
    limitPerFrame : option nat;
    maxConnectors : option nat }.

(** The object [execute] hands to [formatApiResponse]. *)
Record Response : Set :=
  { boardId : string;
    frameId : string;
    responseDirection : string;
    mermaid : string;
    nodes : list Node.t;
    edges : list Edge.t }.

(** The three fetches of [execute], in its order: the frame title, the items
    of the frame, the connectors. *)
Definition fetchAll (api : Api) (fuel : nat) (boardId : string) (args : Args)
  : M (option string * list Item.t * list Connector.t) :=
  frameTitle <- fetchFrameTitle api boardId (frame_id args) ;;
  frameItems <- fetchFrameItems api boardId (limitPerFrame args) fuel (frame_id args) ;;
  allConnectors <- fetchConnectors api boardId (maxConnectors args) fuel None [] ;;
  ret (frameTitle, frameItems, allConnectors).

(** The recursion of [emitSubgraph] is given one unit of fuel more than there
    are nodes. *)
Definition renderFuel (frameItems : list Item.t) : nat :=
  S (List.length (Mermaid.nodeIds frameItems)).

(** [execute] of [frame_to_mermaid], started when [count] requests have been
    issued. *)
Definition execute (activeBoardId : option string) (api : Api) (fuel : nat) (args : Args)
  : M Response :=
  withBoard activeBoardId (board_id args)
    (fun boardId =>
       try_catch
         (fetched <- fetchAll api fuel boardId args ;;
          let '(frameTitle, frameItems, allConnectors) := fetched in
          let direction := or_else (direction args) "LR" in
          match Mermaid.mermaid frameItems allConnectors direction (frame_id args) frameTitle
                  (renderFuel frameItems) with
          | None => diverge
          | Some text =>
              ret {| boardId := boardId;
                     frameId := frame_id args;
                     responseDirection := direction;
                     mermaid := text;
                     nodes := Mermaid.nodes frameItems;
                     edges := Mermaid.edges frameItems allConnectors |}
          end)
         (fun e => throw (formatApiError e))).

End Net.

(** * Vocabulary of the statements and example inputs *)

From Stdlib Require Sorted Permutation.

(** ** The order of the doubles *)

Module NumSpec.
(** The place of a number in the order of the doubles: the class (negative
    infinity, negative, zero, positive, positive infinity), then the exponent,
    then the significand, the last two negated for negative numbers. *)
Definition rank (a : number) : Z * Z * Z :=
  match a with
  | S754_nan => (0, 0, 0)
  | S754_zero _ => (0, 0, 0)
  | S754_infinity true => (-2, 0, 0)
  | S754_infinity false => (2, 0, 0)
  | S754_finite true m e => (-1, - e, - Zpos m)
  | S754_finite false m e => (1, e, Zpos m)
  end%Z.

Definition rank_lt (p q : Z * Z * Z) : Prop :=
  let '(a1, a2, a3) := p in
  let '(b1, b2, b3) := q in
  (a1 < b1 \/ (a1 = b1 /\ (a2 < b2 \/ (a2 = b2 /\ a3 < b3))))%Z.

(** The number of binary digits of a significand. *)
Definition dig (m : positive) : Z := Zpos (digits2_pos m).

(** The exponent of the doubles of a given magnitude: 53 digits are kept,
    and no exponent is below -1074. *)
Definition fexp64 (z : Z) : Z := Z.max (z - 53) (-1074).

(** A significand and an exponent in canonical form. *)
Definition canonical (m e : Z) : Prop := (0 < m)%Z /\ fexp64 (Zdigits2 m + e) = e.
End NumSpec.

(** ** Orders and sorting *)

Module OrderSpec.
Section Order.
Context {A : Type}.

(** [le a b]: [a] does not have to come after [b]. *)
Variable le : A -> A -> bool.

(** Neither of the two has to come after the other. *)
Definition tied (a b : A) : bool := le a b && le b a.

(** [sorted] holds the items of [l] in the order of [le]; the items that are
    tied keep the order they have in [l]. *)
Definition arranged (l sorted : list A) : Prop :=
  Permutation.Permutation l sorted
  /\ Sorted.StronglySorted (fun a b => le a b = true) sorted
  /\ forall y, In y l -> filter (tied y) sorted = filter (tied y) l.

End Order.

(** In ascending order of the keys, equal keys in input order. *)
Definition ascending {A : Type} (key : A -> number) : list A -> list A -> Prop :=
  arranged (fun a b => Num.leb (key a) (key b)).

(** In descending order of the keys, equal keys in input order. *)
Definition descending {A : Type} (key : A -> number) : list A -> list A -> Prop :=
  arranged (fun a b => Num.geb (key a) (key b)).

(** No key is NaN. *)
Definition numeric {A : Type} (key : A -> number) (l : list A) : bool :=
  forallb (fun a => negb (Num.is_nan (key a))) l.

(** The key of an element is a double other than NaN. *)
Definition keyed {A : Type} (key : A -> number) (a : A) : Prop :=
  Num.is_nan (key a) = false /\ Num.valid (key a) = true.

End OrderSpec.

(** ** Bounding boxes *)

Module BBoxSpec.

(** The coordinates and sizes [computeItemBBox] resolves: [x] and [y] come
    from the position when they are numbers there and from the geometry
    otherwise; [width] and [height] come from the geometry. *)
Definition resolvedX (item : Item.t) : option number :=
  number_or (Position.x (or_else (Item.position item) Position.empty))
            (Geometry.x (or_else (Item.geometry item) Geometry.empty)).

Definition resolvedY (item : Item.t) : option number :=
  number_or (Position.y (or_else (Item.position item) Position.empty))
            (Geometry.y (or_else (Item.geometry item) Geometry.empty)).

Definition resolvedWidth (item : Item.t) : option number :=
  Geometry.width (or_else (Item.geometry item) Geometry.empty).

Definition resolvedHeight (item : Item.t) : option number :=
  Geometry.height (or_else (Item.geometry item) Geometry.empty).

Definition half (n : number) : number := Num.div n lit_2.

(** A field holds a finite number. *)
Definition finiteField (v : option number) : bool :=
  match v with Some n => Num.isFinite n | None => false end.

(** The reading of the bounding-box rule that takes [x] and [y] from the
    position only and asks for finite numbers: the box is undefined exactly
    when the position or the geometry is missing or one of the four values is
    not a finite number. *)
Definition undefinedWhenNotFinite (item : Item.t) : Prop :=
  Mermaid.computeItemBBox item = None <->
  (Item.position item = None \/ Item.geometry item = None
   \/ finiteField (Position.x (or_else (Item.position item) Position.empty)) = false
   \/ finiteField (Position.y (or_else (Item.position item) Position.empty)) = false
   \/ finiteField (resolvedWidth item) = false
   \/ finiteField (resolvedHeight item) = false).

(** An item without a position whose geometry carries [x] and [y]. *)
Definition geometryOnlyItem : Item.t :=
  {| Item.id := "1";
     Item.type := Some "shape";
     Item.position := None;
     Item.geometry :=
       Some {| Geometry.x := Some (Num.of_Z 0); Geometry.y := Some (Num.of_Z 0);
               Geometry.width := Some (Num.of_Z 10); Geometry.height := Some (Num.of_Z 10) |};
     Item.style := None;
     Item.data := None |}.

(** An item whose width is the double [Infinity] (what [1e999] parses to). *)
Definition infiniteWidthItem : Item.t :=
  {| Item.id := "1";
     Item.type := Some "shape";
     Item.position := Some {| Position.x := Some (Num.of_Z 0); Position.y := Some (Num.of_Z 0) |};
     Item.geometry :=
       Some {| Geometry.x := None; Geometry.y := None;
               Geometry.width := Some Num.POSITIVE_INFINITY;
               Geometry.height := Some (Num.of_Z 10) |};
     Item.style := None;
     Item.data := None |}.

End BBoxSpec.

(** ** Cardinalities *)

Module ErdSpec.



Definition entityItem (id title : string) : Item.t :=
  {| Item.id := id;
     Item.type := Some "shape";
     Item.position := None;
     Item.geometry := None;
     Item.style := None;
     Item.data := Some {| Data.title := Some title; Data.content := None |} |}.




End ErdSpec.

(** ** Primary-key candidates *)

Module PkSpec.

Fixpoint all_chars (P : ascii -> bool) (s : string) : bool :=
  match s with
  | EmptyString => true
  | String c r => P c && all_chars P r
  end.

Definition not_newline (c : ascii) : bool := negb (Ascii.eqb c "010"%char).

(** The candidates as the specification words them, given the lines of the
    text: the lines that contain [pk] or [id] as a substring, letter case
    ignored, and the first line when there is none. *)
Definition candidatesOf (lines : list string) : list string :=
  let hits := filter (fun line => Re.contains_ci "pk" line || Re.contains_ci "id" line) lines in
  match hits with
  | [] => firstn 1 lines
  | _ => hits
  end.

(** An entity whose title is [Order] and whose content is [amount], without
    markup. *)
Definition orderItem : Item.t :=
  {| Item.id := "8";
     Item.type := Some "shape";
     Item.position := None;
     Item.geometry := None;
     Item.style := None;
     Item.data := Some {| Data.title := Some "Order"; Data.content := Some "amount" |} |}.

(** An entity of three paragraphs, with [id] inside a word only. *)
Definition validItem : Item.t :=
  {| Item.id := "7";
     Item.type := Some "shape";
     Item.position := None;
     Item.geometry := None;
     Item.style := None;
     Item.data := Some {| Data.title := Some "<p>Order</p>";
                          Data.content := Some "<p>valid until</p><p>amount</p>" |} |}.

End PkSpec.

(** ** The loop that keeps the candidate of least area *)

Module LeastArea.
Section Fold.
Variable passes : string -> bool.
Variable area : string -> number.

(** One turn: a candidate that passes replaces the best one when its area is
    strictly smaller. *)
Definition step (best : option string * number) (p : string) : option string * number :=
  if passes p then if Num.ltb (area p) (snd best) then (Some p, area p) else best else best.

Definition run (l : list string) : option string * number :=
  fold_left step l (None, Num.POSITIVE_INFINITY).

End Fold.

(** [p] is the first element of least area in [l]: every element before it
    has a strictly larger area, and no element after it has a smaller one. *)
Definition firstLeast (area : string -> number) (l : list string) (p : string) : Prop :=
  exists l1 l2, l = l1 ++ p :: l2
    /\ (forall q, In q l1 -> Num.ltb (area p) (area q) = true)
    /\ (forall q, In q l2 -> Num.ltb (area q) (area p) = false).

End LeastArea.

(** ** Containment *)

Module ContainmentSpec.
Section Spec.

Variable frameItems : list Item.t.

Definition boxOf (id : string) : option BBox.t := JsMap.get (Mermaid.idToBBox frameItems) id.

Definition colorOf (id : string) : option string :=
  Mermaid.getItemColor (JsMap.get (Mermaid.idToItem frameItems) id).

(** The items of a list that have a bounding box, each with its box, in the
    order of the list. *)
Definition boxed (ids : list string) : list (string * BBox.t) :=
  flat_map (fun id => match boxOf id with
                      | Some box => [(id, box)]
                      | None => []
                      end) ids.

(** The colour of an item: its fill colour; when that is absent or empty,
    its card theme; when that is absent or empty too, its background colour;
    no colour when all three are absent or empty. *)
Definition colour (item : option Item.t) : option string :=
  match item with
  | Some {| Item.style := Some style |} =>
      if Str.truthy_opt (Style.fillColor style) then Style.fillColor style
      else if Str.truthy_opt (Style.cardTheme style) then Style.cardTheme style
      else if Str.truthy_opt (Style.backgroundColor style) then Style.backgroundColor style
      else None
  | _ => None
  end.

Definition colourOf (id : string) : option string :=
  colour (JsMap.get (Mermaid.idToItem frameItems) id).

(** The area of a box: its width times its height. *)
Definition area (box : BBox.t) : number := Num.mul (BBox.width box) (BBox.height box).

(** The widths and the heights of the boxes are doubles in canonical form
    (every value of a JavaScript number is). *)
Definition sizesAreDoubles : bool :=
  forallb (fun entry => Num.valid (BBox.width (snd entry)) && Num.valid (BBox.height (snd entry)))
          (Mermaid.idToBBox frameItems).

(** The area of the bounding box of an item that has one. *)
Definition areaOf (id : string) : number :=
  match boxOf id with
  | Some box => area box
  | None => Num.zero
  end.

(** Both colours are defined and they are equal. *)
Definition sameDefinedColor (a b : option string) : bool :=
  Str.truthy_opt a && Str.truthy_opt b && Str.eq_opt a b.

Definition isRegionColor (color : option string) : bool :=
  if Str.truthy_opt color
  then JsSet.has (Mermaid.regionColors frameItems) (Str.or_empty color) else false.

Definition minScale (regionColored : bool) : number :=
  if regionColored then lit_1_02 else lit_1_05.

Definition requiredFrac (regionColored : bool) : number :=
  if regionColored then lit_0_6 else lit_0_8.

(** The parent is wide and high enough for the child: neither dimension is
    below the child's times the scale factor. *)
Definition largeEnough (parentBox childBox : BBox.t) (regionColored : bool) : bool :=
  negb (Num.ltb (BBox.width parentBox) (Num.mul (BBox.width childBox) (minScale regionColored)))
  && negb (Num.ltb (BBox.height parentBox) (Num.mul (BBox.height childBox) (minScale regionColored))).

(** The width and the height of the intersection of two boxes; one of them
    is zero or negative when the boxes do not overlap. *)
Definition interWidth (parentBox childBox : BBox.t) : number :=
  Num.sub (Num.min (BBox.right parentBox) (BBox.right childBox))
          (Num.max (BBox.left parentBox) (BBox.left childBox)).

Definition interHeight (parentBox childBox : BBox.t) : number :=
  Num.sub (Num.min (BBox.bottom parentBox) (BBox.bottom childBox))
          (Num.max (BBox.top parentBox) (BBox.top childBox)).

(** The fraction of the child inside the parent: the product of the width
    and the height of the intersection over the area of the child. *)
Definition fracInside (parentBox childBox : BBox.t) : number :=
  Num.div (Num.mul (interWidth parentBox childBox) (interHeight parentBox childBox))
          (area childBox).

(** The parent is refused for the child: both have a colour and it is the
    same, or a dimension of the parent is below the child's times the scale
    factor, or the width or the height of the intersection is zero or
    negative, or the fraction inside is below the threshold.  A comparison
    with NaN refuses nothing. *)
Definition refused (childId : string) (childBox : BBox.t)
  (parentId : string) (parentBox : BBox.t) : bool :=
  let regionColored := isRegionColor (colourOf parentId) in
  sameDefinedColor (colourOf parentId) (colourOf childId)
  || Num.ltb (BBox.width parentBox) (Num.mul (BBox.width childBox) (minScale regionColored))
  || Num.ltb (BBox.height parentBox) (Num.mul (BBox.height childBox) (minScale regionColored))
  || Num.leb (interWidth parentBox childBox) Num.zero
  || Num.leb (interHeight parentBox childBox) Num.zero
  || Num.ltb (fracInside parentBox childBox) (requiredFrac regionColored).

(** A candidate parent of a child: another item with a box that is not
    refused and whose area is below infinity. *)
Definition isCandidate (childId : string) (childBox : BBox.t) (parentId : string) : bool :=
  negb (String.eqb parentId childId)
  && match boxOf parentId with
     | None => false
     | Some parentBox =>
         negb (refused childId childBox parentId parentBox)
         && Num.ltb (area parentBox) Num.POSITIVE_INFINITY
     end.

Definition candidates (childId : string) (childBox : BBox.t) : list string :=
  filter (isCandidate childId childBox) (Mermaid.nodeIds frameItems).

(** The fill colour of an item. *)
Definition fillOf (id : string) : option string :=
  match JsMap.get (Mermaid.idToItem frameItems) id with
  | Some {| Item.style := Some style |} => Style.fillColor style
  | _ => None
  end.

(** The area of the intersection of two boxes; an empty intersection has
    area zero. *)
Definition intersectionArea (parentBox childBox : BBox.t) : number :=
  if Num.leb (interWidth parentBox childBox) Num.zero
     || Num.leb (interHeight parentBox childBox) Num.zero
  then Num.zero
  else Num.mul (interWidth parentBox childBox) (interHeight parentBox childBox).

(** A candidate parent as the specification words it: another item with a
    box whose fill colour is not the defined fill colour of the child, whose
    width and height are at least the child's times the scale factor, and
    for which the intersection area over the area of the child is at least
    the threshold. *)
Definition isCandidateAsStated (childId : string) (childBox : BBox.t) (parentId : string) : bool :=
  negb (String.eqb parentId childId)
  && match boxOf parentId with
     | None => false
     | Some parentBox =>
         let regionColored := isRegionColor (fillOf parentId) in
         negb (sameDefinedColor (fillOf parentId) (fillOf childId))
         && Num.geb (BBox.width parentBox) (Num.mul (BBox.width childBox) (minScale regionColored))
         && Num.geb (BBox.height parentBox) (Num.mul (BBox.height childBox) (minScale regionColored))
         && Num.geb (Num.div (intersectionArea parentBox childBox) (area childBox))
                    (requiredFrac regionColored)
     end.

Definition candidatesAsStated (childId : string) (childBox : BBox.t) : list string :=
  filter (isCandidateAsStated childId childBox) (Mermaid.nodeIds frameItems).

(** [parentId] is the container assigned to [childId]. *)
Definition isParentOf (childId parentId : string) : Prop :=
  JsMap.get (Mermaid.parentOf frameItems) childId = Some (Some parentId).

(** The container the loop over children records for a child with a box. *)
Definition assigned (childId : string) (childBox : BBox.t) : option string :=
  let bestParentId := fst (Mermaid.bestParent frameItems childId childBox) in
  if Str.truthy_opt bestParentId then Some (Str.or_empty bestParentId) else None.

Definition widthOf (id : string) : number :=
  match boxOf id with
  | Some box => BBox.width box
  | None => Num.zero
  end.

(** Scaling the width by either factor gives a strictly larger double. *)
Definition widthGrows (box : BBox.t) : bool :=
  Num.ltb (BBox.width box) (Num.mul (BBox.width box) lit_1_02)
  && Num.ltb (BBox.width box) (Num.mul (BBox.width box) lit_1_05).

Definition widthsGrow : bool :=
  forallb (fun entry => widthGrows (snd entry)) (Mermaid.idToBBox frameItems).

(** The container of every child with a box is the first of least area among
    its candidates, and a child without candidate has no container. *)
Definition leastOf (candidatesOf : string -> BBox.t -> list string) : Prop :=
  forall childId childBox,
    boxOf childId = Some childBox ->
    (candidatesOf childId childBox = []
     /\ JsMap.get (Mermaid.parentOf frameItems) childId = Some None)
    \/ (exists parentId,
          LeastArea.firstLeast areaOf (candidatesOf childId childBox) parentId
          /\ JsMap.get (Mermaid.parentOf frameItems) childId = Some (Some parentId)).

(** The choice of the container as the specification words it. *)
Definition parentAsStated : Prop := leastOf candidatesAsStated.

(** A child has at most one container, and following containers from an
    item never comes back to it. *)
Definition acyclic : Prop :=
  (forall childId p1 p2, isParentOf childId p1 -> isParentOf childId p2 -> p1 = p2)
  /\ (forall id, ~ clos_trans string isParentOf id id).

End Spec.

Definition shape (id : string) (x y w h : Z) (color : string) : Item.t :=
  {| Item.id := id;
     Item.type := Some "shape";
     Item.position := Some {| Position.x := Some (Num.of_Z x); Position.y := Some (Num.of_Z y) |};
     Item.geometry :=
       Some {| Geometry.x := None; Geometry.y := None;
               Geometry.width := Some (Num.of_Z w); Geometry.height := Some (Num.of_Z h) |};
     Item.style :=
       Some {| Style.fillColor := Some color; Style.cardTheme := None;
               Style.backgroundColor := None |};
     Item.data := Some {| Data.title := Some id; Data.content := None |} |}.

(** Two shapes of different colours, the second inside the first. *)
Definition nested : list Item.t :=
  [shape "1" 0 0 200 100 "#ffffff"; shape "2" 0 0 100 50 "#000000"].

(** A shape at a place and of a size given as doubles. *)
Definition shapeAt (id : string) (x y w h : number) (color : string) : Item.t :=
  {| Item.id := id;
     Item.type := Some "shape";
     Item.position := Some {| Position.x := Some x; Position.y := Some y |};
     Item.geometry :=
       Some {| Geometry.x := None; Geometry.y := None;
               Geometry.width := Some w; Geometry.height := Some h |};
     Item.style :=
       Some {| Style.fillColor := Some color; Style.cardTheme := None;
               Style.backgroundColor := None |};
     Item.data := None |}.

(** A card with a theme and no fill colour. *)
Definition card (id : string) (x y w h : Z) (theme : string) : Item.t :=
  {| Item.id := id;
     Item.type := Some "card";
     Item.position := Some {| Position.x := Some (Num.of_Z x); Position.y := Some (Num.of_Z y) |};
     Item.geometry :=
       Some {| Geometry.x := None; Geometry.y := None;
               Geometry.width := Some (Num.of_Z w); Geometry.height := Some (Num.of_Z h) |};
     Item.style :=
       Some {| Style.fillColor := None; Style.cardTheme := Some theme;
               Style.backgroundColor := None |};
     Item.data := None |}.

(** A red shape and inside it a card of the red theme that has no fill
    colour. *)
Definition themed : list Item.t :=
  [shape "1" 0 0 200 100 "#ff0000"; card "2" 0 0 100 50 "#ff0000"].

(** Two shapes of different colours, both centred at [x = Infinity]: the
    width of their intersection is NaN. *)
Definition adrift : list Item.t :=
  [shapeAt "1" Num.POSITIVE_INFINITY (Num.of_Z 0) (Num.of_Z 200) (Num.of_Z 100) "#ffffff";
   shapeAt "2" Num.POSITIVE_INFINITY (Num.of_Z 0) (Num.of_Z 100) (Num.of_Z 50) "#000000"].

(** A shape of infinite width around a shape of another colour. *)
Definition unbounded : list Item.t :=
  [shapeAt "1" (Num.of_Z 0) (Num.of_Z 0) Num.POSITIVE_INFINITY (Num.of_Z 100) "#ffffff";
   shape "2" 0 0 100 50 "#000000"].

(** A shape whose id is the empty string around a shape of another colour. *)
Definition nameless : list Item.t :=
  [shape "" 0 0 200 100 "#ffffff"; shape "2" 0 0 100 50 "#000000"].

(** Two shapes of the same colour, the second inside the first. *)
Definition alike : list Item.t :=
  [shape "1" 0 0 200 100 "#ffffff"; shape "2" 0 0 100 50 "#ffffff"].

(** A shape of width and height 100 inside one of width and height 103 of
    another colour; both colours are region colours. *)
Definition snug : list Item.t :=
  [shape "1" 0 0 103 103 "#ffffff"; shape "2" 0 0 100 100 "#000000"].

(** The same two shapes beside a far larger one of a third colour, which
    leaves the first two colours no region colours. *)
Definition dwarfed : list Item.t :=
  snug ++ [shape "3" 5000 0 1000 1000 "#ff0000"].

(** The box of the inner shape of [snug]. *)
Definition snugBox : BBox.t :=
  {| BBox.left := Num.of_Z (-50); BBox.right := Num.of_Z 50;
     BBox.top := Num.of_Z (-50); BBox.bottom := Num.of_Z 50;
     BBox.width := Num.of_Z 100; BBox.height := Num.of_Z 100 |}.

(** A shape inside two others, the smaller of which comes last. *)
Definition russian : list Item.t :=
  [shape "1" 0 0 400 400 "#ffffff"; shape "2" 0 0 100 50 "#000000";
   shape "3" 0 0 200 100 "#ff0000"].

(** Two shapes of different colours at the same place, 3 units of the
    smallest positive double wide and high. *)
Definition tiny : number := S754_finite false 3 (-1074).

Definition tinyShape (id color : string) : Item.t :=
  {| Item.id := id;
     Item.type := Some "shape";
     Item.position := Some {| Position.x := Some (Num.of_Z 0); Position.y := Some (Num.of_Z 0) |};
     Item.geometry :=
       Some {| Geometry.x := None; Geometry.y := None;
               Geometry.width := Some tiny; Geometry.height := Some tiny |};
     Item.style :=
       Some {| Style.fillColor := Some color; Style.cardTheme := None;
               Style.backgroundColor := None |};
     Item.data := None |}.

Definition tinyPair : list Item.t := [tinyShape "1" "#ffffff"; tinyShape "2" "#000000"].

(** The bounding box of the second shape. *)
Definition innerBox : BBox.t :=
  {| BBox.left := Num.of_Z (-50); BBox.right := Num.of_Z 50;
     BBox.top := Num.of_Z (-25); BBox.bottom := Num.of_Z 25;
     BBox.width := Num.of_Z 100; BBox.height := Num.of_Z 50 |}.

End ContainmentSpec.

(** ** Regions *)

Module RegionSpec.
Section Spec.

Variable frameItems : list Item.t.

(** The nodes that have a bounding box, in the order of the nodes. *)
Definition boxedNodes : list (string * BBox.t) :=
  ContainmentSpec.boxed frameItems (Mermaid.nodeIds frameItems).

(** The areas of boxed items, in their order. *)
Definition areasIn (items : list (string * BBox.t)) : list number :=
  map (fun p => ContainmentSpec.area (snd p)) items.

(** The areas of the nodes, in the order of the nodes. *)
Definition areas : list number := areasIn boxedNodes.

(** [m] is the median area: of the [n] areas in ascending order, the one at
    position [floor (n / 2)], counting from 0, which is the upper of the two
    in the middle when [n] is even; zero when there is no area. *)
Definition isMedian (m : number) : Prop :=
  exists sorted,
    OrderSpec.ascending (fun a => a) areas sorted
    /\ m = nth (Nat.div (List.length sorted) 2) sorted Num.zero.

Definition hasColour (c : string) (p : string * BBox.t) : bool :=
  Str.eq_opt (ContainmentSpec.colourOf frameItems (fst p)) (Some c).

(** The cumulative area of a colour among boxed items: the areas of the
    items of that colour added up from zero, in their order. *)
Definition cumulativeIn (items : list (string * BBox.t)) (c : string) : number :=
  fold_left Num.add (areasIn (filter (hasColour c) items)) Num.zero.

(** The colours of boxed items. *)
Definition coloursIn (items : list (string * BBox.t)) : list string :=
  flat_map (fun p => match ContainmentSpec.colourOf frameItems (fst p) with
                     | Some c => [c]
                     | None => []
                     end) items.

(** The cumulative area of a colour, and the colours, among the nodes. *)
Definition cumulativeArea (c : string) : number := cumulativeIn boxedNodes c.

Definition colours : list string := coloursIn boxedNodes.

(** No colour has a larger cumulative area than [top]. *)
Definition largest (top : string) : bool :=
  forallb (fun c => Num.geb (cumulativeArea top) (cumulativeArea c)) colours.

(** A region colour: a colour of some node with a box whose cumulative area
    is at least 0.3 times the largest cumulative area of a colour. *)
Definition isRegionColour (c : string) : bool :=
  existsb (String.eqb c) colours
  && existsb (fun top => largest top
                         && Num.geb (cumulativeArea c) (Num.mul (cumulativeArea top) lit_0_3))
             colours.

Definition regionColoured (id : string) : bool :=
  match ContainmentSpec.colourOf frameItems id with
  | Some c => isRegionColour c
  | None => false
  end.

(** No area of a box and no cumulative area of a colour is NaN. *)
Definition areasAreNumbers : bool :=
  forallb (fun a => negb (Num.is_nan a)) areas
  && forallb (fun c => negb (Num.is_nan (cumulativeArea c))) colours.

(** The classification as the specification words it, for a median [m]. *)
Definition regionAsStated (m : number) (id : string) : bool :=
  match ContainmentSpec.boxOf frameItems id with
  | Some box =>
      Num.geb (ContainmentSpec.area box) (Num.mul m lit_3)
      || regionColoured id && Num.geb (ContainmentSpec.area box) (Num.mul m lit_0_5)
  | None => false
  end.

Definition regionsAsStated (id : string) : Prop :=
  exists m, isMedian m /\ JsSet.has (Mermaid.regionIds frameItems) id = regionAsStated m id.

(** The classification as the code has it, for a median [m]: both tests
    ask for a median that is not zero, the first for a positive one. *)
Definition region (m : number) (id : string) : bool :=
  match ContainmentSpec.boxOf frameItems id with
  | Some box =>
      Num.gtb m Num.zero && Num.geb (ContainmentSpec.area box) (Num.mul m lit_3)
      || regionColoured id && Num.truthy m
         && Num.geb (ContainmentSpec.area box) (Num.mul m lit_0_5)
  | None => false
  end.

(** What the loop that fills [areas] and [colorStats] has gathered after the
    nodes [done] (used in the proofs). *)
Definition gathered (done : list string) (st : list number * JsMap.t (nat * number)) : Prop :=
  fst st = areasIn (ContainmentSpec.boxed frameItems done)
  /\ NoDup (JsMap.keys (snd st))
  /\ (forall c stat, JsMap.get (snd st) c = Some stat ->
        snd stat = cumulativeIn (ContainmentSpec.boxed frameItems done) c
        /\ In c (coloursIn (ContainmentSpec.boxed frameItems done)))
  /\ (forall c, In c (coloursIn (ContainmentSpec.boxed frameItems done)) ->
        JsMap.get (snd st) c <> None).

(** The test of one turn of the loop over [nodeIds] (used in the proofs). *)
Definition isRegion (id : string) : bool :=
  match ContainmentSpec.boxOf frameItems id with
  | None => false
  | Some box =>
      Num.truthy (Mermaid.regionThreshold frameItems)
      && Num.geb (Mermaid.boxArea box) (Mermaid.regionThreshold frameItems)
      || ContainmentSpec.isRegionColor frameItems (ContainmentSpec.colorOf frameItems id)
         && Num.truthy (Mermaid.medianArea frameItems)
         && Num.geb (Mermaid.boxArea box) (Num.mul (Mermaid.medianArea frameItems) lit_0_5)
  end.

End Spec.

(** One shape of width and height zero. *)
Definition flat : list Item.t := [ContainmentSpec.shape "1" 0 0 0 0 "#ffffff"].

(** Four shapes without colour, of areas 100, 100, 400 and 1000: the median
    area is 400. *)
Definition quartet : list Item.t :=
  [ContainmentSpec.shape "1" 0 0 10 10 "";
   ContainmentSpec.shape "2" 1000 0 10 10 "";
   ContainmentSpec.shape "3" 2000 0 20 20 "";
   ContainmentSpec.shape "4" 3000 0 100 10 ""].

(** Five shapes of areas 1600, 500, 1600, 900 and 100: the median area is
    900; red has the cumulative area 3200, blue 1000 and green 500. *)
Definition painted : list Item.t :=
  [ContainmentSpec.shape "1" 0 0 40 40 "red";
   ContainmentSpec.shape "2" 1000 0 25 20 "green";
   ContainmentSpec.shape "3" 2000 0 40 40 "red";
   ContainmentSpec.shape "4" 3000 0 30 30 "blue";
   ContainmentSpec.shape "5" 4000 0 10 10 "blue"].

(** Three shapes, the first sixteen times as large as the others. *)
Definition band : list Item.t :=
  [ContainmentSpec.shape "1" 0 0 400 400 "#ffffff";
   ContainmentSpec.shape "2" 1000 0 100 100 "#000000";
   ContainmentSpec.shape "3" 2000 0 100 100 "#000000"].

End RegionSpec.

(** ** Board resolution *)

Module BoardSpec.

(** A [board_id] argument that gives no candidate: absent, not a string, or
    empty once trimmed. *)
Definition blank (board_id : option string) : bool :=
  match board_id with
  | Some s => negb (Str.truthy (Str.trim s))
  | None => true
  end.

(** The reading that takes every non-empty string as usable: a non-empty
    [board_id] is returned trimmed. *)
Definition usedWhenNonEmpty (activeBoardId : option string) (s : string) : Prop :=
  s <> "" -> Net.resolveBoardId activeBoardId (Some s) = inr (Str.trim s).

End BoardSpec.

(** ** The containment hierarchy *)

Module RenderSpec.
Section Spec.
Variable frameItems : list Item.t.

(** The chain of containers from an item up to one that has none. *)
Inductive upChain : string -> list string -> Prop :=
  | up_root : forall p,
      (forall q, ~ ContainmentSpec.isParentOf frameItems p q) -> upChain p [p]
  | up_step : forall p q l,
      ContainmentSpec.isParentOf frameItems p q -> upChain q l -> upChain p (p :: l).

End Spec.
End RenderSpec.

(** ** Fetching *)

Module FetchSpec.

(** The request for the root frame gives no usable frame: it throws, it has
    no data, or the frame has no resolvable box. *)
Definition rootUnavailable (api : Net.Api) (boardId targetFrameId : string) (count : nat) : Prop :=
  match Net.getItem api count boardId targetFrameId with
  | inl _ => True
  | inr None => True
  | inr (Some rootFrame) => Mermaid.computeFrameBBox rootFrame = None
  end.

Definition childrenParams (frameId : string) : Net.Params :=
  [("parent_item_id", frameId); ("limit", "50")].

(** What the API lists under a frame at request [count]. *)
Definition listedChildren (api : Net.Api) (boardId frameId : string) (count : nat) : list Item.t :=
  match Net.getItems api count boardId (childrenParams frameId) with
  | inr payload => Net.data payload
  | inl _ => []
  end.

(** The listing at request [count] is one last page. *)
Definition lastPage {A : Type} (answer : Net.Error + Net.Page A) (items : list A) : Prop :=
  exists cursor, answer = inr {| Net.data := items; Net.after := cursor |}
                 /\ Str.truthy_opt cursor = false.

Definition noFrame (items : list Item.t) : bool :=
  forallb (fun it => negb (Str.eq_opt (Item.type it) (Some "frame"))) items.

(** The first [limit] items, or all of them without a limit. *)
Definition cut {A : Type} (limit : option nat) (items : list A) : list A :=
  match limit with
  | Some (S l) => firstn (S l) items
  | _ => items
  end.

(** The reading that excludes every nested frame: when the root frame is
    unavailable the items are those listed under the requested frame. *)
Definition onlyListedChildren (api : Net.Api) (boardId : string) (fuel : nat)
  (targetFrameId : string) (count : nat) : Prop :=
  rootUnavailable api boardId targetFrameId count ->
  fst (Net.fetchFrameItems api boardId None fuel targetFrameId count)
  = Net.Return (listedChildren api boardId targetFrameId (S count)).

Definition plain (id type : string) : Item.t :=
  {| Item.id := id; Item.type := Some type;
     Item.position := None; Item.geometry := None; Item.style := None; Item.data := None |}.

Definition unavailable : Net.Error :=
  {| Net.message := "Request failed with status code 404";
     Net.response := Some ("404", "{}") |}.

(** An API whose item requests fail, and that lists a frame [G] and a shape
    under the frame [F], and a shape under [G]. *)
Definition nestedApi : Net.Api :=
  {| Net.getItem := fun _ _ _ => inl unavailable;
     Net.getItems := fun _ _ params =>
       if String.eqb (Str.or_empty (JsMap.get params "parent_item_id")) "F"
       then inr {| Net.data := [plain "G" "frame"; plain "A" "shape"]; Net.after := None |}
       else if String.eqb (Str.or_empty (JsMap.get params "parent_item_id")) "G"
       then inr {| Net.data := [plain "B" "shape"]; Net.after := None |}
       else inr {| Net.data := []; Net.after := None |};
     Net.getConnectors := fun _ _ _ => inr {| Net.data := []; Net.after := None |} |}.

(** The same API without the frame [G]. *)
Definition flatApi : Net.Api :=
  {| Net.getItem := fun _ _ _ => inl unavailable;
     Net.getItems := fun _ _ params =>
       if String.eqb (Str.or_empty (JsMap.get params "parent_item_id")) "F"
       then inr {| Net.data := [plain "A" "shape"; plain "C" "card"]; Net.after := None |}
       else inr {| Net.data := []; Net.after := None |};
     Net.getConnectors := fun _ _ _ => inr {| Net.data := []; Net.after := None |} |}.

Definition flatArgs : Net.Args :=
  {| Net.board_id := Some "b1"; Net.frame_id := "F"; Net.direction := None;
     Net.limitPerFrame := None; Net.maxConnectors := None |}.

(** What one invocation fetches: the title of the frame, its items and the
    connectors, when the board resolves and the three fetches return. *)
Definition fetched (activeBoardId : option string) (api : Net.Api) (fuel : nat)
  (args : Net.Args) (count : nat) : option (option string * list Item.t * list Connector.t) :=
  match Net.resolveBoardId activeBoardId (Net.board_id args) with
  | inr boardId =>
      match fst (Net.fetchAll api fuel boardId args count) with
      | Net.Return data => Some data
      | _ => None
      end
  | inl _ => None
  end.

Definition connectorParams : Net.Params := [("limit", "50")].

(** A listing served in [pages] pages from request [count] on, the first
    page asked for with [cursor]: every page but the last names the cursor of
    the next one, and [items] are the items of all the pages in their
    order. *)
Inductive listed {A : Type} (get : nat -> Net.Params -> Net.Error + Net.Page A)
  (base : Net.Params) : nat -> option string -> list A -> nat -> Prop :=
  | listed_last : forall count cursor items after,
      get count (base ++ Net.cursorParam cursor) = inr {| Net.data := items; Net.after := after |} ->
      Str.truthy_opt after = false ->
      listed get base count cursor items 1
  | listed_more : forall count cursor items after rest pages,
      get count (base ++ Net.cursorParam cursor) = inr {| Net.data := items; Net.after := after |} ->
      Str.truthy_opt after = true ->
      listed get base (S count) after rest pages ->
      listed get base count cursor (items ++ rest) (S pages).

(** The items the API lists under a frame, from request [count] on. *)
Definition itemsOf (api : Net.Api) (boardId frameId : string) (count : nat)
  (items : list Item.t) (pages : nat) : Prop :=
  listed (fun n params => Net.getItems api n boardId params) (childrenParams frameId)
         count None items pages.

(** The connectors the API lists, whenever they are asked for. *)
Definition connectorsOf (api : Net.Api) (boardId : string)
  (connectors : list Connector.t) (pages : nat) : Prop :=
  forall count,
    listed (fun n params => Net.getConnectors api n boardId params) connectorParams
           count None connectors pages.





(** A connector between two items. *)
Definition link (id startId endId : string) : Connector.t :=
  {| Connector.id := id;
     Connector.startItem := Some startId;
     Connector.endItem := Some endId;
     Connector.captions := [];
     Connector.style := None |}.

(** An API that lists the items of the frame [F] in two pages, and the
    connectors in two pages. *)
Definition pagedApi : Net.Api :=
  {| Net.getItem := fun _ _ _ => inl unavailable;
     Net.getItems := fun _ _ params =>
       if String.eqb (Str.or_empty (JsMap.get params "parent_item_id")) "F"
       then if String.eqb (Str.or_empty (JsMap.get params "cursor")) "c1"
            then inr {| Net.data := [plain "C" "card"]; Net.after := None |}
            else inr {| Net.data := [plain "A" "shape"]; Net.after := Some "c1" |}
       else inr {| Net.data := []; Net.after := None |};
     Net.getConnectors := fun _ _ params =>
       if String.eqb (Str.or_empty (JsMap.get params "cursor")) "k1"
       then inr {| Net.data := [link "2" "C" "A"]; Net.after := None |}
       else inr {| Net.data := [link "1" "A" "C"]; Net.after := Some "k1" |} |}.

End FetchSpec.

(** ** Grouping by a key *)

Module GroupSpec.
Section Grouping.
Variable key : string -> string.

(** One turn of a loop that files an id under its key. *)
Definition file (groups : JsMap.t (list string)) (id : string) : JsMap.t (list string) :=
  let k := key id in
  let arr := or_else (JsMap.get groups k) [] in
  JsMap.set groups k (arr ++ [id]).

Definition sameKey (a b : string) : bool := String.eqb (key a) (key b).

(** Every group of [groups] extended by the ids of [l] with its key. *)
Definition extend (groups : JsMap.t (list string)) (l : list string) : JsMap.t (list string) :=
  map (fun e => (fst e, snd e ++ filter (fun y => String.eqb (key y) (fst e)) l)) groups.

(** The ids of [l] whose key is not in [groups]. *)
Definition fresh (groups : JsMap.t (list string)) (l : list string) : list string :=
  filter (fun y => negb (JsMap.has groups (key y))) l.

Definition groupOf (l : list string) (first : string) : string * list string :=
  (key first, filter (fun y => String.eqb (key y) (key first)) l).

End Grouping.
End GroupSpec.

(** ** Inferred dependency edges *)

Module StackSpec.

(** The consecutive pairs of a list. *)
Fixpoint adjacent {A : Type} (l : list A) : list (A * A) :=
  match l with
  | a :: ((b :: _) as rest) => (a, b) :: adjacent rest
  | _ => []
  end.

(** The first element of every class of [same], in the order of the list. *)
Fixpoint representatives (same : string -> string -> bool) (l : list string) : list string :=
  match l with
  | [] => []
  | x :: rest => x :: filter (fun y => negb (same x y)) (representatives same rest)
  end.

Definition memPair (p : string * string) (l : list (string * string)) : bool :=
  existsb (fun q => String.eqb (fst p) (fst q) && String.eqb (snd p) (snd q)) l.

(** Distinct ordered pairs of ids have distinct keys in [existingPairs]. *)
Definition pairKeysDistinct (ids : list string) : bool :=
  forallb (fun a => forallb (fun b => forallb (fun c => forallb (fun d =>
    implb (String.eqb (Mermaid.pairKey a b) (Mermaid.pairKey c d))
          (String.eqb a c && String.eqb b d)) ids) ids) ids) ids.

Section Spec.

Variable frameItems : list Item.t.
Variable allConnectors : list Connector.t.

(** The assigned container of an item; [None] when it has none. *)
Definition parentKey (id : string) : option string :=
  match JsMap.get (Mermaid.parentOf frameItems) id with
  | Some (Some p) => Some p
  | _ => None
  end.

Definition sameParent (a b : string) : bool := Str.eq_opt (parentKey a) (parentKey b).

(** The groups: the items that share a container, and the items without one;
    the groups come in the order of their first items. *)
Definition groupsByParent : list (list string) :=
  map (fun first => filter (sameParent first) (Mermaid.nodeIds frameItems))
      (representatives sameParent (Mermaid.nodeIds frameItems)).

(** The vertical centre of a box. *)
Definition centre (box : BBox.t) : number :=
  Num.div (Num.add (BBox.top box) (BBox.bottom box)) lit_2.

Definition centreOf (p : string * BBox.t) : number := centre (snd p).

(** [arranged] holds, group by group, the items with a box sorted by
    vertical centre: in ascending order, items of equal centre in the order
    of the group. *)
Definition arrangement (arranged : list (list (string * BBox.t))) : Prop :=
  Forall2 (fun ids sorted => OrderSpec.ascending centreOf (ContainmentSpec.boxed frameItems ids) sorted)
          groupsByParent arranged.

(** No vertical centre of a box is NaN. *)
Definition centresAreNumbers : bool :=
  forallb (fun entry => negb (Num.is_nan (centre (snd entry)))) (Mermaid.idToBBox frameItems).

(** By how much the horizontal extents overlap, and how far the vertical
    centres are apart. *)
Definition horizontalOverlap (boxA boxB : BBox.t) : number :=
  Num.sub (Num.min (BBox.right boxA) (BBox.right boxB))
          (Num.max (BBox.left boxA) (BBox.left boxB)).

Definition verticalGap (boxA boxB : BBox.t) : number :=
  Num.abs (Num.sub (centre boxB) (centre boxA)).

Definition smallerHeight (boxA boxB : BBox.t) : number :=
  Num.min (BBox.height boxA) (BBox.height boxB).

(** The rule as the specification words it: the overlap is strictly
    positive and the gap is at most 0.75 times the smaller height. *)
Definition stackedAsStated (boxA boxB : BBox.t) : bool :=
  Num.gtb (horizontalOverlap boxA boxB) Num.zero
  && Num.leb (verticalGap boxA boxB) (Num.mul (smallerHeight boxA boxB) lit_0_75).

(** The rule as the code has it: the pair is skipped when the overlap is
    zero or negative and when the gap exceeds 0.75 times the smaller height;
    a comparison with NaN skips nothing. *)
Definition skipped (boxA boxB : BBox.t) : bool :=
  Num.leb (horizontalOverlap boxA boxB) Num.zero
  || Num.gtb (verticalGap boxA boxB) (Num.mul (smallerHeight boxA boxB) lit_0_75).

(** The rule of the code, positively. *)
Definition stacked (boxA boxB : BBox.t) : bool := negb (skipped boxA boxB).

(** The inferred edges, as ordered pairs from the first to the second item
    of a pair: a pair gives an edge when [stacked] holds of its boxes and the
    ordered pair has no edge yet, explicit or inferred before. *)
Fixpoint inferred (stacked : BBox.t -> BBox.t -> bool) (existing : list (string * string))
  (pairs : list ((string * BBox.t) * (string * BBox.t))) : list (string * string) :=
  match pairs with
  | [] => []
  | (a, b) :: rest =>
      if stacked (snd a) (snd b) && negb (memPair (fst a, fst b) existing)
      then (fst a, fst b) :: inferred stacked ((fst a, fst b) :: existing) rest
      else inferred stacked existing rest
  end.

Definition pairOf (e : Edge.t) : string * string := (Edge.fromId e, Edge.toId e).

Definition explicitPairs : list (string * string) :=
  map pairOf (fst (Mermaid.explicitEdges frameItems allConnectors)).

Definition inferredEdge (p : string * string) : Edge.t :=
  {| Edge.fromId := fst p;
     Edge.toId := snd p;
     Edge.fromAlias := Str.or_empty (JsMap.get (Mermaid.idToAlias frameItems) (fst p));
     Edge.toAlias := Str.or_empty (JsMap.get (Mermaid.idToAlias frameItems) (snd p));
     Edge.connectorId := "inferred-dependency";
     Edge.label := None |}.

(** The edges of the diagram when [stacked] is the rule for a pair and
    [arranged] holds the sorted groups: the explicit edges, then the inferred
    ones from the adjacent pairs of each group. *)
Definition edgesBy (stacked : BBox.t -> BBox.t -> bool)
  (arranged : list (list (string * BBox.t))) : list Edge.t :=
  fst (Mermaid.explicitEdges frameItems allConnectors)
  ++ map inferredEdge (inferred stacked explicitPairs (flat_map adjacent arranged)).

(** The inferred edges as the specification words them. *)
Definition edgesAsStated : Prop :=
  exists arranged,
    arrangement arranged
    /\ Mermaid.edges frameItems allConnectors = edgesBy stackedAsStated arranged.

(** The pairs the loops over the groups visit: the adjacent pairs of every
    group as the code sorts it. *)
Definition visitedPairs : list ((string * BBox.t) * (string * BBox.t)) :=
  flat_map (fun ids => adjacent (Mermaid.sortedGroup frameItems ids)) groupsByParent.

(** One turn of the loop over the adjacent pairs of a sorted group. *)
Definition pairStep (st : list Edge.t * JsSet.t) (p : (string * BBox.t) * (string * BBox.t))
  : list Edge.t * JsSet.t :=
  Mermaid.stackStep frameItems st (fst p) (snd p).

(** The set of keys and the list of pairs hold the same pairs of node ids. *)
Definition agree (existingPairs : JsSet.t) (existing : list (string * string)) : Prop :=
  forall a b, In a (Mermaid.nodeIds frameItems) -> In b (Mermaid.nodeIds frameItems) ->
    JsSet.has existingPairs (Mermaid.pairKey a b) = memPair (a, b) existing.

(** The ids are well formed for the grouping and the pair keys: no item is
    called [__root__], and distinct ordered pairs have distinct keys. *)
Definition wellFormedIds : bool :=
  negb (JsSet.has (Mermaid.nodeIds frameItems) "__root__")
  && pairKeysDistinct (Mermaid.nodeIds frameItems).

End Spec.

(** Three shapes over one another; the third is far below. *)
Definition stack : list Item.t :=
  [ContainmentSpec.shape "a" 0 0 100 80 "#ffffff";
   ContainmentSpec.shape "b" 0 50 100 80 "#000000";
   ContainmentSpec.shape "c" 0 200 100 80 "#000000"].

(** Three shapes of height 80 with centres 50 apart, the lowest one given
    before the middle one. *)
Definition shuffled : list Item.t :=
  [ContainmentSpec.shape "a" 0 0 100 80 "#ffffff";
   ContainmentSpec.shape "c" 0 100 100 80 "#000000";
   ContainmentSpec.shape "b" 0 50 100 80 "#000000"].

(** Three shapes of height 80 with centres 100 apart. *)
Definition apart : list Item.t :=
  [ContainmentSpec.shape "a" 0 0 100 80 "#ffffff";
   ContainmentSpec.shape "b" 0 100 100 80 "#000000";
   ContainmentSpec.shape "c" 0 200 100 80 "#000000"].

(** A shape of 100 by 80 whose centre is at [x = Infinity] (what [1e999]
    parses to) and [y]. *)
Definition far (id : string) (y : Z) (color : string) : Item.t :=
  {| Item.id := id;
     Item.type := Some "shape";
     Item.position :=
       Some {| Position.x := Some Num.POSITIVE_INFINITY; Position.y := Some (Num.of_Z y) |};
     Item.geometry :=
       Some {| Geometry.x := None; Geometry.y := None;
               Geometry.width := Some (Num.of_Z 100); Geometry.height := Some (Num.of_Z 80) |};
     Item.style :=
       Some {| Style.fillColor := Some color; Style.cardTheme := None;
               Style.backgroundColor := None |};
     Item.data := None |}.

(** Two such shapes, the second 50 below the first: the extents of both are
    from Infinity to Infinity, and their overlap is NaN. *)
Definition farStack : list Item.t := [far "a" 0 "#ffffff"; far "b" 50 "#000000"].

(** A large shape with the id [__root__], a shape inside it and a shape
    that reaches out of it just below. *)
Definition rooted : list Item.t :=
  [ContainmentSpec.shape "__root__" 0 0 400 400 "#ffffff";
   ContainmentSpec.shape "x" 0 150 100 80 "#000000";
   ContainmentSpec.shape "y" 0 205 100 80 "#000000"].

(** Two shapes close over one another, called [a] and [a->b], and two
    shapes far from them and from each other, called [a->a] and [b]: the
    ordered pairs [(a, a->b)] and [(a->a, b)] have the same key. *)
Definition collide : list Item.t :=
  [ContainmentSpec.shape "a" 0 0 100 80 "#ffffff";
   ContainmentSpec.shape "a->b" 0 50 100 80 "#000000";
   ContainmentSpec.shape "a->a" 1000 (-500) 100 80 "#000000";
   ContainmentSpec.shape "b" 2000 500 100 80 "#000000"].

Definition connector (id startId endId : string) : Connector.t :=
  {| Connector.id := id;
     Connector.startItem := Some startId;
     Connector.endItem := Some endId;
     Connector.style := None;
     Connector.captions := [] |}.

End StackSpec.

(** * More of the server: statements about the helpers and the other tools *)

From Stdlib Require DecimalNat DecimalFacts Finite.

(** ** Plain text, quoting and names *)

Module TextSpec.

Definition headSpace (s : string) : bool :=
  match s with String c _ => Str.is_space c | EmptyString => false end.

(** Every white-space character of [s] is a blank, and no white space comes
    right after it. *)
Fixpoint looseBlanks (s : string) : bool :=
  match s with
  | EmptyString => true
  | String c r =>
      (if Str.is_space c then Ascii.eqb c " "%char && negb (headSpace r) else true)
      && looseBlanks r
  end.

(** Every white-space character of [s] is a blank, and the character after
    it is not white space. *)
Fixpoint singleBlanks (s : string) : bool :=
  match s with
  | EmptyString => true
  | String c r =>
      (if Str.is_space c
       then Ascii.eqb c " "%char
            && match r with String d _ => negb (Str.is_space d) | EmptyString => false end
       else true)
      && singleBlanks r
  end.

(** White space is normalised: single blanks between words only. *)
Definition normalised (s : string) : bool := negb (headSpace s) && singleBlanks s.

(** No character of [s] can start an entity or a tag. *)
Definition markupFree (s : string) : bool :=
  PkSpec.all_chars (fun c => negb (Ascii.eqb c "&"%char) && negb (Ascii.eqb c "<"%char)) s.

(** Every quote of [s] comes right after a backslash; [prev] tells whether
    the character before the head is a backslash. *)
Fixpoint quotesEscaped (prev : bool) (s : string) : bool :=
  match s with
  | EmptyString => true
  | String c r =>
      (if Ascii.eqb c "034"%char then prev else true)
      && quotesEscaped (Ascii.eqb c "092"%char) r
  end.

Definition labelled (fromAlias toAlias label : string) : Edge.t :=
  {| Edge.fromId := "a"; Edge.toId := "b";
     Edge.fromAlias := fromAlias; Edge.toAlias := toAlias;
     Edge.connectorId := "k"; Edge.label := Some label |}.

End TextSpec.

Module NameSpec.

Definition is_letter (c : ascii) : bool := Erd.is_alnum c && negb (Erd.is_digit c).

Definition is_name_char (c : ascii) : bool := Erd.is_alnum c || Ascii.eqb c "_"%char.

Fixpoint last (s : string) : option ascii :=
  match s with
  | EmptyString => None
  | String c EmptyString => Some c
  | String _ r => last r
  end.

(** A name that Mermaid accepts for an entity: a letter, then letters, digits
    and underscores, the last of which is no underscore. *)
Definition identifier (s : string) : bool :=
  match s with
  | String c _ =>
      is_letter c && PkSpec.all_chars is_name_char s
      && match last s with Some d => negb (Ascii.eqb d "_"%char) | None => false end
  | EmptyString => false
  end.

(** What makes a non-empty text a name, but for the digit it may start
    with: name characters only, no underscore at either end. *)
Definition nameLike (s : string) : Prop :=
  PkSpec.all_chars is_name_char s = true
  /\ (forall c r, s = String c r -> Ascii.eqb c "_"%char = false)
  /\ (forall d, last s = Some d -> Ascii.eqb d "_"%char = false).

(** The aliases [n1], [n2], ... of [count] nodes. *)
Definition aliases (count : nat) : list string :=
  map (fun k => ("n" ++ string_of_nat k)%string) (seq 1 count).

End NameSpec.

(** ** Edges and the nesting of subgraphs *)

Module EdgeSpec.
Section Spec.

Variable frameItems : list Item.t.

(** Some node of the diagram has this id and this alias. *)
Definition declared (id alias : string) : Prop :=
  exists n, In n (Mermaid.nodes frameItems) /\ Node.id n = id /\ Node.alias n = alias.

(** What the loops over connectors and stacked pairs keep true of an edge:
    both aliases are the ones [idToAlias] holds for the ids, none is empty,
    and a label is not empty and at most 40 characters long. *)
Definition sound (e : Edge.t) : Prop :=
  JsMap.get (Mermaid.idToAlias frameItems) (Edge.fromId e) = Some (Edge.fromAlias e)
  /\ JsMap.get (Mermaid.idToAlias frameItems) (Edge.toId e) = Some (Edge.toAlias e)
  /\ Str.truthy (Edge.fromAlias e) = true
  /\ Str.truthy (Edge.toAlias e) = true
  /\ match Edge.label e with
     | Some label => Str.truthy label = true /\ (String.length label <= 40)%nat
     | None => True
     end.

End Spec.

(** Both ends of the connector are given and are nodes of the diagram. *)
Definition joinsNodes (frameItems : list Item.t) (c : Connector.t) : bool :=
  Str.truthy_opt (Connector.startItem c)
  && Str.truthy_opt (Connector.endItem c)
  && existsb (String.eqb (Str.or_empty (Connector.startItem c))) (Mermaid.nodeIds frameItems)
  && existsb (String.eqb (Str.or_empty (Connector.endItem c))) (Mermaid.nodeIds frameItems).

(** A connector from [a] to [b] with a caption, and the edge it gives
    between the first two shapes of [StackSpec.stack]. *)
Definition captioned : Connector.t :=
  {| Connector.id := "k";
     Connector.startItem := Some "a";
     Connector.endItem := Some "b";
     Connector.style := None;
     Connector.captions := [ {| Caption.content := Some "<b>uses</b>" |} ] |}.

Definition usesEdge : Edge.t :=
  {| Edge.fromId := "a"; Edge.toId := "b";
     Edge.fromAlias := "n1"; Edge.toAlias := "n2";
     Edge.connectorId := "k"; Edge.label := Some "uses" |}.

End EdgeSpec.

Module ContainerSpec.
Section Spec.

Variable frameItems : list Item.t.

(** An extent is positive, or it is NaN and no comparison tells. *)
Definition positiveOrNaN (a : number) : bool := Num.gtb a Num.zero || Num.is_nan a.

(** The intersection of the boxes is not found empty: its width is positive
    or NaN, and so is its height. *)
Definition overlaps (parentBox childBox : BBox.t) : bool :=
  positiveOrNaN (ContainmentSpec.interWidth parentBox childBox)
  && positiveOrNaN (ContainmentSpec.interHeight parentBox childBox).

(** The tests a container has passed for a child. *)
Definition passes (childId : string) (childBox : BBox.t) (parentId : string) : Prop :=
  parentId <> childId
  /\ exists parentBox,
       ContainmentSpec.boxOf frameItems parentId = Some parentBox
       /\ ContainmentSpec.sameDefinedColor (ContainmentSpec.colourOf frameItems parentId)
            (ContainmentSpec.colourOf frameItems childId) = false
       /\ ContainmentSpec.largeEnough parentBox childBox
            (ContainmentSpec.isRegionColor frameItems (ContainmentSpec.colourOf frameItems parentId))
          = true
       /\ overlaps parentBox childBox = true.

End Spec.
End ContainerSpec.

Module BracketSpec.

(** A line that opens a subgraph, and a line that closes one. *)
Definition opens (line : string) : bool := Re.starts_with "subgraph " (Str.trimStart line).

Definition closes (line : string) : bool := String.eqb (Str.trimStart line) "end".

(** The nesting depth after [lines], starting at depth [d]; [None] when an
    [end] comes with no subgraph open. *)
Fixpoint depth (d : nat) (lines : list string) : option nat :=
  match lines with
  | [] => Some d
  | line :: rest =>
      if opens line then depth (S d) rest
      else if closes line then match d with S d' => depth d' rest | O => None end
      else depth d rest
  end.

(** A string of blanks. *)
Definition blank (indent : string) : bool :=
  PkSpec.all_chars (fun c => Ascii.eqb c " "%char) indent.

(** A run of lines that leaves every depth as it found it. *)
Definition balanced (block : list string) : Prop := forall d, depth d block = Some d.

End BracketSpec.

(** ** Pages of a listing *)

Module PageSpec.

(** From the request number [count] on, the connectors of the board come in
    the pages [pages]: each request carries the cursor of the page before it,
    every page but the last names a next one. *)
Fixpoint served (api : Net.Api) (boardId : string) (count : nat) (cursor : option string)
  (pages : list (Net.Page Connector.t)) : Prop :=
  match pages with
  | [] => False
  | page :: rest =>
      Net.getConnectors api count boardId ([("limit", "50")] ++ Net.cursorParam cursor) = inr page
      /\ match rest with
         | [] => Str.truthy_opt (Net.after page) = false
         | _ :: _ =>
             Str.truthy_opt (Net.after page) = true
             /\ served api boardId (S count) (Net.after page) rest
         end
  end.

(** Two pages of connectors, the second one reached by the cursor [p2]. *)
Definition twoPages : Net.Api :=
  {| Net.getItem := fun _ _ _ => inr None;
     Net.getItems := fun _ _ _ => inr {| Net.data := []; Net.after := None |};
     Net.getConnectors := fun _ _ params =>
       match JsMap.get params "cursor" with
       | None =>
           inr {| Net.data := [StackSpec.connector "k1" "a" "b"]; Net.after := Some "p2" |}
       | Some _ =>
           inr {| Net.data := [StackSpec.connector "k2" "b" "c"]; Net.after := None |}
       end |}.

Definition firstPage : Net.Page Connector.t :=
  {| Net.data := [StackSpec.connector "k1" "a" "b"]; Net.after := Some "p2" |}.

Definition secondPage : Net.Page Connector.t :=
  {| Net.data := [StackSpec.connector "k2" "b" "c"]; Net.after := None |}.

End PageSpec.

(** ** Seed frames *)

Module SeedSpec.

(** One turn of the loop of [fetchFrameItems] over the frames of the board. *)
Definition seedStep (rootBBox : Rect.t) (seedFrameIds : JsSet.t) (fr : Item.t) : JsSet.t :=
  match Mermaid.computeFrameBBox fr with
  | None => seedFrameIds
  | Some bbox =>
      if Net.insideRoot bbox rootBBox
      then JsSet.add seedFrameIds (Item.id fr)
      else seedFrameIds
  end.

(** The frame is on a page of the listing of the frames of the board. *)
Definition listed (api : Net.Api) (boardId : string) (frame : Item.t) : Prop :=
  exists n cursor page,
    Net.getItems api n boardId ([("limit", "50"); ("type", "frame")] ++ Net.cursorParam cursor)
    = inr page
    /\ In frame (Net.data page).

(** The seed [id] was found by geometry: the target frame has a box, and a
    listed frame with this id has a box within it. *)
Definition discovered (api : Net.Api) (boardId targetFrameId : string) (count : nat)
  (id : string) : Prop :=
  exists root rootBBox frame bbox,
    Net.getItem api count boardId targetFrameId = inr (Some root)
    /\ Mermaid.computeFrameBBox root = Some rootBBox
    /\ listed api boardId frame
    /\ Item.id frame = id
    /\ Mermaid.computeFrameBBox frame = Some bbox
    /\ Net.insideRoot bbox rootBBox = true.

End SeedSpec.

(** ** Failures *)

Module ErrorSpec.

(** What [frame_to_mermaid] may throw: the error of [resolveBoardId], thrown
    before any request, or an error that [formatApiError] built. *)
Definition formatted (e : Net.Error) : Prop :=
  Net.response e = None /\ Re.starts_with "Miro API " (Net.message e) = true.

Definition tooManyRequests : Net.Error :=
  {| Net.message := "Request failed with status code 429";
     Net.response := Some ("429", "{}") |}.

(** The frame itself cannot be read and the listing of items is refused. *)
Definition refusing : Net.Api :=
  {| Net.getItem := fun _ _ _ => inl FetchSpec.unavailable;
     Net.getItems := fun _ _ _ => inl tooManyRequests;
     Net.getConnectors := fun _ _ _ => inr {| Net.data := []; Net.after := None |} |}.

End ErrorSpec.

(** ** Entities and relationships *)

Module EntitySpec.
Section Spec.

Variable frameItems : list Item.t.
Variable allConnectors : list Connector.t.

(** An item of the frame that can be an entity: it is in [idToItem] under
    this id and is no sticky note. *)
Definition entityItem (id : string) : Prop :=
  exists it, JsMap.get (Erd.idToItem frameItems) id = Some it
             /\ Erd.isSticky (Some it) = false.

(** Some entity of the diagram has this id and this name. *)
Definition named (id name : string) : Prop :=
  exists e, In e (Erd.entities frameItems allConnectors)
            /\ Entity.id e = id /\ Entity.entityName e = name.

(** [id] is an end of the connector that is not empty. *)
Definition endOf (id : string) (c : Connector.t) : Prop :=
  Str.truthy id = true
  /\ (id = Str.or_empty (Connector.startItem c) \/ id = Str.or_empty (Connector.endItem c)).

(** The ids that the loop over [entityIds] keeps. *)
Definition kept (id : string) : bool :=
  match JsMap.get (Erd.idToItem frameItems) id with
  | Some it => negb (Str.eq_opt (Item.type it) (Some "sticky_note"))
  | None => false
  end.

(** The relationship touches the entity. *)
Definition touches (r : Relationship.t) (e : Entity.t) : Prop :=
  Relationship.fromId r = Entity.id e \/ Relationship.toId r = Entity.id e.

End Spec.

(** Two tables joined by a connector, a table that no connector touches and
    a sticky note that a connector joins to a table. *)
Definition tables : list Item.t :=
  [ErdSpec.entityItem "1" "Order"; ErdSpec.entityItem "2" "Customer";
   ErdSpec.entityItem "3" "Invoice"; FetchSpec.plain "4" "sticky_note"].

Definition joins : list Connector.t :=
  [StackSpec.connector "k1" "1" "2"; StackSpec.connector "k2" "4" "1"].

Definition orderOfCustomer : Relationship.t :=
  {| Relationship.fromId := "1"; Relationship.toId := "2";
     Relationship.fromEntity := "Order"; Relationship.toEntity := "Customer";
     Relationship.leftCardinality := "||"; Relationship.rightCardinality := "||";
     Relationship.label := None; Relationship.connectorId := "k1" |}.

Definition order : Entity.t :=
  {| Entity.id := "1"; Entity.entityName := "Order"; Entity.label := "Order";
     Entity.pkCandidates := ["Order"] |}.

End EntitySpec.

(** * [frame_to_erd]: fetching and the entry point *)

Module ErdNet.

Local Notation "x <- m ;; k" := (Net.bind m (fun x => k))
  (at level 61, m at next level, right associativity).

(** The test of [fetchItemsForFrame] on the centre of an item. *)
Definition centreInside (bbox frameBBox : Rect.t) : bool :=
  let centerX := Num.div (Num.add (Rect.left bbox) (Rect.right bbox)) lit_2 in
  let centerY := Num.div (Num.add (Rect.top bbox) (Rect.bottom bbox)) lit_2 in
  Num.geb centerX (Rect.left frameBBox)
  && Num.leb centerX (Rect.right frameBBox)
  && Num.geb centerY (Rect.top frameBBox)
  && Num.leb centerY (Rect.bottom frameBBox).

Section Fetch.

Variable api : Net.Api.
Variable boardId : string.
Variable limitPerFrame : option nat.

(** One turn of the loop over a batch; after the limit is reached nothing
    more is pushed. *)
Definition pushInside (frameBBox : Rect.t) (items : list Item.t) (it : Item.t) : list Item.t :=
  if Net.limitReached limitPerFrame (List.length items) then items
  else
    match Erd.computeItemBBox (Some it) with
    | None => items
    | Some bbox => if centreInside bbox frameBBox then items ++ [it] else items
    end.

(** The loop of [fetchItemsForFrame] over the pages of all the items of the
    board. *)
Fixpoint listInside (fuel : nat) (frameBBox : Rect.t) (cursor : option string)
  (items : list Item.t) : Net.M (list Item.t) :=
  match fuel with
  | O => Net.diverge
  | S fuel =>
      if Net.limitReached limitPerFrame (List.length items) then Net.ret items
      else
        let params := [("limit", "50")] ++ Net.cursorParam cursor in
        payload <- Net.request (fun n => Net.getItems api n boardId params) ;;
        let items := fold_left (pushInside frameBBox) (Net.data payload) items in
        let cursor := Str.or (Net.after payload) None in
        if Str.truthy_opt cursor && negb (Net.limitReached limitPerFrame (List.length items))
        then listInside fuel frameBBox cursor items
        else Net.ret items
  end.

(** The box of the target frame; none when the request throws. *)
Definition fetchFrameBBox (targetFrameId : string) : Net.M (option Rect.t) :=
  Net.try_catch
    (frameResp <- Net.request (fun n => Net.getItem api n boardId targetFrameId) ;;
     Net.ret (Erd.computeItemBBox frameResp))
    (fun _ => Net.ret None).

Definition fetchItemsForFrame (fuel : nat) (targetFrameId : string) : Net.M (list Item.t) :=
  frameBBox <- fetchFrameBBox targetFrameId ;;
  match frameBBox with
  | None => Net.ret []
  | Some frameBBox => listInside fuel frameBBox None []
  end.

End Fetch.

(** The arguments of [frame_to_erd]. *)
Record Args : Set :=
  { board_id : option string;
    frame_id : string;
    limitPerFrame : option nat;
    maxConnectors : option nat }.

(** The object [execute] hands to [formatApiResponse]; [frameTitle] is
    [None] for [null]. *)
Record Response : Set :=
  { boardId : string;
    frameId : string;
    frameTitle : option string;
    erd : string;
    entities : list Entity.t;
    relationships : list Relationship.t }.

(** [execute] of [frame_to_erd]. *)
Definition execute (activeBoardId : option string) (api : Net.Api) (fuel : nat) (args : Args)
  : Net.M Response :=
  Net.withBoard activeBoardId (board_id args)
    (fun boardId =>
       Net.try_catch
         (frameTitle <- Net.fetchFrameTitle api boardId (frame_id args) ;;
          frameItems <- fetchItemsForFrame api boardId (limitPerFrame args) fuel (frame_id args) ;;
          allConnectors <- Net.fetchConnectors api boardId (maxConnectors args) fuel None [] ;;
          Net.ret {| boardId := boardId;
                     frameId := frame_id args;
                     frameTitle := Str.or frameTitle None;
                     erd := Erd.erd frameItems allConnectors;
                     entities := Erd.entities frameItems allConnectors;
                     relationships := Erd.relationships frameItems allConnectors |})
         (fun e => Net.throw (Net.formatApiError e))).

End ErdNet.

Module ErdNetSpec.

(** The box of the frame cannot be had at request [count]: the request
    throws, or the frame it returns has no box. *)
Definition frameBoxUnavailable (api : Net.Api) (boardId targetFrameId : string) (count : nat)
  : Prop :=
  match Net.getItem api count boardId targetFrameId with
  | inl _ => True
  | inr frameResp => Erd.computeItemBBox frameResp = None
  end.

(** The ER diagram of a frame without items. *)
Definition emptyDiagram : string :=
  Str.join Str.newline
    ["erDiagram"; "  %% Entities discovered inside the frame"; "";
     "  %% Relationships inferred from connectors"].

(** The item lies in the frame: both have a box, and the centre of the item
    is within the box of the frame. *)
Definition liesIn (frame it : Item.t) : Prop :=
  exists frameBBox bbox,
    Erd.computeItemBBox (Some frame) = Some frameBBox
    /\ Erd.computeItemBBox (Some it) = Some bbox
    /\ ErdNet.centreInside bbox frameBBox = true.

Definition erdArgs : ErdNet.Args :=
  {| ErdNet.board_id := Some "b1"; ErdNet.frame_id := "F";
     ErdNet.limitPerFrame := None; ErdNet.maxConnectors := None |}.

(** A frame of 400 by 400 around the origin; a shape within it and a shape
    far to the right, joined by a connector. *)
Definition frameF : Item.t :=
  {| Item.id := "F"; Item.type := Some "frame";
     Item.position := Some {| Position.x := Some (Num.of_Z 0); Position.y := Some (Num.of_Z 0) |};
     Item.geometry :=
       Some {| Geometry.x := None; Geometry.y := None;
               Geometry.width := Some (Num.of_Z 400); Geometry.height := Some (Num.of_Z 400) |};
     Item.style := None; Item.data := None |}.

Definition within : Item.t := ContainmentSpec.shape "1" 50 50 100 80 "#ffffff".

Definition outside : Item.t := ContainmentSpec.shape "2" 900 50 100 80 "#ffffff".

Definition board : Net.Api :=
  {| Net.getItem := fun _ _ _ => inr (Some frameF);
     Net.getItems := fun _ _ _ =>
       inr {| Net.data := [within; outside]; Net.after := None |};
     Net.getConnectors := fun _ _ _ =>
       inr {| Net.data := [StackSpec.connector "k" "1" "2"]; Net.after := None |} |}.

End ErdNetSpec.

(** * The listing tools and the active board

    The tools [summarize_board], [list_board_items] and [fetch_frame_items]
    read a few more fields of an item than the diagram tools do, so they get
    a record of their own; [set_active_board] and [get_active_board] read the
    board itself. *)

Module Board.

Module Data.
Record t : Set :=
  { title : option string;
    content : option string;
    description : option string;
    imageUrl : option string }.
Definition empty : t :=
  {| title := None; content := None; description := None; imageUrl := None |}.
End Data.

Module Item.
Record t : Set := { id : string; type : option string; data : option Data.t }.
End Item.

(** The fields of [/v2/boards/{board_id}] that the tools read. *)
Module Meta.
Record t : Set :=
  { id : option string; name : option string; description : option string }.
Definition empty : t := {| id := None; name := None; description := None |}.
End Meta.

(** [miroClient.get] on a board and on the items of a board. *)
Record Api : Type :=
  { getBoard : nat -> string -> Net.Error + Meta.t;
    getItems : nat -> string -> Net.Params -> Net.Error + Net.Page Item.t }.

End Board.

(** ** [summarize_board]: counts and samples *)

Module Summary.

Record Sample : Set := { id : string; snippet : string }.

(** [item.type || 'unknown'] *)
Definition typeOf (item : Board.Item.t) : string :=
  Str.or_empty (Str.or (Board.Item.type item) (Some "unknown")).

(** The snippet of an item: its content, title or description with the
    white space collapsed, cut to 137 characters when it has more than 140. *)
Definition snippetOf (item : Board.Item.t) : string :=
  let data := or_else (Board.Item.data item) Board.Data.empty in
  let snippet :=
    Str.or_empty
      (Str.or (Str.or (Str.or (Board.Data.content data) (Board.Data.title data))
                 (Board.Data.description data))
         (Some "")) in
  let snippet := Str.trim (Re.replace Re.ws " " snippet) in
  if (140 <? String.length snippet)%nat then (Str.take 137 snippet ++ "")%string else snippet.

(** One turn of the loop over [allItems]; the state is [(counts, samples)].
    Both are plain objects, and the maps stand for their own properties: a
    type that names a property every object inherits ([SummarySpec.inherited]
    lists them) is outside this model. *)
Definition aggregateStep (includeSamples : bool) (maxSamplesPerType : nat)
  (st : JsMap.t nat * JsMap.t (list Sample)) (item : Board.Item.t)
  : JsMap.t nat * JsMap.t (list Sample) :=
  let '(counts, samples) := st in
  let type := typeOf item in
  let counts := JsMap.set counts type (or_else (JsMap.get counts type) 0 + 1)%nat in
  if includeSamples then
    let samples :=
      match JsMap.get samples type with
      | Some _ => samples
      | None => JsMap.set samples type []
      end in
    let arr := or_else (JsMap.get samples type) [] in
    if (List.length arr <? maxSamplesPerType)%nat
    then
      (counts,
       JsMap.set samples type (arr ++ [ {| id := Board.Item.id item; snippet := snippetOf item |} ]))
    else (counts, samples)
  else (counts, samples).

(** Step 3 of [summarize_board]: [counts] and [samples] by type. *)
Definition aggregate (includeSamples : bool) (maxSamplesPerType : nat)
  (allItems : list Board.Item.t) : JsMap.t nat * JsMap.t (list Sample) :=
  fold_left (aggregateStep includeSamples maxSamplesPerType) allItems ([], []).

End Summary.

Module SummarySpec.

(** The property names an object inherits from [Object.prototype]. *)
Definition inherited : list string :=
  ["constructor"; "__proto__"; "hasOwnProperty"; "isPrototypeOf";
   "propertyIsEnumerable"; "toLocaleString"; "toString"; "valueOf";
   "__defineGetter__"; "__defineSetter__"; "__lookupGetter__"; "__lookupSetter__"].

(** No item has a type that names an inherited property. *)
Definition ownTypes (items : list Board.Item.t) : bool :=
  forallb (fun item => negb (existsb (String.eqb (Summary.typeOf item)) inherited)) items.

(** The items of a type. *)
Definition ofType (type : string) (items : list Board.Item.t) : list Board.Item.t :=
  filter (fun item => String.eqb (Summary.typeOf item) type) items.

Definition sampleOf (item : Board.Item.t) : Summary.Sample :=
  {| Summary.id := Board.Item.id item; Summary.snippet := Summary.snippetOf item |}.

Definition total (counts : JsMap.t nat) : nat := list_sum (map snd counts).

Definition note (id type content : string) : Board.Item.t :=
  {| Board.Item.id := id; Board.Item.type := Some type;
     Board.Item.data :=
       Some {| Board.Data.title := None; Board.Data.content := Some content;
               Board.Data.description := None; Board.Data.imageUrl := None |} |}.

End SummarySpec.

(** ** [list_board_items] *)

Module Listing.

Local Notation "x <- m ;; k" := (Net.bind m (fun x => k))
  (at level 61, m at next level, right associativity).

Record Compact : Set :=
  { id : string;
    type : string;
    title : option string;
    content : option string;
    description : option string }.

Definition compactOf (it : Board.Item.t) : Compact :=
  let data := or_else (Board.Item.data it) Board.Data.empty in
  {| id := Board.Item.id it;
     type := Str.or_empty (Str.or (Board.Item.type it) (Some "unknown"));
     title := Board.Data.title data;
     content := Board.Data.content data;
     description := Board.Data.description data |}.

(** [types.includes(it.type)] *)
Definition includes (types : list string) (type : option string) : bool :=
  match type with
  | Some ty => existsb (String.eqb ty) types
  | None => false
  end.

(** [types && types.length > 1 && !types.includes(it.type)] *)
Definition filteredOut (types : option (list string)) (it : Board.Item.t) : bool :=
  match types with
  | Some types => (1 <? List.length types)%nat && negb (includes types (Board.Item.type it))
  | None => false
  end.

Record Args : Set :=
  { board_id : option string;
    parent_item_id : option string;
    limitItems : option nat;
    pageSize : option nat;
    types : option (list string);
    includeRaw : option bool }.

Record Response : Set :=
  { boardId : string;
    totalItems : nat;
    items : option (list Board.Item.t);
    compactItems : list Compact;
    hasMore : bool;
    nextCursor : option string }.

Section Fetch.

Variable api : Board.Api.
Variable boardId : string.
Variable args : Args.

Definition params (cursor : option string) : Net.Params :=
  [("limit", string_of_nat (or_else (pageSize args) 50))]
  ++ Net.cursorParam cursor
  ++ (if Str.truthy_opt (parent_item_id args)
      then [("parent_item_id", Str.or_empty (parent_item_id args))] else [])
  ++ match types args with
     | Some [type] => [("type", type)]
     | _ => []
     end.

(** One turn of the loop over a batch; the state is [(items, compact)]. *)
Definition push (st : list Board.Item.t * list Compact) (it : Board.Item.t)
  : list Board.Item.t * list Compact :=
  let '(items, compact) := st in
  if Net.limitReached (limitItems args) (List.length items) then st
  else if filteredOut (types args) it then st
  else (items ++ [it], compact ++ [compactOf it]).

(** The [do ... while] loop; it returns [items], [compact] and [cursor]. *)
Fixpoint pages (fuel : nat) (cursor : option string)
  (st : list Board.Item.t * list Compact)
  : Net.M (list Board.Item.t * list Compact * option string) :=
  match fuel with
  | O => Net.diverge
  | S fuel =>
      if Net.limitReached (limitItems args) (List.length (fst st)) then Net.ret (st, cursor)
      else
        payload <- Net.request (fun n => Board.getItems api n boardId (params cursor)) ;;
        let st := fold_left push (Net.data payload) st in
        let cursor := Str.or (Net.after payload) None in
        if Str.truthy_opt cursor
           && negb (Net.limitReached (limitItems args) (List.length (fst st)))
        then pages fuel cursor st
        else Net.ret (st, cursor)
  end.

End Fetch.

(** [execute] of [list_board_items]. *)
Definition execute (activeBoardId : option string) (api : Board.Api) (fuel : nat) (args : Args)
  : Net.M Response :=
  Net.withBoard activeBoardId (board_id args)
    (fun boardId =>
       Net.try_catch
         (found <- pages api boardId args fuel None ([], []) ;;
          let '(items, compact, cursor) := found in
          Net.ret {| boardId := boardId;
                     totalItems := List.length items;
                     items := if or_else (includeRaw args) false then Some items else None;
                     compactItems := compact;
                     hasMore := Str.truthy_opt cursor;
                     nextCursor := cursor |})
         (fun e => Net.throw (Net.formatApiError e))).

End Listing.

Module ListingSpec.

(** What the loops of [list_board_items] keep true of [items] and
    [compact]. *)
Definition good (args : Listing.Args) (st : list Board.Item.t * list Listing.Compact) : Prop :=
  snd st = map Listing.compactOf (fst st)
  /\ (forall k, Listing.limitItems args = Some (S k) -> (List.length (fst st) <= S k)%nat)
  /\ (forall it, In it (fst st) -> Listing.filteredOut (Listing.types args) it = false).

Definition shapesAndCards : Listing.Args :=
  {| Listing.board_id := Some "b1"; Listing.parent_item_id := None;
     Listing.limitItems := Some 2; Listing.pageSize := None;
     Listing.types := Some ["shape"; "card"]; Listing.includeRaw := Some true |}.

Definition bare (id type : string) : Board.Item.t :=
  {| Board.Item.id := id; Board.Item.type := Some type; Board.Item.data := None |}.

(** One page of four items, with a cursor to a next page. *)
Definition mixed : Board.Api :=
  {| Board.getBoard := fun _ _ => inr Board.Meta.empty;
     Board.getItems := fun _ _ _ =>
       inr {| Net.data := [bare "1" "shape"; bare "2" "text"; bare "3" "card"; bare "4" "shape"];
              Net.after := Some "p2" |} |}.

End ListingSpec.

(** ** [fetch_frame_items] *)

Module FrameItems.

Local Notation "x <- m ;; k" := (Net.bind m (fun x => k))
  (at level 61, m at next level, right associativity).

(** The projection of an item.  [imageUrl] is [None] when the property is
    absent and [Some None] when it is [null]. *)
Record Projected : Set :=
  { id : string;
    type : option string;
    title_html : option string;
    content_html : option string;
    title : option string;
    content : option string;
    imageUrl : option (option string);
    note : option string }.

Definition project (it : Board.Item.t) : Projected :=
  let data := or_else (Board.Item.data it) Board.Data.empty in
  let titleHtml := Board.Data.title data in
  let contentHtml := Board.Data.content data in
  {| id := Board.Item.id it;
     type := Board.Item.type it;
     title_html := titleHtml;
     content_html := contentHtml;
     title := if Str.truthy_opt titleHtml then Some (plainSnippet titleHtml 2000) else None;
     content := if Str.truthy_opt contentHtml then Some (plainSnippet contentHtml 2000) else None;
     imageUrl :=
       if Str.eq_opt (Board.Item.type it) (Some "image") then Some (Board.Data.imageUrl data)
       else None;
     note :=
       if Str.eq_opt (Board.Item.type it) (Some "image") then None
       else if Str.eq_opt (Board.Item.type it) (Some "stamp")
            then Some "stamp  no textual content" else None |}.

Record Nested : Set :=
  { frame_id : string; frameTitle : option string; nestedItems : list Projected }.

Record Args : Set :=
  { board_id : option string;
    target : string;
    includeNestedFrames : option bool;
    limitPerFrame : option nat }.

Record Response : Set :=
  { boardId : string;
    frameId : string;
    totalItemsInFrame : nat;
    items : list Projected;
    nestedFrames : list Nested }.

Section Fetch.

Variable api : Board.Api.
Variable boardId : string.
Variable limit : option nat.

Definition push (items : list Board.Item.t) (it : Board.Item.t) : list Board.Item.t :=
  if Net.limitReached limit (List.length items) then items else items ++ [it].

(** [fetchItemsForFrame(targetFrameId)] *)
Fixpoint fetchItemsForFrame (fuel : nat) (targetFrameId : string) (cursor : option string)
  (items : list Board.Item.t) : Net.M (list Board.Item.t) :=
  match fuel with
  | O => Net.diverge
  | S fuel =>
      if Net.limitReached limit (List.length items) then Net.ret items
      else
        let params :=
          [("parent_item_id", targetFrameId); ("limit", "50")] ++ Net.cursorParam cursor in
        payload <- Net.request (fun n => Board.getItems api n boardId params) ;;
        let items := fold_left push (Net.data payload) items in
        let cursor := Str.or (Net.after payload) None in
        if Str.truthy_opt cursor && negb (Net.limitReached limit (List.length items))
        then fetchItemsForFrame fuel targetFrameId cursor items
        else Net.ret items
  end.

Definition isFrame (it : Board.Item.t) : bool :=
  Str.eq_opt (Board.Item.type it) (Some "frame").

(** The loop over the child frames. *)
Fixpoint fetchNested (fuel : nat) (childFrames : list Board.Item.t) (nestedFrames : list Nested)
  : Net.M (list Nested) :=
  match childFrames with
  | [] => Net.ret nestedFrames
  | frame :: rest =>
      let data := or_else (Board.Item.data frame) Board.Data.empty in
      let titleHtml := Board.Data.title data in
      let titlePlain :=
        if Str.truthy_opt titleHtml then Some (plainSnippet titleHtml 2000) else None in
      nestedItems <- fetchItemsForFrame fuel (Board.Item.id frame) None [] ;;
      fetchNested fuel rest
        (nestedFrames
         ++ [ {| frame_id := Board.Item.id frame;
                 frameTitle := titlePlain;
                 nestedItems := map project nestedItems |} ])
  end.

End Fetch.

(** [execute] of [fetch_frame_items]. *)
Definition execute (activeBoardId : option string) (api : Board.Api) (fuel : nat) (args : Args)
  : Net.M Response :=
  Net.withBoard activeBoardId (board_id args)
    (fun boardId =>
       Net.try_catch
         (rootItems <- fetchItemsForFrame api boardId (limitPerFrame args) fuel (target args) None [] ;;
          nestedFrames <-
            (if or_else (includeNestedFrames args) true
             then fetchNested api boardId (limitPerFrame args) fuel (filter isFrame rootItems) []
             else Net.ret []) ;;
          Net.ret {| boardId := boardId;
                     frameId := target args;
                     totalItemsInFrame := List.length rootItems;
                     items := map project rootItems;
                     nestedFrames := nestedFrames |})
         (fun e => Net.throw (Net.formatApiError e))).

End FrameItems.

Module FrameItemsSpec.

(** There are no more items than the cap allows. *)
Definition capped {A : Type} (limit : option nat) (items : list A) : Prop :=
  forall k, limit = Some (S k) -> (List.length items <= S k)%nat.

Definition nestedCapped (limit : option nat) (nested : list FrameItems.Nested) : Prop :=
  forall n, In n nested -> capped limit (FrameItems.nestedItems n).

Definition isFrame (p : FrameItems.Projected) : bool :=
  Str.eq_opt (FrameItems.type p) (Some "frame").

Definition frameArgs : FrameItems.Args :=
  {| FrameItems.board_id := Some "b1"; FrameItems.target := "F";
     FrameItems.includeNestedFrames := None; FrameItems.limitPerFrame := None |}.

(** The frame [F] holds the frame [G] and a shape; [G] holds the frame [H];
    [H] holds a shape. *)
Definition nesting : Board.Api :=
  {| Board.getBoard := fun _ _ => inr Board.Meta.empty;
     Board.getItems := fun _ _ params =>
       let parent := Str.or_empty (JsMap.get params "parent_item_id") in
       if String.eqb parent "F"
       then inr {| Net.data := [ListingSpec.bare "G" "frame"; ListingSpec.bare "A" "shape"];
                   Net.after := None |}
       else if String.eqb parent "G"
       then inr {| Net.data := [ListingSpec.bare "H" "frame"]; Net.after := None |}
       else if String.eqb parent "H"
       then inr {| Net.data := [ListingSpec.bare "B" "shape"]; Net.after := None |}
       else inr {| Net.data := []; Net.after := None |} |}.

End FrameItemsSpec.

(** ** [set_active_board] and [get_active_board] *)

Module ActiveBoard.

(** The outcome of a call together with [activeBoardId] after it. *)
Definition Stateful (A : Type) : Type := nat -> Net.outcome A * option string * nat.

Record SetResponse : Set :=
  { message : string; activeBoardId : option string; board : Board.Meta.t }.

Definition set_active_board (api : Board.Api) (activeBoardId : option string)
  (board_id : string) : Stateful SetResponse :=
  fun count =>
    let testId := Str.trim board_id in
    match Board.getBoard api count testId with
    | inr board =>
        (Net.Return {| message := "Active board updated successfully.";
                       activeBoardId := Some testId;
                       board := board |},
         Some testId, S count)
    | inl e => (Net.Throw (Net.formatApiError e), activeBoardId, S count)
    end.

(** The answer of [get_active_board]: the id, then the board or the message
    of the error. *)
Record GetResponse : Set :=
  { current : option string;
    found : option Board.Meta.t;
    error : option string;
    info : option string }.

Definition get_active_board (api : Board.Api) (activeBoardId : option string)
  : Net.M GetResponse :=
  if negb (Str.truthy_opt activeBoardId)
  then Net.ret {| current := None; found := None; error := None;
                  info := Some "No active board set." |}
  else
    Net.try_catch
      (Net.bind (Net.request (fun n => Board.getBoard api n (Str.or_empty activeBoardId)))
         (fun board =>
            Net.ret {| current := activeBoardId; found := Some board; error := None;
                       info := None |}))
      (fun e =>
         Net.ret {| current := activeBoardId; found := None;
                    error := Some (Net.message e); info := None |}).

End ActiveBoard.
(** * Properties *)

(** ** Comparisons of doubles *)

Module NumFacts.
Import NumSpec.

Lemma ltb_rank : forall a b : number,
  Num.ltb a b = true <->
  (Num.is_nan a = false /\ Num.is_nan b = false /\ rank_lt (rank a) (rank b)).
Proof.
  intros a b. unfold Num.ltb, SFltb.
  destruct a as [sa|sa| |sa ma ea], b as [sb|sb| |sb mb eb]; simpl;
    try (destruct sa); try (destruct sb); simpl;
    try (split; [discriminate | intros (?&?&?); try discriminate; lia]);
    try (split; [intros _; repeat split; lia | reflexivity]).
  all: change (Pos.compare_cont Eq ma mb) with (ma ?= mb)%positive.
  all: destruct (Z.compare_spec ea eb); [subst; destruct (Pos.compare_spec ma mb)|..]; simpl;
      (split; [try discriminate; intros _; repeat split; lia | intros (?&?&?); try reflexivity; lia]).
Qed.

Lemma leb_rank : forall a b : number,
  Num.leb a b = true <->
  (Num.is_nan a = false /\ Num.is_nan b = false /\ ~ rank_lt (rank b) (rank a)).
Proof.
  intros a b. unfold Num.leb, SFleb.
  destruct a as [sa|sa| |sa ma ea], b as [sb|sb| |sb mb eb]; simpl;
    try (destruct sa); try (destruct sb); simpl;
    try (split; [discriminate | intros (?&?&?); try discriminate; lia]);
    try (split; [intros _; repeat split; lia | reflexivity]).
  all: change (Pos.compare_cont Eq ma mb) with (ma ?= mb)%positive.
  all: destruct (Z.compare_spec ea eb); [subst; destruct (Pos.compare_spec ma mb)|..]; simpl;
      (split; [try discriminate; intros _; repeat split; lia | intros (?&?&?); try reflexivity; lia]).
Qed.

(** Order facts about the comparisons of doubles follow from the
    lexicographic order of the ranks. *)
Ltac by_rank :=
  repeat match goal with
         | H : Num.ltb _ _ = true |- _ => apply ltb_rank in H; destruct H as (? & ? & ?)
         | H : Num.leb _ _ = true |- _ => apply leb_rank in H; destruct H as (? & ? & ?)
         | H : Num.ltb _ _ = false |- _ =>
             apply not_true_iff_false in H; rewrite ltb_rank in H
         | H : Num.leb _ _ = false |- _ =>
             apply not_true_iff_false in H; rewrite leb_rank in H
         | |- Num.ltb _ _ = true => apply ltb_rank
         | |- Num.leb _ _ = true => apply leb_rank
         | |- Num.ltb _ _ = false => apply not_true_iff_false; rewrite ltb_rank
         | |- Num.leb _ _ = false => apply not_true_iff_false; rewrite leb_rank
         end;
  repeat match goal with
         | |- context [rank ?a] =>
             let r1 := fresh "r" in let r2 := fresh "r" in let r3 := fresh "r" in
             destruct (rank a) as [[r1 r2] r3]
         | H : context [rank ?a] |- _ =>
             let r1 := fresh "r" in let r2 := fresh "r" in let r3 := fresh "r" in
             destruct (rank a) as [[r1 r2] r3]
         end;
  unfold rank_lt in *; intuition lia.

Lemma ltb_irrefl : forall a, Num.ltb a a = false.
Proof. intros a. by_rank. Qed.

Lemma ltb_trans : forall a b c,
  Num.ltb a b = true -> Num.ltb b c = true -> Num.ltb a c = true.
Proof. intros a b c H1 H2. by_rank. Qed.

Lemma ltb_asym : forall a b, Num.ltb a b = true -> Num.ltb b a = false.
Proof. intros a b H. by_rank. Qed.

Lemma leb_not_ltb : forall a b, Num.leb a b = true -> Num.ltb b a = false.
Proof. intros a b H. by_rank. Qed.

Lemma ltb_leb_trans : forall a b c,
  Num.ltb a b = true -> Num.leb b c = true -> Num.ltb a c = true.
Proof. intros a b c H1 H2. by_rank. Qed.

Lemma ltb_not_nan : forall a b,
  Num.ltb a b = true -> Num.is_nan a = false /\ Num.is_nan b = false.
Proof. intros a b H. apply ltb_rank in H. tauto. Qed.

(** Two numbers that are not NaN compare one way or the other. *)
Lemma not_ltb_leb : forall a b,
  Num.is_nan a = false -> Num.is_nan b = false ->
  Num.ltb a b = false -> Num.leb b a = true.
Proof. intros a b Ha Hb H. by_rank. Qed.

Lemma ltb_not_ltb_trans : forall a b c,
  Num.is_nan c = false ->
  Num.ltb a b = true -> Num.ltb c b = false -> Num.ltb a c = true.
Proof. intros a b c Hc H1 H2. by_rank. Qed.

End NumFacts.

(** ** Doubles: canonical forms, rounding and the sign of a difference *)

Module DoubleFacts.
Import NumSpec.
Local Open Scope Z_scope.

Lemma digits2_size : forall m, digits2_pos m = Pos.size m.
Proof. induction m as [m IH|m IH|]; simpl; now rewrite ?IH. Qed.

Lemma dig_pos : forall m, 0 < dig m.
Proof. intros m. unfold dig. lia. Qed.

Lemma dig_bounds : forall m, 2 ^ (dig m - 1) <= Zpos m < 2 ^ dig m.
Proof.
  intros m. unfold dig. rewrite digits2_size. split.
  - pose proof (Pos.size_le m) as H.
    assert (H' : 2 ^ Zpos (Pos.size m) <= 2 * Zpos m).
    { change (2 * Zpos m) with (Zpos m~0). rewrite <- Pos2Z.inj_pow. now apply Pos2Z.pos_le_pos. }
    replace (Zpos (Pos.size m)) with (Z.succ (Zpos (Pos.size m) - 1)) in H' by lia.
    rewrite Z.pow_succ_r in H' by lia. lia.
  - pose proof (Pos.size_gt m) as H.
    rewrite <- Pos2Z.inj_pow. now apply Pos2Z.pos_lt_pos.
Qed.

Lemma dig_unique : forall m d, 2 ^ (d - 1) <= Zpos m < 2 ^ d -> dig m = d.
Proof.
  intros m d [L U]. pose proof (dig_bounds m) as [L' U']. pose proof (dig_pos m) as P.
  assert (Hd : 0 < d).
  { destruct (Z.ltb_spec 0 d); [assumption|].
    assert (2 ^ d <= 2 ^ 0) by (destruct (Z.eq_dec d 0); [subst; lia|rewrite Z.pow_neg_r by lia; simpl; lia]).
    simpl in *. lia. }
  assert (dig m - 1 < d).
  { apply (Z.pow_lt_mono_r_iff 2); lia. }
  assert (d - 1 < dig m).
  { apply (Z.pow_lt_mono_r_iff 2); lia. }
  lia.
Qed.


(** *** Shifting to the right *)

Lemma shr_1_m : forall r, 0 <= shr_m r -> shr_m (shr_1 r) = shr_m r / 2.
Proof.
  intros [m r s] H. simpl in *. destruct m as [|p|p]; [reflexivity| |lia].
  destruct p as [p|p|]; simpl.
  - rewrite Pos2Z.inj_xI. apply Z.div_unique with 1; lia.
  - rewrite Pos2Z.inj_xO. apply Z.div_unique with 0; lia.
  - reflexivity.
Qed.

Lemma shr_1_nonneg : forall r, 0 <= shr_m r -> 0 <= shr_m (shr_1 r).
Proof. intros r H. rewrite shr_1_m by assumption. apply Z.div_pos; lia. Qed.

Lemma iter_shr_m : forall p r,
  0 <= shr_m r -> shr_m (iter_pos shr_1 p r) = shr_m r / 2 ^ Zpos p.
Proof.
  induction p as [p IH|p IH|]; intros r H; simpl iter_pos.
  - assert (H1 : 0 <= shr_m (shr_1 r)) by now apply shr_1_nonneg.
    assert (H2 : 0 <= shr_m (iter_pos shr_1 p (shr_1 r))).
    { rewrite IH by assumption. apply Z.div_pos; [assumption | apply Z.pow_pos_nonneg; lia]. }
    rewrite IH, IH, shr_1_m by assumption.
    rewrite !Z.div_div by (try apply Z.pow_pos_nonneg; lia).
    f_equal.
    replace (2 ^ Zpos p~1) with (2 ^ 1 * 2 ^ Zpos p * 2 ^ Zpos p)
      by (rewrite <- !Z.pow_add_r by lia; f_equal; lia).
    change (2 ^ 1) with 2. lia.
  - assert (H2 : 0 <= shr_m (iter_pos shr_1 p r)).
    { rewrite IH by assumption. apply Z.div_pos; [assumption | apply Z.pow_pos_nonneg; lia]. }
    rewrite IH, IH by assumption.
    rewrite !Z.div_div by (try apply Z.pow_pos_nonneg; lia).
    f_equal. rewrite <- Z.pow_add_r by lia. f_equal. lia.
  - rewrite shr_1_m by assumption. reflexivity.
Qed.

Lemma record_m : forall m l, shr_m (shr_record_of_loc m l) = m.
Proof. intros m [|[]]; reflexivity. Qed.

(** What [shr_fexp] gives on a mantissa that is not negative: the mantissa
    divided by a power of two, at the exponent raised by as much. *)
Lemma shr_fexp_spec : forall prec emax m e l,
  0 <= m ->
  let n := Z.max 0 (fexp prec emax (Zdigits2 m + e) - e) in
  shr_m (fst (shr_fexp prec emax m e l)) = m / 2 ^ n
  /\ snd (shr_fexp prec emax m e l) = e + n.
Proof.
  intros prec emax m e l H n. unfold shr_fexp, shr. subst n.
  destruct (fexp prec emax (Zdigits2 m + e) - e) as [|p|p] eqn:E; simpl fst; simpl snd.
  - rewrite record_m. simpl. rewrite Z.div_1_r. split; [reflexivity | lia].
  - rewrite iter_shr_m by (rewrite record_m; assumption). rewrite record_m.
    rewrite Z.max_r by lia. split; reflexivity.
  - rewrite record_m. rewrite Z.max_l by lia. simpl. rewrite Z.div_1_r. split; [reflexivity | lia].
Qed.

Lemma round_cases : forall m l,
  round_nearest_even m l = m \/ round_nearest_even m l = m + 1.
Proof. intros m [|[]]; simpl; auto. destruct (Z.even m); auto. Qed.


(** *** Digits of a mantissa *)

Lemma zd_bounds : forall m, 0 < m -> 0 < Zdigits2 m /\ 2 ^ (Zdigits2 m - 1) <= m < 2 ^ Zdigits2 m.
Proof.
  intros [|p|p] H; try lia. split; [apply dig_pos | apply dig_bounds].
Qed.

Lemma zd_unique : forall m d, 2 ^ (d - 1) <= m < 2 ^ d -> 0 < m -> Zdigits2 m = d.
Proof. intros [|p|p] d B H; try lia. now apply dig_unique. Qed.

Lemma zd_nonneg : forall m, 0 <= Zdigits2 m.
Proof. intros [|p|p]; simpl; lia. Qed.

Lemma pow2_pos : forall n, 0 < 2 ^ n \/ (n < 0 /\ 2 ^ n = 0).
Proof.
  intros n. destruct (Z.ltb_spec n 0); [right | left].
  - split; [assumption | now apply Z.pow_neg_r].
  - apply Z.pow_pos_nonneg; lia.
Qed.

(** Dropping [n] low digits of a mantissa that has more than [n]. *)
Lemma zd_div : forall m n,
  0 < m -> 0 <= n < Zdigits2 m ->
  0 < m / 2 ^ n /\ Zdigits2 (m / 2 ^ n) = Zdigits2 m - n.
Proof.
  intros m n Hm Hn. destruct (zd_bounds m Hm) as (Hd & L & U).
  assert (P : 0 < 2 ^ n) by (apply Z.pow_pos_nonneg; lia).
  assert (E : 2 ^ Zdigits2 m = 2 ^ n * 2 ^ (Zdigits2 m - n))
    by (rewrite <- Z.pow_add_r by lia; f_equal; lia).
  assert (E' : 2 ^ (Zdigits2 m - 1) = 2 ^ n * 2 ^ (Zdigits2 m - n - 1))
    by (rewrite <- Z.pow_add_r by lia; f_equal; lia).
  assert (L1 : 2 ^ (Zdigits2 m - n - 1) <= m / 2 ^ n)
    by (apply Z.div_le_lower_bound; [assumption | lia]).
  assert (U1 : m / 2 ^ n < 2 ^ (Zdigits2 m - n))
    by (apply Z.div_lt_upper_bound; [assumption | lia]).
  assert (Q : 0 < 2 ^ (Zdigits2 m - n - 1)) by (apply Z.pow_pos_nonneg; lia).
  split; [lia|]. apply zd_unique; [|lia]. split; [exact L1 | exact U1].
Qed.

(** Dropping all the digits. *)
Lemma zd_div_small : forall m n, 0 <= m -> Zdigits2 m <= n -> m / 2 ^ n = 0.
Proof.
  intros m n Hm Hn. destruct (Z.eq_dec m 0) as [->|Hz].
  - apply Z.div_0_l. pose proof (zd_nonneg 0). assert (0 < 2 ^ n) by (apply Z.pow_pos_nonneg; simpl in *; lia). lia.
  - destruct (zd_bounds m ltac:(lia)) as (Hd & L & U).
    apply Z.div_small. split; [assumption|].
    eapply Z.lt_le_trans; [exact U|]. apply Z.pow_le_mono_r; lia.
Qed.

(** The digits of the successor. *)
Lemma zd_succ : forall m, 0 < m ->
  Zdigits2 (m + 1) = Zdigits2 m
  \/ (m + 1 = 2 ^ Zdigits2 m /\ Zdigits2 (m + 1) = Zdigits2 m + 1).
Proof.
  intros m Hm. destruct (zd_bounds m Hm) as (Hd & L & U).
  destruct (Z.eq_dec (m + 1) (2 ^ Zdigits2 m)) as [E|N].
  - right. split; [assumption|]. apply zd_unique; [|lia].
    replace (Zdigits2 m + 1 - 1) with (Zdigits2 m) by lia. split; [lia|].
    rewrite Z.pow_add_r by lia. change (2 ^ 1) with 2. lia.
  - left. apply zd_unique; lia.
Qed.


(** *** Rounding in binary64 *)


Lemma fexp_64 : forall z, fexp Num.prec Num.emax z = fexp64 z.
Proof. reflexivity. Qed.

(** The first shift of [binary_round_aux] keeps a positive mantissa positive
    when the exponent is not below the least one. *)
Lemma shift_pos : forall m e l,
  0 < m -> -1074 <= e ->
  0 < shr_m (fst (shr_fexp Num.prec Num.emax m e l))
  /\ -1074 <= snd (shr_fexp Num.prec Num.emax m e l).
Proof.
  intros m e l Hm He.
  destruct (shr_fexp_spec Num.prec Num.emax m e l ltac:(lia)) as [E1 E2].
  rewrite E1, E2, fexp_64. unfold fexp64.
  destruct (zd_bounds m Hm) as (Hd & L & U).
  split; [|lia].
  apply zd_div; [assumption | lia].
Qed.

Lemma round_pos : forall m l, 0 < m -> 0 < round_nearest_even m l.
Proof. intros m l H. destruct (round_cases m l) as [-> | ->]; lia. Qed.

(** A positive mantissa at an exponent that is not below the least one
    rounds to a number that is not zero and not NaN. *)
Lemma round_aux_pos : forall s m e l,
  0 < m -> -1074 <= e ->
  binary_round_aux Num.prec Num.emax s m e l = S754_infinity s
  \/ exists m' e', binary_round_aux Num.prec Num.emax s m e l = S754_finite s m' e'.
Proof.
  intros s m e l Hm He. unfold binary_round_aux.
  destruct (shift_pos m e l Hm He) as [P1 Q1].
  destruct (shr_fexp Num.prec Num.emax m e l) as [r1 e1]. simpl in P1, Q1.
  pose proof (round_pos (shr_m r1) (loc_of_shr_record r1) P1) as P2.
  destruct (shift_pos _ e1 loc_Exact P2 Q1) as [P3 Q3].
  destruct (shr_fexp Num.prec Num.emax _ e1 loc_Exact) as [r2 e2]. simpl in P3, Q3.
  destruct (shr_m r2) as [|q|q]; try lia.
  destruct (e2 <=? Num.emax - Num.prec); [right; eauto | now left].
Qed.

Lemma canonical_valid : forall s m e,
  canonical (Zpos m) e ->
  Num.valid (if e <=? Num.emax - Num.prec then S754_finite s m e else S754_infinity s) = true.
Proof.
  intros s m e [_ C]. destruct (e <=? Num.emax - Num.prec) eqn:B; [|reflexivity].
  unfold Num.valid, valid_binary, bounded, canonical_mantissa. rewrite B, fexp_64.
  simpl Zdigits2 in C. rewrite C, Z.eqb_refl. reflexivity.
Qed.

(** A shift that leaves digits gives a canonical form. *)
Lemma shift_canon : forall m e l,
  0 < m -> e <= fexp64 (Zdigits2 m + e) -> fexp64 (Zdigits2 m + e) - e < Zdigits2 m ->
  canonical (shr_m (fst (shr_fexp Num.prec Num.emax m e l)))
            (snd (shr_fexp Num.prec Num.emax m e l)).
Proof.
  intros m e l Hm P N.
  destruct (shr_fexp_spec Num.prec Num.emax m e l ltac:(lia)) as [E1 E2].
  rewrite E1, E2, fexp_64. rewrite Z.max_r by lia.
  destruct (zd_div m (fexp64 (Zdigits2 m + e) - e) Hm ltac:(lia)) as [Q D].
  split; [exact Q|]. rewrite D.
  replace (Zdigits2 m - (fexp64 (Zdigits2 m + e) - e) + (e + (fexp64 (Zdigits2 m + e) - e)))
    with (Zdigits2 m + e) by lia.
  lia.
Qed.

(** A shift that leaves no digit gives zero at the least exponent. *)
Lemma shift_small : forall m e l,
  0 <= m -> Zdigits2 m <= fexp64 (Zdigits2 m + e) - e ->
  shr_m (fst (shr_fexp Num.prec Num.emax m e l)) = 0
  /\ snd (shr_fexp Num.prec Num.emax m e l) = -1074.
Proof.
  intros m e l Hm N. pose proof (zd_nonneg m) as D.
  destruct (shr_fexp_spec Num.prec Num.emax m e l Hm) as [E1 E2].
  rewrite E1, E2, fexp_64. rewrite Z.max_r by lia.
  split; [apply zd_div_small; lia|]. unfold fexp64 in *. lia.
Qed.

(** The second half of [binary_round_aux]: rounding and the second shift. *)
Lemma round_half_valid : forall s x e1 l,
  (canonical x e1 \/ (x = 0 /\ e1 = -1074)) ->
  Num.valid
    (let '(mrs, e2) := shr_fexp Num.prec Num.emax (round_nearest_even x l) e1 loc_Exact in
     match shr_m mrs with
     | Z0 => S754_zero s
     | Zpos m => if e2 <=? Num.emax - Num.prec then S754_finite s m e2 else S754_infinity s
     | Zneg _ => S754_nan
     end) = true.
Proof.
  intros s x e1 l H.
  assert (C : round_nearest_even x l = 0
              \/ canonical (shr_m (fst (shr_fexp Num.prec Num.emax (round_nearest_even x l) e1 loc_Exact)))
                           (snd (shr_fexp Num.prec Num.emax (round_nearest_even x l) e1 loc_Exact))).
  { destruct H as [[Hx Cx]|[-> ->]].
    - right. destruct (zd_bounds x Hx) as (Hd & _).
      destruct (round_cases x l) as [-> | ->].
      + apply shift_canon; lia.
      + destruct (zd_succ x Hx) as [D|[_ D]]; rewrite ?D in *.
        * apply shift_canon; rewrite ?D; lia.
        * apply shift_canon; rewrite ?D; unfold fexp64 in *; lia.
    - destruct (round_cases 0 l) as [-> | ->]; [now left|]. right.
      apply shift_canon; simpl; unfold fexp64; simpl; lia. }
  destruct C as [Z|C].
  - rewrite Z. destruct (shr_fexp_spec Num.prec Num.emax 0 e1 loc_Exact ltac:(lia)) as [E1 _].
    destruct (shr_fexp Num.prec Num.emax 0 e1 loc_Exact) as [mrs e2]. simpl in E1.
    rewrite E1. rewrite Z.div_0_l; [reflexivity|].
    assert (0 < 2 ^ Z.max 0 (fexp Num.prec Num.emax (0 + e1) - e1)) by (apply Z.pow_pos_nonneg; lia). lia.
  - destruct (shr_fexp Num.prec Num.emax (round_nearest_even x l) e1 loc_Exact) as [mrs e2].
    simpl in C. destruct (shr_m mrs) as [|m|m]; try reflexivity.
    apply canonical_valid. exact C.
Qed.

(** [binary_round_aux] gives a double when the mantissa is precise enough
    for its exponent. *)
Lemma round_aux_valid : forall s m e l,
  0 <= m -> e <= fexp64 (Zdigits2 m + e) ->
  Num.valid (binary_round_aux Num.prec Num.emax s m e l) = true.
Proof.
  intros s m e l Hm P. unfold binary_round_aux.
  assert (I : canonical (shr_m (fst (shr_fexp Num.prec Num.emax m e l)))
                        (snd (shr_fexp Num.prec Num.emax m e l))
              \/ (shr_m (fst (shr_fexp Num.prec Num.emax m e l)) = 0
                  /\ snd (shr_fexp Num.prec Num.emax m e l) = -1074)).
  { destruct (Z.ltb_spec (fexp64 (Zdigits2 m + e) - e) (Zdigits2 m)) as [N|N].
    - left. apply shift_canon; [|assumption|assumption].
      destruct (Z.eq_dec m 0) as [->|]; [cbn [Zdigits2] in *; lia | lia].
    - right. now apply shift_small. }
  destruct (shr_fexp Num.prec Num.emax m e l) as [r1 e1]. simpl in I.
  apply (round_half_valid s (shr_m r1) e1 (loc_of_shr_record r1) I).
Qed.


(** *** Aligning to a smaller exponent *)

Lemma iter_xO : forall d m, Zpos (Pos.iter xO m d) = Zpos m * 2 ^ Zpos d.
Proof.
  induction d as [|d IH] using Pos.peano_ind; intros m.
  - simpl. lia.
  - rewrite Pos.iter_succ, Pos2Z.inj_xO, IH, Pos2Z.inj_succ, Z.pow_succ_r by lia. lia.
Qed.

Lemma shl_align_spec : forall m e e',
  snd (shl_align m e e') = Z.min e e'
  /\ Zpos (fst (shl_align m e e')) = Zpos m * 2 ^ (e - Z.min e e').
Proof.
  intros m e e'. unfold shl_align. destruct (e' - e) as [|d|d] eqn:E; cbn [fst snd].
  - replace (Z.min e e') with e by lia. rewrite Z.sub_diag. change (2 ^ 0) with 1. lia.
  - replace (Z.min e e') with e by lia. rewrite Z.sub_diag. change (2 ^ 0) with 1. lia.
  - replace (Z.min e e') with e' by lia. split; [reflexivity|].
    rewrite iter_xO. f_equal. f_equal. lia.
Qed.

Lemma dig_shift : forall m k, 0 <= k -> Zdigits2 (Zpos m * 2 ^ k) = dig m + k.
Proof.
  intros m k Hk. pose proof (dig_bounds m) as [L U]. pose proof (dig_pos m) as P.
  assert (Q : 0 < 2 ^ k) by (apply Z.pow_pos_nonneg; lia).
  apply zd_unique; [|lia]. split.
  - replace (dig m + k - 1) with (dig m - 1 + k) by lia. rewrite Z.pow_add_r by lia.
    apply Z.mul_le_mono_nonneg_r; lia.
  - rewrite Z.pow_add_r by lia. apply Z.mul_lt_mono_pos_r; lia.
Qed.

(** What [binary_round] hands to [binary_round_aux]. *)
Lemma binary_round_input : forall m e,
  let '(mz, ez) := shl_align m e (fexp Num.prec Num.emax (Zpos (digits2_pos m) + e)) in
  ez <= fexp64 (Zdigits2 (Zpos mz) + ez) /\ (-1074 <= e -> -1074 <= ez).
Proof.
  intros m e. rewrite fexp_64.
  destruct (shl_align_spec m e (fexp64 (dig m + e))) as [E1 E2].
  fold (dig m). destruct (shl_align m e (fexp64 (dig m + e))) as [mz ez]. cbn [fst snd] in E1, E2.
  rewrite E2, E1. rewrite dig_shift by lia. split; unfold fexp64; lia.
Qed.

Lemma binary_round_valid : forall s m e, Num.valid (binary_round Num.prec Num.emax s m e) = true.
Proof.
  intros s m e. unfold binary_round. pose proof (binary_round_input m e) as H.
  destruct (shl_align m e _) as [mz ez]. apply round_aux_valid; [lia | apply H].
Qed.

Lemma binary_round_pos : forall s m e,
  -1074 <= e ->
  binary_round Num.prec Num.emax s m e = S754_infinity s
  \/ exists m' e', binary_round Num.prec Num.emax s m e = S754_finite s m' e'.
Proof.
  intros s m e He. unfold binary_round. pose proof (binary_round_input m e) as H.
  destruct (shl_align m e _) as [mz ez]. apply round_aux_pos; [lia | now apply H].
Qed.

Lemma binary_normalize_valid : forall m e szero,
  Num.valid (binary_normalize Num.prec Num.emax m e szero) = true.
Proof. intros [|m|m] e szero; simpl; [reflexivity | apply binary_round_valid..]. Qed.

(** *** The operations give doubles *)

Lemma valid_finite : forall s m e,
  Num.valid (S754_finite s m e) = true <-> fexp64 (dig m + e) = e /\ e <= 971.
Proof.
  intros s m e. unfold Num.valid, valid_binary, bounded, canonical_mantissa.
  rewrite fexp_64, andb_true_iff, Z.eqb_eq, Z.leb_le. reflexivity.
Qed.

Lemma add_valid : forall a b,
  Num.valid a = true -> Num.valid b = true -> Num.valid (Num.add a b) = true.
Proof.
  intros [sa|sa| |sa ma ea] [sb|sb| |sb mb eb] Ha Hb; try assumption; try reflexivity;
    try (destruct sa, sb; reflexivity).
  unfold Num.add, SFadd. apply binary_normalize_valid.
Qed.

Lemma sub_valid : forall a b,
  Num.valid a = true -> Num.valid b = true -> Num.valid (Num.sub a b) = true.
Proof.
  intros [sa|sa| |sa ma ea] [sb|sb| |sb mb eb] Ha Hb; try assumption; try reflexivity;
    try (destruct sa, sb; reflexivity).
  unfold Num.sub, SFsub. apply binary_normalize_valid.
Qed.

Lemma dig_mul : forall m1 m2, dig m1 + dig m2 - 1 <= dig (m1 * m2).
Proof.
  intros m1 m2. pose proof (dig_bounds m1) as [L1 _]. pose proof (dig_bounds m2) as [L2 _].
  pose proof (dig_bounds (m1 * m2)) as [_ U]. pose proof (dig_pos m1). pose proof (dig_pos m2).
  pose proof (dig_pos (m1 * m2)).
  assert (W : 2 ^ (dig m1 - 1 + (dig m2 - 1)) < 2 ^ dig (m1 * m2)).
  { rewrite Z.pow_add_r by lia. eapply Z.le_lt_trans; [|exact U].
    rewrite Pos2Z.inj_mul. apply Z.mul_le_mono_nonneg; try lia; apply Z.pow_nonneg; lia. }
  apply Z.pow_lt_mono_r_iff in W; lia.
Qed.

Lemma mul_valid : forall a b,
  Num.valid a = true -> Num.valid b = true -> Num.valid (Num.mul a b) = true.
Proof.
  intros [sa|sa| |sa ma ea] [sb|sb| |sb mb eb] Ha Hb; try reflexivity.
  unfold Num.mul, SFmul. apply valid_finite in Ha as [Ca _], Hb as [Cb _].
  apply round_aux_valid; [lia|]. cbn [Zdigits2]. fold (dig (ma * mb)).
  pose proof (dig_mul ma mb). pose proof (dig_pos ma). pose proof (dig_pos mb).
  unfold fexp64 in *. lia.
Qed.

Lemma div_core_input : forall m1 e1 m2 e2,
  let '(q, e, _) := SFdiv_core_binary Num.prec Num.emax (Zpos m1) e1 (Zpos m2) e2 in
  0 <= q /\ e <= fexp64 (Zdigits2 q + e).
Proof.
  intros m1 e1 m2 e2. unfold SFdiv_core_binary. rewrite fexp_64. cbn [Zdigits2].
  fold (dig m1) (dig m2).
  set (e := Z.min (fexp64 (dig m1 + e1 - (dig m2 + e2))) (e1 - e2)).
  set (s := e1 - e2 - e).
  assert (Hs : 0 <= s) by (unfold s, e; lia).
  set (m' := match s with Z.pos _ => Z.shiftl (Zpos m1) s | 0 => Zpos m1 | Z.neg _ => 0 end).
  assert (Hm : m' = Zpos m1 * 2 ^ s).
  { unfold m'. destruct s as [|p|p]; [simpl; lia | now rewrite Z.shiftl_mul_pow2 by lia | lia]. }
  pose proof (Z_div_mod m' (Zpos m2) ltac:(lia)) as D.
  destruct (Z.div_eucl m' (Zpos m2)) as [q r]. destruct D as [D R].
  pose proof (dig_bounds m1) as [L1 U1]. pose proof (dig_bounds m2) as [L2 U2].
  pose proof (dig_pos m1). pose proof (dig_pos m2).
  assert (Hq : 0 <= q) by nia.
  split; [exact Hq|].
  assert (K : dig m1 + s - dig m2 <= Zdigits2 q).
  { pose proof (zd_nonneg q).
    destruct (Z.leb_spec (dig m1 + s - dig m2) 0) as [|Pos]; [lia|].
    assert (B : 2 ^ (dig m1 + s - dig m2 - 1) <= q).
    { assert (2 ^ (dig m1 + s - dig m2 - 1) * Zpos m2 <= m').
      { rewrite Hm.
        replace (dig m1 + s - dig m2 - 1) with ((dig m1 - 1) + s - dig m2) by lia.
        assert (E : 2 ^ (dig m1 - 1 + s) = 2 ^ (dig m1 - 1 + s - dig m2) * 2 ^ dig m2)
          by (rewrite <- Z.pow_add_r by lia; f_equal; lia).
        assert (0 <= 2 ^ (dig m1 - 1 + s - dig m2)) by (apply Z.pow_nonneg; lia).
        assert (0 < 2 ^ s) by (apply Z.pow_pos_nonneg; lia).
        assert (2 ^ (dig m1 - 1 + s) <= Zpos m1 * 2 ^ s)
          by (rewrite Z.pow_add_r by lia; nia).
        nia. }
      assert (0 < 2 ^ (dig m1 + s - dig m2 - 1)) by (apply Z.pow_pos_nonneg; lia).
      nia. }
    assert (0 < q) by (assert (0 < 2 ^ (dig m1 + s - dig m2 - 1)) by (apply Z.pow_pos_nonneg; lia); lia).
    destruct (zd_bounds q ltac:(lia)) as (_ & _ & U).
    assert (W : 2 ^ (dig m1 + s - dig m2 - 1) < 2 ^ Zdigits2 q) by lia.
    apply Z.pow_lt_mono_r_iff in W; lia. }
  unfold s in K. unfold fexp64 in *. lia.
Qed.

Lemma div_valid : forall a b, Num.valid (Num.div a b) = true.
Proof.
  intros [sa|sa| |sa ma ea] [sb|sb| |sb mb eb]; try reflexivity.
  unfold Num.div, SFdiv. pose proof (div_core_input ma ea mb eb) as H.
  destruct (SFdiv_core_binary Num.prec Num.emax (Zpos ma) ea (Zpos mb) eb) as [[q e] l].
  now apply round_aux_valid.
Qed.


(** *** The sign of a difference *)

(** Two positive doubles compare as their mantissas at the smaller of the
    two exponents. *)
Lemma aligned_compare : forall m1 e1 m2 e2,
  fexp64 (dig m1 + e1) = e1 -> fexp64 (dig m2 + e2) = e2 ->
  (Zpos (fst (shl_align m1 e1 (Z.min e1 e2))) ?= Zpos (fst (shl_align m2 e2 (Z.min e1 e2))))
  = match e1 ?= e2 with
    | Lt => Lt
    | Gt => Gt
    | Eq => Pos.compare_cont Eq m1 m2
    end.
Proof.
  intros m1 e1 m2 e2 C1 C2.
  destruct (shl_align_spec m1 e1 (Z.min e1 e2)) as [_ ->].
  destruct (shl_align_spec m2 e2 (Z.min e1 e2)) as [_ ->].
  pose proof (dig_bounds m1) as [L1 U1]. pose proof (dig_bounds m2) as [L2 U2].
  pose proof (dig_pos m1). pose proof (dig_pos m2).
  destruct (Z.compare_spec e1 e2) as [E|E|E].
  - subst e2. rewrite !Z.min_id, Z.sub_diag. change (2 ^ 0) with 1. rewrite !Z.mul_1_r.
    reflexivity.
  - replace (Z.min e1 (Z.min e1 e2)) with e1 by lia. replace (Z.min e2 (Z.min e1 e2)) with e1 by lia.
    rewrite Z.sub_diag. change (2 ^ 0) with 1. rewrite Z.mul_1_r. apply Z.compare_lt_iff.
    assert (D : dig m1 + e1 < dig m2 + e2) by (unfold fexp64 in *; lia).
    assert (2 ^ dig m1 <= 2 ^ (dig m2 - 1 + (e2 - e1))) by (apply Z.pow_le_mono_r; lia).
    rewrite Z.pow_add_r in H1 by lia.
    assert (0 < 2 ^ (e2 - e1)) by (apply Z.pow_pos_nonneg; lia). nia.
  - replace (Z.min e1 (Z.min e1 e2)) with e2 by lia. replace (Z.min e2 (Z.min e1 e2)) with e2 by lia.
    rewrite Z.sub_diag. change (2 ^ 0) with 1. rewrite Z.mul_1_r. apply Z.compare_gt_iff.
    assert (D : dig m2 + e2 < dig m1 + e1) by (unfold fexp64 in *; lia).
    assert (2 ^ dig m2 <= 2 ^ (dig m1 - 1 + (e1 - e2))) by (apply Z.pow_le_mono_r; lia).
    rewrite Z.pow_add_r in H1 by lia.
    assert (0 < 2 ^ (e1 - e2)) by (apply Z.pow_pos_nonneg; lia). nia.
Qed.

(** The sign of what [binary_normalize] gives is the sign of the integer. *)
Lemma normalize_sign : forall z e,
  -1074 <= e ->
  SFltb (S754_zero false) (binary_normalize Num.prec Num.emax z e false) = (0 <? z).
Proof.
  intros [|m|m] e He; simpl binary_normalize.
  - reflexivity.
  - destruct (binary_round_pos false m e He) as [-> | (m' & e' & ->)]; reflexivity.
  - unfold binary_round. destruct (shl_align m e _) as [mz ez]. unfold binary_round_aux.
    destruct (shr_fexp _ _ _ _ _) as [r1 e1]. destruct (shr_fexp _ _ _ _ _) as [r2 e2].
    destruct (shr_m r2); try reflexivity. destruct (e2 <=? _); reflexivity.
Qed.

(** Two doubles compare as their signed mantissas at the smaller of the two
    exponents. *)
Lemma finite_compare : forall sa ma ea sb mb eb,
  fexp64 (dig ma + ea) = ea -> fexp64 (dig mb + eb) = eb ->
  SFcompare (S754_finite sa ma ea) (S754_finite sb mb eb)
  = Some (cond_Zopp sa (Zpos (fst (shl_align ma ea (Z.min ea eb))))
          ?= cond_Zopp sb (Zpos (fst (shl_align mb eb (Z.min ea eb))))).
Proof.
  intros sa ma ea sb mb eb Ca Cb. pose proof (aligned_compare ma ea mb eb Ca Cb) as A.
  set (x := Zpos (fst (shl_align ma ea (Z.min ea eb)))) in *.
  set (y := Zpos (fst (shl_align mb eb (Z.min ea eb)))) in *.
  assert (Px : 0 < x) by (unfold x; lia). assert (Py : 0 < y) by (unfold y; lia).
  unfold SFcompare. destruct sa, sb; cbn [cond_Zopp]; f_equal.
  - rewrite Z.compare_opp, (Z.compare_antisym x y), A. now destruct (ea ?= eb).
  - now rewrite A.
Qed.

(** [a - b > 0] exactly when [a > b]: the comparator [(a, b) => a - b] orders
    doubles as [<] does. *)
Lemma sub_positive : forall a b,
  Num.valid a = true -> Num.valid b = true ->
  Num.gtb (Num.sub a b) Num.zero = Num.gtb a b.
Proof.
  intros [sa|sa| |sa ma ea] [sb|sb| |sb mb eb] Ha Hb;
    try reflexivity; try (destruct sa, sb; reflexivity); try (destruct sa; reflexivity);
    try (destruct sb; reflexivity).
  apply valid_finite in Ha as [Ca _], Hb as [Cb _].
  unfold Num.gtb, Num.sub, SFsub, Num.zero.
  rewrite normalize_sign by (unfold fexp64 in *; lia).
  unfold SFltb. rewrite (finite_compare sb mb eb sa ma ea Cb Ca), (Z.min_comm eb ea).
  set (x := cond_Zopp sa _). set (y := cond_Zopp sb _).
  destruct (Z.compare_spec y x), (Z.ltb_spec 0 (x - y)); try reflexivity; lia.
Qed.

(** A positive mantissa that the first shift of [binary_round_aux] does not
    shift out rounds to a number that is not zero and not NaN. *)
Lemma round_aux_kept : forall s m e l,
  0 < m -> fexp64 (Zdigits2 m + e) - e < Zdigits2 m ->
  binary_round_aux Num.prec Num.emax s m e l = S754_infinity s
  \/ exists m' e', binary_round_aux Num.prec Num.emax s m e l = S754_finite s m' e'.
Proof.
  intros s m e l Hm He. unfold binary_round_aux.
  destruct (shr_fexp_spec Num.prec Num.emax m e l ltac:(lia)) as [E1 E2].
  rewrite fexp_64 in E1, E2.
  assert (P1 : 0 < shr_m (fst (shr_fexp Num.prec Num.emax m e l))).
  { rewrite E1. apply zd_div; [assumption|]. pose proof (zd_bounds m Hm). lia. }
  assert (Q1 : -1074 <= snd (shr_fexp Num.prec Num.emax m e l)).
  { rewrite E2. unfold fexp64. lia. }
  destruct (shr_fexp Num.prec Num.emax m e l) as [r1 e1]. simpl in P1, Q1.
  pose proof (round_pos (shr_m r1) (loc_of_shr_record r1) P1) as P2.
  destruct (shift_pos _ e1 loc_Exact P2 Q1) as [P3 Q3].
  destruct (shr_fexp Num.prec Num.emax _ e1 loc_Exact) as [r2 e2]. simpl in P3, Q3.
  destruct (shr_m r2) as [|q|q]; try lia.
  destruct (e2 <=? Num.emax - Num.prec); [right; eauto | now left].
Qed.

(** Three times a positive double is not zero. *)
Lemma triple_positive : forall a,
  Num.valid a = true -> Num.gtb a Num.zero = true -> Num.truthy (Num.mul a lit_3) = true.
Proof.
  intros [s|s| |s m e] V P; try discriminate.
  - destruct s; [discriminate | reflexivity].
  - destruct s; [discriminate|].
    change lit_3 with (S754_finite false 6755399441055744 (-51)).
    unfold Num.mul, SFmul. apply valid_finite in V as [C _].
    assert (K : fexp64 (Zdigits2 (Zpos (m * 6755399441055744)) + (e + -51)) - (e + -51)
                < Zdigits2 (Zpos (m * 6755399441055744))).
    { cbn [Zdigits2]. fold (dig (m * 6755399441055744)).
      pose proof (dig_mul m 6755399441055744) as D. pose proof (dig_pos m).
      change (dig 6755399441055744) with 53 in D.
      unfold fexp64 in *. lia. }
    destruct (round_aux_kept (xorb false false) (Zpos (m * 6755399441055744)) (e + -51) loc_Exact
                ltac:(lia) K) as [-> | (m' & e' & ->)]; reflexivity.
Qed.

(** Two doubles that compare as equal are the same double or two zeros. *)
Lemma compare_eq_cases : forall a b,
  Num.leb a b = true -> Num.leb b a = true ->
  a = b \/ (exists s s', a = S754_zero s /\ b = S754_zero s').
Proof.
  intros a b H1 H2.
  assert (E : SFcompare a b = Some Eq).
  { destruct (Num.ltb a b) eqn:L.
    - apply NumFacts.leb_not_ltb in H2. unfold Num.ltb in *. congruence.
    - unfold Num.leb, Num.ltb, SFleb, SFltb in *.
      destruct (SFcompare a b) as [[| |]|]; congruence. }
  clear H1 H2.
  destruct a as [[]|[]| |[] ma ea], b as [[]|[]| |[] mb eb]; simpl in E; try discriminate;
    try (now left); try (right; eauto; fail).
  - destruct (Z.compare_spec ea eb) as [->| |]; try discriminate.
    left. f_equal. apply Pos.compare_eq. unfold Pos.compare.
    destruct (Pos.compare_cont Eq ma mb); simpl in E; congruence.
  - destruct (Z.compare_spec ea eb) as [->| |]; try discriminate.
    left. f_equal. apply Pos.compare_eq. unfold Pos.compare. congruence.
Qed.

(** Scaling two doubles that compare as equal gives the same threshold. *)
Lemma geb_scaled : forall a b k x s m e,
  k = S754_finite s m e ->
  Num.leb a b = true -> Num.leb b a = true ->
  Num.geb x (Num.mul a k) = Num.geb x (Num.mul b k).
Proof.
  intros a b k x s m e -> H1 H2.
  destruct (compare_eq_cases a b H1 H2) as [->|(sa & sb & -> & ->)]; [reflexivity|].
  unfold Num.geb, Num.leb, Num.mul, SFmul, SFleb.
  destruct sa, sb, s, x as [[]|[]| |[] ? ?]; reflexivity.
Qed.

End DoubleFacts.

(** ** Sorting with a comparator *)

Module OrderFacts.
Import OrderSpec.

Section Generic.
Context {A : Type}.
Variable le : A -> A -> bool.
Variable compareFn : A -> A -> number.
Variable dom : A -> Prop.

Hypothesis total : forall a b, dom a -> dom b -> le a b = true \/ le b a = true.
Hypothesis trans : forall a b c, dom a -> dom b -> dom c ->
  le a b = true -> le b c = true -> le a c = true.
Hypothesis compare_le : forall a b, dom a -> dom b ->
  Num.gtb (compareFn a b) Num.zero = negb (le a b).

Local Abbreviation insert := (JsArray.insert compareFn).
Local Abbreviation sort := (JsArray.sort compareFn).
Local Abbreviation sorted := (Sorted.StronglySorted (fun a b => le a b = true)).

Lemma insert_perm : forall a s, Permutation.Permutation (a :: s) (insert a s).
Proof.
  intros a s. induction s as [|b r IH]; simpl; [apply Permutation.Permutation_refl|].
  destruct (Num.gtb (compareFn a b) Num.zero); [|apply Permutation.Permutation_refl].
  eapply Permutation.perm_trans; [apply Permutation.perm_swap|].
  now apply Permutation.perm_skip.
Qed.

Lemma sort_perm : forall l, Permutation.Permutation l (sort l).
Proof.
  induction l as [|a l IH]; simpl; [constructor|].
  eapply Permutation.perm_trans; [apply Permutation.perm_skip, IH | apply insert_perm].
Qed.

Lemma insert_sorted : forall a s,
  dom a -> (forall x, In x s -> dom x) -> sorted s -> sorted (insert a s).
Proof.
  intros a s Da. induction s as [|b r IH]; intros Ds S; simpl.
  - constructor; constructor.
  - assert (Db : dom b) by (apply Ds; now left).
    assert (Dr : forall x, In x r -> dom x) by (intros x Hx; apply Ds; now right).
    inversion S as [|b' r' Sr Fb]; subst.
    rewrite (compare_le a b Da Db). destruct (le a b) eqn:L; simpl.
    + constructor; [exact S|]. constructor; [exact L|].
      rewrite Forall_forall in *. intros x Hx. apply (trans a b x); auto.
    + constructor; [now apply IH|].
      apply (Permutation.Permutation_Forall (insert_perm a r)).
      constructor; [|exact Fb].
      destruct (total a b Da Db) as [H|H]; [congruence | exact H].
Qed.

Lemma insert_ties : forall a s y,
  dom a -> dom y -> (forall x, In x s -> dom x) ->
  filter (tied le y) (insert a s) = filter (tied le y) (a :: s).
Proof.
  intros a s y Da Dy. induction s as [|b r IH]; intros Ds; [reflexivity|].
  assert (Db : dom b) by (apply Ds; now left).
  assert (Dr : forall x, In x r -> dom x) by (intros x Hx; apply Ds; now right).
  cbn [JsArray.insert]. rewrite (compare_le a b Da Db).
  destruct (le a b) eqn:L; [reflexivity|]. cbn [negb filter]. rewrite (IH Dr). cbn [filter].
  destruct (tied le y b) eqn:Tb, (tied le y a) eqn:Ta; try reflexivity.
  unfold tied in *. apply andb_true_iff in Tb as [Tb _], Ta as [_ Ta].
  rewrite (trans a y b Da Dy Db) in L by assumption. discriminate.
Qed.

Lemma sort_dom : forall l, (forall x, In x l -> dom x) -> forall x, In x (sort l) -> dom x.
Proof.
  intros l D x Hx. apply D. eapply Permutation.Permutation_in; [|exact Hx].
  apply Permutation.Permutation_sym, sort_perm.
Qed.

Lemma sort_sorted : forall l, (forall x, In x l -> dom x) -> sorted (sort l).
Proof.
  induction l as [|a l IH]; intros D; [constructor|].
  cbn [JsArray.sort fold_right]. fold (JsArray.sort compareFn l).
  assert (Dl : forall x, In x l -> dom x) by (intros x Hx; apply D; now right).
  apply insert_sorted; [apply D; now left | now apply sort_dom | now apply IH].
Qed.

Lemma sort_ties : forall l y,
  dom y -> (forall x, In x l -> dom x) ->
  filter (tied le y) (sort l) = filter (tied le y) l.
Proof.
  induction l as [|a l IH]; intros y Dy D; [reflexivity|].
  cbn [JsArray.sort fold_right]. fold (JsArray.sort compareFn l).
  assert (Dl : forall x, In x l -> dom x) by (intros x Hx; apply D; now right).
  rewrite insert_ties; [|apply D; now left | exact Dy | now apply sort_dom].
  cbn [filter]. now rewrite (IH y Dy Dl).
Qed.

(** The sort arranges the items in the order of [le]. *)
Lemma sort_arranged : forall l, (forall x, In x l -> dom x) -> arranged le l (sort l).
Proof.
  intros l D. split; [apply sort_perm|]. split; [now apply sort_sorted|].
  intros y Hy. apply sort_ties; [now apply D | exact D].
Qed.

Lemma le_refl : forall a, dom a -> le a a = true.
Proof. intros a D. now destruct (total a a D D). Qed.

Lemma sorted_unique : forall s1 s2,
  (forall x, In x s1 -> dom x) ->
  Permutation.Permutation s1 s2 -> sorted s1 -> sorted s2 ->
  (forall y, In y s1 -> filter (tied le y) s1 = filter (tied le y) s2) ->
  s1 = s2.
Proof.
  induction s1 as [|h1 t1 IH]; intros s2 D P S1 S2 T.
  - now apply Permutation.Permutation_nil in P.
  - destruct s2 as [|h2 t2]; [now apply Permutation.Permutation_sym, Permutation.Permutation_nil in P|].
    assert (D1 : dom h1) by (apply D; now left).
    assert (D2 : dom h2).
    { apply D. eapply Permutation.Permutation_in;
        [apply Permutation.Permutation_sym, P | now left]. }
    inversion S1 as [|? ? St1 F1]; subst. inversion S2 as [|? ? St2 F2]; subst.
    rewrite Forall_forall in F1, F2.
    assert (L12 : le h1 h2 = true).
    { assert (I : In h2 (h1 :: t1))
        by (eapply Permutation.Permutation_in; [apply Permutation.Permutation_sym, P | now left]).
      destruct I as [<-|I]; [now apply le_refl | now apply F1]. }
    assert (L21 : le h2 h1 = true).
    { assert (I : In h1 (h2 :: t2)) by (eapply Permutation.Permutation_in; [exact P | now left]).
      destruct I as [<-|I]; [now apply le_refl | now apply F2]. }
    pose proof (T h1 (or_introl eq_refl)) as T1. cbn [filter] in T1.
    assert (E1 : tied le h1 h1 = true) by (unfold tied; now rewrite le_refl).
    assert (E2 : tied le h1 h2 = true) by (unfold tied; now rewrite L12, L21).
    rewrite E1, E2 in T1. injection T1 as <- T1.
    f_equal. apply IH; [intros x Hx; apply D; now right | | assumption | assumption |].
    + now apply Permutation.Permutation_cons_inv in P.
    + intros y Hy. pose proof (T y (or_intror Hy)) as Ty. cbn [filter] in Ty.
      destruct (tied le y h1); [now injection Ty | exact Ty].
Qed.

(** There is one arrangement only. *)
Lemma arranged_unique : forall l s1 s2,
  (forall x, In x l -> dom x) -> arranged le l s1 -> arranged le l s2 -> s1 = s2.
Proof.
  intros l s1 s2 D (P1 & S1 & T1) (P2 & S2 & T2).
  assert (I : forall x, In x s1 -> In x l).
  { intros x Hx. eapply Permutation.Permutation_in; [apply Permutation.Permutation_sym, P1 | exact Hx]. }
  apply sorted_unique; [auto | | assumption | assumption |].
  - eapply Permutation.perm_trans; [apply Permutation.Permutation_sym, P1 | exact P2].
  - intros y Hy. now rewrite T1, T2 by auto.
Qed.

End Generic.

(** The comparators [(a, b) => key(a) - key(b)] and [(a, b) => key(b) - key(a)]
    sort by key, in ascending and in descending order, when the keys are
    doubles other than NaN. *)

Lemma leb_total : forall a b,
  Num.is_nan a = false -> Num.is_nan b = false -> Num.leb a b = true \/ Num.leb b a = true.
Proof.
  intros a b Ha Hb. destruct (Num.ltb b a) eqn:L.
  - right. destruct (Num.leb b a) eqn:E; [reflexivity|]. NumFacts.by_rank.
  - left. now apply NumFacts.not_ltb_leb.
Qed.

Lemma leb_trans : forall a b c,
  Num.leb a b = true -> Num.leb b c = true -> Num.leb a c = true.
Proof. intros a b c H1 H2. NumFacts.by_rank. Qed.

Lemma gtb_not_leb : forall a b,
  Num.is_nan a = false -> Num.is_nan b = false -> Num.gtb a b = negb (Num.leb a b).
Proof.
  intros a b Ha Hb. change (Num.gtb a b) with (Num.ltb b a).
  destruct (Num.leb a b) eqn:L; simpl.
  - now apply NumFacts.leb_not_ltb.
  - destruct (Num.ltb b a) eqn:E; [reflexivity|].
    apply NumFacts.not_ltb_leb in E; [|assumption..]. congruence.
Qed.

Section ByKey.
Context {A : Type}.
Variable key : A -> number.

Lemma numeric_keyed : forall l,
  numeric key l = true -> (forall x, In x l -> Num.valid (key x) = true) ->
  forall x, In x l -> keyed key x.
Proof.
  intros l N V x Hx. split; [|now apply V]. unfold numeric in N. rewrite forallb_forall in N.
  apply N in Hx. now apply negb_true_iff in Hx.
Qed.

Lemma sort_ascending : forall l,
  numeric key l = true -> (forall x, In x l -> Num.valid (key x) = true) ->
  ascending key l (JsArray.sort (fun a b => Num.sub (key a) (key b)) l).
Proof.
  intros l N V. apply (sort_arranged _ _ (keyed key)).
  - intros a b [Na _] [Nb _]. now apply leb_total.
  - intros a b c _ _ _. apply leb_trans.
  - intros a b [Na Va] [Nb Vb]. rewrite DoubleFacts.sub_positive by assumption.
    now apply gtb_not_leb.
  - now apply numeric_keyed.
Qed.

Lemma sort_descending : forall l,
  numeric key l = true -> (forall x, In x l -> Num.valid (key x) = true) ->
  descending key l (JsArray.sort (fun a b => Num.sub (key b) (key a)) l).
Proof.
  intros l N V. apply (sort_arranged _ _ (keyed key)).
  - intros a b [Na _] [Nb _]. unfold Num.geb. destruct (leb_total (key a) (key b) Na Nb); auto.
  - intros a b c _ _ _ H1 H2. unfold Num.geb in *. eapply leb_trans; eassumption.
  - intros a b [Na Va] [Nb Vb]. rewrite DoubleFacts.sub_positive by assumption.
    unfold Num.geb. now apply gtb_not_leb.
  - now apply numeric_keyed.
Qed.

Lemma ascending_unique : forall l s1 s2,
  numeric key l = true -> ascending key l s1 -> ascending key l s2 -> s1 = s2.
Proof.
  intros l s1 s2 N. apply (arranged_unique _ (fun a => Num.is_nan (key a) = false)).
  - intros a b Na Nb. now apply leb_total.
  - intros x Hx. unfold numeric in N. rewrite forallb_forall in N.
    apply N in Hx. now apply negb_true_iff in Hx.
Qed.

End ByKey.

End OrderFacts.

(** ** Strings *)

Module StrFacts.

Lemma append_empty_r : forall s : string, (s ++ "")%string = s.
Proof. induction s as [|c s IH]; simpl; [reflexivity | now rewrite IH]. Qed.

End StrFacts.

(** ** Bounding boxes *)

Module BBoxFacts.

Import BBoxSpec.

(** C6, as the code has it: both [computeItemBBox] functions give the box
    [left = x - width/2], [right = x + width/2], [top = y - height/2],
    [bottom = y + height/2] (the flowchart one also keeps [width] and
    [height]), where [x] and [y] are the position's when they are numbers and
    the geometry's otherwise; the box is undefined exactly when one of the
    resolved [x], [y], [width], [height] is not of type number. *)
Theorem computeItemBBox_resolved : forall item : Item.t,
  (Mermaid.computeItemBBox item = None <->
     (resolvedX item = None \/ resolvedY item = None
      \/ resolvedWidth item = None \/ resolvedHeight item = None))
  /\ (Erd.computeItemBBox (Some item) = None <-> Mermaid.computeItemBBox item = None)
  /\ Erd.computeItemBBox None = None
  /\ match resolvedX item, resolvedY item, resolvedWidth item, resolvedHeight item with
     | Some x, Some y, Some w, Some h =>
         Mermaid.computeItemBBox item =
           Some {| BBox.left := Num.sub x (half w); BBox.right := Num.add x (half w);
                   BBox.top := Num.sub y (half h); BBox.bottom := Num.add y (half h);
                   BBox.width := w; BBox.height := h |}
         /\ Erd.computeItemBBox (Some item) =
           Some {| Rect.left := Num.sub x (half w); Rect.right := Num.add x (half w);
                   Rect.top := Num.sub y (half h); Rect.bottom := Num.add y (half h) |}
     | _, _, _, _ => True
     end.
Proof.
  intros item.
  unfold Mermaid.computeItemBBox, Erd.computeItemBBox,
    resolvedX, resolvedY, resolvedWidth, resolvedHeight, half.
  destruct (number_or _ (Geometry.x _)) as [x|];
    destruct (number_or _ (Geometry.y _)) as [y|];
    destruct (Geometry.width _) as [w|];
    destruct (Geometry.height _) as [h|];
    repeat split; intros; try discriminate; auto;
    try (match goal with H : _ \/ _ |- _ => decompose [or] H; discriminate end).
Qed.

(** C6, the reading with finite numbers and the position as only source of
    [x] and [y], fails: an item without a position still has a box when its
    geometry carries [x] and [y]. *)
Lemma undefinedWhenNotFinite_fails : ~ undefinedWhenNotFinite geometryOnlyItem.
Proof.
  unfold undefinedWhenNotFinite. intros [_ H].
  assert (E : Mermaid.computeItemBBox geometryOnlyItem = None) by (apply H; left; reflexivity).
  vm_compute in E. discriminate.
Qed.

(** A number that is not finite is accepted as well: the test is on the type. *)
Lemma infinite_width_has_box : Mermaid.computeItemBBox infiniteWidthItem <> None.
Proof. vm_compute. discriminate. Qed.

End BBoxFacts.

(** ** Cardinalities of the entity-relationship diagram *)

Module ErdFacts.

Import ErdSpec.




End ErdFacts.

(** ** Primary-key candidates *)

Module PkFacts.

Import PkSpec.

Lemma all_chars_app : forall P s1 s2,
  all_chars P (s1 ++ s2)%string = all_chars P s1 && all_chars P s2.
Proof.
  intros P s1 s2. induction s1 as [|c s1 IH]; simpl; [reflexivity|].
  now rewrite IH, andb_assoc.
Qed.

Lemma space_not_newline : forall c, Str.is_space c = false -> not_newline c = true.
Proof.
  intros c H. unfold not_newline. destruct (Ascii.eqb c "010"%char) eqn:E; [|reflexivity].
  apply Ascii.eqb_eq in E. subst c. discriminate H.
Qed.

(** Replacing every run of white space by one blank leaves no line feed. *)
Lemma collapse_no_newline : forall s skip,
  all_chars not_newline (Re.replace_go Re.ws (fun _ => " ") skip s) = true.
Proof.
  induction s as [|c r IH]; intros skip; simpl; [reflexivity|].
  destruct skip as [|k]; [|apply IH].
  unfold Re.ws at 1. simpl.
  destruct (Str.is_space c) eqn:E.
  - simpl. apply IH.
  - simpl. now rewrite IH, (space_not_newline c E).
Qed.

Lemma trimStart_all : forall P s, all_chars P s = true -> all_chars P (Str.trimStart s) = true.
Proof.
  intros P s. induction s as [|c r IH]; simpl; [reflexivity|].
  intros H. apply andb_true_iff in H as [Hc Hr].
  destruct (Str.is_space c); [now apply IH | simpl; now rewrite Hc, Hr].
Qed.

Lemma trimEnd_all : forall P s, all_chars P s = true -> all_chars P (Str.trimEnd s) = true.
Proof.
  intros P s. induction s as [|c r IH]; simpl; [reflexivity|].
  intros H. apply andb_true_iff in H as [Hc Hr]. specialize (IH Hr).
  destruct (Str.trimEnd r) as [|c' r'].
  - destruct (Str.is_space c); simpl; [reflexivity | now rewrite Hc].
  - simpl in *. now rewrite Hc, IH.
Qed.

Lemma htmlToPlain_no_newline : forall t, all_chars not_newline (htmlToPlain t) = true.
Proof.
  intros t. unfold htmlToPlain.
  destruct (negb (Str.truthy_opt t)); [reflexivity|].
  unfold Str.trim. apply trimEnd_all, trimStart_all. apply collapse_no_newline.
Qed.

Lemma split_lines_single : forall s,
  all_chars not_newline s = true -> Re.split_lines s = [s].
Proof.
  induction s as [|c r IH]; [reflexivity|].
  intros H. cbn [all_chars] in H. apply andb_true_iff in H as [Hc Hr].
  unfold not_newline in Hc. apply negb_true_iff in Hc.
  cbn [Re.split_lines]. rewrite Hc.
  assert (Re.starts_with Str.newline r = false) as N.
  { destruct r as [|c' r']; [reflexivity|].
    change (all_chars not_newline (String c' r'))
      with (not_newline c' && all_chars not_newline r') in Hr.
    apply andb_true_iff in Hr as [Hc' _]. unfold not_newline in Hc'.
    apply negb_true_iff in Hc'.
    change (Re.starts_with Str.newline (String c' r'))
      with (Ascii.eqb "010"%char c' && true).
    rewrite Ascii.eqb_sym. now rewrite Hc'. }
  rewrite N, andb_false_r. now rewrite (IH Hr).
Qed.

(** The text [htmlToPlain] returns is one line: the candidates are taken from
    at most one line. *)
Lemma pkLines_single : forall item : option Item.t,
  Erd.pkLines (Erd.pkPlainText item) = filter Str.truthy [Str.trim (Erd.pkPlainText item)].
Proof.
  intros item. unfold Erd.pkLines. rewrite split_lines_single; [reflexivity|].
  apply htmlToPlain_no_newline.
Qed.

(** C8, the code at two items.  The title and the content are joined by a
    line feed and [htmlToPlain] turns every run of white space, line feeds
    included, into one blank before the text is split into lines: the
    candidates are the whole text as one line.  Of the lines [Order] and
    [amount] the specification makes the first line the candidate, and of
    the lines [Order], [valid until] and [amount] the one that contains
    [id]. *)
Theorem pkCandidates_join_the_lines :
  Erd.extractPkCandidatesFromItem (Some orderItem) = ["Order amount"]
  /\ candidatesOf ["Order"; "amount"] = ["Order"]
  /\ Erd.extractPkCandidatesFromItem (Some validItem) = ["Order valid until amount"]
  /\ candidatesOf ["Order"; "valid until"; "amount"] = ["valid until"].
Proof. repeat split; vm_compute; reflexivity. Qed.

End PkFacts.

(** ** Maps *)

Module JsMapFacts.
Section WithValue.
Context {V : Type}.
Implicit Types (m : JsMap.t V) (k : string) (v : V).

Lemma get_set_same : forall m k v, JsMap.get (JsMap.set m k v) k = Some v.
Proof.
  induction m as [|[k' v'] m IH]; intros k v; simpl.
  - now rewrite String.eqb_refl.
  - destruct (String.eqb k' k) eqn:E; simpl; rewrite E; [reflexivity | apply IH].
Qed.

Lemma get_set_other : forall m k k' v, k <> k' -> JsMap.get (JsMap.set m k v) k' = JsMap.get m k'.
Proof.
  induction m as [|[k0 v0] m IH]; intros k k' v N; simpl.
  - apply String.eqb_neq in N. now rewrite N.
  - destruct (String.eqb k0 k) eqn:E; simpl.
    + apply String.eqb_eq in E. subst k0. apply String.eqb_neq in N. now rewrite N.
    + destruct (String.eqb k0 k'); [reflexivity | now apply IH].
Qed.

Lemma get_In : forall m k v, JsMap.get m k = Some v -> In (k, v) m.
Proof.
  induction m as [|[k0 v0] m IH]; intros k v; simpl; [discriminate|].
  destruct (String.eqb k0 k) eqn:E.
  - apply String.eqb_eq in E. subst k0. intros [= ->]. now left.
  - intros H. right. now apply IH.
Qed.

Lemma keys_set : forall m k v x,
  In x (JsMap.keys (JsMap.set m k v)) -> x = k \/ In x (JsMap.keys m).
Proof.
  induction m as [|[k0 v0] m IH]; intros k v x; simpl.
  - intros [<-|[]]. now left.
  - destruct (String.eqb k0 k); simpl; [tauto|].
    intros [<-|H]; [tauto|]. apply IH in H. tauto.
Qed.

(** A map built with [set] holds every key once. *)
Lemma set_nodup : forall m k v,
  NoDup (JsMap.keys m) -> NoDup (JsMap.keys (JsMap.set m k v)).
Proof.
  induction m as [|[k0 v0] m IH]; intros k v N; simpl.
  - constructor; [intros [] | constructor].
  - inversion N as [|? ? N1 N2]; subst. destruct (String.eqb k0 k) eqn:E; simpl.
    + now constructor.
    + constructor; [|now apply IH].
      intros H. apply keys_set in H as [H|H]; [|contradiction].
      subst k0. now rewrite String.eqb_refl in E.
Qed.

Lemma In_get : forall m k v, NoDup (JsMap.keys m) -> In (k, v) m -> JsMap.get m k = Some v.
Proof.
  induction m as [|[k0 v0] m IH]; intros k v N; simpl; [intros []|].
  inversion N as [|? ? N1 N2]; subst.
  intros [[= -> ->]|H]; [now rewrite String.eqb_refl|].
  destruct (String.eqb k0 k) eqn:E; [|now apply IH].
  apply String.eqb_eq in E. subst k0. exfalso. apply N1.
  change k with (fst (k, v)). now apply in_map.
Qed.

End WithValue.
End JsMapFacts.

(** ** The candidate of least area *)

Module LeastAreaFacts.
Section Fold.
Variable passes : string -> bool.
Variable area : string -> number.

Local Abbreviation step := (LeastArea.step passes area).
Local Abbreviation run := (LeastArea.run passes area).

Lemma run_snoc : forall l p, run (l ++ [p]) = step (run l) p.
Proof. intros l p. unfold LeastArea.run. now rewrite fold_left_app. Qed.

(** What is chosen passed the tests and is in the list. *)
Lemma run_some : forall l p, fst (run l) = Some p -> passes p = true /\ In p l /\ snd (run l) = area p.
Proof.
  induction l as [|x l IH] using rev_ind; intros p; [discriminate|].
  rewrite run_snoc. unfold LeastArea.step.
  destruct (passes x) eqn:P.
  - destruct (Num.ltb (area x) (snd (run l))).
    + simpl. intros [= <-]. rewrite in_app_iff. simpl. auto.
    + intros H. destruct (IH p H) as (? & ? & ?). rewrite in_app_iff. auto.
  - intros H. destruct (IH p H) as (? & ? & ?). rewrite in_app_iff. auto.
Qed.

Hypothesis finite : forall p, passes p = true ->
  Num.is_nan (area p) = false /\ Num.ltb (area p) Num.POSITIVE_INFINITY = true.

(** With areas that are numbers below infinity, the loop ends with no parent
    when nothing passes, and otherwise with the first of the candidates of
    least area. *)
Lemma run_spec : forall l,
  match fst (run l) with
  | None => filter passes l = []
  | Some p =>
      exists l1 l2, filter passes l = l1 ++ p :: l2
        /\ (forall q, In q l1 -> Num.ltb (area p) (area q) = true)
        /\ (forall q, In q l2 -> Num.ltb (area q) (area p) = false)
  end
  /\ (fst (run l) = None -> snd (run l) = Num.POSITIVE_INFINITY).
Proof.
  induction l as [|x l IH] using rev_ind; [simpl; auto|].
  rewrite run_snoc, filter_app. unfold LeastArea.step. simpl.
  destruct (passes x) eqn:P; [|rewrite app_nil_r; exact IH].
  destruct IH as [IH Hinf].
  destruct (fst (run l)) as [p|] eqn:E.
  - destruct (run_some l p E) as (Pp & _ & Ha). rewrite Ha.
    destruct IH as (l1 & l2 & Hf & H1 & H2).
    destruct (Num.ltb (area x) (area p)) eqn:L; simpl.
    + split; [|discriminate]. exists (l1 ++ p :: l2), []. rewrite Hf. split; [reflexivity|].
      split; [|intros q []].
      intros q Hq. apply in_app_iff in Hq as [Hq|[<-|Hq]].
      * eapply NumFacts.ltb_trans; [exact L | now apply H1].
      * exact L.
      * assert (Pq : passes q = true).
        { assert (In q (filter passes l)) as I by (rewrite Hf, in_app_iff; simpl; auto).
          now apply filter_In in I. }
        eapply NumFacts.ltb_not_ltb_trans; [apply (finite q Pq) | exact L | now apply H2].
    + rewrite E. split; [|discriminate]. exists l1, (l2 ++ [x]). rewrite Hf, <- app_assoc. simpl.
      split; [reflexivity|]. split; [exact H1|].
      intros q Hq. apply in_app_iff in Hq as [Hq|[<-|[]]]; [now apply H2 | exact L].
  - rewrite (Hinf eq_refl). destruct (finite x P) as [_ F]. rewrite F. simpl.
    split; [|discriminate]. exists [], []. rewrite IH. simpl. split; [reflexivity|].
    split; intros q [].
Qed.

End Fold.
End LeastAreaFacts.

(** ** Containment *)

Module ContainmentFacts.
Import ContainmentSpec.

Section Facts.
Variable frameItems : list Item.t.

Lemma colour_spec : forall item, Mermaid.getItemColor item = colour item.
Proof.
  intros [[id ty pos geo [[fill theme bg]|] data]|]; [| |reflexivity]; [|reflexivity].
  destruct fill as [[|? ?]|], theme as [[|? ?]|], bg as [[|? ?]|]; reflexivity.
Qed.

Lemma colour_truthy : forall item c, colour item = Some c -> Str.truthy c = true.
Proof.
  intros [[id ty pos geo [[fill theme bg]|] data]|] c; simpl; try discriminate.
  destruct (Str.truthy_opt fill) eqn:F; [intros ->; exact F|].
  destruct (Str.truthy_opt theme) eqn:T; [intros ->; exact T|].
  destruct (Str.truthy_opt bg) eqn:B; [intros ->; exact B | discriminate].
Qed.

Lemma colorOf_colourOf : forall id, colorOf frameItems id = colourOf frameItems id.
Proof. intros id. apply colour_spec. Qed.


Lemma idToBBox_keys : forall l m k v,
  JsMap.get
    (fold_left
       (fun m node =>
          match JsMap.get (Mermaid.idToItem frameItems) (Node.id node) with
          | None => m
          | Some item =>
              match Mermaid.computeItemBBox item with
              | Some bbox => JsMap.set m (Node.id node) bbox
              | None => m
              end
          end) l m) k = Some v ->
  JsMap.get m k = Some v \/ In k (map Node.id l).
Proof.
  induction l as [|a l IH]; intros m k v H; simpl in *; [now left|].
  apply IH in H as [H|H]; [|now right; right].
  destruct (JsMap.get (Mermaid.idToItem frameItems) (Node.id a)) as [item|]; [|now left].
  destruct (Mermaid.computeItemBBox item) as [bbox|]; [|now left].
  destruct (String.eqb (Node.id a) k) eqn:Q.
  - apply String.eqb_eq in Q. right. now left.
  - apply String.eqb_neq in Q. rewrite JsMapFacts.get_set_other in H by assumption. now left.
Qed.

Lemma boxOf_node : forall id box,
  boxOf frameItems id = Some box -> In id (Mermaid.nodeIds frameItems).
Proof.
  intros id box H. unfold boxOf, Mermaid.idToBBox in H.
  apply idToBBox_keys in H as [H|H]; [discriminate | exact H].
Qed.

Lemma ltb_below_infinity : forall a b,
  Num.ltb a b = true -> Num.ltb a Num.POSITIVE_INFINITY = true.
Proof.
  intros [[]|[]| |[] ? ?] [[]|[]| |[] ? ?] H; try reflexivity; discriminate.
Qed.

(** One turn of the inner loop is one turn of the search for the candidate
    of least area. *)
Lemma parentStep_step : forall childId childBox best parentId,
  Mermaid.parentStep frameItems childId childBox best parentId
  = LeastArea.step (isCandidate frameItems childId childBox) (areaOf frameItems) best parentId.
Proof.
  intros childId childBox best parentId.
  unfold Mermaid.parentStep, LeastArea.step, isCandidate, areaOf, boxOf.
  destruct (String.eqb parentId childId); [reflexivity|]. cbn [negb andb].
  destruct (JsMap.get (Mermaid.idToBBox frameItems) parentId) as [parentBox|]; [|reflexivity].
  unfold refused, colourOf, sameDefinedColor, isRegionColor. rewrite <- !colour_spec.
  destruct (Str.truthy_opt _ && Str.truthy_opt _ && Str.eq_opt _ _); [reflexivity|].
  cbn [orb]. cbv zeta.
  set (region := if Str.truthy_opt _ then _ else false).
  fold (minScale region) (requiredFrac region).
  destruct (Num.ltb (BBox.width parentBox) _); [reflexivity|].
  destruct (Num.ltb (BBox.height parentBox) _); [reflexivity|]. cbn [orb].
  fold (interWidth parentBox childBox) (interHeight parentBox childBox).
  destruct (Num.leb (interWidth parentBox childBox) Num.zero); [reflexivity|].
  destruct (Num.leb (interHeight parentBox childBox) Num.zero); [reflexivity|]. cbn [orb].
  fold (area childBox) (area parentBox). fold (fracInside parentBox childBox).
  destruct (Num.ltb (fracInside parentBox childBox) _); [reflexivity|]. cbn [negb andb].
  destruct (Num.ltb (area parentBox) (snd best)) eqn:L.
  - now rewrite (ltb_below_infinity _ _ L).
  - now destruct (Num.ltb (area parentBox) Num.POSITIVE_INFINITY).
Qed.

Lemma fold_left_ext_step : forall (A B : Type) (f g : A -> B -> A) (l : list B) (i : A),
  (forall a b, f a b = g a b) -> fold_left f l i = fold_left g l i.
Proof.
  intros A B f g l. induction l as [|x l IH]; intros i H; simpl; [reflexivity|].
  rewrite H. now apply IH.
Qed.

Lemma bestParent_run : forall childId childBox,
  Mermaid.bestParent frameItems childId childBox
  = LeastArea.run (isCandidate frameItems childId childBox) (areaOf frameItems)
      (Mermaid.nodeIds frameItems).
Proof.
  intros childId childBox. unfold Mermaid.bestParent, LeastArea.run.
  apply fold_left_ext_step. intros best p. apply parentStep_step.
Qed.

Lemma containment_get : forall l st k,
  JsMap.get (fst (fold_left (Mermaid.containmentStep frameItems) l st)) k
  = if existsb (String.eqb k) l
    then match boxOf frameItems k with
         | Some box => Some (assigned frameItems k box)
         | None => JsMap.get (fst st) k
         end
    else JsMap.get (fst st) k.
Proof.
  induction l as [|a l IH]; intros [m ch] k; [reflexivity|].
  cbn [fold_left existsb]. rewrite IH.
  assert (E : JsMap.get (fst (Mermaid.containmentStep frameItems (m, ch) a)) k
              = if String.eqb k a
                then match boxOf frameItems k with
                     | Some box => Some (assigned frameItems k box)
                     | None => JsMap.get m k
                     end
                else JsMap.get m k).
  { unfold Mermaid.containmentStep, boxOf, assigned.
    destruct (String.eqb k a) eqn:K.
    - apply String.eqb_eq in K. subst a.
      destruct (JsMap.get (Mermaid.idToBBox frameItems) k) as [box|]; [|reflexivity].
      destruct (Str.truthy_opt _); simpl; apply JsMapFacts.get_set_same.
    - apply String.eqb_neq in K.
      destruct (JsMap.get (Mermaid.idToBBox frameItems) a) as [box|]; [|reflexivity].
      destruct (Str.truthy_opt _); simpl; apply JsMapFacts.get_set_other; congruence. }
  rewrite E. simpl.
  destruct (String.eqb k a), (existsb (String.eqb k) l), (boxOf frameItems k); reflexivity.
Qed.

Lemma parentOf_get : forall k,
  JsMap.get (Mermaid.parentOf frameItems) k
  = if existsb (String.eqb k) (Mermaid.nodeIds frameItems)
    then match boxOf frameItems k with
         | Some box => Some (assigned frameItems k box)
         | None => None
         end
    else None.
Proof.
  intros k. unfold Mermaid.parentOf, Mermaid.containment. rewrite containment_get.
  simpl. destruct (existsb _ _), (boxOf frameItems k); reflexivity.
Qed.

Lemma existsb_eqb_In : forall k l, In k l -> existsb (String.eqb k) l = true.
Proof.
  intros k l H. apply existsb_exists. exists k. split; [assumption | apply String.eqb_refl].
Qed.

Lemma candidate_below_infinity : forall childId childBox p,
  isCandidate frameItems childId childBox p = true ->
  Num.is_nan (areaOf frameItems p) = false
  /\ Num.ltb (areaOf frameItems p) Num.POSITIVE_INFINITY = true.
Proof.
  intros childId childBox p H. unfold isCandidate in H. apply andb_true_iff in H as [_ H].
  unfold areaOf. destruct (boxOf frameItems p) as [pb|]; [|discriminate].
  apply andb_true_iff in H as [_ H]. split; [|exact H].
  now destruct (area pb).
Qed.

(** One turn of the inner loop keeps the state or takes a parent that has a
    box and is wide enough. *)
Lemma parentStep_cases : forall childId childBox best parentId,
  Mermaid.parentStep frameItems childId childBox best parentId = best
  \/ (fst (Mermaid.parentStep frameItems childId childBox best parentId) = Some parentId
      /\ exists parentBox region,
           boxOf frameItems parentId = Some parentBox
           /\ Num.ltb (BBox.width parentBox)
                      (Num.mul (BBox.width childBox) (minScale region)) = false).
Proof.
  intros childId childBox best parentId. unfold Mermaid.parentStep, boxOf.
  destruct (String.eqb parentId childId); [now left|].
  destruct (JsMap.get (Mermaid.idToBBox frameItems) parentId) as [parentBox|]; [|now left].
  destruct (Str.truthy_opt _ && Str.truthy_opt _ && Str.eq_opt _ _); [now left|].
  set (region := if Str.truthy_opt _ then _ else false).
  destruct (Num.ltb (BBox.width parentBox) _) eqn:W; [now left|].
  destruct (Num.ltb (BBox.height parentBox) _); [now left|]. simpl.
  destruct (Num.leb _ Num.zero || Num.leb _ Num.zero); [now left|].
  destruct (Num.ltb (Num.div _ _) _); [now left|].
  destruct (Num.ltb _ (snd best)); [|now left].
  right. split; [reflexivity|]. exists parentBox, region. split; [reflexivity | exact W].
Qed.

Lemma bestParent_wide : forall childId childBox l init parentId,
  fst (fold_left (Mermaid.parentStep frameItems childId childBox) l init) = Some parentId ->
  fst init = Some parentId
  \/ exists parentBox region,
       boxOf frameItems parentId = Some parentBox
       /\ Num.ltb (BBox.width parentBox)
                  (Num.mul (BBox.width childBox) (minScale region)) = false.
Proof.
  intros childId childBox l. induction l as [|x l IH]; intros init p H; [now left|].
  simpl in H. apply IH in H as [H|H]; [|now right].
  destruct (parentStep_cases childId childBox init x) as [E|[E W]].
  - rewrite E in H. now left.
  - rewrite E in H. injection H as <-. now right.
Qed.

Lemma widthsGrow_box : forall id box,
  widthsGrow frameItems = true -> boxOf frameItems id = Some box -> widthGrows box = true.
Proof.
  intros id box W H. unfold widthsGrow in W. rewrite forallb_forall in W.
  apply (W (id, box)). now apply JsMapFacts.get_In.
Qed.

(** An assigned container is strictly wider than what it contains. *)
Lemma parent_is_wider : forall childId parentId,
  widthsGrow frameItems = true ->
  isParentOf frameItems childId parentId ->
  Num.ltb (widthOf frameItems childId) (widthOf frameItems parentId) = true.
Proof.
  intros c p G H. unfold isParentOf in H. rewrite parentOf_get in H.
  destruct (existsb _ _); [|discriminate].
  destruct (boxOf frameItems c) as [cb|] eqn:Bc; [|discriminate].
  unfold assigned in H.
  destruct (fst (Mermaid.bestParent frameItems c cb)) as [p'|] eqn:E; [|discriminate].
  simpl in H. destruct (Str.truthy p'); [|discriminate]. injection H as ->.
  apply bestParent_wide in E as [E|(pb & region & Bp & W)]; [discriminate|].
  unfold widthOf. rewrite Bc, Bp.
  pose proof (widthsGrow_box c cb G Bc) as Gc. pose proof (widthsGrow_box p pb G Bp) as Gp.
  apply andb_true_iff in Gc as [Gc2 Gc5]. apply andb_true_iff in Gp as [Gp2 _].
  apply NumFacts.ltb_not_nan in Gp2 as [Np _].
  destruct region; cbv [minScale] in W.
  - exact (NumFacts.ltb_not_ltb_trans _ _ _ Np Gc2 W).
  - exact (NumFacts.ltb_not_ltb_trans _ _ _ Np Gc5 W).
Qed.

Lemma chain_is_wider : forall a b,
  widthsGrow frameItems = true ->
  clos_trans string (isParentOf frameItems) a b ->
  Num.ltb (widthOf frameItems a) (widthOf frameItems b) = true.
Proof.
  intros a b G H. induction H as [a b H|a b c _ IH1 _ IH2].
  - now apply parent_is_wider.
  - eapply NumFacts.ltb_trans; eassumption.
Qed.

End Facts.

(** C2, as the code has it: a child has at most one container, and following
    containers from an item never comes back to it, for inputs in which
    scaling the width of a box by 1.02 and by 1.05 gives a strictly larger
    double (every positive width outside the subnormal range does). *)
Theorem containment_acyclic : forall frameItems,
  widthsGrow frameItems = true -> acyclic frameItems.
Proof.
  intros frameItems G. split.
  - intros c p1 p2 H1 H2. unfold isParentOf in *. congruence.
  - intros id H. apply (chain_is_wider _ _ _ G) in H.
    now rewrite NumFacts.ltb_irrefl in H.
Qed.

(** C2 as stated fails.  In the subnormal range a width of 3 units of the
    smallest positive double times 1.05 rounds back to 3 units, the areas
    underflow to zero, and the fraction [0 / 0] is NaN, which no comparison
    refuses: two such shapes at one place are each the container of the
    other. *)
Lemma containment_cycle : ~ acyclic tinyPair.
Proof.
  intros [_ H]. apply (H "1").
  apply t_trans with "2"; apply t_step; vm_compute; reflexivity.
Qed.

Lemma containment_acyclic_witness :
  widthsGrow nested = true /\ widthsGrow tinyPair = false /\ acyclic nested.
Proof.
  assert (G : widthsGrow nested = true) by (vm_compute; reflexivity).
  split; [exact G|]. split; [vm_compute; reflexivity|]. apply (containment_acyclic nested G).
Defined.

End ContainmentFacts.

(** ** Sets *)

Module JsSetFacts.

Lemma has_app : forall s1 s2 k, JsSet.has (s1 ++ s2) k = JsSet.has s1 k || JsSet.has s2 k.
Proof. intros. unfold JsSet.has. apply existsb_app. Qed.

Lemma has_add : forall s k k', JsSet.has (JsSet.add s k) k' = JsSet.has s k' || String.eqb k' k.
Proof.
  intros s k k'. unfold JsSet.add. destruct (JsSet.has s k) eqn:H.
  - destruct (String.eqb k' k) eqn:E; [|now rewrite orb_false_r].
    apply String.eqb_eq in E. subst k'. now rewrite H.
  - rewrite has_app. simpl. now rewrite orb_false_r.
Qed.

Lemma has_In : forall s k, JsSet.has s k = true <-> In k s.
Proof.
  intros s k. unfold JsSet.has. rewrite existsb_exists. split.
  - intros (x & I & E). apply String.eqb_eq in E. now subst x.
  - intros I. exists k. split; [assumption | apply String.eqb_refl].
Qed.

End JsSetFacts.

(** ** Regions *)

Module RegionFacts.
Import RegionSpec ContainmentSpec ContainmentFacts.

Section Facts.
Variable frameItems : list Item.t.

(** *** The statistics *)

Lemma boxed_snoc : forall ids id,
  boxed frameItems (ids ++ [id])
  = boxed frameItems ids
    ++ match boxOf frameItems id with Some box => [(id, box)] | None => [] end.
Proof.
  intros ids id. unfold boxed. rewrite flat_map_app. simpl. now rewrite app_nil_r.
Qed.

Lemma no_colour_no_area : forall items c,
  ~ In c (coloursIn frameItems items) -> filter (hasColour frameItems c) items = [].
Proof.
  induction items as [|p items IH]; intros c N; [reflexivity|].
  simpl in *. unfold hasColour at 1.
  destruct (colourOf frameItems (fst p)) as [c'|] eqn:E; simpl in *.
  - destruct (String.eqb c' c) eqn:Q.
    + apply String.eqb_eq in Q. subst c'. exfalso. apply N. now left.
    + apply IH. intros H. apply N. now right.
  - now apply IH.
Qed.

Lemma cumulative_snoc : forall items p c,
  cumulativeIn frameItems (items ++ [p]) c
  = if hasColour frameItems c p
    then Num.add (cumulativeIn frameItems items c) (area (snd p))
    else cumulativeIn frameItems items c.
Proof.
  intros items p c. unfold cumulativeIn, areasIn. rewrite filter_app. simpl.
  destruct (hasColour frameItems c p); [|now rewrite app_nil_r].
  now rewrite map_app, fold_left_app.
Qed.

Lemma colours_snoc : forall items p,
  coloursIn frameItems (items ++ [p])
  = coloursIn frameItems items
    ++ match colourOf frameItems (fst p) with Some c => [c] | None => [] end.
Proof. intros items p. unfold coloursIn. rewrite flat_map_app. simpl. now rewrite app_nil_r. Qed.

Lemma statsStep_gathered : forall done st id,
  gathered frameItems done st -> gathered frameItems (done ++ [id]) (Mermaid.statsStep frameItems st id).
Proof.
  intros done [ar cs] id (A & N & G & C). simpl in A, N, G, C.
  unfold Mermaid.statsStep, gathered. rewrite boxed_snoc.
  fold (boxOf frameItems id). destruct (boxOf frameItems id) as [box|] eqn:B;
    [|rewrite app_nil_r; simpl; auto].
  rewrite colour_spec. fold (colourOf frameItems id).
  destruct (colourOf frameItems id) as [c0|] eqn:E.
  - rewrite (colour_truthy _ _ E : Str.truthy_opt (Some c0) = true). cbn [Str.or_empty fst snd].
    set (stat0 := or_else (JsMap.get cs c0) (O, Num.zero)).
    assert (T : snd stat0 = cumulativeIn frameItems (boxed frameItems done) c0).
    { unfold stat0. destruct (JsMap.get cs c0) as [st|] eqn:Q; simpl.
      - now apply G.
      - unfold cumulativeIn. rewrite no_colour_no_area; [reflexivity|].
        intros H. now apply C in H. }
    assert (HC : forall c, hasColour frameItems c (id, box) = String.eqb c0 c).
    { intros c. unfold hasColour. simpl. now rewrite E. }
    split; [|split; [|split]].
    + unfold areasIn. rewrite map_app. simpl. unfold areasIn in A. now rewrite A.
    + now apply JsMapFacts.set_nodup.
    + intros c stat H. rewrite cumulative_snoc, colours_snoc, HC. simpl fst. rewrite E.
      destruct (String.eqb c0 c) eqn:Q.
      * apply String.eqb_eq in Q. subst c. rewrite JsMapFacts.get_set_same in H.
        injection H as <-. simpl. rewrite T. split; [reflexivity|].
        apply in_app_iff. right. now left.
      * apply String.eqb_neq in Q. rewrite JsMapFacts.get_set_other in H by assumption.
        apply G in H as [H1 H2]. split; [assumption|]. apply in_app_iff. now left.
    + intros c H. rewrite colours_snoc in H. simpl fst in H. rewrite E in H.
      destruct (String.eqb c0 c) eqn:Q.
      * apply String.eqb_eq in Q. subst c. now rewrite JsMapFacts.get_set_same.
      * apply String.eqb_neq in Q. rewrite JsMapFacts.get_set_other by assumption.
        apply in_app_iff in H as [H|[H|[]]]; [now apply C | contradiction].
  - simpl. split; [|split; [|split]].
    + unfold areasIn. rewrite map_app. simpl. unfold areasIn in A. now rewrite A.
    + assumption.
    + intros c stat H. rewrite cumulative_snoc, colours_snoc. unfold hasColour. simpl.
      rewrite E. simpl. rewrite app_nil_r. now apply G.
    + intros c H. rewrite colours_snoc in H. simpl in H. rewrite E, app_nil_r in H. now apply C.
Qed.

Lemma stats_fold : forall rest done st,
  gathered frameItems done st -> gathered frameItems (done ++ rest) (fold_left (Mermaid.statsStep frameItems) rest st).
Proof.
  induction rest as [|id rest IH]; intros done st H; simpl.
  - now rewrite app_nil_r.
  - replace (done ++ id :: rest) with ((done ++ [id]) ++ rest) by now rewrite <- app_assoc.
    apply IH. now apply statsStep_gathered.
Qed.

Lemma stats_gathered : gathered frameItems (Mermaid.nodeIds frameItems) (Mermaid.stats frameItems).
Proof.
  apply (stats_fold (Mermaid.nodeIds frameItems) [] ([], [])).
  unfold gathered. simpl. repeat split; try constructor; try discriminate; intros ? [].
Qed.


(** *** Areas and cumulative areas are doubles *)

Lemma boxed_get : forall ids p,
  In p (boxed frameItems ids) -> boxOf frameItems (fst p) = Some (snd p).
Proof.
  intros ids p H. unfold boxed in H. apply in_flat_map in H as (id & _ & H).
  destruct (boxOf frameItems id) as [box|] eqn:B; [|destruct H].
  destruct H as [<-|[]]. exact B.
Qed.

Hypothesis sizes : sizesAreDoubles frameItems = true.

Lemma area_valid : forall id box,
  boxOf frameItems id = Some box -> Num.valid (area box) = true.
Proof.
  intros id box H. apply JsMapFacts.get_In in H.
  unfold sizesAreDoubles in sizes. rewrite forallb_forall in sizes.
  apply sizes in H. apply andb_true_iff in H as [W Hh]. now apply DoubleFacts.mul_valid.
Qed.

Lemma areasIn_valid : forall ids x,
  In x (areasIn (boxed frameItems ids)) -> Num.valid x = true.
Proof.
  intros ids x H. unfold areasIn in H. apply in_map_iff in H as (p & <- & H).
  apply boxed_get in H. now apply (area_valid (fst p)).
Qed.

Lemma fold_add_valid : forall l z,
  (forall x, In x l -> Num.valid x = true) -> Num.valid z = true ->
  Num.valid (fold_left Num.add l z) = true.
Proof.
  induction l as [|a l IH]; intros z H Z; simpl; [exact Z|].
  apply IH; [intros x Hx; apply H; now right|].
  apply DoubleFacts.add_valid; [exact Z | apply H; now left].
Qed.

Lemma cumulative_valid : forall c, Num.valid (cumulativeArea frameItems c) = true.
Proof.
  intros c. unfold cumulativeArea, cumulativeIn. apply fold_add_valid; [|reflexivity].
  intros x H. unfold areasIn in H. apply in_map_iff in H as (p & <- & H).
  apply filter_In in H as [H _]. apply boxed_get in H. now apply (area_valid (fst p)).
Qed.

Hypothesis numbers : areasAreNumbers frameItems = true.

Lemma areas_numeric : OrderSpec.numeric (fun a => a) (areas frameItems) = true.
Proof. unfold areasAreNumbers in numbers. now apply andb_true_iff in numbers as [H _]. Qed.

Lemma cumulative_number : forall c,
  In c (colours frameItems) -> Num.is_nan (cumulativeArea frameItems c) = false.
Proof.
  intros c H. unfold areasAreNumbers in numbers. apply andb_true_iff in numbers as [_ N].
  rewrite forallb_forall in N. apply N in H. now apply negb_true_iff in H.
Qed.

(** *** The median *)

Lemma areas_ascending :
  OrderSpec.ascending (fun a => a) (areas frameItems) (Mermaid.areas frameItems).
Proof.
  unfold Mermaid.areas. destruct stats_gathered as (A & _). rewrite A.
  apply (OrderFacts.sort_ascending (fun a => a)); [apply areas_numeric|].
  apply areasIn_valid.
Qed.

Lemma medianArea_isMedian : isMedian frameItems (Mermaid.medianArea frameItems).
Proof. exists (Mermaid.areas frameItems). split; [apply areas_ascending | reflexivity]. Qed.

Lemma isMedian_unique : forall m, isMedian frameItems m -> m = Mermaid.medianArea frameItems.
Proof.
  intros m (sorted & A & ->).
  rewrite (OrderFacts.ascending_unique (fun a => a) _ _ _ areas_numeric A areas_ascending).
  reflexivity.
Qed.

Lemma medianArea_valid : Num.valid (Mermaid.medianArea frameItems) = true.
Proof.
  unfold Mermaid.medianArea.
  destruct (nth_in_or_default (Nat.div (List.length (Mermaid.areas frameItems)) 2)
              (Mermaid.areas frameItems) Num.zero) as [H| ->]; [|reflexivity].
  destruct areas_ascending as (P & _).
  apply (Permutation.Permutation_in _ (Permutation.Permutation_sym P)) in H.
  now apply areasIn_valid in H.
Qed.

(** *** The region colours *)

Lemma entry_spec : forall e,
  In e (Mermaid.colorStats frameItems) ->
  snd (snd e) = cumulativeArea frameItems (fst e) /\ In (fst e) (colours frameItems).
Proof.
  intros [c stat] H. destruct stats_gathered as (_ & N & G & _).
  apply (G c stat). now apply JsMapFacts.In_get.
Qed.

Lemma colour_has_entry : forall c,
  In c (colours frameItems) -> exists stat, In (c, stat) (Mermaid.colorStats frameItems).
Proof.
  intros c H. destruct stats_gathered as (_ & _ & _ & C). apply C in H.
  unfold Mermaid.colorStats.
  destruct (JsMap.get (snd (Mermaid.stats frameItems)) c) as [stat|] eqn:E; [|contradiction].
  exists stat. now apply JsMapFacts.get_In.
Qed.

Lemma colorEntries_descending :
  OrderSpec.descending (fun e : string * (nat * number) => snd (snd e))
    (Mermaid.colorStats frameItems) (Mermaid.colorEntries frameItems).
Proof.
  unfold Mermaid.colorEntries.
  apply (OrderFacts.sort_descending (fun e : string * (nat * number) => snd (snd e))).
  - unfold OrderSpec.numeric. apply forallb_forall. intros e H.
    apply entry_spec in H as [-> H]. apply negb_true_iff. now apply cumulative_number.
  - intros e H. apply entry_spec in H as [-> _]. apply cumulative_valid.
Qed.

(** On entries in descending order the loop, which stops at the first colour
    below the threshold, keeps every colour that reaches it. *)
Lemma regionColorsLoop_has : forall top entries set c,
  Sorted.StronglySorted
    (fun a b : string * (nat * number) => Num.geb (snd (snd a)) (snd (snd b)) = true) entries ->
  JsSet.has (Mermaid.regionColorsLoop top entries set) c
  = JsSet.has set c
    || existsb (fun e => String.eqb c (fst e) && Num.geb (snd (snd e)) (Num.mul top lit_0_3))
               entries.
Proof.
  intros top entries. induction entries as [|[color stat] rest IH]; intros set c S; simpl.
  - now rewrite orb_false_r.
  - inversion S as [|? ? S' F]; subst.
    destruct (Num.geb (snd stat) (Num.mul top lit_0_3)) eqn:G.
    + rewrite IH by assumption. rewrite JsSetFacts.has_add, andb_true_r. now rewrite orb_assoc.
    + rewrite andb_false_r. simpl.
      destruct (existsb _ rest) eqn:X; [|now rewrite orb_false_r].
      exfalso. apply existsb_exists in X as (e & He & Hc).
      apply andb_true_iff in Hc as [_ Hc]. rewrite Forall_forall in F. apply F in He.
      simpl in He.
      pose proof (OrderFacts.leb_trans (Num.mul top lit_0_3) (snd (snd e)) (snd stat) Hc He) as L.
      unfold Num.geb, Num.leb in *. congruence.
Qed.

Lemma regionColors_spec : forall c,
  JsSet.has (Mermaid.regionColors frameItems) c = isRegionColour frameItems c.
Proof.
  intros c. destruct colorEntries_descending as (P & S & _).
  unfold Mermaid.regionColors.
  destruct (Mermaid.colorEntries frameItems) as [|top rest] eqn:E.
  - symmetry. unfold isRegionColour.
    destruct (existsb (String.eqb c) (colours frameItems)) eqn:X; [|reflexivity].
    exfalso. apply existsb_exists in X as (c' & H & Q). apply String.eqb_eq in Q. subst c'.
    apply colour_has_entry in H as (stat & H).
    apply (Permutation.Permutation_in _ P) in H. destruct H.
  - rewrite regionColorsLoop_has by exact S. simpl JsSet.has. rewrite orb_false_l.
    assert (In top (Mermaid.colorStats frameItems)) as Itop
      by (apply (Permutation.Permutation_in _ (Permutation.Permutation_sym P)); now left).
    destruct (entry_spec top Itop) as [Ktop Ctop].
    assert (Top : forall c', In c' (colours frameItems) ->
              Num.geb (cumulativeArea frameItems (fst top)) (cumulativeArea frameItems c') = true).
    { intros c' H. destruct (colour_has_entry c' H) as (stat & H').
      destruct (entry_spec _ H') as [K _]. simpl in K. rewrite <- K, <- Ktop.
      apply (Permutation.Permutation_in _ P) in H' as [Q|H'].
      - rewrite Q. simpl. unfold Num.geb.
        assert (N : Num.is_nan (snd stat) = false) by (rewrite K; now apply cumulative_number).
        now destruct (OrderFacts.leb_total (snd stat) (snd stat) N N).
      - inversion S as [|? ? _ F]; subst. rewrite Forall_forall in F. now apply (F _ H'). }
    apply eq_true_iff_eq. unfold isRegionColour.
    rewrite andb_true_iff, !existsb_exists. split.
    + intros (e & He & Hc). apply andb_true_iff in Hc as [Q G]. apply String.eqb_eq in Q. subst c.
      apply (Permutation.Permutation_in _ (Permutation.Permutation_sym P)) in He.
      destruct (entry_spec e He) as [K C]. split.
      * exists (fst e). split; [exact C | apply String.eqb_refl].
      * exists (fst top). split; [exact Ctop|]. apply andb_true_iff. split.
        -- unfold largest. apply forallb_forall. exact Top.
        -- now rewrite <- K, <- Ktop.
    + intros [(c' & C & Q) (t & Ct & Ht)]. apply String.eqb_eq in Q. subst c'.
      apply andb_true_iff in Ht as [L G].
      unfold largest in L. rewrite forallb_forall in L.
      destruct (colour_has_entry c C) as (stat & H).
      destruct (entry_spec _ H) as [K _]. simpl in K.
      exists (c, stat). split; [now apply (Permutation.Permutation_in _ P)|].
      simpl. rewrite String.eqb_refl. simpl. rewrite K, Ktop. rewrite <- G.
      apply (DoubleFacts.geb_scaled _ _ lit_0_3 _ false 5404319552844595 (-54) eq_refl).
      * apply (L _ Ctop).
      * apply (Top _ Ct).
Qed.

(** *** The regions *)

Lemma regionStep_has : forall s id k,
  JsSet.has (Mermaid.regionStep frameItems s id) k
  = JsSet.has s k || (String.eqb k id && isRegion frameItems id).
Proof.
  intros s id k. unfold Mermaid.regionStep, isRegion, boxOf, isRegionColor, colorOf.
  destruct (JsMap.get (Mermaid.idToBBox frameItems) id) as [box|];
    [|now rewrite andb_false_r, orb_false_r].
  fold (Mermaid.boxArea box).
  destruct (Num.truthy (Mermaid.regionThreshold frameItems)
            && Num.geb (Mermaid.boxArea box) (Mermaid.regionThreshold frameItems)); simpl.
  - rewrite JsSetFacts.has_add. now rewrite andb_true_r.
  - destruct (Str.truthy_opt _); simpl; [|now rewrite andb_false_r, orb_false_r].
    destruct (JsSet.has (Mermaid.regionColors frameItems) _); simpl;
      [|now rewrite andb_false_r, orb_false_r].
    destruct (Num.truthy (Mermaid.medianArea frameItems)); simpl;
      [|now rewrite andb_false_r, orb_false_r].
    destruct (Num.geb _ _); simpl.
    + rewrite JsSetFacts.has_add. now rewrite andb_true_r.
    + now rewrite andb_false_r, orb_false_r.
Qed.

Lemma regionIds_fold : forall l s k,
  JsSet.has (fold_left (Mermaid.regionStep frameItems) l s) k
  = JsSet.has s k || (existsb (String.eqb k) l && isRegion frameItems k).
Proof.
  induction l as [|a l IH]; intros s k; simpl; [now rewrite orb_false_r|].
  rewrite IH, regionStep_has.
  destruct (String.eqb k a) eqn:E; simpl.
  - apply String.eqb_eq in E. subst a.
    destruct (isRegion frameItems k), (JsSet.has s k), (existsb (String.eqb k) l); reflexivity.
  - now rewrite orb_false_r.
Qed.

Lemma regionIds_has : forall k,
  JsSet.has (Mermaid.regionIds frameItems) k
  = existsb (String.eqb k) (Mermaid.nodeIds frameItems) && isRegion frameItems k.
Proof. intros k. unfold Mermaid.regionIds. now rewrite regionIds_fold. Qed.

Lemma isRegion_region : forall id,
  isRegion frameItems id = region frameItems (Mermaid.medianArea frameItems) id.
Proof.
  intros id. unfold isRegion, region.
  destruct (boxOf frameItems id) as [box|]; [|reflexivity].
  change (Mermaid.boxArea box) with (area box). f_equal.
  - unfold Mermaid.regionThreshold.
    destruct (Num.gtb (Mermaid.medianArea frameItems) Num.zero) eqn:P; [|reflexivity].
    now rewrite (DoubleFacts.triple_positive _ medianArea_valid P).
  - f_equal. f_equal. unfold isRegionColor, regionColoured. rewrite colorOf_colourOf.
    destruct (colourOf frameItems id) as [c|] eqn:E; [|reflexivity].
    rewrite (colour_truthy _ _ E : Str.truthy_opt (Some c) = true). apply regionColors_spec.
Qed.

Lemma regionIds_region : forall id,
  JsSet.has (Mermaid.regionIds frameItems) id
  = region frameItems (Mermaid.medianArea frameItems) id.
Proof.
  intros id. rewrite regionIds_has, <- isRegion_region.
  unfold isRegion. destruct (boxOf frameItems id) as [box|] eqn:B; [|apply andb_false_r].
  apply boxOf_node in B. apply JsSetFacts.has_In in B. unfold JsSet.has in B. now rewrite B.
Qed.

End Facts.

(** C5, as the code has it.  The widths and heights of the boxes are doubles
    and no area of a box and no cumulative area of a colour is NaN.  The
    areas have one median: of the [n] areas in ascending order the one at
    position [floor (n / 2)], zero when there is none.  An item is a region
    exactly when it is a node with a bounding box and either the median is
    positive and the area of the box is at least 3 times the median, or the
    colour of the item is a region colour, the median is not zero and the
    area is at least 0.5 times the median.  The colour of an item is its
    fill colour, else its card theme, else its background colour; the
    cumulative area of a colour is the sum of the areas of the boxes of that
    colour; a region colour is a colour of some box whose cumulative area is
    at least 0.3 times the largest cumulative area. *)
Theorem region_classification : forall frameItems,
  sizesAreDoubles frameItems = true ->
  areasAreNumbers frameItems = true ->
  exists median,
    isMedian frameItems median
    /\ (forall m, isMedian frameItems m -> m = median)
    /\ forall id, JsSet.has (Mermaid.regionIds frameItems) id = region frameItems median id.
Proof.
  intros frameItems sizes numbers. exists (Mermaid.medianArea frameItems).
  split; [now apply medianArea_isMedian|].
  split; [intros m; now apply isMedian_unique|].
  intros id. now apply regionIds_region.
Qed.

(** C5 as stated fails: a lone shape of area zero has an area of at least 3
    times the median, which is zero, and it is no region. *)
Lemma regionAsStated_fails : ~ regionsAsStated flat "1".
Proof.
  intros (m & (sorted & (P & _) & ->) & H).
  vm_compute in P. apply Permutation.Permutation_length_1_inv in P. subst sorted.
  vm_compute in H. discriminate.
Qed.

(** Of four shapes of areas 100, 100, 400 and 1000 the median is 400, and the
    largest shape is no region; of the five shapes of [painted] the two red
    ones and the larger blue one are regions by their colour, the green one
    is large enough and is none. *)
Lemma region_classification_witness :
  (isMedian quartet (Num.of_Z 400)
   /\ JsSet.has (Mermaid.regionIds quartet) "4" = false
   /\ map (JsSet.has (Mermaid.regionIds painted)) ["1"; "2"; "3"; "4"; "5"]
      = [true; false; true; true; false]
   /\ map (JsSet.has (Mermaid.regionIds band)) ["1"; "2"; "3"] = [true; false; false])
  /\ exists median,
       isMedian painted median
       /\ (forall m, isMedian painted m -> m = median)
       /\ forall id, JsSet.has (Mermaid.regionIds painted) id = region painted median id.
Proof.
  split.
  - split; [|repeat split; vm_compute; reflexivity].
    replace (Num.of_Z 400) with (Mermaid.medianArea quartet) by (vm_compute; reflexivity).
    apply medianArea_isMedian; vm_compute; reflexivity.
  - apply (region_classification painted); vm_compute; reflexivity.
Defined.

End RegionFacts.

(** ** The container of a child *)

Module ParentFacts.
Import ContainmentSpec ContainmentFacts.

Lemma colours_truthy : forall frameItems c,
  In c (RegionSpec.colours frameItems) -> Str.truthy c = true.
Proof.
  intros frameItems c H. unfold RegionSpec.colours, RegionSpec.coloursIn in H.
  apply in_flat_map in H as (p & _ & H). unfold colourOf in H.
  destruct (colour (JsMap.get (Mermaid.idToItem frameItems) (fst p))) as [c'|] eqn:E;
    [|destruct H].
  destruct H as [<-|[]]. now apply (colour_truthy _ _ E).
Qed.

(** C1, as the code has it: for a child with a bounding box, the candidates
    are the other nodes with a box that are not refused and whose area is
    below infinity.  A parent is refused when it and the child both have a
    colour (fill colour, else card theme, else background colour) and it is
    the same, when its width or its height is below the child's times the
    scale factor (1.02 when the colour of the parent is a region colour,
    1.05 otherwise), when the width or the height of the intersection of the
    boxes is zero or negative, and when the fraction inside (the product of
    these two over the area of the child) is below the threshold (0.6 for a
    region colour, 0.8 otherwise); a comparison with NaN refuses nothing.
    Either there is no candidate and the child gets no container, or the
    first candidate of least area is chosen, and it is the container unless
    its id is the empty string, in which case the child gets none.  The
    region colours are those of the set the extraction computes; when the
    widths and heights of the boxes are doubles and no area and no
    cumulative area is NaN, they are the colours whose cumulative area is at
    least 0.3 times the largest one. *)
Theorem parent_is_least_candidate : forall frameItems childId childBox,
  boxOf frameItems childId = Some childBox ->
  ((candidates frameItems childId childBox = []
    /\ JsMap.get (Mermaid.parentOf frameItems) childId = Some None)
   \/ (exists parentId,
         LeastArea.firstLeast (areaOf frameItems) (candidates frameItems childId childBox) parentId
         /\ JsMap.get (Mermaid.parentOf frameItems) childId
            = Some (if Str.truthy parentId then Some parentId else None)))
  /\ (sizesAreDoubles frameItems = true ->
      RegionSpec.areasAreNumbers frameItems = true ->
      forall color,
        isRegionColor frameItems color
        = match color with
          | Some c => RegionSpec.isRegionColour frameItems c
          | None => false
          end).
Proof.
  intros frameItems childId childBox B. split.
  - rewrite parentOf_get, (existsb_eqb_In _ _ (boxOf_node _ _ _ B)), B. unfold assigned.
    rewrite bestParent_run.
    pose proof (LeastAreaFacts.run_spec (isCandidate frameItems childId childBox)
                  (areaOf frameItems) (candidate_below_infinity frameItems childId childBox)
                  (Mermaid.nodeIds frameItems)) as [S _].
    destruct (fst (LeastArea.run _ (areaOf frameItems) (Mermaid.nodeIds frameItems)))
      as [p|] eqn:E.
    + right. exists p. split; [exact S | reflexivity].
    + left. split; [exact S | reflexivity].
  - intros S N [c|]; [|reflexivity]. unfold isRegionColor. cbn [Str.truthy_opt Str.or_empty].
    destruct (Str.truthy c) eqn:T; [now apply RegionFacts.regionColors_spec|].
    symmetry. unfold RegionSpec.isRegionColour.
    destruct (existsb (String.eqb c) (RegionSpec.colours frameItems)) eqn:X; [|reflexivity].
    apply existsb_exists in X as (c' & H & Q). apply String.eqb_eq in Q. subst c'.
    apply colours_truthy in H. congruence.
Qed.

(** C1 as stated fails.  The card of [themed] has no fill colour and is not
    put into the shape whose fill colour is its theme; the inner shape of
    [adrift] is put into the outer one though the fraction inside is NaN;
    the shape of infinite width of [unbounded] passes every test and is not
    chosen; the shape without id of [nameless] is chosen and the child gets
    no container. *)
Lemma parentAsStated_fails :
  ~ parentAsStated themed /\ ~ parentAsStated adrift
  /\ ~ parentAsStated unbounded /\ ~ parentAsStated nameless.
Proof.
  repeat split; intros H.
  - destruct (H "2" innerBox ltac:(vm_compute; reflexivity)) as [[C _]|(p & _ & P)]; clear H.
    + vm_compute in C. discriminate.
    + vm_compute in P. discriminate.
  - destruct (H "2" {| BBox.left := Num.POSITIVE_INFINITY; BBox.right := Num.POSITIVE_INFINITY;
                       BBox.top := Num.of_Z (-25); BBox.bottom := Num.of_Z 25;
                       BBox.width := Num.of_Z 100; BBox.height := Num.of_Z 50 |}
                ltac:(vm_compute; reflexivity)) as [[_ P]|(p & (l1 & l2 & F & _) & _)]; clear H.
    + vm_compute in P. discriminate.
    + vm_compute in F. now destruct l1.
  - destruct (H "2" innerBox ltac:(vm_compute; reflexivity)) as [[C _]|(p & _ & P)]; clear H.
    + vm_compute in C. discriminate.
    + vm_compute in P. discriminate.
  - destruct (H "2" innerBox ltac:(vm_compute; reflexivity)) as [[C _]|(p & _ & P)]; clear H.
    + vm_compute in C. discriminate.
    + vm_compute in P. discriminate.
Qed.

(** The shape inside the other one gets it as container; of two containers
    the one of least area is chosen; a shape of the colour or of the theme
    of the other one gets no container; a container 1.03 times as wide as
    the child is a candidate when its colour is a region colour only. *)
Lemma parent_is_least_candidate_witness :
  (JsMap.get (Mermaid.parentOf nested) "2" = Some (Some "1")
   /\ candidates nested "2" innerBox = ["1"]
   /\ candidates russian "2" innerBox = ["1"; "3"]
   /\ JsMap.get (Mermaid.parentOf russian) "2" = Some (Some "3")
   /\ candidates alike "2" innerBox = []
   /\ candidates themed "2" innerBox = []
   /\ JsMap.get (Mermaid.parentOf adrift) "2" = Some (Some "1")
   /\ candidates snug "2" snugBox = ["1"]
   /\ JsMap.get (Mermaid.parentOf snug) "2" = Some (Some "1")
   /\ candidates dwarfed "2" snugBox = []
   /\ JsMap.get (Mermaid.parentOf dwarfed) "2" = Some None)
  /\ ((candidates nested "2" innerBox = []
       /\ JsMap.get (Mermaid.parentOf nested) "2" = Some None)
      \/ (exists parentId,
            LeastArea.firstLeast (areaOf nested) (candidates nested "2" innerBox) parentId
            /\ JsMap.get (Mermaid.parentOf nested) "2"
               = Some (if Str.truthy parentId then Some parentId else None)))
  /\ (forall color,
        isRegionColor dwarfed color
        = match color with
          | Some c => RegionSpec.isRegionColour dwarfed c
          | None => false
          end).
Proof.
  split; [repeat split; vm_compute; reflexivity|]. split.
  - apply (parent_is_least_candidate nested "2" innerBox). vm_compute. reflexivity.
  - apply (parent_is_least_candidate dwarfed "2" snugBox); vm_compute; reflexivity.
Defined.

End ParentFacts.

(** ** Board resolution *)

Module BoardFacts.
Import BoardSpec.

(** C10, as the code has it: when the [board_id] argument is absent, not a
    string or empty once trimmed and no active board is set, the resolution
    throws the error [No active board set. Use set_active_board or provide
    board_id parameter.], and a tool that starts with it throws before any
    request is issued; a [board_id] that is not empty once trimmed is
    returned trimmed, whatever the active board; otherwise the active board
    is returned. *)
Theorem resolveBoardId_spec :
  (forall activeBoardId board_id,
     blank board_id = true -> Str.truthy_opt activeBoardId = false ->
     Net.resolveBoardId activeBoardId board_id = inl Net.noActiveBoard
     /\ (forall (A : Type) (body : string -> Net.M A) (count : nat),
           Net.withBoard activeBoardId board_id body count = (Net.Throw Net.noActiveBoard, count))
     /\ (forall api fuel args count,
           Net.board_id args = board_id ->
           Net.execute activeBoardId api fuel args count = (Net.Throw Net.noActiveBoard, count)))
  /\ (forall activeBoardId s,
        Str.truthy (Str.trim s) = true ->
        Net.resolveBoardId activeBoardId (Some s) = inr (Str.trim s))
  /\ (forall activeBoardId board_id,
        blank board_id = true -> Str.truthy_opt activeBoardId = true ->
        Net.resolveBoardId activeBoardId board_id = inr (Str.or_empty activeBoardId)).
Proof.
  split; [|split].
  - intros a b B N.
    assert (R : Net.resolveBoardId a b = inl Net.noActiveBoard).
    { unfold Net.resolveBoardId. destruct b as [s|]; simpl in *.
      - apply negb_true_iff in B. rewrite B. simpl. now rewrite N.
      - now rewrite N. }
    split; [exact R|]. split.
    + intros A body count. unfold Net.withBoard. now rewrite R.
    + intros api fuel args count E. unfold Net.execute, Net.withBoard. rewrite E. now rewrite R.
  - intros a s T. unfold Net.resolveBoardId. rewrite T. simpl. now rewrite T.
  - intros a b B N. unfold Net.resolveBoardId. destruct b as [s|]; simpl in *.
    + apply negb_true_iff in B. rewrite B. simpl. now rewrite N.
    + now rewrite N.
Qed.

(** C10 as stated fails for a [board_id] of white space only: it is not
    empty, and the active board is returned instead of it. *)
Lemma usedWhenNonEmpty_fails : ~ usedWhenNonEmpty (Some "board-1") "  ".
Proof.
  unfold usedWhenNonEmpty. intros H.
  assert (E : Net.resolveBoardId (Some "board-1") (Some "  ") = inr (Str.trim "  "))
    by (apply H; discriminate).
  vm_compute in E. discriminate.
Qed.

Lemma resolveBoardId_spec_witness :
  Net.resolveBoardId None (Some "  ") = inl Net.noActiveBoard
  /\ Net.resolveBoardId (Some "board-1") (Some " board-2 ") = inr "board-2"
  /\ Net.resolveBoardId (Some "board-1") (Some "  ") = inr "board-1".
Proof.
  destruct resolveBoardId_spec as (T & U & V). split; [|split].
  - apply (T None (Some "  ")); reflexivity.
  - apply (U (Some "board-1") " board-2 "). reflexivity.
  - apply (V (Some "board-1") (Some "  ")); reflexivity.
Defined.

End BoardFacts.

(** ** The containment hierarchy and the text *)

Module RenderFacts.
Import ContainmentSpec RenderSpec ContainmentFacts.

Section Facts.
Variable frameItems : list Item.t.
Variable allConnectors : list Connector.t.

Lemma bestParent_in : forall childId childBox l init parentId,
  fst (fold_left (Mermaid.parentStep frameItems childId childBox) l init) = Some parentId ->
  fst init = Some parentId \/ In parentId l.
Proof.
  intros childId childBox l. induction l as [|x l IH]; intros init p H; [now left|].
  simpl in H. apply IH in H as [H|H]; [|right; now right].
  destruct (parentStep_cases frameItems childId childBox init x) as [E|[E _]].
  - rewrite E in H. now left.
  - rewrite E in H. injection H as <-. right. now left.
Qed.

Lemma assigned_in : forall c box p,
  assigned frameItems c box = Some p -> In p (Mermaid.nodeIds frameItems).
Proof.
  intros c box p H. unfold assigned in H.
  destruct (fst (Mermaid.bestParent frameItems c box)) as [p'|] eqn:E; [|discriminate].
  simpl in H. destruct (Str.truthy p'); [|discriminate]. injection H as ->.
  apply bestParent_in in E as [E|E]; [discriminate | exact E].
Qed.

Lemma existsb_eqb_In_iff : forall k l, existsb (String.eqb k) l = true <-> In k l.
Proof.
  intros k l. rewrite existsb_exists. split.
  - intros (x & I & E). apply String.eqb_eq in E. now subst x.
  - intros I. exists k. split; [assumption | apply String.eqb_refl].
Qed.

Lemma isParentOf_assigned : forall c p,
  isParentOf frameItems c p <->
  In c (Mermaid.nodeIds frameItems)
  /\ exists box, boxOf frameItems c = Some box /\ assigned frameItems c box = Some p.
Proof.
  intros c p. unfold isParentOf. rewrite parentOf_get. split.
  - destruct (existsb _ _) eqn:E; [|discriminate]. apply existsb_eqb_In_iff in E.
    destruct (boxOf frameItems c) as [box|]; [|discriminate].
    intros [= H]. split; [exact E|]. now exists box.
  - intros (I & box & B & A). apply existsb_eqb_In_iff in I. now rewrite I, B, A.
Qed.

Lemma isParentOf_in : forall c p,
  isParentOf frameItems c p ->
  In c (Mermaid.nodeIds frameItems) /\ In p (Mermaid.nodeIds frameItems).
Proof.
  intros c p H. apply isParentOf_assigned in H as (I & box & _ & A).
  split; [exact I | eapply assigned_in; eassumption].
Qed.

(** What [childrenOf] lists under a container was assigned to it. *)
Lemma childrenOf_fold : forall l st,
  (forall x, In x l -> In x (Mermaid.nodeIds frameItems)) ->
  (forall p c, In c (or_else (JsMap.get (snd st) p) []) -> isParentOf frameItems c p) ->
  forall p c,
    In c (or_else (JsMap.get (snd (fold_left (Mermaid.containmentStep frameItems) l st)) p) []) ->
    isParentOf frameItems c p.
Proof.
  induction l as [|a l IH]; intros [m ch] Hl J; [exact J|].
  cbn [fold_left]. apply IH; [intros x Hx; apply Hl; now right|].
  intros p c. unfold Mermaid.containmentStep.
  destruct (JsMap.get (Mermaid.idToBBox frameItems) a) as [box|] eqn:B; [|apply J].
  destruct (fst (Mermaid.bestParent frameItems a box)) as [p'|] eqn:E; simpl; [|apply J].
  destruct (Str.truthy p') eqn:T; simpl; [|apply J].
  destruct (String.eqb p' p) eqn:K.
  - apply String.eqb_eq in K. subst p'. rewrite JsMapFacts.get_set_same. simpl.
    intros H. apply in_app_iff in H as [H|[<-|[]]]; [now apply J|].
    apply isParentOf_assigned. split; [apply Hl; now left|].
    exists box. split; [exact B|]. unfold assigned. rewrite E. simpl. now rewrite T.
  - apply String.eqb_neq in K. rewrite JsMapFacts.get_set_other by exact K. apply J.
Qed.

Lemma childrenOf_parentOf : forall p c,
  In c (or_else (JsMap.get (Mermaid.childrenOf frameItems) p) []) -> isParentOf frameItems c p.
Proof.
  intros p c. unfold Mermaid.childrenOf, Mermaid.containment.
  apply childrenOf_fold; [auto | intros ? ? []].
Qed.

Lemma upChain_head : forall p l, upChain frameItems p l -> exists r, l = p :: r.
Proof. intros p l H. destruct H; eauto. Qed.

Lemma upChain_unique : forall p l, upChain frameItems p l ->
  forall l', upChain frameItems p l' -> l = l'.
Proof.
  intros p l H. induction H as [p R|p q l P _ IH]; intros l' H'.
  - destruct H' as [p' _|p' q' l' P' _]; [reflexivity | now destruct (R q')].
  - destruct H' as [p' R'|p' q' l' P' H']; [now destruct (R' q)|].
    unfold isParentOf in *. assert (q = q') by congruence. subst q'.
    f_equal. now apply IH.
Qed.

Lemma upChain_suffix : forall p l x, upChain frameItems p l -> In x l ->
  exists l1 l2, l = l1 ++ x :: l2 /\ upChain frameItems x (x :: l2).
Proof.
  intros p l x H. induction H as [p R|p q l P H IH]; intros I.
  - destruct I as [<-|[]]. exists [], []. split; [reflexivity | now constructor].
  - destruct I as [<-|I].
    + exists [], l. split; [reflexivity | now apply up_step with q].
    + destruct (IH I) as (l1 & l2 & -> & U). exists (p :: l1), l2. now split.
Qed.

Lemma upChain_NoDup : forall p l, upChain frameItems p l -> NoDup l.
Proof.
  intros p l H. induction H as [p R|p q l P H IH].
  - constructor; [intros [] | constructor].
  - constructor; [|exact IH]. intros I.
    destruct (upChain_suffix q l p H I) as (l1 & l2 & -> & U).
    pose proof (upChain_unique p _ U _ (up_step frameItems p q _ P H)) as E.
    apply (f_equal (@List.length string)) in E. simpl in E. rewrite length_app in E.
    simpl in E. lia.
Qed.

Lemma upChain_incl : forall p l, upChain frameItems p l ->
  In p (Mermaid.nodeIds frameItems) -> incl l (Mermaid.nodeIds frameItems).
Proof.
  intros p l H. induction H as [p R|p q l P H IH]; intros I x Hx.
  - destruct Hx as [<-|[]]. exact I.
  - destruct Hx as [<-|Hx]; [exact I|]. apply IH; [|exact Hx].
    now apply isParentOf_in in P.
Qed.

Lemma upChain_length : forall p l, upChain frameItems p l ->
  In p (Mermaid.nodeIds frameItems) ->
  (List.length l <= List.length (Mermaid.nodeIds frameItems))%nat.
Proof.
  intros p l H I. apply NoDup_incl_length; [eapply upChain_NoDup | eapply upChain_incl]; eassumption.
Qed.

Lemma isParentOf_truthy : forall c p, isParentOf frameItems c p -> Str.truthy p = true.
Proof.
  intros c p H. apply isParentOf_assigned in H as (_ & box & _ & A). unfold assigned in A.
  destruct (fst (Mermaid.bestParent frameItems c box)) as [p'|]; [|discriminate].
  simpl in A. destruct (Str.truthy p') eqn:T; [|discriminate]. now injection A as <-.
Qed.

(** With enough fuel for the chains of containers, [emitSubgraph] returns. *)
Lemma emitSubgraph_total : forall fuel p l indent lines,
  upChain frameItems p l ->
  (List.length (Mermaid.nodeIds frameItems) < fuel + List.length l)%nat ->
  (1 <= fuel)%nat ->
  exists out, Mermaid.emitSubgraph frameItems fuel p indent lines = Some out.
Proof.
  induction fuel as [|f IH]; intros p l indent lines U B F; [lia|].
  cbn [Mermaid.emitSubgraph].
  destruct (or_else (JsMap.get (Mermaid.childrenOf frameItems) p) []) as [|c0 cs] eqn:C;
    [now eexists|].
  assert (P : forall c, In c (c0 :: cs) -> isParentOf frameItems c p).
  { intros c I. apply childrenOf_parentOf. now rewrite C. }
  clear C. generalize (c0 :: cs) P. clear c0 cs P. intros cs P.
  match goal with
  | |- context [fold_left ?step cs (Some ?init)] =>
      assert (S : forall acc, exists out, fold_left step cs (Some acc) = Some out);
      [|destruct (S init) as [out ->]; now eexists]
  end.
  induction cs as [|c cs IHcs]; intros acc; [now eexists|].
  cbn [fold_left].
  assert (Pc : isParentOf frameItems c p) by (apply P; now left).
  destruct (JsMap.has (Mermaid.childrenOf frameItems) c).
  - pose proof (up_step frameItems c p l Pc U) as Uc.
    pose proof (upChain_length c _ Uc (proj1 (isParentOf_in c p Pc))) as L.
    simpl in L.
    destruct (IH c (c :: l) (indent ++ "  ")%string acc Uc) as [out E]; [simpl; lia | lia |].
    rewrite E. apply IHcs. intros x I. apply P. now right.
  - destruct (Str.truthy_opt _); apply IHcs; intros x I; apply P; now right.
Qed.

Lemma fold_option_total : forall (A B : Type) (step : option A -> B -> option A) (l : list B),
  (forall acc b, In b l -> exists out, step (Some acc) b = Some out) ->
  forall acc, exists out, fold_left step l (Some acc) = Some out.
Proof.
  intros A B step l. induction l as [|b l IH]; intros H acc; [now eexists|].
  simpl. destruct (H acc b) as [out E]; [now left|]. rewrite E.
  apply IH. intros acc' b' I. apply H. now right.
Qed.

(** The flowchart text is always produced. *)
Theorem mermaid_total : forall direction frame_id frameTitle,
  exists text,
    Mermaid.mermaid frameItems allConnectors direction frame_id frameTitle
      (Net.renderFuel frameItems) = Some text.
Proof.
  intros direction frame_id frameTitle. unfold Mermaid.mermaid, Mermaid.mermaidLines.
  match goal with
  | |- context [fold_left ?step (JsMap.keys _) (Some ?init)] =>
      destruct (fold_option_total _ _ step (JsMap.keys (Mermaid.childrenOf frameItems))) with (acc := init)
        as [out E]
  end.
  - intros acc p _.
    destruct (JsMap.get (Mermaid.parentOf frameItems) p) as [[q|]|] eqn:G.
    + rewrite (isParentOf_truthy p q G). now eexists.
    + apply emitSubgraph_total with (l := [p]); [|unfold Net.renderFuel; simpl; lia
                                                  |unfold Net.renderFuel; lia].
      constructor. intros q H. unfold isParentOf in H. congruence.
    + apply emitSubgraph_total with (l := [p]); [|unfold Net.renderFuel; simpl; lia
                                                  |unfold Net.renderFuel; lia].
      constructor. intros q H. unfold isParentOf in H. congruence.
  - rewrite E. now eexists.
Qed.

End Facts.
End RenderFacts.

(** ** Fetching and the entry point *)

Module FetchFacts.
Import FetchSpec.

Lemma pushChild_items : forall limitPerFrame l items ids,
  fst (fold_left (Net.pushChild limitPerFrame) l (items, ids))
  = match limitPerFrame with
    | Some (S k) => items ++ firstn (S k - List.length items) l
    | _ => items ++ l
    end.
Proof.
  intros limitPerFrame l. induction l as [|a l IH]; intros items ids.
  - simpl. destruct limitPerFrame as [[|k]|]; rewrite ?firstn_nil, ?app_nil_r; reflexivity.
  - cbn [fold_left]. unfold Net.pushChild at 2. unfold Net.limitReached.
    destruct limitPerFrame as [[|k]|].
    + rewrite IH. rewrite <- app_assoc. reflexivity.
    + destruct (S k <=? List.length items)%nat eqn:R.
      * rewrite IH. apply Nat.leb_le in R.
        replace (S k - List.length items)%nat with 0%nat by lia. reflexivity.
      * rewrite IH. apply Nat.leb_gt in R. rewrite length_app. cbn [List.length].
        destruct (S k - List.length items)%nat as [|m] eqn:M; [lia|].
        replace (S k - (List.length items + 1))%nat with m by lia.
        cbn [firstn]. rewrite <- app_assoc. reflexivity.
    + rewrite IH. rewrite <- app_assoc. reflexivity.
Qed.

Lemma pushChild_frames : forall limitPerFrame l items ids,
  noFrame l = true ->
  snd (fold_left (Net.pushChild limitPerFrame) l (items, ids)) = ids.
Proof.
  intros limitPerFrame l. induction l as [|a l IH]; intros items ids H; [reflexivity|].
  simpl in H. apply andb_true_iff in H as [Ha Hl]. apply negb_true_iff in Ha.
  cbn [fold_left]. unfold Net.pushChild at 2.
  destruct (Net.limitReached limitPerFrame (List.length items)); [now apply IH|].
  rewrite Ha. now apply IH.
Qed.

Lemma cut_firstn : forall limitPerFrame (l : list Item.t),
  match limitPerFrame with
  | Some (S k) => [] ++ firstn (S k - List.length (@nil Item.t)) l
  | _ => [] ++ l
  end = cut limitPerFrame l.
Proof. intros limitPerFrame l. unfold cut. destruct limitPerFrame as [[|k]|]; reflexivity. Qed.

Section Facts.
Variable api : Net.Api.
Variable boardId : string.
Variable limitPerFrame : option nat.

Lemma seedFrameIds_fallback : forall fuel targetFrameId count,
  rootUnavailable api boardId targetFrameId count ->
  Net.seedFrameIds api boardId fuel targetFrameId count = (Net.Return [targetFrameId], S count).
Proof.
  intros fuel t n H. unfold rootUnavailable in H.
  unfold Net.seedFrameIds, Net.try_catch, Net.bind, Net.request.
  destruct (Net.getItem api n boardId t) as [e|[rootFrame|]]; try reflexivity.
  rewrite H. reflexivity.
Qed.

Lemma limitReached_zero : forall limit, Net.limitReached limit 0 = false.
Proof. intros [[|k]|]; reflexivity. Qed.

(** One last page without frames: the traversal from the requested frame
    returns the listed items, up to the limit. *)
Lemma traverse_one_page : forall fuel targetFrameId count children,
  Str.truthy targetFrameId = true ->
  lastPage (Net.getItems api count boardId (childrenParams targetFrameId)) children ->
  noFrame children = true ->
  Net.traverse api boardId limitPerFrame (S (S (S fuel))) [targetFrameId] [] [] count
  = (Net.Return (cut limitPerFrame children), S count).
Proof.
  intros fuel t n children T (cursor & P & C) F.
  cbn [Net.traverse]. rewrite limitReached_zero, T. cbn [negb orb JsSet.has existsb].
  unfold Net.bind at 1. cbn [Net.fetchDirectChildren].
  rewrite limitReached_zero. unfold Net.bind at 1, Net.request.
  change ([("parent_item_id", t); ("limit", "50")] ++ Net.cursorParam None)
    with (childrenParams t).
  rewrite P. cbn [Net.data Net.after].
  destruct (fold_left (Net.pushChild limitPerFrame) children ([], [])) as [items ids] eqn:E.
  assert (Ei : items = cut limitPerFrame children).
  { rewrite <- cut_firstn. rewrite <- (pushChild_items limitPerFrame children [] []). now rewrite E. }
  assert (Ef : ids = []).
  { rewrite <- (pushChild_frames limitPerFrame children [] [] F). now rewrite E. }
  subst ids. unfold Str.or. rewrite C. cbn [Str.truthy_opt andb]. unfold Net.ret.
  cbn [filter app]. subst items. reflexivity.
Qed.

(** When the limit is reached nothing more is pushed. *)
Lemma pushChild_full : forall l st,
  Net.limitReached limitPerFrame (List.length (fst st)) = true ->
  fold_left (Net.pushChild limitPerFrame) l st = st.
Proof.
  induction l as [|a l IH]; intros [items ids] H; [reflexivity|].
  cbn [fold_left]. unfold Net.pushChild at 2. simpl in H. rewrite H. now apply IH.
Qed.

(** The loop over the pages of the children of a frame pushes the items of
    all the pages, as long as the limit is not reached. *)
Lemma fetchDirectChildren_listed : forall frameId count cursor children pages,
  listed (fun n params => Net.getItems api n boardId params) (childrenParams frameId)
         count cursor children pages ->
  forall fuel items ids,
    (pages <= fuel)%nat ->
    exists n,
      (n <= count + pages)%nat
      /\ Net.fetchDirectChildren api boardId limitPerFrame fuel frameId cursor items ids count
         = (Net.Return (fold_left (Net.pushChild limitPerFrame) children (items, ids)), n).
Proof.
  intros frameId count cursor children pages H.
  induction H as [count cursor page after P C|count cursor page after rest pages P C _ IH];
    intros fuel items ids L; (destruct fuel as [|fuel]; [lia|]); cbn [Net.fetchDirectChildren];
    destruct (Net.limitReached limitPerFrame (List.length items)) eqn:R;
    try (exists count; split; [lia|]; now rewrite pushChild_full);
    unfold Net.bind at 1, Net.request;
    change ([("parent_item_id", frameId); ("limit", "50")] ++ Net.cursorParam cursor)
      with (childrenParams frameId ++ Net.cursorParam cursor);
    rewrite P; cbn [Net.data Net.after]; unfold Str.or; rewrite C.
  - destruct (fold_left (Net.pushChild limitPerFrame) page (items, ids)) as [i1 d1].
    cbn [Str.truthy_opt andb]. exists (S count). split; [lia | reflexivity].
  - rewrite fold_left_app.
    destruct (fold_left (Net.pushChild limitPerFrame) page (items, ids)) as [i1 d1].
    rewrite C. cbn [andb].
    destruct (Net.limitReached limitPerFrame (List.length i1)) eqn:R1; cbn [negb].
    + exists (S count). split; [lia|]. now rewrite pushChild_full.
    + destruct (IH fuel i1 d1 ltac:(lia)) as (n & Hn & E). exists n. split; [lia | exact E].
Qed.

(** The traversal from the requested frame, whose children hold no frame,
    returns the listed items, up to the limit. *)
Lemma traverse_listed : forall fuel targetFrameId count children pages,
  Str.truthy targetFrameId = true ->
  itemsOf api boardId targetFrameId count children pages ->
  noFrame children = true ->
  (pages < fuel)%nat ->
  exists n,
    (n <= count + pages)%nat
    /\ Net.traverse api boardId limitPerFrame fuel [targetFrameId] [] [] count
       = (Net.Return (cut limitPerFrame children), n).
Proof.
  intros fuel t count children pages T H F L.
  assert (1 <= pages)%nat as P1 by (unfold itemsOf in H; inversion H; lia).
  destruct fuel as [|fuel]; [lia|].
  cbn [Net.traverse]. rewrite limitReached_zero, T. cbn [negb orb JsSet.has existsb].
  destruct (fetchDirectChildren_listed t count None children pages H fuel [] [] ltac:(lia))
    as (n & Hn & E).
  unfold Net.bind at 1. rewrite E.
  destruct (fold_left (Net.pushChild limitPerFrame) children ([], [])) as [items ids] eqn:Q.
  assert (Ei : items = cut limitPerFrame children).
  { rewrite <- cut_firstn. rewrite <- (pushChild_items limitPerFrame children [] []). now rewrite Q. }
  assert (Ef : ids = []).
  { rewrite <- (pushChild_frames limitPerFrame children [] [] F). now rewrite Q. }
  subst ids items. cbn [filter app].
  destruct fuel as [|fuel]; [lia|]. cbn [Net.traverse]. unfold Net.ret.
  exists n. split; [exact Hn | reflexivity].
Qed.

Lemma fallback_to_requested_frame : forall fuel targetFrameId count,
  rootUnavailable api boardId targetFrameId count ->
  Net.seedFrameIds api boardId fuel targetFrameId count = (Net.Return [targetFrameId], S count)
  /\ Net.fetchFrameItems api boardId limitPerFrame fuel targetFrameId count
     = Net.traverse api boardId limitPerFrame fuel [targetFrameId] [] [] (S count)
  /\ (forall children pages,
        Str.truthy targetFrameId = true ->
        itemsOf api boardId targetFrameId (S count) children pages ->
        noFrame children = true ->
        (pages < fuel)%nat ->
        exists n,
          (n <= S count + pages)%nat
          /\ Net.fetchFrameItems api boardId limitPerFrame fuel targetFrameId count
             = (Net.Return (cut limitPerFrame children), n)).
Proof.
  intros fuel t n H.
  pose proof (seedFrameIds_fallback fuel t n H) as Hs.
  assert (E : Net.fetchFrameItems api boardId limitPerFrame fuel t n
              = Net.traverse api boardId limitPerFrame fuel [t] [] [] (S n)).
  { unfold Net.fetchFrameItems, Net.bind. now rewrite Hs. }
  split; [exact Hs|]. split; [exact E|].
  intros children pages T P F L. rewrite E. now apply traverse_listed.
Qed.

End Facts.

Lemma fetchFrameTitle_returns : forall api boardId frame_id count,
  exists title, Net.fetchFrameTitle api boardId frame_id count = (Net.Return title, S count).
Proof.
  intros api boardId fid n. unfold Net.fetchFrameTitle, Net.try_catch, Net.bind, Net.request.
  destruct (Net.getItem api n boardId fid) as [e|frameResp]; [now eexists|].
  destruct (Str.truthy_opt _); now eexists.
Qed.

Lemma pushConnector_fold : forall maxConnectors l connectors,
  fold_left (Net.pushConnector maxConnectors) l connectors
  = match maxConnectors with
    | Some (S k) => connectors ++ firstn (S k - List.length connectors) l
    | _ => connectors ++ l
    end.
Proof.
  intros limit l. induction l as [|a l IH]; intros acc.
  - simpl. destruct limit as [[|k]|]; rewrite ?firstn_nil, ?app_nil_r; reflexivity.
  - cbn [fold_left]. unfold Net.pushConnector at 2. unfold Net.limitReached.
    destruct limit as [[|k]|].
    + rewrite IH. rewrite <- app_assoc. reflexivity.
    + destruct (S k <=? List.length acc)%nat eqn:R.
      * rewrite IH. apply Nat.leb_le in R.
        replace (S k - List.length acc)%nat with 0%nat by lia. reflexivity.
      * rewrite IH. apply Nat.leb_gt in R. rewrite length_app. cbn [List.length].
        destruct (S k - List.length acc)%nat as [|m] eqn:M; [lia|].
        replace (S k - (List.length acc + 1))%nat with m by lia.
        cbn [firstn]. rewrite <- app_assoc. reflexivity.
    + rewrite IH. rewrite <- app_assoc. reflexivity.
Qed.

Lemma fetchConnectors_one_page : forall api boardId maxConnectors fuel count connectors,
  lastPage (Net.getConnectors api count boardId connectorParams) connectors ->
  Net.fetchConnectors api boardId maxConnectors (S fuel) None [] count
  = (Net.Return (cut maxConnectors connectors), S count).
Proof.
  intros api boardId limit fuel n conns (cursor & P & C).
  cbn [Net.fetchConnectors]. rewrite limitReached_zero. unfold Net.bind, Net.request.
  change ([("limit", "50")] ++ Net.cursorParam None) with connectorParams.
  rewrite P. cbn [Net.data Net.after]. unfold Str.or. rewrite C. cbn [Str.truthy_opt andb].
  rewrite pushConnector_fold. unfold Net.ret, cut.
  destruct limit as [[|k]|]; reflexivity.
Qed.

(** When the three fetches return, [execute] returns, and its text is the
    flowchart of what was fetched. *)
Lemma execute_of_fetched : forall activeBoardId api fuel args count title items connectors,
  fetched activeBoardId api fuel args count = Some (title, items, connectors) ->
  exists r count',
    Net.execute activeBoardId api fuel args count = (Net.Return r, count')
    /\ Some (Net.mermaid r)
       = Mermaid.mermaid items connectors (or_else (Net.direction args) "LR")
           (Net.frame_id args) title (Net.renderFuel items)
    /\ Net.nodes r = Mermaid.nodes items
    /\ Net.edges r = Mermaid.edges items connectors.
Proof.
  intros a api fuel args n title items conns H. unfold fetched in H.
  unfold Net.execute, Net.withBoard.
  destruct (Net.resolveBoardId a (Net.board_id args)) as [e|boardId]; [discriminate|].
  unfold Net.try_catch, Net.bind.
  destruct (Net.fetchAll api fuel boardId args n) as [[data|e|] n'] eqn:F; try discriminate.
  simpl in H. injection H as ->.
  destruct (RenderFacts.mermaid_total items conns (or_else (Net.direction args) "LR")
              (Net.frame_id args) title) as [text E].
  rewrite E. unfold Net.ret. eexists _, _. split; [reflexivity|]. simpl. now split.
Qed.

Lemma pushConnector_full : forall maxConnectors l connectors,
  Net.limitReached maxConnectors (List.length connectors) = true ->
  fold_left (Net.pushConnector maxConnectors) l connectors = connectors.
Proof.
  intros limit l. induction l as [|a l IH]; intros acc H; [reflexivity|].
  cbn [fold_left]. unfold Net.pushConnector at 2. rewrite H. now apply IH.
Qed.

Lemma fetchConnectors_listed : forall api boardId maxConnectors count cursor connectors pages,
  listed (fun n params => Net.getConnectors api n boardId params) connectorParams
         count cursor connectors pages ->
  forall fuel acc,
    (pages <= fuel)%nat ->
    exists n,
      Net.fetchConnectors api boardId maxConnectors fuel cursor acc count
      = (Net.Return (fold_left (Net.pushConnector maxConnectors) connectors acc), n).
Proof.
  intros api boardId limit count cursor conns pages H.
  induction H as [count cursor page after P C|count cursor page after rest pages P C _ IH];
    intros fuel acc L; (destruct fuel as [|fuel]; [lia|]); cbn [Net.fetchConnectors];
    destruct (Net.limitReached limit (List.length acc)) eqn:R;
    try (exists count; now rewrite pushConnector_full);
    unfold Net.bind at 1, Net.request;
    change ([("limit", "50")] ++ Net.cursorParam cursor)
      with (connectorParams ++ Net.cursorParam cursor);
    rewrite P; cbn [Net.data Net.after]; unfold Str.or; rewrite C.
  - cbn [Str.truthy_opt andb]. now exists (S count).
  - rewrite fold_left_app. rewrite C. cbn [andb].
    destruct (Net.limitReached limit
                (List.length (fold_left (Net.pushConnector limit) page acc))) eqn:R1; cbn [negb].
    + exists (S count). now rewrite (pushConnector_full limit rest _ R1).
    + apply IH. lia.
Qed.

Lemma execute_with_unavailable_root :
  forall activeBoardId api fuel args boardId children pages connectors connectorPages,
    Net.resolveBoardId activeBoardId (Net.board_id args) = inr boardId ->
    rootUnavailable api boardId (Net.frame_id args) 1 ->
    Str.truthy (Net.frame_id args) = true ->
    itemsOf api boardId (Net.frame_id args) 2 children pages ->
    noFrame children = true ->
    connectorsOf api boardId connectors connectorPages ->
    (pages < fuel)%nat ->
    (connectorPages <= fuel)%nat ->
    exists r n,
      Net.execute activeBoardId api fuel args 0 = (Net.Return r, n)
      /\ Net.nodes r = Mermaid.nodes (cut (Net.limitPerFrame args) children)
      /\ Net.edges r = Mermaid.edges (cut (Net.limitPerFrame args) children)
                         (cut (Net.maxConnectors args) connectors).
Proof.
  intros a api fuel args boardId children pages conns cpages R U T P F C L Lc.
  destruct (fetchFrameTitle_returns api boardId (Net.frame_id args) 0) as [title Ht].
  destruct (fallback_to_requested_frame api boardId (Net.limitPerFrame args) fuel
              (Net.frame_id args) 1 U) as (_ & _ & Hi).
  destruct (Hi children pages T P F L) as (n1 & _ & Hi1).
  destruct (fetchConnectors_listed api boardId (Net.maxConnectors args) n1 None conns cpages
              (C n1) fuel [] Lc) as (n2 & Hc).
  assert (Ec : fold_left (Net.pushConnector (Net.maxConnectors args)) conns []
               = cut (Net.maxConnectors args) conns).
  { rewrite pushConnector_fold. unfold cut. now destruct (Net.maxConnectors args) as [[|k]|]. }
  rewrite Ec in Hc.
  assert (Hf : fetched a api fuel args 0
               = Some (title, cut (Net.limitPerFrame args) children,
                       cut (Net.maxConnectors args) conns)).
  { unfold fetched. rewrite R. unfold Net.fetchAll, Net.bind. rewrite Ht, Hi1, Hc. reflexivity. }
  destruct (execute_of_fetched _ _ _ _ _ _ _ _ Hf) as (r & n' & E & _ & Hn & He).
  exists r, n'. split; [exact E | now split].
Qed.

(** C9, as the code has it: when the request for the root frame throws, has
    no data, or gives a frame without a resolvable box, the only seed of the
    traversal is the requested frame, so no frame is looked for by geometry
    and the fetch is the traversal from that frame; frames found among the
    listed children are still followed.  When the listing of the children is
    served, in any number of pages, and holds no frame, the fetch returns
    exactly the items of all its pages, up to the limit; when the listing of
    the connectors is served too, [execute] returns a diagram whose nodes
    and edges are built from these items and connectors. *)
Theorem root_unavailable_fallback : forall api boardId,
  (forall limitPerFrame fuel targetFrameId count,
     rootUnavailable api boardId targetFrameId count ->
     Net.seedFrameIds api boardId fuel targetFrameId count
     = (Net.Return [targetFrameId], S count)
     /\ Net.fetchFrameItems api boardId limitPerFrame fuel targetFrameId count
        = Net.traverse api boardId limitPerFrame fuel [targetFrameId] [] [] (S count)
     /\ (forall children pages,
           Str.truthy targetFrameId = true ->
           itemsOf api boardId targetFrameId (S count) children pages ->
           noFrame children = true ->
           (pages < fuel)%nat ->
           exists n,
             (n <= S count + pages)%nat
             /\ Net.fetchFrameItems api boardId limitPerFrame fuel targetFrameId count
                = (Net.Return (cut limitPerFrame children), n)))
  /\ (forall activeBoardId fuel args children pages connectors connectorPages,
        Net.resolveBoardId activeBoardId (Net.board_id args) = inr boardId ->
        rootUnavailable api boardId (Net.frame_id args) 1 ->
        Str.truthy (Net.frame_id args) = true ->
        itemsOf api boardId (Net.frame_id args) 2 children pages ->
        noFrame children = true ->
        connectorsOf api boardId connectors connectorPages ->
        (pages < fuel)%nat ->
        (connectorPages <= fuel)%nat ->
        exists r n,
          Net.execute activeBoardId api fuel args 0 = (Net.Return r, n)
          /\ Net.nodes r = Mermaid.nodes (cut (Net.limitPerFrame args) children)
          /\ Net.edges r = Mermaid.edges (cut (Net.limitPerFrame args) children)
                             (cut (Net.maxConnectors args) connectors)).
Proof.
  intros api boardId. split.
  - intros limit fuel target count U. now apply fallback_to_requested_frame.
  - intros a fuel args children pages conns cpages R U T P F C L Lc.
    now apply (execute_with_unavailable_root a api fuel args boardId children pages conns cpages).
Qed.

(** The items and the connectors of [pagedApi] come in two pages each, and
    the diagram holds all of them. *)
Lemma root_unavailable_fallback_witness :
  Net.fetchFrameItems pagedApi "b1" None 5 "F" 1
  = (Net.Return [plain "A" "shape"; plain "C" "card"], 4)
  /\ (exists n,
        (n <= 2 + 2)%nat
        /\ Net.fetchFrameItems pagedApi "b1" None 5 "F" 1
           = (Net.Return [plain "A" "shape"; plain "C" "card"], n))
  /\ exists r n,
       Net.execute None pagedApi 5 flatArgs 0 = (Net.Return r, n)
       /\ Net.nodes r = Mermaid.nodes [plain "A" "shape"; plain "C" "card"]
       /\ Net.edges r = Mermaid.edges [plain "A" "shape"; plain "C" "card"]
                          [link "1" "A" "C"; link "2" "C" "A"].
Proof.
  destruct (root_unavailable_fallback pagedApi "b1") as [H1 H2].
  assert (P : forall count, itemsOf pagedApi "b1" "F" count
                              ([plain "A" "shape"] ++ [plain "C" "card"]) 2).
  { intros count. unfold itemsOf.
    apply (listed_more _ _ count None [plain "A" "shape"] (Some "c1") [plain "C" "card"] 1);
      [reflexivity | reflexivity|].
    apply (listed_last _ _ (S count) (Some "c1") [plain "C" "card"] None); reflexivity. }
  assert (C : connectorsOf pagedApi "b1" ([link "1" "A" "C"] ++ [link "2" "C" "A"]) 2).
  { intros count.
    apply (listed_more _ _ count None [link "1" "A" "C"] (Some "k1") [link "2" "C" "A"] 1);
      [reflexivity | reflexivity|].
    apply (listed_last _ _ (S count) (Some "k1") [link "2" "C" "A"] None); reflexivity. }
  split; [vm_compute; reflexivity|]. split.
  - destruct (H1 None 5 "F" 1 I) as (_ & _ & H).
    exact (H _ 2 eq_refl (P 2) eq_refl ltac:(lia)).
  - exact (H2 None 5 flatArgs _ 2 _ 2 eq_refl I eq_refl (P 2) eq_refl C ltac:(lia) ltac:(lia)).
Defined.




(** C9 as stated fails: with the root frame unavailable, a frame [G] listed
    under the requested frame is followed, and the shape under [G] is among
    the items. *)
Lemma onlyListedChildren_fails : ~ onlyListedChildren nestedApi "b1" 5 "F" 0.
Proof.
  unfold onlyListedChildren. intros H.
  assert (E : fst (Net.fetchFrameItems nestedApi "b1" None 5 "F" 0)
              = Net.Return (listedChildren nestedApi "b1" "F" 1)) by (apply H; exact I).
  vm_compute in E. discriminate.
Qed.

End FetchFacts.

(** ** Grouping by a key *)

Module GroupFacts.
Import GroupSpec StackSpec.

Lemma filter_filter_same : forall (A : Type) (p : A -> bool) (l : list A),
  filter p (filter p l) = filter p l.
Proof.
  intros A p l. induction l as [|x l IH]; simpl; [reflexivity|].
  destruct (p x) eqn:E; simpl; [rewrite E; now f_equal | exact IH].
Qed.

Lemma filter_comm : forall (A : Type) (p q : A -> bool) (l : list A),
  filter p (filter q l) = filter q (filter p l).
Proof.
  intros A p q l. induction l as [|x l IH]; simpl; [reflexivity|].
  destruct (p x) eqn:P, (q x) eqn:Q; simpl; rewrite ?P, ?Q, ?IH; reflexivity.
Qed.

Lemma filter_andb : forall (A : Type) (p q : A -> bool) (l : list A),
  filter p (filter q l) = filter (fun y => q y && p y) l.
Proof.
  intros A p q l. induction l as [|x l IH]; simpl; [reflexivity|].
  destruct (q x) eqn:Q; simpl; [destruct (p x); now rewrite IH | exact IH].
Qed.

Section Classes.
Variable same : string -> string -> bool.
Hypothesis same_class : forall x z, same x z = true -> forall y, same x y = same z y.

Lemma representatives_filter : forall x l,
  representatives same (filter (fun y => negb (same x y)) l)
  = filter (fun y => negb (same x y)) (representatives same l).
Proof.
  intros x l. induction l as [|z l IH]; [reflexivity|].
  cbn [filter representatives]. destruct (same x z) eqn:E; cbn [negb].
  - rewrite IH. symmetry.
    rewrite (filter_ext (fun y => negb (same z y)) (fun y => negb (same x y)))
      by (intros y; now rewrite (same_class x z E y)).
    apply filter_filter_same.
  - cbn [representatives]. f_equal. rewrite IH. apply filter_comm.
Qed.

End Classes.

Lemma representatives_incl : forall same l x, In x (representatives same l) -> In x l.
Proof.
  intros same l. induction l as [|z l IH]; intros x H; [destruct H|].
  destruct H as [<-|H]; [now left|]. right. apply IH. now apply filter_In in H.
Qed.

Lemma representatives_ext : forall same1 same2 l,
  (forall x y, In x l -> In y l -> same1 x y = same2 x y) ->
  representatives same1 l = representatives same2 l.
Proof.
  intros same1 same2 l. induction l as [|z l IH]; intros H; [reflexivity|].
  cbn [representatives]. f_equal. rewrite IH by (intros; apply H; now right).
  apply filter_ext_in. intros y Hy. f_equal. apply H; [now left|].
  right. eapply representatives_incl; eassumption.
Qed.

Section Grouping.
Variable key : string -> string.

Lemma sameKey_class : forall x z, sameKey key x z = true -> forall y, sameKey key x y = sameKey key z y.
Proof. intros x z H y. unfold sameKey in *. apply String.eqb_eq in H. now rewrite H. Qed.

Lemma has_get : forall (V : Type) (g : JsMap.t V) k,
  JsMap.has g k = false -> JsMap.get g k = None.
Proof. intros V g k. unfold JsMap.has. destruct (JsMap.get g k); [discriminate | reflexivity]. Qed.

Lemma set_missing : forall (V : Type) (g : JsMap.t V) k v,
  JsMap.has g k = false -> JsMap.set g k v = g ++ [(k, v)].
Proof.
  intros V g k v. unfold JsMap.has. induction g as [|[k' v'] g IH]; simpl; [reflexivity|].
  destruct (String.eqb k' k); [discriminate|]. intros H. now rewrite IH.
Qed.

Lemma has_cons : forall (V : Type) (g : JsMap.t V) k' v' k,
  JsMap.has ((k', v') :: g) k = String.eqb k' k || JsMap.has g k.
Proof. intros. unfold JsMap.has. simpl. destruct (String.eqb k' k); reflexivity. Qed.

Lemma extend_miss : forall g x l,
  JsMap.has g (key x) = false -> extend key g (x :: l) = extend key g l.
Proof.
  intros g x l. induction g as [|[k ids] g IH]; intros H; [reflexivity|].
  rewrite has_cons in H. apply orb_false_iff in H as [K H].
  cbn [extend map fst snd filter]. rewrite String.eqb_sym, K.
  f_equal. now apply IH.
Qed.

Lemma extend_file : forall g x l,
  JsMap.has g (key x) = true -> NoDup (JsMap.keys g) ->
  extend key (file key g x) l = extend key g (x :: l).
Proof.
  intros g x l. unfold file. induction g as [|[k ids] g IH]; intros H N; [discriminate|].
  rewrite has_cons in H. cbn [JsMap.get JsMap.set]. inversion N as [|? ? Nk Ng]; subst.
  destruct (String.eqb k (key x)) eqn:K.
  - cbn [or_else extend map fst snd filter]. rewrite String.eqb_sym, K.
    rewrite <- app_assoc. cbn [app]. f_equal.
    apply String.eqb_eq in K. subst k. symmetry. apply extend_miss.
    destruct (JsMap.has g (key x)) eqn:Hg; [|reflexivity].
    exfalso. apply Nk. unfold JsMap.has in Hg.
    destruct (JsMap.get g (key x)) as [v|] eqn:G; [|discriminate].
    apply JsMapFacts.get_In in G. unfold JsMap.keys. apply in_map_iff. now exists (key x, v).
  - cbn [orb] in H. cbn [extend map fst snd filter]. rewrite String.eqb_sym, K. f_equal.
    now apply IH.
Qed.

Lemma keys_file : forall g x,
  JsMap.has g (key x) = true -> JsMap.keys (file key g x) = JsMap.keys g.
Proof.
  intros g x. unfold file, JsMap.keys.
  generalize (or_else (JsMap.get g (key x)) [] ++ [x]). intros v.
  induction g as [|[k ids] g IH]; intros H; [discriminate|].
  rewrite has_cons in H. cbn [JsMap.set]. destruct (String.eqb k (key x)); [reflexivity|].
  cbn [map fst]. f_equal. now apply IH.
Qed.

Lemma has_keys : forall (V : Type) (g g' : JsMap.t V),
  JsMap.keys g = JsMap.keys g' -> forall k, JsMap.has g k = JsMap.has g' k.
Proof.
  intros V g. unfold JsMap.keys. induction g as [|[k v] g IH]; intros [|[k' v'] g'] H q;
    try discriminate; [reflexivity|].
  cbn [map fst] in H. injection H as -> H. rewrite !has_cons. f_equal. now apply IH.
Qed.

Lemma has_app_one : forall (V : Type) (g : JsMap.t V) k v q,
  JsMap.has (g ++ [(k, v)]) q = JsMap.has g q || String.eqb k q.
Proof.
  intros V g k v q. induction g as [|[k' v'] g IH].
  - unfold JsMap.has. simpl. destruct (String.eqb k q); reflexivity.
  - cbn [app]. rewrite !has_cons, IH. now rewrite orb_assoc.
Qed.

Lemma groups_fold : forall l g,
  NoDup (JsMap.keys g) ->
  fold_left (file key) l g
  = extend key g l ++ map (groupOf key l) (representatives (sameKey key) (fresh key g l)).
Proof.
  induction l as [|x l IH]; intros g N.
  - cbn [fold_left fresh filter representatives map]. rewrite app_nil_r.
    unfold extend. rewrite <- (map_id g) at 1. apply map_ext. intros [k ids].
    cbn [fst snd filter]. now rewrite app_nil_r.
  - cbn [fold_left]. destruct (JsMap.has g (key x)) eqn:H.
    + rewrite IH by (rewrite keys_file; assumption).
      rewrite (extend_file g x l H N). f_equal.
      unfold fresh at 2. cbn [filter]. rewrite H. cbn [negb]. fold (fresh key g l).
      assert (F : fresh key (file key g x) l = fresh key g l).
      { unfold fresh. apply filter_ext. intros y. f_equal. apply has_keys. now apply keys_file. }
      rewrite F. apply map_ext_in. intros first I. unfold groupOf. f_equal.
      cbn [filter]. apply representatives_incl in I. apply filter_In in I as [_ I].
      destruct (String.eqb (key x) (key first)) eqn:K; [|reflexivity].
      apply String.eqb_eq in K. rewrite <- K, H in I. discriminate.
    + assert (S : file key g x = g ++ [(key x, [x])]).
      { unfold file. rewrite (has_get _ g _ H). now apply set_missing. }
      rewrite S. rewrite IH.
      2:{ unfold JsMap.keys. rewrite map_app. cbn [map fst].
          apply NoDup_app; [exact N | constructor; [intros [] | constructor] | ].
          intros k I [<-|[]]. unfold JsMap.has in H.
          apply in_map_iff in I as ([k' v] & E & I). cbn [fst] in E. subst k'.
          assert (G : exists v', JsMap.get g (key x) = Some v').
          { clear - I. induction g as [|[k0 v0] g IHg]; [destruct I|]. cbn [JsMap.get].
            destruct (String.eqb k0 (key x)) eqn:K; [now eexists|].
            destruct I as [I|I]; [|now apply IHg].
            injection I as -> _. now rewrite String.eqb_refl in K. }
          destruct G as [v' G]. now rewrite G in H. }
      rewrite (extend_miss g x l H). unfold extend at 1. rewrite map_app, <- app_assoc. f_equal.
      cbn [map fst snd app].
      unfold fresh at 2. cbn [filter]. rewrite H. cbn [negb representatives map].
      fold (fresh key g l). unfold groupOf at 2. cbn [filter]. rewrite String.eqb_refl.
      f_equal.
      assert (F : fresh key (g ++ [(key x, [x])]) l
                  = filter (fun y => negb (sameKey key x y)) (fresh key g l)).
      { unfold fresh. rewrite filter_andb. apply filter_ext. intros y.
        rewrite has_app_one. unfold sameKey. now rewrite negb_orb. }
      rewrite F. rewrite (representatives_filter _ (sameKey_class)).
      apply map_ext_in. intros first I. unfold groupOf. f_equal. cbn [filter].
      apply filter_In in I as [_ I]. unfold sameKey in I. apply negb_true_iff in I.
      now rewrite I.
Qed.

End Grouping.
End GroupFacts.

(** ** Inferred dependency edges *)

Module StackFacts.
Import StackSpec GroupSpec GroupFacts ContainmentSpec.

(** *** Sorting keeps the elements *)

Lemma insert_In : forall (A : Type) (cmp : A -> A -> number) (x a : A) (l : list A),
  In x (JsArray.insert cmp a l) <-> x = a \/ In x l.
Proof.
  intros A cmp x a l. induction l as [|b l IH]; simpl; [intuition|].
  destruct (Num.gtb (cmp a b) Num.zero); simpl; [rewrite IH|]; intuition.
Qed.

Lemma sort_In : forall (A : Type) (cmp : A -> A -> number) (x : A) (l : list A),
  In x (JsArray.sort cmp l) <-> In x l.
Proof.
  intros A cmp x l. unfold JsArray.sort. induction l as [|a l IH]; simpl; [tauto|].
  rewrite insert_In, IH. intuition.
Qed.

Lemma insert_length : forall (A : Type) (cmp : A -> A -> number) (a : A) (l : list A),
  List.length (JsArray.insert cmp a l) = S (List.length l).
Proof.
  intros A cmp a l. induction l as [|b l IH]; simpl; [reflexivity|].
  destruct (Num.gtb (cmp a b) Num.zero); simpl; [now rewrite IH | reflexivity].
Qed.

Lemma sort_length : forall (A : Type) (cmp : A -> A -> number) (l : list A),
  List.length (JsArray.sort cmp l) = List.length l.
Proof.
  intros A cmp l. unfold JsArray.sort. induction l as [|a l IH]; simpl; [reflexivity|].
  now rewrite insert_length, IH.
Qed.

Lemma adjacent_In : forall (A : Type) (l : list A) (a b : A),
  In (a, b) (adjacent l) -> In a l /\ In b l.
Proof.
  intros A l. induction l as [|x [|y l] IH]; intros a b H; try destruct H.
  - injection H as <- <-. split; [now left | right; now left].
  - apply IH in H as [Ha Hb]. split; now right.
Qed.

Lemma adjacent_short : forall (A : Type) (l : list A),
  (List.length l < 2)%nat -> adjacent l = [].
Proof. intros A [|x [|y l]] H; simpl in *; try reflexivity; lia. Qed.

Lemma fresh_nil : forall key l, fresh key [] l = l.
Proof.
  intros key l. unfold fresh. induction l as [|x l IH]; [reflexivity|].
  cbn [filter]. unfold JsMap.has at 1. cbn [JsMap.get negb]. now f_equal.
Qed.

Section Facts.
Variable frameItems : list Item.t.
Variable allConnectors : list Connector.t.

Local Abbreviation nodeIds := (Mermaid.nodeIds frameItems).
Local Abbreviation gk := (Mermaid.groupKeyFor frameItems).

Lemma withBoxes_In : forall ids p,
  In p (Mermaid.withBoxes frameItems ids) -> In (fst p) ids.
Proof.
  induction ids as [|id ids IH]; intros p H; [destruct H|].
  cbn [Mermaid.withBoxes] in H.
  destruct (JsMap.get (Mermaid.idToBBox frameItems) id); [|right; now apply IH].
  destruct H as [<-|H]; [now left | right; now apply IH].
Qed.

Lemma withBoxes_length : forall ids,
  (List.length (Mermaid.withBoxes frameItems ids) <= List.length ids)%nat.
Proof.
  induction ids as [|id ids IH]; simpl; [lia|].
  destruct (JsMap.get (Mermaid.idToBBox frameItems) id); simpl; lia.
Qed.

Lemma sortedGroup_In : forall ids p,
  In p (Mermaid.sortedGroup frameItems ids) -> In (fst p) ids.
Proof. intros ids p H. apply sort_In in H. now apply withBoxes_In. Qed.

(** *** The groups *)

Lemma groupKeyFor_parentKey : forall id,
  gk id = match parentKey frameItems id with Some p => p | None => "__root__" end.
Proof.
  intros id. unfold Mermaid.groupKeyFor, parentKey.
  destruct (JsMap.get (Mermaid.parentOf frameItems) id) as [[p|]|] eqn:G; try reflexivity.
  now rewrite (RenderFacts.isParentOf_truthy frameItems id p G).
Qed.

Lemma parentKey_in : forall id p, parentKey frameItems id = Some p -> In p nodeIds.
Proof.
  intros id p H. unfold parentKey in H.
  destruct (JsMap.get (Mermaid.parentOf frameItems) id) as [[q|]|] eqn:G; try discriminate.
  injection H as ->. now apply (RenderFacts.isParentOf_in frameItems id p G).
Qed.

Hypothesis noRoot : JsSet.has nodeIds "__root__" = false.

Lemma not_root : forall p, In p nodeIds -> String.eqb p "__root__" = false.
Proof.
  intros p I. destruct (String.eqb p "__root__") eqn:E; [|reflexivity].
  apply String.eqb_eq in E. subst p. apply JsSetFacts.has_In in I. congruence.
Qed.

Lemma sameKey_sameParent : forall x y,
  sameKey gk x y = sameParent frameItems x y.
Proof.
  intros x y. unfold sameKey, sameParent. rewrite !groupKeyFor_parentKey.
  destruct (parentKey frameItems x) as [p|] eqn:Px, (parentKey frameItems y) as [q|] eqn:Py;
    cbn [Str.eq_opt]; try reflexivity.
  - apply not_root. eapply parentKey_in; eassumption.
  - rewrite String.eqb_sym. apply not_root. eapply parentKey_in; eassumption.
Qed.

Lemma groups_by_parent : map snd (Mermaid.groups frameItems) = groupsByParent frameItems.
Proof.
  unfold Mermaid.groups, groupsByParent.
  change (fold_left _ nodeIds []) with (fold_left (file gk) nodeIds []).
  rewrite groups_fold by constructor. cbn [extend map app].
  rewrite map_map.
  rewrite fresh_nil. rewrite (representatives_ext (sameKey gk) (sameParent frameItems))
    by (intros; apply sameKey_sameParent).
  apply map_ext. intros first. unfold groupOf. cbn [snd].
  apply filter_ext. intros y. rewrite String.eqb_sym. apply sameKey_sameParent.
Qed.

(** *** The loops over the groups as one loop over the stacked pairs *)

Local Abbreviation pairStep := (StackSpec.pairStep frameItems).

Lemma stackLoop_fold : forall sorted st,
  Mermaid.stackLoop frameItems st sorted = fold_left pairStep (adjacent sorted) st.
Proof.
  induction sorted as [|a l IH]; intros st; [reflexivity|].
  destruct l as [|b rest]; [reflexivity|].
  cbn [Mermaid.stackLoop adjacent fold_left]. apply IH.
Qed.

Lemma groupStep_fold : forall st group,
  Mermaid.groupStep frameItems st group
  = fold_left pairStep (adjacent (Mermaid.sortedGroup frameItems (snd group))) st.
Proof.
  intros st group. unfold Mermaid.groupStep.
  destruct (List.length (snd group) <? 2)%nat eqn:L; [|apply stackLoop_fold].
  apply Nat.ltb_lt in L. rewrite adjacent_short; [reflexivity|].
  unfold Mermaid.sortedGroup. rewrite sort_length.
  pose proof (withBoxes_length (snd group)). lia.
Qed.

Lemma allEdges_fold :
  Mermaid.allEdges frameItems allConnectors
  = fold_left pairStep (visitedPairs frameItems)
      (Mermaid.explicitEdges frameItems allConnectors).
Proof.
  unfold Mermaid.allEdges, visitedPairs. rewrite <- groups_by_parent.
  generalize (Mermaid.explicitEdges frameItems allConnectors).
  induction (Mermaid.groups frameItems) as [|g gs IH]; intros st; [reflexivity|].
  cbn [fold_left map flat_map]. rewrite fold_left_app, <- groupStep_fold. apply IH.
Qed.

(** *** Aliases *)

Lemma makeNodes_alias : forall its counter n,
  In n (Mermaid.makeNodes counter its) -> Str.truthy (Node.alias n) = true.
Proof.
  induction its as [|it its IH]; intros counter n H; [destruct H|].
  destruct H as [<-|H]; [reflexivity | eapply IH; eassumption].
Qed.

Lemma fold_set_get : forall (A V : Type) (f : A -> string) (g : A -> V) (l : list A)
  (m : JsMap.t V) k,
  JsMap.get (fold_left (fun m n => JsMap.set m (f n) (g n)) l m) k
  = match find (fun n => String.eqb (f n) k) (rev l) with
    | Some n => Some (g n)
    | None => JsMap.get m k
    end.
Proof.
  intros A V f g l. induction l as [|a l IH] using rev_ind; intros m k; [reflexivity|].
  rewrite fold_left_app, rev_app_distr. cbn [fold_left rev app find].
  destruct (String.eqb (f a) k) eqn:E.
  - apply String.eqb_eq in E. subst k. apply JsMapFacts.get_set_same.
  - apply String.eqb_neq in E. rewrite JsMapFacts.get_set_other by exact E. apply IH.
Qed.

Lemma alias_of_node : forall id,
  In id nodeIds ->
  Str.truthy_opt (JsMap.get (Mermaid.idToAlias frameItems) id) = true.
Proof.
  intros id I. unfold Mermaid.idToAlias. rewrite fold_set_get.
  destruct (find _ _) as [n|] eqn:F.
  - apply find_some in F as [F _]. apply in_rev in F.
    exact (makeNodes_alias _ _ _ F).
  - exfalso. unfold Mermaid.nodeIds in I. apply in_map_iff in I as (n & E & I).
    apply in_rev in I. apply (find_none _ _ F) in I. rewrite E, String.eqb_refl in I.
    discriminate.
Qed.

Lemma node_of_alias : forall id,
  Str.truthy_opt (JsMap.get (Mermaid.idToAlias frameItems) id) = true -> In id nodeIds.
Proof.
  intros id. unfold Mermaid.idToAlias. rewrite fold_set_get.
  destruct (find _ _) as [n|] eqn:F; [|discriminate].
  intros _. apply find_some in F as [F E]. apply in_rev in F. apply String.eqb_eq in E.
  subst id. unfold Mermaid.nodeIds. now apply in_map.
Qed.

(** *** The set of pair keys and the list of ordered pairs *)

Hypothesis distinctKeys : pairKeysDistinct nodeIds = true.

Lemma pairKey_eqb : forall a b c d,
  In a nodeIds -> In b nodeIds -> In c nodeIds -> In d nodeIds ->
  String.eqb (Mermaid.pairKey a b) (Mermaid.pairKey c d) = String.eqb a c && String.eqb b d.
Proof.
  intros a b c d Ia Ib Ic Id.
  pose proof distinctKeys as D. unfold pairKeysDistinct in D.
  rewrite forallb_forall in D. specialize (D a Ia).
  rewrite forallb_forall in D. specialize (D b Ib).
  rewrite forallb_forall in D. specialize (D c Ic).
  rewrite forallb_forall in D. specialize (D d Id).
  destruct (String.eqb a c && String.eqb b d) eqn:E.
  - apply andb_true_iff in E as [E1 E2]. apply String.eqb_eq in E1, E2. subst c d.
    apply String.eqb_refl.
  - destruct (String.eqb (Mermaid.pairKey a b) (Mermaid.pairKey c d)); [discriminate D | reflexivity].
Qed.

Local Abbreviation agree := (StackSpec.agree frameItems).

Lemma agree_add : forall set existing c d,
  In c nodeIds -> In d nodeIds -> agree set existing ->
  agree (JsSet.add set (Mermaid.pairKey c d)) ((c, d) :: existing).
Proof.
  intros set existing c d Ic Id A a b Ia Ib.
  rewrite JsSetFacts.has_add, (A a b Ia Ib), (pairKey_eqb a b c d Ia Ib Ic Id).
  unfold memPair. cbn [existsb fst snd]. apply orb_comm.
Qed.

Lemma memPair_app : forall p l1 l2, memPair p (l1 ++ l2) = memPair p l1 || memPair p l2.
Proof. intros. unfold memPair. apply existsb_app. Qed.

Lemma agree_snoc : forall set existing c d,
  In c nodeIds -> In d nodeIds -> agree set existing ->
  agree (JsSet.add set (Mermaid.pairKey c d)) (existing ++ [(c, d)]).
Proof.
  intros set existing c d Ic Id A a b Ia Ib.
  rewrite JsSetFacts.has_add, (A a b Ia Ib), (pairKey_eqb a b c d Ia Ib Ic Id).
  rewrite memPair_app. f_equal. unfold memPair. cbn [existsb fst snd]. now rewrite orb_false_r.
Qed.

Lemma explicit_agree : forall l st,
  agree (snd st) (map pairOf (fst st)) ->
  agree (snd (fold_left (Mermaid.connectorStep frameItems) l st))
        (map pairOf (fst (fold_left (Mermaid.connectorStep frameItems) l st))).
Proof.
  induction l as [|c l IH]; intros [edges set] A; [exact A|].
  cbn [fold_left]. apply IH. unfold Mermaid.connectorStep.
  destruct (negb _ || negb _); [exact A|].
  destruct (negb (Str.truthy_opt (JsMap.get (Mermaid.idToAlias frameItems) _))
            || negb (Str.truthy_opt (JsMap.get (Mermaid.idToAlias frameItems) _))) eqn:E;
    [exact A|].
  apply orb_false_iff in E as [E1 E2]. apply negb_false_iff in E1, E2.
  cbn [fst snd]. rewrite map_app. cbn [map pairOf Edge.fromId Edge.toId].
  apply agree_snoc; [now apply node_of_alias | now apply node_of_alias | exact A].
Qed.

(** One visited pair whose first item is not below the second: the loop adds
    the edge from the first to the second unless the pair is skipped or has
    an edge already. *)
Lemma pairStep_inferred : forall edges set existing a b,
  agree set existing -> In (fst a) nodeIds -> In (fst b) nodeIds ->
  Num.leb (centreOf a) (centreOf b) = true ->
  pairStep (edges, set) (a, b)
  = if stacked (snd a) (snd b) && negb (memPair (fst a, fst b) existing)
    then (edges ++ [inferredEdge frameItems (fst a, fst b)],
          JsSet.add set (Mermaid.pairKey (fst a) (fst b)))
    else (edges, set).
Proof.
  intros edges set existing a b A Ia Ib L.
  unfold StackSpec.pairStep, Mermaid.stackStep, stacked, skipped. cbn [fst snd].
  change (Num.sub (Num.min (BBox.right (snd a)) (BBox.right (snd b)))
                  (Num.max (BBox.left (snd a)) (BBox.left (snd b))))
    with (horizontalOverlap (snd a) (snd b)).
  destruct (Num.leb (horizontalOverlap (snd a) (snd b)) Num.zero); [reflexivity|].
  cbn [orb].
  change (Num.abs (Num.sub (Mermaid.centerY (snd b)) (Mermaid.centerY (snd a))))
    with (verticalGap (snd a) (snd b)).
  change (Num.min (BBox.height (snd a)) (BBox.height (snd b)))
    with (smallerHeight (snd a) (snd b)).
  destruct (Num.gtb (verticalGap (snd a) (snd b)) _); [reflexivity|]. cbn [negb andb].
  change (Mermaid.centerY (snd a)) with (centreOf a).
  change (Mermaid.centerY (snd b)) with (centreOf b). rewrite L.
  rewrite (A _ _ Ia Ib). destruct (memPair _ existing); [reflexivity|]. cbn [negb].
  rewrite (alias_of_node _ Ia), (alias_of_node _ Ib). reflexivity.
Qed.

Lemma visited_inferred : forall pairs edges set existing,
  agree set existing ->
  (forall a b, In (a, b) pairs ->
     In (fst a) nodeIds /\ In (fst b) nodeIds /\ Num.leb (centreOf a) (centreOf b) = true) ->
  fst (fold_left pairStep pairs (edges, set))
  = edges ++ map (inferredEdge frameItems) (inferred stacked existing pairs).
Proof.
  induction pairs as [|[a b] pairs IH]; intros edges set existing A I.
  - simpl. now rewrite app_nil_r.
  - destruct (I a b (or_introl eq_refl)) as (Ia & Ib & L).
    cbn [fold_left inferred]. rewrite (pairStep_inferred edges set existing a b A Ia Ib L).
    assert (I' : forall a' b', In (a', b') pairs ->
                   In (fst a') nodeIds /\ In (fst b') nodeIds
                   /\ Num.leb (centreOf a') (centreOf b') = true)
      by (intros; apply I; now right).
    destruct (stacked _ _ && negb _).
    + rewrite (IH _ _ ((fst a, fst b) :: existing)); [| | exact I'].
      * rewrite <- app_assoc. reflexivity.
      * now apply agree_add.
    + now apply IH.
Qed.

(** *** The sorted groups *)

Lemma withBoxes_boxed : forall ids, Mermaid.withBoxes frameItems ids = boxed frameItems ids.
Proof.
  induction ids as [|id ids IH]; [reflexivity|].
  cbn [Mermaid.withBoxes boxed flat_map]. unfold boxOf.
  destruct (JsMap.get (Mermaid.idToBBox frameItems) id); cbn [app]; now rewrite IH.
Qed.

Lemma boxed_In : forall ids p, In p (boxed frameItems ids) -> boxOf frameItems (fst p) = Some (snd p).
Proof.
  intros ids p H. unfold boxed in H. apply in_flat_map in H as (id & _ & H).
  destruct (boxOf frameItems id) as [box|] eqn:B; [|destruct H].
  destruct H as [<-|[]]. exact B.
Qed.

Hypothesis numbers : centresAreNumbers frameItems = true.

Lemma boxed_numeric : forall ids, OrderSpec.numeric centreOf (boxed frameItems ids) = true.
Proof.
  intros ids. unfold OrderSpec.numeric. apply forallb_forall. intros p Hp.
  apply boxed_In in Hp. apply JsMapFacts.get_In in Hp.
  pose proof numbers as N. unfold centresAreNumbers in N. rewrite forallb_forall in N.
  apply (N _ Hp).
Qed.

(** The code sorts a group as the arrangement asks. *)
Lemma sortedGroup_ascending : forall ids,
  OrderSpec.ascending centreOf (boxed frameItems ids) (Mermaid.sortedGroup frameItems ids).
Proof.
  intros ids. unfold Mermaid.sortedGroup. rewrite withBoxes_boxed.
  apply (OrderFacts.sort_ascending centreOf); [apply boxed_numeric|].
  intros x _. apply DoubleFacts.div_valid.
Qed.

Lemma arrangement_sorted :
  arrangement frameItems (map (Mermaid.sortedGroup frameItems) (groupsByParent frameItems)).
Proof.
  unfold arrangement. induction (groupsByParent frameItems) as [|ids groups IH]; constructor;
    [apply sortedGroup_ascending | exact IH].
Qed.

(** There is no other arrangement. *)
Lemma arrangement_unique : forall arranged,
  arrangement frameItems arranged ->
  arranged = map (Mermaid.sortedGroup frameItems) (groupsByParent frameItems).
Proof.
  unfold arrangement. intros arranged H.
  induction H as [|ids sorted groups arranged A _ IH]; [reflexivity|].
  cbn [map]. f_equal; [|exact IH].
  apply (OrderFacts.ascending_unique centreOf (boxed frameItems ids));
    [apply boxed_numeric | exact A | apply sortedGroup_ascending].
Qed.

Lemma adjacent_sorted : forall (A : Type) (R : A -> A -> Prop) (l : list A) (a b : A),
  Sorted.StronglySorted R l -> In (a, b) (adjacent l) -> R a b.
Proof.
  intros A R l. induction l as [|x [|y l] IH]; intros a b S H; try destruct H.
  - injection H as <- <-. inversion S as [|? ? _ F]; subst.
    inversion F; subst. assumption.
  - apply IH; [|exact H]. now inversion S.
Qed.

Lemma visitedPairs_in : forall a b,
  In (a, b) (visitedPairs frameItems) ->
  In (fst a) nodeIds /\ In (fst b) nodeIds /\ Num.leb (centreOf a) (centreOf b) = true.
Proof.
  intros a b H. unfold visitedPairs in H. apply in_flat_map in H as (ids & G & H).
  split; [|split].
  - unfold groupsByParent in G. apply in_map_iff in G as (first & <- & _).
    apply adjacent_In in H as [Ha _]. apply sortedGroup_In in Ha.
    now apply filter_In in Ha as [Ha _].
  - unfold groupsByParent in G. apply in_map_iff in G as (first & <- & _).
    apply adjacent_In in H as [_ Hb]. apply sortedGroup_In in Hb.
    now apply filter_In in Hb as [Hb _].
  - destruct (sortedGroup_ascending ids) as (_ & S & _).
    exact (adjacent_sorted _ _ _ a b S H).
Qed.

Lemma visitedPairs_arranged :
  visitedPairs frameItems
  = flat_map adjacent (map (Mermaid.sortedGroup frameItems) (groupsByParent frameItems)).
Proof.
  unfold visitedPairs. induction (groupsByParent frameItems) as [|ids groups IH];
    [reflexivity|]. cbn [flat_map map]. now rewrite IH.
Qed.

Lemma edges_inferred :
  Mermaid.edges frameItems allConnectors
  = edgesBy frameItems allConnectors stacked
      (map (Mermaid.sortedGroup frameItems) (groupsByParent frameItems)).
Proof.
  unfold Mermaid.edges, edgesBy. rewrite allEdges_fold, <- visitedPairs_arranged.
  destruct (Mermaid.explicitEdges frameItems allConnectors) as [edges set] eqn:E.
  apply visited_inferred; [|apply visitedPairs_in].
  unfold explicitPairs. rewrite E. cbn [fst].
  pose proof (explicit_agree allConnectors ([], [])) as A.
  unfold Mermaid.explicitEdges in E. rewrite E in A. apply A.
  intros a b _ _. reflexivity.
Qed.

End Facts.

(** C3, as the code has it: the edges are the explicit ones followed by the
    inferred ones.  The items are grouped by assigned container, the items
    without one forming a group; in each group the items with a box are
    sorted by vertical centre, equal centres in the order of the group, and
    there is one such arrangement only; an adjacent pair gives an edge from
    its first to its second item unless the horizontal overlap is zero or
    negative, the centres are more than 0.75 times the smaller height apart,
    or the ordered pair has an edge already, explicit or inferred before.
    This holds when no vertical centre is NaN, no node is called [__root__]
    and distinct ordered pairs of node ids have distinct keys. *)
Theorem inferred_edges : forall frameItems allConnectors,
  centresAreNumbers frameItems = true ->
  wellFormedIds frameItems = true ->
  exists arranged,
    arrangement frameItems arranged
    /\ (forall other, arrangement frameItems other -> other = arranged)
    /\ Mermaid.edges frameItems allConnectors
       = edgesBy frameItems allConnectors stacked arranged.
Proof.
  intros frameItems allConnectors N W. unfold wellFormedIds in W.
  apply andb_true_iff in W as [R D]. apply negb_true_iff in R.
  exists (map (Mermaid.sortedGroup frameItems) (groupsByParent frameItems)).
  split; [now apply arrangement_sorted|]. split; [intros other; now apply arrangement_unique|].
  now apply edges_inferred.
Qed.

(** Two shapes close over one another give one edge; shapes given out of
    order are paired in the order of their centres; an edge that a connector
    gives is not inferred again. *)
Lemma inferred_edges_witness :
  (map pairOf (Mermaid.edges stack []) = [("a", "b")]
   /\ map pairOf (Mermaid.edges shuffled []) = [("a", "b"); ("b", "c")]
   /\ map Edge.connectorId (Mermaid.edges shuffled [connector "k" "b" "c"])
      = ["k"; "inferred-dependency"])
  /\ exists arranged,
       arrangement stack arranged
       /\ (forall other, arrangement stack other -> other = arranged)
       /\ Mermaid.edges stack [] = edgesBy stack [] stacked arranged.
Proof.
  split; [repeat split; vm_compute; reflexivity|].
  apply (inferred_edges stack []); vm_compute; reflexivity.
Defined.

(** C3 as stated fails.  Two shapes at [x = Infinity], one just below the
    other, have a horizontal overlap of NaN: it is not strictly positive, and
    the code adds the edge all the same.  A shape with the id [__root__]
    puts the items it contains into the group of the items without
    container: the code infers an edge from [x] to [y], which have different
    containers.  And a connector from [a->a] to [b] has the key of the pair
    of [a] and [a->b], which the code then takes for connected and gives no
    edge. *)
Lemma edgesAsStated_fails :
  ~ edgesAsStated farStack [] /\ ~ edgesAsStated rooted []
  /\ ~ edgesAsStated collide [connector "k" "a->a" "b"].
Proof.
  repeat split; intros (arranged & A & E).
  - apply arrangement_unique in A; [|vm_compute; reflexivity]. subst arranged.
    vm_compute in E. discriminate E.
  - apply arrangement_unique in A; [|vm_compute; reflexivity]. subst arranged.
    vm_compute in E. discriminate E.
  - apply arrangement_unique in A; [|vm_compute; reflexivity]. subst arranged.
    vm_compute in E. discriminate E.
Qed.

(** What the code gives on these three inputs. *)
Lemma edges_of_the_counterexamples :
  map pairOf (Mermaid.edges farStack []) = [("a", "b")]
  /\ map pairOf (Mermaid.edges rooted []) = [("x", "y")]
  /\ map pairOf (Mermaid.edges collide [connector "k" "a->a" "b"]) = [("a->a", "b")]
  /\ map pairOf (Mermaid.edges collide []) = [("a", "a->b")].
Proof. repeat split; vm_compute; reflexivity. Qed.

(** An explicit connector for the ordered pair leaves no inferred edge. *)
Lemma explicit_edge_is_not_repeated :
  map Edge.connectorId (Mermaid.edges stack [connector "k" "a" "b"]) = ["k"].
Proof. vm_compute. reflexivity. Qed.

(** Centres 100 apart with heights of 80: no edge is inferred. *)
Lemma apart_gives_no_edge : Mermaid.edges apart [] = [].
Proof. vm_compute. reflexivity. Qed.

End StackFacts.

(** ** Plain text *)

Module TextFacts.
Import TextSpec PkSpec.

Lemma take_length : forall n s, (String.length (Str.take n s) <= n)%nat.
Proof.
  induction n as [|n IH]; intros [|c r]; simpl; try lia.
  specialize (IH r). lia.
Qed.

Lemma take_prefix : forall n s, String.prefix (Str.take n s) s = true.
Proof.
  induction n as [|n IH]; intros [|c r]; simpl; try reflexivity.
  destruct (Ascii.ascii_dec c c); [apply IH | congruence].
Qed.

Lemma take_cut : forall n s, (n <= String.length s)%nat -> String.length (Str.take n s) = n.
Proof.
  induction n as [|n IH]; intros [|c r] H; simpl in *; try lia.
  rewrite IH; lia.
Qed.

Lemma prefix_refl : forall s, String.prefix s s = true.
Proof.
  induction s as [|c r IH]; simpl; [reflexivity|].
  destruct (Ascii.ascii_dec c c); [apply IH | congruence].
Qed.

Lemma plainSnippet_length : forall textHtml maxLen,
  (String.length (plainSnippet textHtml maxLen) <= maxLen)%nat.
Proof.
  intros textHtml maxLen. unfold plainSnippet.
  destruct (Nat.leb_spec (String.length (htmlToPlain textHtml)) maxLen); [assumption|].
  apply take_length.
Qed.

(** X1: the snippet is at most [maxLen] characters long, it is a prefix of
    the plain text, and it is the whole plain text unless that is longer than
    [maxLen], in which case the snippet has exactly [maxLen] characters. *)
Theorem plainSnippet_is_bounded_prefix : forall textHtml maxLen,
  (String.length (plainSnippet textHtml maxLen) <= maxLen)%nat
  /\ String.prefix (plainSnippet textHtml maxLen) (htmlToPlain textHtml) = true
  /\ (plainSnippet textHtml maxLen = htmlToPlain textHtml
      \/ ((maxLen < String.length (htmlToPlain textHtml))%nat
          /\ String.length (plainSnippet textHtml maxLen) = maxLen)).
Proof.
  intros textHtml maxLen. unfold plainSnippet.
  destruct (Nat.leb_spec (String.length (htmlToPlain textHtml)) maxLen) as [H|H].
  - repeat split; [exact H | apply prefix_refl | now left].
  - repeat split; [apply take_length | apply take_prefix |].
    right. split; [exact H | apply take_cut; lia].
Qed.

(** *** White space *)

Local Abbreviation collapse := (Re.replace_go Re.ws (fun _ => " ")).

Lemma ws_word : forall c r, Str.is_space c = false -> Re.ws (String c r) = None.
Proof. intros c r H. unfold Re.ws. cbn [Re.spaces]. now rewrite H. Qed.

Lemma ws_space : forall c r,
  Str.is_space c = true -> Re.ws (String c r) = Some (S (Re.spaces r)).
Proof. intros c r H. unfold Re.ws. cbn [Re.spaces]. now rewrite H. Qed.

Lemma collapse_loose : forall s,
  looseBlanks (collapse 0 s) = true
  /\ (looseBlanks (collapse (Re.spaces s) s) = true
      /\ headSpace (collapse (Re.spaces s) s) = false).
Proof.
  induction s as [|c r [IH0 [IH1 IH2]]]; [now repeat split|].
  destruct (Str.is_space c) eqn:Hc.
  - cbn [Re.spaces]. rewrite Hc. cbn [Re.replace_go]. rewrite (ws_space c r Hc).
    change (String.append " " ?x) with (String " "%char x).
    cbn [looseBlanks]. rewrite IH1, IH2. now repeat split.
  - cbn [Re.spaces]. rewrite Hc. cbn [Re.replace_go]. rewrite (ws_word c r Hc).
    cbn [looseBlanks headSpace]. rewrite Hc, IH0. now repeat split.
Qed.

Lemma trimStart_head : forall s, headSpace (Str.trimStart s) = false.
Proof.
  induction s as [|c r IH]; [reflexivity|].
  cbn [Str.trimStart]. destruct (Str.is_space c) eqn:Hc; [exact IH|].
  cbn [headSpace]. exact Hc.
Qed.

Lemma looseBlanks_tail : forall c r, looseBlanks (String c r) = true -> looseBlanks r = true.
Proof. intros c r H. cbn [looseBlanks] in H. now apply andb_prop in H. Qed.

Lemma trimStart_loose : forall s, looseBlanks s = true -> looseBlanks (Str.trimStart s) = true.
Proof.
  induction s as [|c r IH]; intros H; [reflexivity|].
  cbn [Str.trimStart]. destruct (Str.is_space c); [|exact H].
  apply IH. now apply looseBlanks_tail in H.
Qed.

Lemma trimEnd_head : forall s c r, Str.trimEnd s = String c r -> exists r0, s = String c r0.
Proof.
  intros [|d s] c r H; [discriminate|].
  cbn [Str.trimEnd] in H. destruct (Str.trimEnd s).
  - destruct (Str.is_space d); [discriminate|]. injection H as -> _. eauto.
  - injection H as -> _. eauto.
Qed.

Lemma trimEnd_headSpace : forall s, headSpace s = false -> headSpace (Str.trimEnd s) = false.
Proof.
  intros s H. destruct (Str.trimEnd s) as [|c r] eqn:E; [reflexivity|].
  apply trimEnd_head in E as [r0 ->]. exact H.
Qed.

Lemma trimEnd_single : forall s, looseBlanks s = true -> singleBlanks (Str.trimEnd s) = true.
Proof.
  induction s as [|c r IH]; intros H; [reflexivity|].
  cbn [looseBlanks] in H. apply andb_prop in H as [Hc Hr]. specialize (IH Hr).
  cbn [Str.trimEnd]. destruct (Str.trimEnd r) as [|d r'] eqn:E.
  - destruct (Str.is_space c) eqn:Hs; [reflexivity|]. cbn [singleBlanks]. now rewrite Hs.
  - cbn [singleBlanks] in *. rewrite IH, andb_true_r.
    destruct (Str.is_space c); [|reflexivity].
    apply andb_prop in Hc as [Hb Hh]. rewrite Hb.
    apply trimEnd_head in E as [r0 ->]. exact Hh.
Qed.

Lemma htmlToPlain_normal : forall textHtml, normalised (htmlToPlain textHtml) = true.
Proof.
  intros textHtml. unfold htmlToPlain.
  destruct (negb (Str.truthy_opt textHtml)); [reflexivity|].
  cbv zeta. unfold Str.trim, normalised.
  match goal with |- context [Re.replace Re.ws " " ?t] => set (txt := t) end.
  pose proof (proj1 (collapse_loose txt)) as L.
  change (Re.replace Re.ws " " txt) with (collapse 0 txt).
  rewrite trimEnd_headSpace by apply trimStart_head.
  rewrite trimEnd_single by (now apply trimStart_loose).
  reflexivity.
Qed.

(** *** Text without markup *)

Lemma replace_noop : forall (re : Re.matcher) f (P : ascii -> bool) s,
  (forall c r, P c = true -> re (String c r) = None) ->
  all_chars P s = true -> Re.replace_go re f 0 s = s.
Proof.
  intros re f P s Hre. induction s as [|c r IH]; intros H; [reflexivity|].
  cbn [all_chars] in H. apply andb_prop in H as [Hc Hr].
  cbn [Re.replace_go]. rewrite (Hre c r Hc). now rewrite IH.
Qed.

Local Abbreviation plainChar :=
  (fun c => negb (Ascii.eqb c "&"%char) && negb (Ascii.eqb c "<"%char)).

Lemma plainChar_amp : forall c, plainChar c = true -> Ascii.eqb "&"%char c = false.
Proof. intros c H. apply andb_prop in H as [H _]. rewrite Ascii.eqb_sym. now apply negb_true_iff. Qed.

Lemma plainChar_lt : forall c, plainChar c = true -> Ascii.eqb "<"%char c = false.
Proof. intros c H. apply andb_prop in H as [_ H]. rewrite Ascii.eqb_sym. now apply negb_true_iff. Qed.

Lemma plainChar_lower : forall c, plainChar c = true -> Ascii.eqb "<"%char (Re.lower c) = false.
Proof.
  intros c H. apply plainChar_lt in H. revert H.
  destruct c as [[] [] [] [] [] [] [] []]; intros H; try reflexivity; discriminate H.
Qed.

Lemma entity_plain : forall c r, plainChar c = true -> Re.entity (String c r) = None.
Proof.
  intros c r H. apply plainChar_amp in H. unfold Re.entity.
  cbn [Re.starts_with]. now rewrite H.
Qed.

Lemma br_plain : forall c r, plainChar c = true -> Re.br (String c r) = None.
Proof.
  intros c r H. apply plainChar_lower in H. unfold Re.br.
  cbn [Re.starts_with_ci]. now rewrite H.
Qed.

Lemma lit_ci_plain : forall w c r,
  plainChar c = true -> Re.lit_ci (String "<"%char w) (String c r) = None.
Proof.
  intros w c r H. apply plainChar_lower in H. unfold Re.lit_ci.
  cbn [Re.starts_with_ci]. now rewrite H.
Qed.

Lemma tag_plain : forall c r, plainChar c = true -> Re.tag (String c r) = None.
Proof.
  intros c r H. apply plainChar_lt in H. unfold Re.tag.
  cbn [Re.starts_with]. now rewrite H.
Qed.

Lemma singleBlanks_tail : forall c r, singleBlanks (String c r) = true -> singleBlanks r = true.
Proof. intros c r H. cbn [singleBlanks] in H. now apply andb_prop in H. Qed.

Lemma collapse_single : forall s, singleBlanks s = true -> collapse 0 s = s.
Proof.
  induction s as [|c r IH]; intros H; [reflexivity|].
  pose proof (singleBlanks_tail _ _ H) as Hr. specialize (IH Hr).
  cbn [singleBlanks] in H. apply andb_prop in H as [Hc _].
  cbn [Re.replace_go].
  destruct (Str.is_space c) eqn:Hs.
  - rewrite (ws_space c r Hs).
    apply andb_prop in Hc as [Hb Hd]. apply Ascii.eqb_eq in Hb. subst c.
    destruct r as [|d r']; [discriminate|].
    apply negb_true_iff in Hd. cbn [Re.spaces]. rewrite Hd.
    change (String.append " " ?x) with (String " "%char x). now rewrite IH.
  - rewrite (ws_word c r Hs). now rewrite IH.
Qed.

Lemma trimStart_noop : forall s, headSpace s = false -> Str.trimStart s = s.
Proof. intros [|c r] H; [reflexivity|]. cbn in *. now rewrite H. Qed.

Lemma trimEnd_noop : forall s, singleBlanks s = true -> Str.trimEnd s = s.
Proof.
  induction s as [|c r IH]; intros H; [reflexivity|].
  pose proof (singleBlanks_tail _ _ H) as Hr. specialize (IH Hr).
  cbn [singleBlanks] in H. apply andb_prop in H as [Hc _].
  cbn [Str.trimEnd]. rewrite IH. destruct r as [|d r']; [|reflexivity].
  destruct (Str.is_space c); [|reflexivity].
  apply andb_prop in Hc as [_ Hd]. discriminate Hd.
Qed.

(** X2: the plain text has no white space but single blanks between words:
    no tab or line break, no run of blanks, no blank at either end.  So it
    is one line, and trimming it changes nothing. *)
Theorem htmlToPlain_is_normalised : forall textHtml,
  normalised (htmlToPlain textHtml) = true
  /\ PkSpec.all_chars PkSpec.not_newline (htmlToPlain textHtml) = true
  /\ Str.trim (htmlToPlain textHtml) = htmlToPlain textHtml.
Proof.
  intros textHtml. pose proof (htmlToPlain_normal textHtml) as H.
  split; [exact H|]. split; [apply PkFacts.htmlToPlain_no_newline|].
  unfold normalised in H. apply andb_prop in H as [Hh Hb]. apply negb_true_iff in Hh.
  unfold Str.trim. rewrite (trimStart_noop _ Hh). now apply trimEnd_noop.
Qed.

(** X3: a text without [&] and [<] whose white space is normalised is its
    own plain text. *)
Theorem htmlToPlain_of_plain_text : forall s,
  markupFree s = true -> normalised s = true -> htmlToPlain (Some s) = s.
Proof.
  intros s Hm Hn. unfold htmlToPlain.
  destruct s as [|c r] eqn:Es; [reflexivity|]. rewrite <- Es in *.
  replace (negb (Str.truthy_opt (Some s))) with false by (now rewrite Es).
  cbv zeta. cbn [Str.or_empty]. unfold Re.replace, Re.replace_with.
  unfold markupFree in Hm.
  rewrite (replace_noop Re.entity _ _ s entity_plain Hm).
  rewrite (replace_noop Re.br _ _ s br_plain Hm).
  rewrite (replace_noop (Re.lit_ci "<p>") _ _ s (lit_ci_plain "p>") Hm).
  rewrite (replace_noop (Re.lit_ci "</p>") _ _ s (lit_ci_plain "/p>") Hm).
  rewrite (replace_noop Re.tag _ _ s tag_plain Hm).
  unfold normalised in Hn. apply andb_prop in Hn as [Hh Hb].
  apply negb_true_iff in Hh.
  rewrite (collapse_single s Hb). unfold Str.trim.
  rewrite (trimStart_noop s Hh). now apply trimEnd_noop.
Qed.

Lemma htmlToPlain_of_plain_text_witness :
  markupFree "Order total" = true /\ normalised "Order total" = true
  /\ htmlToPlain (Some "Order total") = "Order total".
Proof.
  assert (Hm : markupFree "Order total" = true) by reflexivity.
  assert (Hn : normalised "Order total" = true) by reflexivity.
  exact (conj Hm (conj Hn (htmlToPlain_of_plain_text "Order total" Hm Hn))).
Defined.

End TextFacts.

(** ** Quoting of labels *)

Module QuoteFacts.
Import TextSpec.

Lemma lit_quote : forall c r,
  Re.lit Str.quote (String c r) = if Ascii.eqb "034"%char c then Some 1%nat else None.
Proof. intros c r. unfold Re.lit, Str.quote. cbn. now rewrite andb_true_r. Qed.

Lemma quote_cons : forall s, (Str.quote ++ s)%string = String "034"%char s.
Proof. reflexivity. Qed.

Lemma safeQuotes_noop : forall label, Mermaid.safeQuotes label = label.
Proof.
  intros label. unfold Mermaid.safeQuotes, Re.replace, Re.replace_with.
  induction label as [|c r IH]; [reflexivity|].
  cbn [Re.replace_go]. rewrite lit_quote.
  destruct (Ascii.eqb "034"%char c) eqn:E.
  - apply Ascii.eqb_eq in E. subst c. rewrite quote_cons. now rewrite IH.
  - now rewrite IH.
Qed.

Lemma escapeQuotes_escaped : forall label prev,
  quotesEscaped prev (Mermaid.escapeQuotes label) = true.
Proof.
  intros label. unfold Mermaid.escapeQuotes, Re.replace, Re.replace_with.
  induction label as [|c r IH]; intros prev; [reflexivity|].
  cbn [Re.replace_go]. rewrite lit_quote.
  destruct (Ascii.eqb "034"%char c) eqn:E.
  - change ((Mermaid.backslash ++ Str.quote) ++ ?x)%string
      with (String "092"%char (String "034"%char x)).
    cbn [quotesEscaped]. cbn [Ascii.eqb Bool.eqb andb]. apply IH.
  - cbn [quotesEscaped]. rewrite Ascii.eqb_sym, E. apply IH.
Qed.

Lemma escapeQuotes_plain : forall label,
  PkSpec.all_chars (fun c => negb (Ascii.eqb "034"%char c)) label = true ->
  Mermaid.escapeQuotes label = label.
Proof.
  intros label. unfold Mermaid.escapeQuotes, Re.replace, Re.replace_with.
  induction label as [|c r IH]; intros H; [reflexivity|].
  cbn [PkSpec.all_chars] in H. apply andb_prop in H as [Hc Hr].
  cbn [Re.replace_go]. rewrite lit_quote.
  apply negb_true_iff in Hc. rewrite Hc. now rewrite IH.
Qed.

(** X4: the label of a node goes into its line as it is, quotes included,
    because the replacement of a quote by a quote changes nothing.  In the
    label of an edge every quote gets a backslash before it, and a label
    without quotes is not changed. *)
Theorem quotes_in_labels :
  (forall node,
     Mermaid.nodeLine node
     = ("  " ++ Node.alias node ++ "[" ++ Str.quote ++ Node.label node ++ Str.quote ++ "]")%string)
  /\ (forall e label,
        Edge.label e = Some label -> Str.truthy label = true ->
        Mermaid.edgeLine e
        = ("  " ++ Edge.fromAlias e ++ " -- " ++ Str.quote ++ Mermaid.escapeQuotes label
           ++ Str.quote ++ " --> " ++ Edge.toAlias e)%string
        /\ quotesEscaped false (Mermaid.escapeQuotes label) = true
        /\ (PkSpec.all_chars (fun c => negb (Ascii.eqb "034"%char c)) label = true ->
            Mermaid.escapeQuotes label = label)).
Proof.
  split.
  - intros node. unfold Mermaid.nodeLine, Mermaid.bracketed. now rewrite safeQuotes_noop.
  - intros e label He Ht. unfold Mermaid.edgeLine. rewrite He. cbn [Str.truthy_opt Str.or_empty].
    rewrite Ht. repeat split.
    + apply escapeQuotes_escaped.
    + apply escapeQuotes_plain.
Qed.

Lemma quotes_in_labels_witness :
  Mermaid.edgeLine (labelled "n1" "n2" ("say " ++ Str.quote ++ "hi" ++ Str.quote))
  = ("  n1 -- " ++ Str.quote
     ++ Mermaid.escapeQuotes ("say " ++ Str.quote ++ "hi" ++ Str.quote)
     ++ Str.quote ++ " --> n2")%string
  /\ Mermaid.escapeQuotes ("say " ++ Str.quote ++ "hi" ++ Str.quote)
     = ("say " ++ Mermaid.backslash ++ Str.quote ++ "hi" ++ Mermaid.backslash ++ Str.quote)%string.
Proof.
  split.
  - exact (proj1 (proj2 quotes_in_labels
                    (labelled "n1" "n2" ("say " ++ Str.quote ++ "hi" ++ Str.quote))
                    ("say " ++ Str.quote ++ "hi" ++ Str.quote)%string
                    eq_refl eq_refl)).
  - reflexivity.
Defined.

End QuoteFacts.

(** ** Names and aliases *)

Module NameFacts.
Import NameSpec PkSpec.

Lemma uint_digits : forall d, all_chars Erd.is_digit (NilEmpty.string_of_uint d) = true.
Proof. induction d; cbn [NilEmpty.string_of_uint all_chars]; try reflexivity; exact IHd. Qed.

Lemma string_of_nat_digits : forall n, all_chars Erd.is_digit (string_of_nat n) = true.
Proof. intros n. apply uint_digits. Qed.

Lemma to_uint_nonnil : forall n, Nat.to_uint n <> Decimal.Nil.
Proof.
  intros n. rewrite <- (DecimalNat.Unsigned.of_to n) at 1. rewrite DecimalNat.Unsigned.to_of.
  apply DecimalFacts.unorm_nonnil.
Qed.

Lemma string_of_nat_truthy : forall n, Str.truthy (string_of_nat n) = true.
Proof.
  intros n. unfold string_of_nat. pose proof (to_uint_nonnil n) as H.
  destruct (Nat.to_uint n); [congruence | reflexivity ..].
Qed.

Lemma string_of_nat_inj : forall n m, string_of_nat n = string_of_nat m -> n = m.
Proof.
  intros n m H. unfold string_of_nat in H.
  apply DecimalNat.Unsigned.to_uint_inj.
  pose proof (NilEmpty.usu (Nat.to_uint n)) as Hn.
  pose proof (NilEmpty.usu (Nat.to_uint m)) as Hm.
  rewrite H in Hn. congruence.
Qed.

(** *** [makeEntityName] *)

Lemma replace_chars : forall (re : Re.matcher) f (P : ascii -> bool) s skip,
  (forall m, all_chars P (f m) = true) ->
  (forall c r, P c = false -> exists k, re (String c r) = Some (S k)) ->
  all_chars P (Re.replace_go re f skip s) = true.
Proof.
  intros re f P s skip Hf Hre. revert skip.
  induction s as [|c r IH]; intros skip; [reflexivity|].
  cbn [Re.replace_go]. destruct skip as [|k]; [|apply IH].
  destruct (P c) eqn:Hc.
  - destruct (re (String c r)) as [[|k]|].
    + cbn [all_chars]. now rewrite Hc, IH.
    + rewrite PkFacts.all_chars_app. now rewrite Hf, IH.
    + cbn [all_chars]. now rewrite Hc, IH.
  - destruct (Hre c r Hc) as [k ->]. rewrite PkFacts.all_chars_app. now rewrite Hf, IH.
Qed.

Lemma not_alnum_matches : forall c r,
  is_name_char c = false -> exists k, Erd.re_not_alnum (String c r) = Some (S k).
Proof.
  intros c r H. unfold is_name_char in H. apply orb_false_elim in H as [H _].
  unfold Erd.re_not_alnum. cbn [Erd.not_alnum_run]. rewrite H. eauto.
Qed.

Lemma stripStart_chars : forall P s, all_chars P s = true -> all_chars P (Erd.stripStart s) = true.
Proof.
  intros P. induction s as [|c r IH]; intros H; [reflexivity|].
  cbn [Erd.stripStart]. destruct (Ascii.eqb c "_"%char); [|exact H].
  apply IH. cbn [all_chars] in H. now apply andb_prop in H.
Qed.

Lemma stripStart_head : forall s c r, Erd.stripStart s = String c r -> Ascii.eqb c "_"%char = false.
Proof.
  induction s as [|d s IH]; intros c r H; [discriminate|].
  cbn [Erd.stripStart] in H. destruct (Ascii.eqb d "_"%char) eqn:E; [now apply IH in H|].
  now injection H as <- _.
Qed.

Lemma stripEnd_chars : forall P s, all_chars P s = true -> all_chars P (Erd.stripEnd s) = true.
Proof.
  intros P. induction s as [|c r IH]; intros H; [reflexivity|].
  cbn [all_chars] in H. apply andb_prop in H as [Hc Hr]. specialize (IH Hr).
  cbn [Erd.stripEnd]. destruct (Erd.stripEnd r) as [|d r'].
  - destruct (Ascii.eqb c "_"%char); [reflexivity|]. cbn [all_chars]. now rewrite Hc.
  - cbn [all_chars] in *. now rewrite Hc.
Qed.

Lemma stripEnd_head : forall s c r, Erd.stripEnd s = String c r -> exists r0, s = String c r0.
Proof.
  intros [|d s] c r H; [discriminate|].
  cbn [Erd.stripEnd] in H. destruct (Erd.stripEnd s).
  - destruct (Ascii.eqb d "_"%char); [discriminate|]. injection H as -> _. eauto.
  - injection H as -> _. eauto.
Qed.

Lemma stripEnd_last : forall s d, last (Erd.stripEnd s) = Some d -> Ascii.eqb d "_"%char = false.
Proof.
  induction s as [|c r IH]; intros d H; [discriminate|].
  cbn [Erd.stripEnd] in H. destruct (Erd.stripEnd r) as [|e r'] eqn:E.
  - destruct (Ascii.eqb c "_"%char) eqn:Hc; [discriminate|].
    cbn in H. now injection H as <-.
  - apply IH. exact H.
Qed.

Lemma last_app : forall a b, Str.truthy b = true -> last (a ++ b)%string = last b.
Proof.
  induction a as [|c a IH]; intros b Hb; [reflexivity|].
  cbn [String.append last]. specialize (IH b Hb).
  destruct (a ++ b)%string eqn:E; [|exact IH].
  destruct a; [|discriminate]. cbn in E. subst b. discriminate.
Qed.

Lemma last_digit : forall s d,
  all_chars Erd.is_digit s = true -> last s = Some d -> Ascii.eqb d "_"%char = false.
Proof.
  induction s as [|c r IH]; intros d Hs H; [discriminate|].
  cbn [all_chars] in Hs. apply andb_prop in Hs as [Hc Hr].
  cbn [last] in H. destruct r as [|e r'].
  - injection H as <-. destruct (Ascii.eqb c "_"%char) eqn:E; [|reflexivity].
    apply Ascii.eqb_eq in E. subst c. discriminate.
  - now apply IH.
Qed.

Lemma digits_are_name_chars : forall s, all_chars Erd.is_digit s = true -> all_chars is_name_char s = true.
Proof.
  induction s as [|c r IH]; intros H; [reflexivity|].
  cbn [all_chars] in *. apply andb_prop in H as [Hc Hr]. rewrite (IH Hr), andb_true_r.
  unfold is_name_char, Erd.is_alnum. unfold Erd.is_digit in Hc. now rewrite Hc.
Qed.

Lemma fallback_nameLike : forall k, nameLike ("Entity_" ++ string_of_nat k)%string.
Proof.
  intros k. repeat split.
  - rewrite PkFacts.all_chars_app.
    now rewrite (digits_are_name_chars _ (string_of_nat_digits k)).
  - intros c r H. cbn in H. now injection H as <- _.
  - intros d H. rewrite last_app in H by apply string_of_nat_truthy.
    now apply (last_digit _ _ (string_of_nat_digits k)).
Qed.

Lemma cleaned_nameLike : forall base,
  nameLike (Erd.stripEnd (Erd.stripStart (Re.replace Erd.re_not_alnum "_" base))).
Proof.
  intros base. repeat split.
  - apply stripEnd_chars, stripStart_chars.
    apply replace_chars; [reflexivity | apply not_alnum_matches].
  - intros c r H. apply stripEnd_head in H as [r0 H]. now apply stripStart_head in H.
  - apply stripEnd_last.
Qed.

Lemma nameLike_identifier : forall s,
  Str.truthy s = true -> nameLike s ->
  identifier match s with
             | String c _ => if Erd.is_digit c then ("E_" ++ s)%string else s
             | EmptyString => s
             end = true.
Proof.
  intros [|c r] Ht (Hall & Hhead & Hlast); [discriminate|].
  specialize (Hhead c r eq_refl).
  assert (Hl : exists d, last (String c r) = Some d /\ Ascii.eqb d "_"%char = false).
  { destruct (last (String c r)) as [d|] eqn:El; [eauto|]. clear - El.
    revert c El. induction r as [|e r IH]; intros c El; [discriminate|]. now apply (IH e). }
  destruct Hl as (d & Hd1 & Hd2).
  destruct (Erd.is_digit c) eqn:Hd.
  - change ("E_" ++ String c r)%string with (String "E"%char (String "_"%char (String c r))).
    unfold identifier.
    change (last (String "E"%char (String "_"%char (String c r)))) with (last (String c r)).
    rewrite Hd1, Hd2.
    change (all_chars is_name_char (String "E"%char (String "_"%char (String c r))))
      with (all_chars is_name_char (String c r)).
    now rewrite Hall.
  - unfold identifier. rewrite Hall, Hd1, Hd2.
    cbn [all_chars] in Hall. apply andb_prop in Hall as [Hc _].
    unfold is_letter. rewrite Hd. unfold is_name_char in Hc. rewrite Hhead in Hc.
    rewrite orb_false_r in Hc. now rewrite Hc.
Qed.

(** X5: whatever the label and the index, [makeEntityName] gives a name that
    starts with a letter, holds letters, digits and underscores only, and does
    not end with an underscore; in particular it is never empty. *)
Theorem makeEntityName_is_identifier : forall label fallbackIndex,
  identifier (Erd.makeEntityName label fallbackIndex) = true.
Proof.
  intros label fallbackIndex. unfold Erd.makeEntityName. cbv zeta.
  set (base := if Str.truthy label then label else ("Entity_" ++ string_of_nat fallbackIndex)%string).
  set (cleaned := Erd.stripEnd (Erd.stripStart (Re.replace Erd.re_not_alnum "_" base))).
  destruct (Str.truthy cleaned) eqn:Hc.
  - apply nameLike_identifier; [exact Hc | apply cleaned_nameLike].
  - apply nameLike_identifier; [reflexivity | apply fallback_nameLike].
Qed.

Lemma makeEntityName_truthy : forall label fallbackIndex,
  Str.truthy (Erd.makeEntityName label fallbackIndex) = true.
Proof.
  intros label fallbackIndex.
  assert (H : identifier (Erd.makeEntityName label fallbackIndex) = true).
  { unfold Erd.makeEntityName. cbv zeta.
    destruct (Str.truthy (Erd.stripEnd (Erd.stripStart (Re.replace Erd.re_not_alnum "_"
                (if Str.truthy label then label
                 else ("Entity_" ++ string_of_nat fallbackIndex)%string))))) eqn:Hc.
    - apply nameLike_identifier; [exact Hc | apply cleaned_nameLike].
    - apply nameLike_identifier; [reflexivity | apply fallback_nameLike]. }
  destruct (Erd.makeEntityName label fallbackIndex); [discriminate H | reflexivity].
Qed.

(** *** Aliases *)

Lemma makeNodes_aliases : forall its counter,
  map Node.alias (Mermaid.makeNodes counter its)
  = map (fun k => ("n" ++ string_of_nat k)%string) (seq counter (List.length its)).
Proof.
  induction its as [|it its IH]; intros counter; [reflexivity|].
  cbn [Mermaid.makeNodes map List.length seq Node.alias]. now rewrite IH.
Qed.

Lemma makeNodes_ids : forall its counter,
  map Node.id (Mermaid.makeNodes counter its) = map Item.id its.
Proof.
  induction its as [|it its IH]; intros counter; [reflexivity|].
  cbn [Mermaid.makeNodes map Node.id]. now rewrite IH.
Qed.

Lemma makeNodes_types : forall its counter,
  map Node.type (Mermaid.makeNodes counter its) = map Item.type its.
Proof.
  induction its as [|it its IH]; intros counter; [reflexivity|].
  cbn [Mermaid.makeNodes map Node.type]. now rewrite IH.
Qed.

Lemma alias_inj : Finite.Injective (fun k => ("n" ++ string_of_nat k)%string).
Proof. intros n m H. cbn in H. injection H as H. now apply string_of_nat_inj. Qed.

(** X6: the nodes are the shapes, sticky notes and cards among the items of
    the frame, in their order; they are given the aliases [n1], [n2], ... in
    that order, and no two nodes share an alias. *)
Theorem aliases_are_numbered : forall frameItems : list Item.t,
  map Node.id (Mermaid.nodes frameItems)
  = map Item.id (filter (fun it => Mermaid.isNodeType (Item.type it)) frameItems)
  /\ (forall n, In n (Mermaid.nodes frameItems) -> Mermaid.isNodeType (Node.type n) = true)
  /\ map Node.alias (Mermaid.nodes frameItems)
     = aliases (List.length (Mermaid.nodes frameItems))
  /\ NoDup (map Node.alias (Mermaid.nodes frameItems)).
Proof.
  intros frameItems. unfold Mermaid.nodes, Mermaid.nodeItems.
  set (its := filter (fun it => Mermaid.isNodeType (Item.type it)) frameItems).
  assert (Hlen : List.length (Mermaid.makeNodes 1 its) = List.length its).
  { rewrite <- (length_map Node.id), makeNodes_ids. apply length_map. }
  repeat split.
  - apply makeNodes_ids.
  - intros n Hn. apply (in_map Node.type) in Hn. rewrite makeNodes_types in Hn.
    apply in_map_iff in Hn as (it & <- & Hit). unfold its in Hit.
    now apply filter_In in Hit.
  - rewrite makeNodes_aliases, Hlen. reflexivity.
  - rewrite makeNodes_aliases. apply Finite.Injective_map_NoDup; [apply alias_inj | apply seq_NoDup].
Qed.

End NameFacts.

(** ** Edges *)

Module EdgeFacts.
Import EdgeSpec.

Section Facts.
Variable frameItems : list Item.t.
Variable allConnectors : list Connector.t.

Local Abbreviation sound := (EdgeSpec.sound frameItems).

Lemma captionLabel_fits : forall captions maxLen label,
  Mermaid.captionLabel captions maxLen = Some label ->
  Str.truthy label = true /\ (String.length label <= maxLen)%nat.
Proof.
  intros [|cap rest] maxLen label H; [discriminate|].
  cbn [Mermaid.captionLabel] in H.
  destruct (Str.truthy_opt (Caption.content cap)); [|discriminate].
  destruct (Str.truthy (plainSnippet (Caption.content cap) maxLen)) eqn:Ht; [|discriminate].
  injection H as <-. split; [exact Ht | apply TextFacts.plainSnippet_length].
Qed.

Lemma truthy_get : forall (m : JsMap.t string) k,
  Str.truthy_opt (JsMap.get m k) = true ->
  JsMap.get m k = Some (Str.or_empty (JsMap.get m k))
  /\ Str.truthy (Str.or_empty (JsMap.get m k)) = true.
Proof. intros m k H. destruct (JsMap.get m k); [now split | discriminate]. Qed.

Lemma connectorStep_sound : forall st c,
  Forall sound (fst st) -> Forall sound (fst (Mermaid.connectorStep frameItems st c)).
Proof.
  intros [edges pairs] c H. unfold Mermaid.connectorStep.
  destruct (negb (Str.truthy_opt (Connector.startItem c))
            || negb (Str.truthy_opt (Connector.endItem c))); [exact H|].
  cbv zeta.
  destruct (Str.truthy_opt (JsMap.get (Mermaid.idToAlias frameItems)
                              (Str.or_empty (Connector.startItem c)))) eqn:Hf;
    [|exact H].
  destruct (Str.truthy_opt (JsMap.get (Mermaid.idToAlias frameItems)
                              (Str.or_empty (Connector.endItem c)))) eqn:Ht;
    [|exact H].
  cbn [negb orb fst]. apply Forall_app. split; [exact H|].
  constructor; [|constructor].
  apply truthy_get in Hf as [Hf1 Hf2]. apply truthy_get in Ht as [Ht1 Ht2].
  unfold EdgeSpec.sound. cbn [Edge.fromId Edge.toId Edge.fromAlias Edge.toAlias Edge.label].
  repeat split; try assumption.
  destruct (Mermaid.captionLabel (Connector.captions c) 40) as [label|] eqn:El; [|exact I].
  now apply captionLabel_fits in El.
Qed.

Lemma stackStep_sound : forall st a b,
  Forall sound (fst st) -> Forall sound (fst (Mermaid.stackStep frameItems st a b)).
Proof.
  intros [edges pairs] a b H. unfold Mermaid.stackStep. cbv zeta.
  destruct (Num.leb _ Num.zero); [exact H|].
  destruct (Num.gtb _ _); [exact H|].
  destruct (JsSet.has pairs _); [exact H|].
  match goal with
  | |- context [negb (Str.truthy_opt (JsMap.get ?m ?k1)) || negb (Str.truthy_opt (JsMap.get ?m ?k2))] =>
      destruct (Str.truthy_opt (JsMap.get m k1)) eqn:Hf; [|exact H];
      destruct (Str.truthy_opt (JsMap.get m k2)) eqn:Ht; [|exact H]
  end.
  cbn [negb orb fst]. apply Forall_app. split; [exact H|].
  constructor; [|constructor].
  apply truthy_get in Hf as [Hf1 Hf2]. apply truthy_get in Ht as [Ht1 Ht2].
  unfold EdgeSpec.sound. cbn [Edge.fromId Edge.toId Edge.fromAlias Edge.toAlias Edge.label].
  repeat split; assumption.
Qed.

Lemma stackLoop_sound : forall sorted st,
  Forall sound (fst st) -> Forall sound (fst (Mermaid.stackLoop frameItems st sorted)).
Proof.
  induction sorted as [|a rest IH]; intros st H; [exact H|].
  destruct rest as [|b rest]; [exact H|].
  cbn [Mermaid.stackLoop]. apply IH. now apply stackStep_sound.
Qed.

Lemma edges_sound : Forall sound (Mermaid.edges frameItems allConnectors).
Proof.
  unfold Mermaid.edges, Mermaid.allEdges.
  assert (He : Forall sound (fst (Mermaid.explicitEdges frameItems allConnectors))).
  { unfold Mermaid.explicitEdges.
    assert (G : forall l st, Forall sound (fst st) ->
                  Forall sound (fst (fold_left (Mermaid.connectorStep frameItems) l st))).
    { induction l as [|c l IH]; intros st H; [exact H|].
      cbn [fold_left]. apply IH. now apply connectorStep_sound. }
    apply G. constructor. }
  revert He. generalize (Mermaid.explicitEdges frameItems allConnectors).
  induction (Mermaid.groups frameItems) as [|g gs IH]; intros st H; [exact H|].
  cbn [fold_left]. apply IH. unfold Mermaid.groupStep.
  destruct (List.length (snd g) <? 2)%nat; [exact H|]. now apply stackLoop_sound.
Qed.

Lemma alias_declared : forall id alias,
  JsMap.get (Mermaid.idToAlias frameItems) id = Some alias -> declared frameItems id alias.
Proof.
  intros id alias H. unfold Mermaid.idToAlias in H.
  rewrite (StackFacts.fold_set_get Node.t string Node.id Node.alias) in H.
  destruct (find (fun n => String.eqb (Node.id n) id) (rev (Mermaid.nodes frameItems)))
    as [n|] eqn:Ef; [|discriminate].
  apply find_some in Ef as [Hin Heq]. apply in_rev in Hin. apply String.eqb_eq in Heq.
  injection H as <-. now exists n.
Qed.

End Facts.

(** X7: every edge of the diagram, explicit or inferred, joins two declared
    nodes: each end carries the id of a node of the frame together with the
    alias of a node with that id. *)
Theorem edges_join_declared_nodes : forall frameItems allConnectors e,
  In e (Mermaid.edges frameItems allConnectors) ->
  declared frameItems (Edge.fromId e) (Edge.fromAlias e)
  /\ declared frameItems (Edge.toId e) (Edge.toAlias e).
Proof.
  intros frameItems allConnectors e He.
  pose proof (edges_sound frameItems allConnectors) as H.
  rewrite Forall_forall in H. destruct (H e He) as (Hf & Ht & _).
  split; now apply alias_declared.
Qed.

Lemma edges_join_declared_nodes_witness :
  declared StackSpec.stack "a" "n1" /\ declared StackSpec.stack "b" "n2".
Proof.
  apply (edges_join_declared_nodes StackSpec.stack [captioned] usesEdge).
  vm_compute. left. reflexivity.
Defined.

(** X8: an edge either has no label or a label that is not empty and at
    most 40 characters long. *)
Theorem edge_labels_fit : forall frameItems allConnectors e label,
  In e (Mermaid.edges frameItems allConnectors) ->
  Edge.label e = Some label ->
  Str.truthy label = true /\ (String.length label <= 40)%nat.
Proof.
  intros frameItems allConnectors e label He Hl.
  pose proof (edges_sound frameItems allConnectors) as H.
  rewrite Forall_forall in H. destruct (H e He) as (_ & _ & _ & _ & Hlab).
  now rewrite Hl in Hlab.
Qed.

Section Explicit.
Variable frameItems : list Item.t.

Lemma alias_truthy_iff : forall id,
  Str.truthy_opt (JsMap.get (Mermaid.idToAlias frameItems) id)
  = existsb (String.eqb id) (Mermaid.nodeIds frameItems).
Proof.
  intros id.
  destruct (existsb (String.eqb id) (Mermaid.nodeIds frameItems)) eqn:E.
  - apply StackFacts.alias_of_node. now apply RenderFacts.existsb_eqb_In_iff.
  - destruct (Str.truthy_opt (JsMap.get (Mermaid.idToAlias frameItems) id)) eqn:Et;
      [|reflexivity].
    apply StackFacts.node_of_alias in Et. apply RenderFacts.existsb_eqb_In_iff in Et. congruence.
Qed.

Lemma connectorStep_joins : forall st c,
  map Edge.connectorId (fst (Mermaid.connectorStep frameItems st c))
  = map Edge.connectorId (fst st)
    ++ (if joinsNodes frameItems c then [Connector.id c] else []).
Proof.
  intros [edges pairs] c. unfold Mermaid.connectorStep, joinsNodes.
  destruct (Str.truthy_opt (Connector.startItem c)); cbn [negb orb andb fst];
    [|now rewrite List.app_nil_r].
  destruct (Str.truthy_opt (Connector.endItem c)); cbn [negb orb andb fst];
    [|now rewrite List.app_nil_r].
  cbv zeta. rewrite !alias_truthy_iff.
  destruct (existsb _ (Mermaid.nodeIds frameItems)); cbn [negb orb andb fst];
    [|now rewrite List.app_nil_r].
  destruct (existsb _ (Mermaid.nodeIds frameItems)); cbn [negb orb andb fst];
    [|now rewrite List.app_nil_r].
  now rewrite map_app.
Qed.

Lemma explicitEdges_joins : forall l st,
  map Edge.connectorId (fst (fold_left (Mermaid.connectorStep frameItems) l st))
  = map Edge.connectorId (fst st) ++ map Connector.id (filter (joinsNodes frameItems) l).
Proof.
  induction l as [|c l IH]; intros st; [now rewrite List.app_nil_r|].
  cbn [fold_left filter]. rewrite IH, connectorStep_joins, <- List.app_assoc.
  now destruct (joinsNodes frameItems c).
Qed.

End Explicit.

(** X26: a connector gives an explicit edge exactly when both its ends are
    given and are nodes of the diagram; the explicit edges are these
    connectors, one for one and in their order, and they come before the
    inferred edges. *)
Theorem explicit_edges_are_the_inner_connectors : forall frameItems allConnectors,
  map Edge.connectorId (fst (Mermaid.explicitEdges frameItems allConnectors))
  = map Connector.id (filter (joinsNodes frameItems) allConnectors)
  /\ exists inferred,
       Mermaid.edges frameItems allConnectors
       = fst (Mermaid.explicitEdges frameItems allConnectors) ++ inferred.
Proof.
  intros frameItems allConnectors. split.
  - unfold Mermaid.explicitEdges. now rewrite explicitEdges_joins.
  - unfold Mermaid.edges, Mermaid.allEdges.
    generalize (Mermaid.explicitEdges frameItems allConnectors).
    assert (Hs : forall st a b, exists more,
                   fst (Mermaid.stackStep frameItems st a b) = fst st ++ more).
    { intros [edges pairs] a b. unfold Mermaid.stackStep. cbv zeta.
      repeat match goal with
             | |- context [if ?x then _ else _] => destruct x
             end;
        cbn [fst]; first [exists []; now rewrite List.app_nil_r | eexists; reflexivity]. }
    assert (Hl : forall sorted st, exists more,
                   fst (Mermaid.stackLoop frameItems st sorted) = fst st ++ more).
    { induction sorted as [|a rest IH]; intros st; [exists []; now rewrite List.app_nil_r|].
      destruct rest as [|b rest]; [exists []; now rewrite List.app_nil_r|].
      change (Mermaid.stackLoop frameItems st (a :: b :: rest))
        with (Mermaid.stackLoop frameItems (Mermaid.stackStep frameItems st a b) (b :: rest)).
      destruct (IH (Mermaid.stackStep frameItems st a b)) as [m1 ->].
      destruct (Hs st a b) as [m2 ->]. exists (m2 ++ m1). now rewrite List.app_assoc. }
    induction (Mermaid.groups frameItems) as [|g gs IH]; intros st;
      [exists []; now rewrite List.app_nil_r|].
    cbn [fold_left]. destruct (IH (Mermaid.groupStep frameItems st g)) as [m1 ->].
    unfold Mermaid.groupStep. destruct (List.length (snd g) <? 2)%nat.
    + now exists m1.
    + destruct (Hl (Mermaid.sortedGroup frameItems (snd g)) st) as [m2 ->].
      exists (m2 ++ m1). now rewrite List.app_assoc.
Qed.

Lemma edge_labels_fit_witness :
  Str.truthy "uses" = true /\ (String.length "uses" <= 40)%nat.
Proof.
  apply (edge_labels_fit StackSpec.stack [captioned] usesEdge "uses").
  - vm_compute. left. reflexivity.
  - reflexivity.
Defined.

End EdgeFacts.

(** ** The nesting of subgraphs *)

Module BracketFacts.
Import BracketSpec EdgeSpec.

Lemma trimStart_blank : forall indent s,
  blank indent = true -> Str.trimStart (indent ++ s) = Str.trimStart s.
Proof.
  induction indent as [|c r IH]; intros s H; [reflexivity|].
  unfold blank in H. cbn [PkSpec.all_chars] in H. apply andb_prop in H as [Hc Hr].
  apply Ascii.eqb_eq in Hc. subst c. cbn [String.append Str.trimStart].
  change (Str.is_space " "%char) with true. cbv iota. now apply IH.
Qed.

Lemma blank_deeper : forall indent, blank indent = true -> blank (indent ++ "  ") = true.
Proof.
  intros indent H. unfold blank in *. now rewrite PkFacts.all_chars_app, H.
Qed.

Lemma depth_app : forall a b d,
  depth d (a ++ b) = match depth d a with Some d' => depth d' b | None => None end.
Proof.
  induction a as [|line a IH]; intros b d; [reflexivity|].
  cbn [app depth]. destruct (opens line); [apply IH|].
  destruct (closes line); [|apply IH]. destruct d; [reflexivity | apply IH].
Qed.

Lemma balanced_nil : balanced [].
Proof. intros d. reflexivity. Qed.

Lemma balanced_app : forall a b, balanced a -> balanced b -> balanced (a ++ b).
Proof. intros a b Ha Hb d. now rewrite depth_app, Ha, Hb. Qed.

(** A line that starts with an alias neither opens nor closes a subgraph. *)
Lemma alias_line : forall indent rest,
  blank indent = true -> balanced [(indent ++ "  " ++ String "n"%char rest)%string].
Proof.
  intros indent rest H d. cbn [depth]. unfold opens, closes.
  rewrite (trimStart_blank _ _ H).
  reflexivity.
Qed.

Lemma header_line : forall indent rest block,
  blank indent = true -> balanced block ->
  balanced ([(indent ++ "subgraph sg_" ++ rest)%string] ++ block ++ [(indent ++ "end")%string]).
Proof.
  intros indent rest block H Hb d. cbn [app depth]. unfold opens at 1.
  rewrite (trimStart_blank _ _ H). change (Re.starts_with _ _) with true. cbv iota.
  rewrite depth_app, Hb. cbn [depth]. unfold opens, closes.
  rewrite (trimStart_blank _ _ H). reflexivity.
Qed.

Section Facts.
Variable frameItems : list Item.t.

Lemma alias_form : forall id alias,
  JsMap.get (Mermaid.idToAlias frameItems) id = Some alias ->
  exists rest, alias = String "n"%char rest.
Proof.
  intros id alias H. apply EdgeFacts.alias_declared in H as (n & Hn & _ & <-).
  apply (in_map Node.alias) in Hn. unfold Mermaid.nodes in Hn.
  rewrite NameFacts.makeNodes_aliases in Hn. apply in_map_iff in Hn as (k & <- & _).
  now eexists.
Qed.

Lemma node_alias_form : forall n,
  In n (Mermaid.nodes frameItems) -> exists rest, Node.alias n = String "n"%char rest.
Proof.
  intros n Hn. apply (in_map Node.alias) in Hn. unfold Mermaid.nodes in Hn.
  rewrite NameFacts.makeNodes_aliases in Hn. apply in_map_iff in Hn as (k & <- & _).
  now eexists.
Qed.

Lemma fold_blocks : forall (B : Type) (step : option (list string) -> B -> option (list string))
  (l : list B),
  (forall b, step None b = None) ->
  (forall lines b out, In b l -> step (Some lines) b = Some out ->
     exists block, out = lines ++ block /\ balanced block) ->
  forall lines out, fold_left step l (Some lines) = Some out ->
    exists block, out = lines ++ block /\ balanced block.
Proof.
  intros B step l Hnone. induction l as [|b l IH]; intros Hstep lines out H.
  - injection H as <-. exists []. split; [now rewrite List.app_nil_r | apply balanced_nil].
  - cbn [fold_left] in H. destruct (step (Some lines) b) as [mid|] eqn:E.
    + destruct (Hstep lines b mid (or_introl eq_refl) E) as (block1 & -> & B1).
      destruct (IH (fun ls b' o I => Hstep ls b' o (or_intror I)) _ _ H) as (block2 & -> & B2).
      exists (block1 ++ block2). split; [now rewrite List.app_assoc | now apply balanced_app].
    + exfalso. clear - H Hnone. induction l as [|b' l IHl]; [discriminate|].
      cbn [fold_left] in H. rewrite Hnone in H. now apply IHl.
Qed.

Lemma emitSubgraph_block : forall fuel p indent lines out,
  blank indent = true ->
  Mermaid.emitSubgraph frameItems fuel p indent lines = Some out ->
  exists block, out = lines ++ block /\ balanced block.
Proof.
  induction fuel as [|fuel IH]; intros p indent lines out Hb H; [discriminate|].
  cbn [Mermaid.emitSubgraph] in H.
  destruct (or_else (JsMap.get (Mermaid.childrenOf frameItems) p) []) as [|c0 cs].
  { injection H as <-. exists []. split; [now rewrite List.app_nil_r | apply balanced_nil]. }
  match type of H with
  | match fold_left ?step ?l (Some ?init) with _ => _ end = _ =>
      destruct (fold_left step l (Some init)) as [body|] eqn:Ef; [|discriminate];
      apply (fold_blocks _ step l) in Ef
  end.
  - destruct Ef as (block & -> & Hblock). injection H as <-.
    eexists. split.
    + rewrite <- !List.app_assoc. reflexivity.
    + apply header_line; assumption.
  - reflexivity.
  - intros ls c o _ Hs. cbv beta in Hs.
    destruct (JsMap.has (Mermaid.childrenOf frameItems) c).
    + apply (IH c (indent ++ "  ")%string ls o); [now apply blank_deeper | exact Hs].
    + destruct (JsMap.get (Mermaid.idToAlias frameItems) c) as [alias|] eqn:Ea.
      * cbn [Str.truthy_opt Str.or_empty] in Hs.
        destruct (Str.truthy alias); injection Hs as <-.
        -- destruct (alias_form _ _ Ea) as [rest ->]. eexists. split; [reflexivity|].
           now apply alias_line.
        -- exists []. split; [now rewrite List.app_nil_r | apply balanced_nil].
      * cbn [Str.truthy_opt] in Hs. injection Hs as <-.
        exists []. split; [now rewrite List.app_nil_r | apply balanced_nil].
Qed.

Lemma fold_appends : forall (B : Type) (step : list string -> B -> list string) (l : list B),
  (forall lines b, In b l -> exists block, step lines b = lines ++ block /\ balanced block) ->
  forall lines, exists block, fold_left step l lines = lines ++ block /\ balanced block.
Proof.
  intros B step. induction l as [|b l IH]; intros Hstep lines.
  - exists []. split; [now rewrite List.app_nil_r | apply balanced_nil].
  - cbn [fold_left]. destruct (Hstep lines b (or_introl eq_refl)) as (block1 & -> & B1).
    destruct (IH (fun ls b' I => Hstep ls b' (or_intror I)) (lines ++ block1)) as (block2 & -> & B2).
    exists (block1 ++ block2). split; [now rewrite List.app_assoc | now apply balanced_app].
Qed.

Lemma balanced_lines : forall (A : Type) (line : A -> string) (l : list A),
  (forall a, In a l -> balanced [line a]) -> balanced (map line l).
Proof.
  intros A line. induction l as [|a l IH]; intros H; [apply balanced_nil|].
  cbn [map]. apply (balanced_app [line a]).
  - apply H. now left.
  - apply IH. intros b Hb. apply H. now right.
Qed.

Lemma node_declared : forall id node,
  JsMap.get (Mermaid.idToNode frameItems) id = Some node -> In node (Mermaid.nodes frameItems).
Proof.
  intros id node H. unfold Mermaid.idToNode in H.
  rewrite (StackFacts.fold_set_get Node.t Node.t Node.id (fun n => n)) in H.
  destruct (find (fun n => String.eqb (Node.id n) id) (rev (Mermaid.nodes frameItems)))
    as [n|] eqn:Ef; [|discriminate].
  apply find_some in Ef as [Hin _]. apply in_rev in Hin. now injection H as <-.
Qed.

Lemma region_block : forall id lines,
  exists block,
    Mermaid.emitRegionSubgraph frameItems id "    " lines = lines ++ block /\ balanced block.
Proof.
  intros id lines. unfold Mermaid.emitRegionSubgraph.
  destruct (JsMap.get (Mermaid.idToNode frameItems) id) as [node|] eqn:En.
  - apply node_declared in En. destruct (node_alias_form node En) as [rest Er].
    eexists. split; [reflexivity|]. rewrite Er.
    apply (header_line "    " _ [("    " ++ "  " ++ String "n"%char rest)%string]);
      [reflexivity | now apply alias_line].
  - exists []. split; [now rewrite List.app_nil_r | apply balanced_nil].
Qed.

Lemma mermaidLines_balanced :
  forall allConnectors direction frame_id frameTitle fuel lines,
    Mermaid.mermaidLines frameItems allConnectors direction frame_id frameTitle fuel = Some lines ->
    depth 0 lines = Some 0%nat.
Proof.
  intros allConnectors direction frame_id frameTitle fuel lines H.
  unfold Mermaid.mermaidLines in H. cbv zeta in H.
  match type of H with
  | match fold_left ?step ?l (Some ?init) with _ => _ end = _ =>
      destruct (fold_left step l (Some init)) as [body|] eqn:Ef; [|discriminate];
      apply (fold_blocks _ step l) in Ef
  end.
  - destruct Ef as (containers & -> & Hc). injection H as <-.
    match goal with
    | |- context [fold_left ?step ?l ?init] =>
        destruct (fold_appends _ step l) with (lines := init) as (regions & -> & Hr)
    end.
    { intros ls id _. destruct (JsMap.has (Mermaid.childrenOf frameItems) id).
      - exists []. split; [now rewrite List.app_nil_r | apply balanced_nil].
      - apply region_block. }
    assert (Hn : balanced (map Mermaid.nodeLine (Mermaid.nodes frameItems))).
    { apply balanced_lines. intros n Hin. destruct (node_alias_form n Hin) as [rest Er].
      unfold Mermaid.nodeLine. rewrite Er. apply (alias_line "" _ eq_refl). }
    assert (He : balanced (map Mermaid.edgeLine (Mermaid.edges frameItems allConnectors))).
    { apply balanced_lines. intros e Hin.
      pose proof (EdgeFacts.edges_sound frameItems allConnectors) as Hs.
      rewrite Forall_forall in Hs. destruct (Hs e Hin) as (Hf & _).
      destruct (alias_form _ _ Hf) as [rest Er].
      unfold Mermaid.edgeLine. rewrite Er.
      destruct (Str.truthy_opt (Edge.label e)); apply (alias_line "" _ eq_refl). }
    rewrite !depth_app.
    match goal with
    | |- context [depth 0 (?flow :: ?rest)] => change (depth 0 (flow :: rest)) with (depth 0 rest)
    end.
    rewrite !depth_app, Hn. cbv beta iota.
    match goal with
    | |- context [depth 0 [?root]] => change (depth 0 [root]) with (Some 1%nat)
    end.
    cbv beta iota. rewrite Hc. cbv beta iota. rewrite Hr. cbv beta iota.
    change (depth 1 ["  end"]) with (Some 0%nat). cbv beta iota. apply He.
  - reflexivity.
  - intros ls p o _ Hs. cbv beta in Hs.
    destruct (JsMap.get (Mermaid.parentOf frameItems) p) as [[q|]|].
    + destruct (Str.truthy q).
      * injection Hs as <-. exists []. split; [now rewrite List.app_nil_r | apply balanced_nil].
      * now apply (emitSubgraph_block fuel p "    ").
    + now apply (emitSubgraph_block fuel p "    ").
    + now apply (emitSubgraph_block fuel p "    ").
Qed.

End Facts.

(** X9: the flowchart is always produced, and its subgraphs are properly
    nested: going through the lines, every [end] closes a subgraph that is
    open, and none is left open after the last line. *)
Theorem subgraphs_are_balanced :
  forall frameItems allConnectors direction frame_id frameTitle,
    exists lines,
      Mermaid.mermaidLines frameItems allConnectors direction frame_id frameTitle
        (Net.renderFuel frameItems) = Some lines
      /\ depth 0 lines = Some 0%nat.
Proof.
  intros frameItems allConnectors direction frame_id frameTitle.
  destruct (RenderFacts.mermaid_total frameItems allConnectors direction frame_id frameTitle)
    as [text Ht].
  unfold Mermaid.mermaid in Ht.
  destruct (Mermaid.mermaidLines frameItems allConnectors direction frame_id frameTitle
              (Net.renderFuel frameItems)) as [lines|] eqn:El; [|discriminate].
  exists lines. split; [reflexivity|].
  now apply (mermaidLines_balanced frameItems allConnectors direction frame_id frameTitle
               (Net.renderFuel frameItems)).
Qed.

End BracketFacts.

(** ** Pagination and caps *)

Module PageFacts.
Import PageSpec.

Lemma bind_return : forall (A B : Type) (m : Net.M A) (k : A -> Net.M B) n b n',
  Net.bind m k n = (Net.Return b, n') ->
  exists a n1, m n = (Net.Return a, n1) /\ k a n1 = (Net.Return b, n').
Proof.
  intros A B m k n b n' H. unfold Net.bind in H.
  destruct (m n) as [[a|e|] n1]; try discriminate. eauto.
Qed.

Lemma request_return : forall (A : Type) (endpoint : nat -> Net.Error + A) n a n',
  Net.request endpoint n = (Net.Return a, n') -> endpoint n = inr a /\ n' = S n.
Proof.
  intros A endpoint n a n' H. unfold Net.request in H.
  destruct (endpoint n); [discriminate|]. injection H as <- <-. now split.
Qed.

Lemma capped_length : forall (A : Type) k (acc l : list A),
  (List.length acc <= S k)%nat ->
  (List.length (acc ++ firstn (S k - List.length acc) l) <= S k)%nat.
Proof.
  intros A k acc l H. rewrite length_app.
  pose proof (firstn_le_length (S k - List.length acc) l) as H1.
  pose proof (length_firstn (S k - List.length acc) l) as H2. lia.
Qed.

Lemma fetchConnectors_capped : forall api boardId k fuel cursor connectors count out count',
  (List.length connectors <= S k)%nat ->
  Net.fetchConnectors api boardId (Some (S k)) fuel cursor connectors count
  = (Net.Return out, count') ->
  (List.length out <= S k)%nat.
Proof.
  intros api boardId k. induction fuel as [|fuel IH];
    intros cursor connectors count out count' Hlen H; [discriminate|].
  cbn [Net.fetchConnectors] in H.
  destruct (Net.limitReached (Some (S k)) (List.length connectors)).
  { injection H as <- _. exact Hlen. }
  apply bind_return in H as (payload & n1 & _ & H).
  rewrite FetchFacts.pushConnector_fold in H.
  pose proof (capped_length _ k connectors (Net.data payload) Hlen) as Hcap.
  destruct (Str.truthy_opt (Str.or (Net.after payload) None)
            && negb (Net.limitReached (Some (S k)) _)).
  - now apply IH in H.
  - now injection H as <- _.
Qed.

(** X10: with a cap on the connectors, [fetchConnectors] never returns more
    connectors than the cap, however many the pages hold. *)
Theorem connectors_cap : forall api boardId k fuel count out count',
  Net.fetchConnectors api boardId (Some (S k)) fuel None [] count = (Net.Return out, count') ->
  (List.length out <= S k)%nat.
Proof.
  intros api boardId k fuel count out count' H.
  apply (fetchConnectors_capped api boardId k fuel None [] count out count'); [simpl; lia | exact H].
Qed.

Lemma connectors_cap_witness :
  (List.length [StackSpec.connector "k1" "a" "b"] <= 1)%nat.
Proof.
  apply (connectors_cap twoPages "b1" 0 5 0 [StackSpec.connector "k1" "a" "b"] 1).
  vm_compute. reflexivity.
Defined.

Lemma fetchDirectChildren_capped :
  forall api boardId k fuel frameId cursor items ids count out count',
    (List.length items <= S k)%nat ->
    Net.fetchDirectChildren api boardId (Some (S k)) fuel frameId cursor items ids count
    = (Net.Return out, count') ->
    (List.length (fst out) <= S k)%nat.
Proof.
  intros api boardId k. induction fuel as [|fuel IH];
    intros frameId cursor items ids count out count' Hlen H; [discriminate|].
  cbn [Net.fetchDirectChildren] in H.
  destruct (Net.limitReached (Some (S k)) (List.length items)).
  { injection H as <- _. exact Hlen. }
  apply bind_return in H as (payload & n1 & _ & H).
  pose proof (FetchFacts.pushChild_items (Some (S k)) (Net.data payload) items ids) as Hp.
  destruct (fold_left (Net.pushChild (Some (S k))) (Net.data payload) (items, ids))
    as [items2 ids2].
  cbn [fst] in Hp. subst items2.
  pose proof (capped_length _ k items (Net.data payload) Hlen) as Hcap.
  destruct (Str.truthy_opt (Str.or (Net.after payload) None)
            && negb (Net.limitReached (Some (S k)) _)).
  - now apply IH in H.
  - now injection H as <- _.
Qed.

Lemma traverse_capped : forall api boardId k fuel queue visited items count out count',
  (List.length items <= S k)%nat ->
  Net.traverse api boardId (Some (S k)) fuel queue visited items count = (Net.Return out, count') ->
  (List.length out <= S k)%nat.
Proof.
  intros api boardId k. induction fuel as [|fuel IH];
    intros queue visited items count out count' Hlen H; [discriminate|].
  cbn [Net.traverse] in H. destruct queue as [|frameId queue].
  { now injection H as <- _. }
  destruct (Net.limitReached (Some (S k)) (List.length items)).
  { now injection H as <- _. }
  destruct (negb (Str.truthy frameId) || JsSet.has visited frameId).
  { now apply IH in H. }
  apply bind_return in H as ([items2 found] & n1 & Hf & H).
  apply fetchDirectChildren_capped in Hf; [|exact Hlen].
  now apply IH in H.
Qed.

(** X11: with a cap on the items, [fetchFrameItems] never returns more items
    than the cap: the cap bounds the items of the frame and of all the frames
    below it together, not each frame by itself. *)
Theorem frame_items_cap : forall api boardId k fuel targetFrameId count out count',
  Net.fetchFrameItems api boardId (Some (S k)) fuel targetFrameId count
  = (Net.Return out, count') ->
  (List.length out <= S k)%nat.
Proof.
  intros api boardId k fuel targetFrameId count out count' H.
  unfold Net.fetchFrameItems in H.
  apply bind_return in H as (seeds & n1 & _ & H).
  apply traverse_capped in H; [exact H | simpl; lia].
Qed.

Lemma frame_items_cap_witness :
  (List.length [FetchSpec.plain "G" "frame"; FetchSpec.plain "A" "shape"] <= 2)%nat.
Proof.
  apply (frame_items_cap FetchSpec.nestedApi "b1" 1 5 "F" 0
           [FetchSpec.plain "G" "frame"; FetchSpec.plain "A" "shape"] 2).
  vm_compute. reflexivity.
Defined.

Lemma fetchConnectors_pages : forall api boardId pages fuel cursor connectors count,
  served api boardId count cursor pages ->
  (List.length pages <= fuel)%nat ->
  Net.fetchConnectors api boardId None fuel cursor connectors count
  = (Net.Return (connectors ++ flat_map Net.data pages), count + List.length pages).
Proof.
  intros api boardId. induction pages as [|page rest IH];
    intros fuel cursor connectors count Hs Hf; [contradiction|].
  destruct fuel as [|fuel]; [simpl in Hf; lia|].
  cbn [served] in Hs. destruct Hs as [Hreq Hrest].
  cbn [Net.fetchConnectors Net.limitReached]. unfold Net.bind, Net.request.
  rewrite Hreq. rewrite FetchFacts.pushConnector_fold. cbn [Net.limitReached negb].
  rewrite andb_true_r. unfold Str.or.
  destruct rest as [|page2 rest].
  - rewrite Hrest. cbn [Str.truthy_opt]. unfold Net.ret.
    cbn [flat_map List.length]. rewrite List.app_nil_r. f_equal. lia.
  - destruct Hrest as [Ht Hrest]. rewrite Ht, Ht.
    rewrite (IH fuel (Net.after page) (connectors ++ Net.data page) (S count) Hrest)
      by (simpl in Hf; simpl; lia).
    cbn [flat_map List.length]. rewrite <- List.app_assoc. f_equal. lia.
Qed.

(** X12: when the connectors of the board come in pages, each reached by the
    cursor of the page before it, [fetchConnectors] without a cap issues one
    request per page and returns the connectors of all the pages, in the
    order of the pages. *)
Theorem connectors_follow_cursors : forall api boardId pages fuel count,
  served api boardId count None pages ->
  (List.length pages <= fuel)%nat ->
  Net.fetchConnectors api boardId None fuel None [] count
  = (Net.Return (flat_map Net.data pages), count + List.length pages).
Proof.
  intros api boardId pages fuel count Hs Hf.
  now rewrite (fetchConnectors_pages api boardId pages fuel None [] count Hs Hf).
Qed.

Lemma connectors_follow_cursors_witness :
  Net.fetchConnectors twoPages "b1" None 2 None [] 0
  = (Net.Return [StackSpec.connector "k1" "a" "b"; StackSpec.connector "k2" "b" "c"], 2).
Proof.
  apply (connectors_follow_cursors twoPages "b1" [firstPage; secondPage] 2 0).
  - simpl. repeat split; reflexivity.
  - simpl. lia.
Defined.

End PageFacts.

(** ** Sets *)

Module SetFacts.

Lemma add_NoDup : forall s k, NoDup s -> NoDup (JsSet.add s k).
Proof.
  intros s k Hn. unfold JsSet.add. destruct (JsSet.has s k) eqn:Hh; [exact Hn|].
  apply NoDup_app; [exact Hn | repeat constructor; intros [] |].
  intros x Hx [<-|[]]. apply JsSetFacts.has_In in Hx. congruence.
Qed.

Lemma add_In : forall s k x, In x (JsSet.add s k) <-> In x s \/ x = k.
Proof.
  intros s k x. rewrite <- !JsSetFacts.has_In, JsSetFacts.has_add, orb_true_iff.
  now rewrite String.eqb_eq.
Qed.

End SetFacts.

(** ** Seeds and failures *)

Module SeedFacts.
Import ErrorSpec.

Lemma add_keeps_head : forall s k t rest,
  s = t :: rest -> NoDup s ->
  (exists rest', JsSet.add s k = t :: rest') /\ NoDup (JsSet.add s k).
Proof.
  intros s k t rest -> Hn. unfold JsSet.add.
  destruct (JsSet.has (t :: rest) k) eqn:Hh; [split; [eauto | exact Hn]|].
  split; [cbn [app]; eauto|].
  apply NoDup_app; [exact Hn | repeat constructor; intros [] |].
  intros x Hx [<-|[]]. apply JsSetFacts.has_In in Hx. congruence.
Qed.

Lemma seeds_fold : forall (rootBBox : Rect.t) t frames s,
  (exists rest, s = t :: rest) -> NoDup s ->
  (exists rest, fold_left (SeedSpec.seedStep rootBBox) frames s = t :: rest)
  /\ NoDup (fold_left (SeedSpec.seedStep rootBBox) frames s)
  /\ forall id, In id (fold_left (SeedSpec.seedStep rootBBox) frames s) ->
       In id s
       \/ exists frame bbox,
            In frame frames /\ Item.id frame = id
            /\ Mermaid.computeFrameBBox frame = Some bbox
            /\ Net.insideRoot bbox rootBBox = true.
Proof.
  intros rootBBox t. induction frames as [|fr frames IH]; intros s [rest Hs] Hn.
  { repeat split; [eauto | exact Hn | now left]. }
  cbn [fold_left].
  assert (Hs' : (exists rest', SeedSpec.seedStep rootBBox s fr = t :: rest')
                /\ NoDup (SeedSpec.seedStep rootBBox s fr)
                /\ forall id, In id (SeedSpec.seedStep rootBBox s fr) ->
                     In id s
                     \/ (Item.id fr = id
                         /\ exists bbox, Mermaid.computeFrameBBox fr = Some bbox
                                         /\ Net.insideRoot bbox rootBBox = true)).
  { unfold SeedSpec.seedStep.
    destruct (Mermaid.computeFrameBBox fr) as [bbox|] eqn:Eb;
      [|repeat split; [eauto | exact Hn | now left]].
    destruct (Net.insideRoot bbox rootBBox) eqn:Er;
      [|repeat split; [eauto | exact Hn | now left]].
    destruct (add_keeps_head s (Item.id fr) t rest Hs Hn) as [Hh Hd].
    repeat split; [exact Hh | exact Hd|].
    intros id Hid. apply SetFacts.add_In in Hid as [Hid| ->]; [now left|].
    right. split; [reflexivity|]. now exists bbox. }
  destruct Hs' as (Hh & Hd & Hin). destruct (IH _ Hh Hd) as (H1 & H2 & H3).
  repeat split; [exact H1 | exact H2|].
  intros id Hid. destruct (H3 id Hid) as [H|(frame & bbox & Hf & Hrest)].
  - destruct (Hin id H) as [H'|(Hi & bbox & Hb & Hr)]; [now left|].
    right. exists fr, bbox. repeat split; try assumption. now left.
  - right. exists frame, bbox. split; [now right | exact Hrest].
Qed.

Lemma listFrames_listed : forall api boardId fuel targetFrameId cursor allFrames count out count',
  Net.listFrames api boardId fuel targetFrameId cursor allFrames count = (Net.Return out, count') ->
  forall frame, In frame out -> In frame allFrames \/ SeedSpec.listed api boardId frame.
Proof.
  intros api boardId. induction fuel as [|fuel IH];
    intros targetFrameId cursor allFrames count out count' H frame Hin; [discriminate|].
  cbn [Net.listFrames] in H.
  apply PageFacts.bind_return in H as (payload & n1 & Hreq & H).
  apply PageFacts.request_return in Hreq as [Hreq _].
  assert (Hstep : In frame
                    (allFrames
                     ++ filter (fun fr => negb (String.eqb (Item.id fr) targetFrameId))
                          (Net.data payload)) ->
                  In frame allFrames \/ SeedSpec.listed api boardId frame).
  { intros Hi. apply in_app_or in Hi as [Hi|Hi]; [now left|]. right.
    apply filter_In in Hi as [Hi _]. now exists count, cursor, payload. }
  destruct (Str.truthy_opt (Str.or (Net.after payload) None)).
  - destruct (IH _ _ _ _ _ _ H frame Hin) as [Hi|Hi]; [now apply Hstep | now right].
  - injection H as <- _. now apply Hstep.
Qed.

(** X13: the computation of the seed frames never throws, whatever request
    fails; the seeds it returns start with the requested frame and hold no
    frame twice, and every other seed is the id of a frame of the board whose
    box lies within the box of the requested frame.  When the requested frame
    cannot be read, the seeds are that frame alone, after this one request. *)
Theorem seeds_start_with_target : forall api boardId fuel targetFrameId count,
  match fst (Net.seedFrameIds api boardId fuel targetFrameId count) with
  | Net.Return seeds =>
      (exists rest, seeds = targetFrameId :: rest) /\ NoDup seeds
      /\ forall id, In id seeds ->
           id = targetFrameId \/ SeedSpec.discovered api boardId targetFrameId count id
  | Net.Throw _ => False
  | Net.Diverge => True
  end
  /\ ((forall frame, Net.getItem api count boardId targetFrameId <> inr (Some frame)) ->
      Net.seedFrameIds api boardId fuel targetFrameId count
      = (Net.Return [targetFrameId], S count)).
Proof.
  intros api boardId fuel targetFrameId count. split.
  2:{ intros H. unfold Net.seedFrameIds, Net.try_catch, Net.bind, Net.request.
      destruct (Net.getItem api count boardId targetFrameId) as [e|[frame|]];
        [reflexivity | now destruct (H frame) | reflexivity]. }
  assert (H1 : (exists rest, [targetFrameId] = targetFrameId :: rest) /\ NoDup [targetFrameId]
               /\ forall id, In id [targetFrameId] ->
                    id = targetFrameId
                    \/ SeedSpec.discovered api boardId targetFrameId count id).
  { repeat split; [eauto | repeat constructor; intros [] | intros id [<-|[]]; now left]. }
  unfold Net.seedFrameIds, Net.try_catch, Net.bind, Net.request.
  destruct (Net.getItem api count boardId targetFrameId) as [e|[rootFrame|]] eqn:Eroot;
    [exact H1 | | exact H1].
  destruct (Mermaid.computeFrameBBox rootFrame) as [rootBBox|] eqn:Ebox; [|exact H1].
  destruct (Net.listFrames api boardId fuel targetFrameId None [] (S count))
    as [[allFrames|e|] n] eqn:El; [| exact H1 | exact I].
  cbn [Net.ret fst].
  destruct (seeds_fold rootBBox targetFrameId allFrames (JsSet.add [] targetFrameId))
    as (Hh & Hd & Hin); [now exists [] | repeat constructor; intros [] |].
  change (fold_left _ allFrames (JsSet.add [] targetFrameId))
    with (fold_left (SeedSpec.seedStep rootBBox) allFrames (JsSet.add [] targetFrameId)).
  repeat split; [exact Hh | exact Hd|].
  intros id Hid. destruct (Hin id Hid) as [[<-|[]]|(frame & bbox & Hf & Hi & Hb & Hr)];
    [now left|].
  right. exists rootFrame, rootBBox, frame, bbox. repeat split; try assumption.
  destruct (listFrames_listed _ _ _ _ _ _ _ _ _ El frame Hf) as [[]|Hl]. exact Hl.
Qed.

Lemma resolveBoardId_error : forall activeBoardId board_id e,
  Net.resolveBoardId activeBoardId board_id = inl e -> e = Net.noActiveBoard.
Proof.
  intros activeBoardId board_id e H. unfold Net.resolveBoardId in H.
  destruct (Str.truthy_opt _); [discriminate|].
  destruct (negb (Str.truthy_opt activeBoardId)); [now injection H as <- | discriminate].
Qed.

Lemma formatApiError_formatted : forall e, formatted (Net.formatApiError e).
Proof.
  intros e. unfold formatted, Net.formatApiError. split; [reflexivity|].
  cbn [Net.message]. destruct (Net.response e) as [[status body]|]; reflexivity.
Qed.

(** X14: an invocation of [frame_to_mermaid] that throws either throws the
    error of [resolveBoardId], and then no request was issued, or an error
    whose message [formatApiError] built: it starts with [Miro API] and
    carries no response object. *)
Theorem execute_errors_are_formatted : forall activeBoardId api fuel args count e count',
  Net.execute activeBoardId api fuel args count = (Net.Throw e, count') ->
  (e = Net.noActiveBoard /\ count' = count) \/ formatted e.
Proof.
  intros activeBoardId api fuel args count e count' H.
  unfold Net.execute, Net.withBoard in H.
  destruct (Net.resolveBoardId activeBoardId (Net.board_id args)) as [e0|boardId] eqn:Eb.
  - unfold Net.throw in H. injection H as <- <-. left.
    split; [now apply resolveBoardId_error in Eb | reflexivity].
  - right. unfold Net.try_catch in H.
    match type of H with
    | match ?m count with _ => _ end = _ => destruct (m count) as [[r|e1|] n]
    end; try discriminate.
    unfold Net.throw in H. injection H as <- _. apply formatApiError_formatted.
Qed.

Lemma execute_errors_are_formatted_witness :
  formatted {| Net.message := "Miro API Error (429): {}"; Net.response := None |}.
Proof.
  destruct (execute_errors_are_formatted (Some "b1") refusing 5 FetchSpec.flatArgs 0
              {| Net.message := "Miro API Error (429): {}"; Net.response := None |} 3)
    as [[H _]|H].
  - vm_compute. reflexivity.
  - discriminate H.
  - exact H.
Defined.

End SeedFacts.

(** ** Entities and relationships *)

Module EntityFacts.
Import EntitySpec.

Section Facts.
Variable frameItems : list Item.t.
Variable allConnectors : list Connector.t.

Local Abbreviation relConns := (Erd.relationshipConnectors frameItems allConnectors).
Local Abbreviation ids := (Erd.entityIds frameItems allConnectors).
Local Abbreviation ents := (Erd.entities frameItems allConnectors).
Local Abbreviation entityItem := (EntitySpec.entityItem frameItems).
Local Abbreviation named := (EntitySpec.named frameItems allConnectors).

Lemma relConn_ends : forall c,
  In c relConns ->
  exists s t,
    Connector.startItem c = Some s /\ Str.truthy s = true
    /\ Connector.endItem c = Some t /\ Str.truthy t = true
    /\ entityItem s /\ entityItem t.
Proof.
  intros c H. unfold Erd.relationshipConnectors in H. apply filter_In in H as [_ H].
  destruct (Connector.startItem c) as [s|]; [|discriminate].
  destruct (Connector.endItem c) as [t|]; [|now rewrite orb_true_r in H].
  cbn [Str.truthy_opt Str.or_empty] in H.
  destruct (Str.truthy s) eqn:Hs; [|discriminate].
  destruct (Str.truthy t) eqn:Ht; [|discriminate].
  cbn [negb orb] in H.
  destruct (JsMap.get (Erd.idToItem frameItems) s) as [a|] eqn:Ea; [|discriminate].
  destruct (JsMap.get (Erd.idToItem frameItems) t) as [b|] eqn:Eb; [|discriminate].
  apply negb_true_iff, orb_false_elim in H as [Ha Hb].
  exists s, t. repeat split; try assumption; [now exists a | now exists b].
Qed.

Lemma add_end : forall s k id,
  In id (if Str.truthy k then JsSet.add s k else s)
  <-> In id s \/ (Str.truthy id = true /\ id = k).
Proof.
  intros s k id. destruct (Str.truthy k) eqn:Ek.
  - rewrite SetFacts.add_In. split; [intros [H| ->]; auto | intros [H|[_ ->]]; auto].
  - split; [auto | intros [H|[Ht ->]]; [exact H | congruence]].
Qed.

Lemma entityIds_fold : forall l s,
  NoDup s ->
  let out :=
    fold_left
      (fun ids c =>
         let startId := Str.or_empty (Connector.startItem c) in
         let endId := Str.or_empty (Connector.endItem c) in
         let ids := if Str.truthy startId then JsSet.add ids startId else ids in
         if Str.truthy endId then JsSet.add ids endId else ids)
      l s in
  NoDup out
  /\ forall id, In id out <-> In id s \/ exists c, In c l /\ endOf id c.
Proof.
  induction l as [|c l IH]; intros s Hn.
  - split; [exact Hn|]. intros id. split; [now left | intros [H|(c & [] & _)]; exact H].
  - cbn [fold_left]. cbv zeta.
    set (s1 := if Str.truthy (Str.or_empty (Connector.startItem c))
               then JsSet.add s (Str.or_empty (Connector.startItem c)) else s).
    set (s2 := if Str.truthy (Str.or_empty (Connector.endItem c))
               then JsSet.add s1 (Str.or_empty (Connector.endItem c)) else s1).
    assert (Hn1 : NoDup s1).
    { unfold s1. destruct (Str.truthy (Str.or_empty (Connector.startItem c)));
        [now apply SetFacts.add_NoDup | exact Hn]. }
    assert (Hn2 : NoDup s2).
    { unfold s2. destruct (Str.truthy (Str.or_empty (Connector.endItem c)));
        [now apply SetFacts.add_NoDup | exact Hn1]. }
    assert (H2 : forall id, In id s2 <-> In id s \/ endOf id c).
    { intros id. unfold s2, s1, endOf. rewrite !add_end. tauto. }
    destruct (IH s2 Hn2) as [Hd Hin]. split; [exact Hd|].
    intros id. rewrite Hin, H2. split.
    + intros [[H|H]|(c' & Hc & H)].
      * now left.
      * right. exists c. split; [now left | exact H].
      * right. exists c'. split; [now right | exact H].
    + intros [H|(c' & [<-|Hc] & H)].
      * now left; left.
      * now left; right.
      * right. now exists c'.
Qed.

Lemma entityIds_spec :
  NoDup ids /\ forall id, In id ids <-> exists c, In c relConns /\ endOf id c.
Proof.
  destruct (entityIds_fold relConns [] (NoDup_nil _)) as [Hd Hin]. split; [exact Hd|].
  intros id. unfold Erd.entityIds. rewrite Hin. split; [intros [[]|H]; exact H | now right].
Qed.

Local Abbreviation kept := (EntitySpec.kept frameItems).

Lemma makeEntities_ids : forall l counter,
  map Entity.id (Erd.makeEntities frameItems counter l) = filter kept l.
Proof.
  induction l as [|id l IH]; intros counter; [reflexivity|].
  cbn [Erd.makeEntities filter]. unfold EntitySpec.kept at 1.
  destruct (JsMap.get (Erd.idToItem frameItems) id) as [it|]; [|apply IH].
  destruct (Str.eq_opt (Item.type it) (Some "sticky_note")); [apply IH|].
  cbn [negb map Entity.id]. now rewrite IH.
Qed.

Lemma makeEntities_names : forall l counter e,
  In e (Erd.makeEntities frameItems counter l) -> Str.truthy (Entity.entityName e) = true.
Proof.
  induction l as [|id l IH]; intros counter e H; [contradiction|].
  cbn [Erd.makeEntities] in H.
  destruct (JsMap.get (Erd.idToItem frameItems) id) as [it|]; [|now apply IH in H].
  destruct (Str.eq_opt (Item.type it) (Some "sticky_note")); [now apply IH in H|].
  destruct H as [<-|H]; [apply NameFacts.makeEntityName_truthy | now apply IH in H].
Qed.

Lemma entity_ids : map Entity.id ents = filter kept ids.
Proof. apply makeEntities_ids. Qed.

Lemma kept_entityItem : forall id, entityItem id -> kept id = true.
Proof.
  intros id (it & Hg & Hs). unfold EntitySpec.kept. rewrite Hg.
  unfold Erd.isSticky in Hs. now rewrite Hs.
Qed.

Lemma name_of : forall id,
  In id (map Entity.id ents) ->
  exists e, In e ents /\ Entity.id e = id
            /\ JsMap.get (Erd.idToEntityName frameItems allConnectors) id
               = Some (Entity.entityName e).
Proof.
  intros id H. unfold Erd.idToEntityName.
  rewrite (StackFacts.fold_set_get Entity.t string Entity.id Entity.entityName).
  destruct (find (fun n => String.eqb (Entity.id n) id) (rev ents)) as [e|] eqn:Ef.
  - apply find_some in Ef as [Hin Heq]. apply in_rev in Hin. apply String.eqb_eq in Heq.
    now exists e.
  - apply in_map_iff in H as (e & He & Hin).
    apply (find_none _ _ Ef) in Hin || (rewrite in_rev in Hin; apply (find_none _ _ Ef) in Hin).
    cbv beta in Hin. rewrite He, String.eqb_refl in Hin. discriminate.
Qed.

Lemma relationship_of : forall c,
  In c relConns ->
  exists r s t,
    Erd.relationshipOf frameItems allConnectors c = Some r
    /\ Connector.startItem c = Some s /\ Connector.endItem c = Some t
    /\ Relationship.connectorId r = Connector.id c
    /\ Relationship.fromId r = s /\ Relationship.toId r = t
    /\ entityItem s /\ entityItem t
    /\ named s (Relationship.fromEntity r) /\ named t (Relationship.toEntity r).
Proof.
  intros c Hc. destruct (relConn_ends c Hc) as (s & t & Es & Hs & Et & Ht & Is & It).
  destruct entityIds_spec as [_ Hin].
  assert (Hes : In s (map Entity.id ents)).
  { rewrite entity_ids. apply filter_In. split; [|now apply kept_entityItem].
    apply Hin. exists c. split; [exact Hc|]. split; [exact Hs | left; now rewrite Es]. }
  assert (Het : In t (map Entity.id ents)).
  { rewrite entity_ids. apply filter_In. split; [|now apply kept_entityItem].
    apply Hin. exists c. split; [exact Hc|]. split; [exact Ht | right; now rewrite Et]. }
  destruct (name_of s Hes) as (e1 & H1 & I1 & G1).
  destruct (name_of t Het) as (e2 & H2 & I2 & G2).
  pose proof (makeEntities_names _ _ _ H1) as T1.
  pose proof (makeEntities_names _ _ _ H2) as T2.
  unfold Erd.relationshipOf. rewrite Es, Et. cbn [Str.truthy_opt Str.or_empty].
  rewrite Hs, Ht. cbn [negb orb]. rewrite G1, G2. cbn [Str.truthy_opt Str.or_empty].
  rewrite T1, T2. cbn [negb orb].
  eexists. exists s, t. split; [reflexivity|].
  cbn [Relationship.connectorId Relationship.fromId Relationship.toId
       Relationship.fromEntity Relationship.toEntity].
  repeat split; try assumption; [now exists e1 | now exists e2].
Qed.

Lemma relationships_of : forall l,
  (forall c, In c l -> In c relConns) ->
  map Relationship.connectorId
    (flat_map (fun c => match Erd.relationshipOf frameItems allConnectors c with
                        | Some r => [r] | None => [] end) l)
  = map Connector.id l
  /\ map (fun r => (Some (Relationship.fromId r), Some (Relationship.toId r)))
       (flat_map (fun c => match Erd.relationshipOf frameItems allConnectors c with
                           | Some r => [r] | None => [] end) l)
     = map (fun c => (Connector.startItem c, Connector.endItem c)) l.
Proof.
  induction l as [|c l IH]; intros H; [now split|].
  destruct (relationship_of c (H c (or_introl eq_refl)))
    as (r & s & t & Er & Es & Et & Hid & Hf & Hto & _).
  destruct (IH (fun c' I => H c' (or_intror I))) as [IH1 IH2].
  cbn [flat_map map]. rewrite Er. cbn [app map].
  rewrite IH1, IH2, Hid, Hf, Hto, Es, Et. now split.
Qed.

End Facts.

(** X15: every relationship of the ER diagram joins two entities of the
    diagram: both ends are items of the frame that are no sticky notes, and
    the names in the relationship are the names of the entities made from
    these items. *)
Theorem relationships_join_entities : forall frameItems allConnectors r,
  In r (Erd.relationships frameItems allConnectors) ->
  entityItem frameItems (Relationship.fromId r)
  /\ entityItem frameItems (Relationship.toId r)
  /\ named frameItems allConnectors (Relationship.fromId r) (Relationship.fromEntity r)
  /\ named frameItems allConnectors (Relationship.toId r) (Relationship.toEntity r).
Proof.
  intros frameItems allConnectors r H. unfold Erd.relationships in H.
  apply in_flat_map in H as (c & Hc & Hr).
  destruct (relationship_of frameItems allConnectors c Hc)
    as (r' & s & t & Er & _ & _ & _ & Hf & Hto & Is & It & Ns & Nt).
  rewrite Er in Hr. destruct Hr as [<-|[]]. rewrite Hf, Hto. now repeat split.
Qed.

Lemma relationships_join_entities_witness :
  entityItem tables "1" /\ entityItem tables "2"
  /\ named tables joins "1" "Order" /\ named tables joins "2" "Customer".
Proof.
  apply (relationships_join_entities tables joins orderOfCustomer).
  vm_compute. left. reflexivity.
Defined.

(** X16: no connector that was selected as a relationship is dropped later:
    the relationships are the selected connectors, one for one and in their
    order, with the ids and the ends of the connectors. *)
Theorem relationship_connectors_are_kept : forall frameItems allConnectors,
  map Relationship.connectorId (Erd.relationships frameItems allConnectors)
  = map Connector.id (Erd.relationshipConnectors frameItems allConnectors)
  /\ map (fun r => (Some (Relationship.fromId r), Some (Relationship.toId r)))
       (Erd.relationships frameItems allConnectors)
     = map (fun c => (Connector.startItem c, Connector.endItem c))
         (Erd.relationshipConnectors frameItems allConnectors).
Proof.
  intros frameItems allConnectors. unfold Erd.relationships.
  apply relationships_of. auto.
Qed.

(** X17: an item becomes an entity only through a relationship: the entities
    have distinct ids, each is an item of the frame that is no sticky note,
    and each is an end of some relationship of the diagram. *)
Theorem entities_are_related : forall frameItems allConnectors,
  NoDup (map Entity.id (Erd.entities frameItems allConnectors))
  /\ forall e, In e (Erd.entities frameItems allConnectors) ->
       EntitySpec.kept frameItems (Entity.id e) = true
       /\ exists r, In r (Erd.relationships frameItems allConnectors) /\ touches r e.
Proof.
  intros frameItems allConnectors.
  destruct (entityIds_spec frameItems allConnectors) as [Hd Hin].
  split.
  - rewrite entity_ids. now apply NoDup_filter.
  - intros e He. apply (in_map Entity.id) in He. rewrite entity_ids in He.
    apply filter_In in He as [Hid Hk]. split; [exact Hk|].
    apply Hin in Hid as (c & Hc & Ht & Hend).
    destruct (relationship_of frameItems allConnectors c Hc)
      as (r & s & t & Er & Es & Et & _ & Hf & Hto & _).
    exists r. split.
    + unfold Erd.relationships. apply in_flat_map. exists c. split; [exact Hc|].
      rewrite Er. now left.
    + unfold touches. rewrite Es, Et in Hend. cbn [Str.or_empty] in Hend.
      rewrite Hf, Hto. destruct Hend as [->| ->]; auto.
Qed.

Lemma entities_are_related_witness :
  EntitySpec.kept tables "1" = true
  /\ exists r, In r (Erd.relationships tables joins) /\ touches r order.
Proof.
  apply (proj2 (entities_are_related tables joins) order).
  vm_compute. left. reflexivity.
Defined.

End EntityFacts.

(** ** Fetching for the ER diagram *)

Module ErdNetFacts.
Import ErdNetSpec.

Lemma no_items_no_connectors : forall allConnectors,
  Erd.relationshipConnectors [] allConnectors = [].
Proof.
  intros allConnectors. unfold Erd.relationshipConnectors.
  induction allConnectors as [|c l IH]; [reflexivity|].
  cbn [filter]. rewrite IH.
  destruct (negb (Str.truthy_opt (Connector.startItem c))
            || negb (Str.truthy_opt (Connector.endItem c))); reflexivity.
Qed.

Lemma no_items_empty_diagram : forall allConnectors,
  Erd.entities [] allConnectors = []
  /\ Erd.relationships [] allConnectors = []
  /\ Erd.erd [] allConnectors = emptyDiagram.
Proof.
  intros allConnectors.
  assert (He : Erd.entities [] allConnectors = []).
  { unfold Erd.entities, Erd.entityIds. now rewrite no_items_no_connectors. }
  assert (Hr : Erd.relationships [] allConnectors = []).
  { unfold Erd.relationships. now rewrite no_items_no_connectors. }
  repeat split; try assumption.
  unfold Erd.erd, Erd.lines, Erd.entityLines. now rewrite He, Hr.
Qed.

Lemma fetchFrameBBox_unavailable : forall api boardId targetFrameId count,
  frameBoxUnavailable api boardId targetFrameId count ->
  ErdNet.fetchFrameBBox api boardId targetFrameId count = (Net.Return None, S count).
Proof.
  intros api boardId targetFrameId count H.
  unfold frameBoxUnavailable in H.
  unfold ErdNet.fetchFrameBBox, Net.try_catch, Net.bind, Net.request.
  destruct (Net.getItem api count boardId targetFrameId) as [e|frameResp]; [reflexivity|].
  unfold Net.ret. now rewrite H.
Qed.

Lemma fetchItemsForFrame_unavailable :
  forall api boardId limitPerFrame fuel targetFrameId count,
    frameBoxUnavailable api boardId targetFrameId count ->
    ErdNet.fetchItemsForFrame api boardId limitPerFrame fuel targetFrameId count
    = (Net.Return [], S count).
Proof.
  intros api boardId limitPerFrame fuel targetFrameId count H.
  unfold ErdNet.fetchItemsForFrame, Net.bind.
  now rewrite (fetchFrameBBox_unavailable _ _ _ _ H).
Qed.

(** X18: when the box of the frame cannot be had, because the request for
    the frame throws or the frame has no position or size, [frame_to_erd]
    does not fail and does not look at any item: after that one request the
    frame counts as empty, and the diagram has no entity and no relationship,
    whatever the connectors of the board are. *)
Theorem erd_without_frame_box :
  (forall api boardId limitPerFrame fuel targetFrameId count,
     frameBoxUnavailable api boardId targetFrameId count ->
     ErdNet.fetchItemsForFrame api boardId limitPerFrame fuel targetFrameId count
     = (Net.Return [], S count))
  /\ (forall allConnectors,
        Erd.entities [] allConnectors = []
        /\ Erd.relationships [] allConnectors = []
        /\ Erd.erd [] allConnectors = emptyDiagram)
  /\ (forall activeBoardId api fuel args boardId connectors,
        Net.resolveBoardId activeBoardId (ErdNet.board_id args) = inr boardId ->
        frameBoxUnavailable api boardId (ErdNet.frame_id args) 1 ->
        FetchSpec.lastPage (Net.getConnectors api 2 boardId FetchSpec.connectorParams) connectors ->
        (1 <= fuel)%nat ->
        exists r,
          ErdNet.execute activeBoardId api fuel args 0 = (Net.Return r, 3)
          /\ ErdNet.erd r = emptyDiagram
          /\ ErdNet.entities r = [] /\ ErdNet.relationships r = []).
Proof.
  split; [exact fetchItemsForFrame_unavailable|]. split; [exact no_items_empty_diagram|].
  intros activeBoardId api fuel args boardId connectors Hb Hu Hc Hf.
  destruct fuel as [|fuel]; [lia|].
  unfold ErdNet.execute, Net.withBoard. rewrite Hb.
  unfold Net.try_catch. unfold Net.bind at 1.
  destruct (FetchFacts.fetchFrameTitle_returns api boardId (ErdNet.frame_id args) 0)
    as [title ->].
  unfold Net.bind at 1.
  rewrite (fetchItemsForFrame_unavailable _ _ _ _ _ _ Hu).
  unfold Net.bind at 1.
  rewrite (FetchFacts.fetchConnectors_one_page api boardId (ErdNet.maxConnectors args)
             fuel 2 connectors Hc).
  unfold Net.ret. eexists. split; [reflexivity|].
  cbn [ErdNet.erd ErdNet.entities ErdNet.relationships].
  destruct (no_items_empty_diagram (FetchSpec.cut (ErdNet.maxConnectors args) connectors))
    as (He & Hr & Hd).
  now repeat split.
Qed.

Lemma erd_without_frame_box_witness :
  exists r,
    ErdNet.execute None FetchSpec.flatApi 5 erdArgs 0 = (Net.Return r, 3)
    /\ ErdNet.erd r = emptyDiagram
    /\ ErdNet.entities r = [] /\ ErdNet.relationships r = [].
Proof.
  apply (proj2 (proj2 erd_without_frame_box) None FetchSpec.flatApi 5 erdArgs "b1" []).
  - reflexivity.
  - exact I.
  - exists None. split; reflexivity.
  - lia.
Defined.

Section Inside.
Variable api : Net.Api.
Variable boardId : string.
Variable limitPerFrame : option nat.
Variable frameBBox : Rect.t.

(** The item has a box whose centre is within the box of the frame. *)
Local Abbreviation inside :=
  (fun it : Item.t =>
     exists bbox, Erd.computeItemBBox (Some it) = Some bbox
                  /\ ErdNet.centreInside bbox frameBBox = true).

Local Abbreviation within_cap :=
  (fun items : list Item.t =>
     forall k, limitPerFrame = Some (S k) -> (List.length items <= S k)%nat).

Lemma pushInside_keeps : forall l items,
  Forall inside items -> within_cap items ->
  Forall inside (fold_left (ErdNet.pushInside limitPerFrame frameBBox) l items)
  /\ within_cap (fold_left (ErdNet.pushInside limitPerFrame frameBBox) l items).
Proof.
  induction l as [|it l IH]; intros items Hi Hc; [now split|].
  cbn [fold_left]. apply IH; unfold ErdNet.pushInside.
  - destruct (Net.limitReached limitPerFrame (List.length items)); [exact Hi|].
    destruct (Erd.computeItemBBox (Some it)) as [bbox|] eqn:Eb; [|exact Hi].
    destruct (ErdNet.centreInside bbox frameBBox) eqn:Ec; [|exact Hi].
    apply Forall_app. split; [exact Hi|].
    apply Forall_cons; [exists bbox; now split | apply Forall_nil].
  - destruct (Net.limitReached limitPerFrame (List.length items)) eqn:El; [exact Hc|].
    destruct (Erd.computeItemBBox (Some it)) as [bbox|]; [|exact Hc].
    destruct (ErdNet.centreInside bbox frameBBox); [|exact Hc].
    intros k Hk. subst limitPerFrame. cbn [Net.limitReached] in El.
    apply Nat.leb_gt in El. rewrite length_app. simpl. lia.
Qed.

Lemma listInside_keeps : forall fuel cursor items count out count',
  Forall inside items -> within_cap items ->
  ErdNet.listInside api boardId limitPerFrame fuel frameBBox cursor items count
  = (Net.Return out, count') ->
  Forall inside out /\ within_cap out.
Proof.
  induction fuel as [|fuel IH]; intros cursor items count out count' Hi Hc H; [discriminate|].
  cbn [ErdNet.listInside] in H.
  destruct (Net.limitReached limitPerFrame (List.length items)).
  { injection H as <- _. now split. }
  apply PageFacts.bind_return in H as (payload & n1 & _ & H).
  destruct (pushInside_keeps (Net.data payload) items Hi Hc) as [Hi2 Hc2].
  destruct (Str.truthy_opt (Str.or (Net.after payload) None)
            && negb (Net.limitReached limitPerFrame _)).
  - now apply IH in H.
  - injection H as <- _. now split.
Qed.

End Inside.

(** X19: the items [frame_to_erd] works on are items of the board whose
    centre lies within the box of the frame, both boxes being defined; with
    a cap, there are at most as many as the cap allows. *)
Theorem erd_items_lie_in_frame :
  forall api boardId limitPerFrame fuel targetFrameId count items count',
    ErdNet.fetchItemsForFrame api boardId limitPerFrame fuel targetFrameId count
    = (Net.Return items, count') ->
    (forall it, In it items ->
       exists frame, Net.getItem api count boardId targetFrameId = inr (Some frame)
                     /\ liesIn frame it)
    /\ (forall k, limitPerFrame = Some (S k) -> (List.length items <= S k)%nat).
Proof.
  intros api boardId limitPerFrame fuel targetFrameId count items count' H.
  unfold ErdNet.fetchItemsForFrame in H.
  apply PageFacts.bind_return in H as (frameBBox & n1 & Hb & H).
  destruct frameBBox as [frameBBox|].
  - apply listInside_keeps in H; [|constructor | intros k _; simpl; lia].
    destruct H as [Hi Hc]. split; [|exact Hc].
    intros it Hit. rewrite Forall_forall in Hi. destruct (Hi it Hit) as (bbox & Eb & Ec).
    unfold ErdNet.fetchFrameBBox, Net.try_catch, Net.bind, Net.request in Hb.
    destruct (Net.getItem api count boardId targetFrameId) as [e|[frame|]]; try discriminate.
    exists frame. split; [reflexivity|]. injection Hb as Hb _.
    exists frameBBox, bbox. now repeat split.
  - injection H as <- _. split; [intros it [] | intros k _; simpl; lia].
Qed.

Lemma erd_items_lie_in_frame_witness :
  (forall it, In it [within] ->
     exists frame, Net.getItem board 0 "b1" "F" = inr (Some frame) /\ liesIn frame it)
  /\ (forall k, @None nat = Some (S k) -> (List.length [within] <= S k)%nat).
Proof.
  apply (erd_items_lie_in_frame board "b1" None 5 "F" 0 [within] 2).
  vm_compute. reflexivity.
Defined.

End ErdNetFacts.

(** ** Counts and samples of [summarize_board] *)

Module SummaryFacts.
Import SummarySpec.

Lemma total_set : forall (counts : JsMap.t nat) type,
  total (JsMap.set counts type (or_else (JsMap.get counts type) 0 + 1)%nat)
  = S (total counts).
Proof.
  intros counts type. unfold total.
  induction counts as [|[k v] rest IH]; [reflexivity|].
  cbn [JsMap.set JsMap.get]. destruct (String.eqb k type).
  - cbn. lia.
  - cbn [map]. change (list_sum (?a :: ?l)) with (a + list_sum l)%nat. rewrite IH. cbn. lia.
Qed.

Lemma aggregate_snoc : forall includeSamples maxSamplesPerType items item,
  Summary.aggregate includeSamples maxSamplesPerType (items ++ [item])
  = Summary.aggregateStep includeSamples maxSamplesPerType
      (Summary.aggregate includeSamples maxSamplesPerType items) item.
Proof. intros. unfold Summary.aggregate. now rewrite fold_left_app. Qed.

Lemma counts_step : forall includeSamples maxSamplesPerType st item,
  fst (Summary.aggregateStep includeSamples maxSamplesPerType st item)
  = JsMap.set (fst st) (Summary.typeOf item)
      (or_else (JsMap.get (fst st) (Summary.typeOf item)) 0 + 1)%nat.
Proof.
  intros includeSamples maxSamplesPerType [counts samples] item.
  unfold Summary.aggregateStep. cbv zeta. destruct includeSamples; [|reflexivity].
  destruct (_ <? maxSamplesPerType)%nat; reflexivity.
Qed.

Lemma ofType_snoc : forall type items item,
  ofType type (items ++ [item])
  = ofType type items ++ (if String.eqb (Summary.typeOf item) type then [item] else []).
Proof.
  intros type items item. unfold ofType. rewrite filter_app. cbn [filter].
  now destruct (String.eqb (Summary.typeOf item) type).
Qed.

Lemma counts_get : forall includeSamples maxSamplesPerType items type,
  JsMap.get (fst (Summary.aggregate includeSamples maxSamplesPerType items)) type
  = match List.length (ofType type items) with
    | O => None
    | S n => Some (S n)
    end.
Proof.
  intros includeSamples maxSamplesPerType items type.
  induction items as [|item items IH] using rev_ind; [reflexivity|].
  rewrite aggregate_snoc, counts_step, ofType_snoc, length_app.
  destruct (String.eqb (Summary.typeOf item) type) eqn:E.
  - apply String.eqb_eq in E. rewrite E, JsMapFacts.get_set_same, IH.
    destruct (List.length (ofType type items)); simpl; f_equal; lia.
  - apply String.eqb_neq in E. rewrite JsMapFacts.get_set_other by exact E.
    rewrite IH. cbn [List.length]. now rewrite Nat.add_0_r.
Qed.

Lemma counts_total : forall includeSamples maxSamplesPerType items,
  total (fst (Summary.aggregate includeSamples maxSamplesPerType items)) = List.length items.
Proof.
  intros includeSamples maxSamplesPerType items.
  induction items as [|item items IH] using rev_ind; [reflexivity|].
  rewrite aggregate_snoc, counts_step, total_set, IH, length_app. simpl. lia.
Qed.

(** X20: the counts of [summarize_board] partition the fetched items by
    type, an item without type counting as [unknown]: a type has a count
    exactly when some item has it, the count is the number of these items,
    and the counts add up to the number of items. *)
Theorem counts_partition_items : forall includeSamples maxSamplesPerType items,
  ownTypes items = true ->
  (forall type,
     JsMap.get (fst (Summary.aggregate includeSamples maxSamplesPerType items)) type
     = match List.length (ofType type items) with
       | O => None
       | S n => Some (S n)
       end)
  /\ total (fst (Summary.aggregate includeSamples maxSamplesPerType items))
     = List.length items.
Proof.
  intros includeSamples maxSamplesPerType items _. split.
  - apply counts_get.
  - apply counts_total.
Qed.

Lemma counts_partition_items_witness :
  (forall type,
     JsMap.get (fst (Summary.aggregate true 3
                       [note "1" "shape" "a"; note "2" "card" "b"; note "3" "shape" "c"])) type
     = match List.length (ofType type [note "1" "shape" "a"; note "2" "card" "b";
                                       note "3" "shape" "c"]) with
       | O => None
       | S n => Some (S n)
       end)
  /\ total (fst (Summary.aggregate true 3
                   [note "1" "shape" "a"; note "2" "card" "b"; note "3" "shape" "c"])) = 3%nat.
Proof.
  apply (counts_partition_items true 3
           [note "1" "shape" "a"; note "2" "card" "b"; note "3" "shape" "c"]).
  reflexivity.
Defined.

Lemma samples_step : forall maxSamplesPerType st item type,
  or_else (JsMap.get (snd (Summary.aggregateStep true maxSamplesPerType st item)) type) []
  = if String.eqb (Summary.typeOf item) type
    then
      let arr := or_else (JsMap.get (snd st) type) [] in
      if (List.length arr <? maxSamplesPerType)%nat then arr ++ [sampleOf item] else arr
    else or_else (JsMap.get (snd st) type) [].
Proof.
  intros maxSamplesPerType [counts samples] item type.
  unfold Summary.aggregateStep. cbv zeta. cbn [snd].
  set (samples' := match JsMap.get samples (Summary.typeOf item) with
                   | Some _ => samples
                   | None => JsMap.set samples (Summary.typeOf item) []
                   end).
  assert (Hsame : or_else (JsMap.get samples' (Summary.typeOf item)) []
                  = or_else (JsMap.get samples (Summary.typeOf item)) []).
  { unfold samples'. destruct (JsMap.get samples (Summary.typeOf item)) eqn:Eg.
    - now rewrite Eg.
    - now rewrite JsMapFacts.get_set_same. }
  assert (Hother : Summary.typeOf item <> type ->
                   JsMap.get samples' type = JsMap.get samples type).
  { intros Hne. unfold samples'. destruct (JsMap.get samples (Summary.typeOf item));
      [reflexivity | now apply JsMapFacts.get_set_other]. }
  destruct (String.eqb (Summary.typeOf item) type) eqn:E.
  - apply String.eqb_eq in E. subst type. rewrite Hsame.
    destruct (_ <? maxSamplesPerType)%nat; cbn [snd].
    + now rewrite JsMapFacts.get_set_same.
    + exact Hsame.
  - apply String.eqb_neq in E. rewrite Hsame.
    destruct (_ <? maxSamplesPerType)%nat; cbn [snd].
    + rewrite JsMapFacts.get_set_other by exact E. now rewrite Hother.
    + now rewrite Hother.
Qed.

Lemma samples_get : forall maxSamplesPerType items type,
  or_else (JsMap.get (snd (Summary.aggregate true maxSamplesPerType items)) type) []
  = map sampleOf (firstn maxSamplesPerType (ofType type items)).
Proof.
  intros maxSamplesPerType items type.
  induction items as [|item items IH] using rev_ind.
  { now rewrite firstn_nil. }
  rewrite aggregate_snoc, samples_step, ofType_snoc. cbv zeta. rewrite IH.
  destruct (String.eqb (Summary.typeOf item) type); [|now rewrite List.app_nil_r].
  rewrite length_map, length_firstn, firstn_app.
  destruct (Nat.ltb_spec (Nat.min maxSamplesPerType (List.length (ofType type items)))
              maxSamplesPerType) as [Hlt|Hge].
  - assert (Hl : (List.length (ofType type items) < maxSamplesPerType)%nat) by lia.
    rewrite (firstn_all2 (n := maxSamplesPerType) (ofType type items)) by lia.
    rewrite map_app. f_equal.
    destruct (maxSamplesPerType - List.length (ofType type items))%nat eqn:Ed; [lia|].
    cbn [firstn]. now rewrite firstn_nil.
  - replace (maxSamplesPerType - List.length (ofType type items))%nat with 0%nat by lia.
    now rewrite List.app_nil_r.
Qed.

Lemma samples_off : forall maxSamplesPerType items,
  snd (Summary.aggregate false maxSamplesPerType items) = [].
Proof.
  intros maxSamplesPerType items.
  induction items as [|item items IH] using rev_ind; [reflexivity|].
  rewrite aggregate_snoc. destruct (Summary.aggregate false maxSamplesPerType items) as [c s].
  cbn [snd] in IH. subst s. reflexivity.
Qed.

Lemma snippet_length : forall item, (String.length (Summary.snippetOf item) <= 140)%nat.
Proof.
  intros item. unfold Summary.snippetOf. cbv zeta.
  match goal with
  | |- context [if (140 <? String.length ?s)%nat then _ else _] =>
      destruct (Nat.ltb_spec 140 (String.length s)) as [H|H]
  end.
  - rewrite StrFacts.append_empty_r.
    match goal with |- (String.length (Str.take 137 ?s) <= _)%nat =>
      pose proof (TextFacts.take_length 137 s) end.
    lia.
  - exact H.
Qed.

(** X21: with samples asked for, the samples of a type are made from the
    first [maxSamplesPerType] items of that type, in the order of the items;
    without, there are none.  A snippet is never longer than 140 characters. *)
Theorem samples_are_first_items : forall maxSamplesPerType items,
  ownTypes items = true ->
  (forall type,
     or_else (JsMap.get (snd (Summary.aggregate true maxSamplesPerType items)) type) []
     = map sampleOf (firstn maxSamplesPerType (ofType type items)))
  /\ snd (Summary.aggregate false maxSamplesPerType items) = []
  /\ (forall item, In item items -> (String.length (Summary.snippetOf item) <= 140)%nat).
Proof.
  intros maxSamplesPerType items _. repeat split.
  - intros type. apply samples_get.
  - apply samples_off.
  - intros item _. apply snippet_length.
Qed.

Lemma samples_are_first_items_witness :
  or_else (JsMap.get (snd (Summary.aggregate true 1
                            [note "1" "shape" "a"; note "2" "card" "b"; note "3" "shape" "c"]))
             "shape") []
  = [ {| Summary.id := "1"; Summary.snippet := "a" |} ].
Proof.
  apply (proj1 (samples_are_first_items 1
                  [note "1" "shape" "a"; note "2" "card" "b"; note "3" "shape" "c"]
                  eq_refl) "shape").
Defined.

End SummaryFacts.

(** ** [list_board_items] *)

Module ListingFacts.
Import ListingSpec.

Section Facts.
Variable api : Board.Api.
Variable boardId : string.
Variable args : Listing.Args.

Local Abbreviation good := (ListingSpec.good args).

Lemma push_good : forall st it, good st -> good (Listing.push args st it).
Proof.
  intros [items compact] it H. pose proof H as (Hc & Hl & Hf).
  cbn [fst snd] in *. unfold Listing.push.
  destruct (Net.limitReached (Listing.limitItems args) (List.length items)) eqn:El;
    [exact H|].
  destruct (Listing.filteredOut (Listing.types args) it) eqn:Ef; [exact H|].
  unfold ListingSpec.good. cbn [fst snd]. repeat split.
  - now rewrite map_app, Hc.
  - intros k Hk. rewrite Hk in El. cbn [Net.limitReached] in El.
    apply Nat.leb_gt in El. rewrite length_app. simpl. lia.
  - intros it' Hin. apply in_app_or in Hin as [Hin|[<-|[]]]; [now apply Hf | exact Ef].
Qed.

Lemma fold_push_good : forall l st, good st -> good (fold_left (Listing.push args) l st).
Proof.
  induction l as [|it l IH]; intros st H; [exact H|].
  cbn [fold_left]. apply IH. now apply push_good.
Qed.

Lemma pages_good : forall fuel cursor st count out cursor' count',
  good st ->
  Listing.pages api boardId args fuel cursor st count = (Net.Return (out, cursor'), count') ->
  good out.
Proof.
  induction fuel as [|fuel IH]; intros cursor st count out cursor' count' Hg H; [discriminate|].
  cbn [Listing.pages] in H.
  destruct (Net.limitReached (Listing.limitItems args) (List.length (fst st))).
  { now injection H as <- _ _. }
  apply PageFacts.bind_return in H as (payload & n1 & _ & H).
  pose proof (fold_push_good (Net.data payload) st Hg) as Hg2.
  destruct (Str.truthy_opt (Str.or (Net.after payload) None)
            && negb (Net.limitReached (Listing.limitItems args) _)).
  - now apply IH in H.
  - now injection H as <- _ _.
Qed.

End Facts.

(** X22: what [list_board_items] returns is consistent: the compact items
    are the projections of the raw items, one for one; [totalItems] is their
    number and does not exceed [limitItems]; with two or more types asked
    for, every item has one of these types; [hasMore] tells whether a next
    cursor is given. *)
Theorem listing_is_consistent : forall activeBoardId api fuel args count r count',
  Listing.execute activeBoardId api fuel args count = (Net.Return r, count') ->
  exists raw,
    Listing.compactItems r = map Listing.compactOf raw
    /\ Listing.items r = (if or_else (Listing.includeRaw args) false then Some raw else None)
    /\ Listing.totalItems r = List.length raw
    /\ (forall k, Listing.limitItems args = Some (S k) -> (List.length raw <= S k)%nat)
    /\ (forall types it,
          Listing.types args = Some types -> (1 < List.length types)%nat -> In it raw ->
          Listing.includes types (Board.Item.type it) = true)
    /\ Listing.hasMore r = Str.truthy_opt (Listing.nextCursor r).
Proof.
  intros activeBoardId api fuel args count r count' H.
  unfold Listing.execute, Net.withBoard in H.
  destruct (Net.resolveBoardId activeBoardId (Listing.board_id args)) as [e|boardId];
    [discriminate|].
  unfold Net.try_catch in H.
  match type of H with
  | match ?m count with _ => _ end = _ => destruct (m count) as [[r0|e|] n] eqn:Em
  end; try discriminate.
  injection H as <- <-.
  apply PageFacts.bind_return in Em as ([[items compact] cursor] & n1 & Hp & Hr).
  apply pages_good in Hp;
    [|unfold ListingSpec.good; repeat split; [intros k _; simpl; lia | intros it []]].
  destruct Hp as (Hc & Hl & Hf). cbn [fst snd] in *.
  unfold Net.ret in Hr. injection Hr as <- _.
  exists items. cbn [Listing.compactItems Listing.items Listing.totalItems Listing.hasMore
                       Listing.nextCursor].
  repeat split; try assumption; try reflexivity.
  intros types it Ht Hlen Hin. specialize (Hf it Hin). unfold Listing.filteredOut in Hf.
  rewrite Ht in Hf. apply Nat.ltb_lt in Hlen. rewrite Hlen in Hf.
  cbn [andb] in Hf. now apply negb_false_iff in Hf.
Qed.

Lemma listing_is_consistent_witness :
  exists raw,
    [Listing.compactOf (bare "1" "shape"); Listing.compactOf (bare "3" "card")]
    = map Listing.compactOf raw
    /\ Some [bare "1" "shape"; bare "3" "card"]
       = (if or_else (Listing.includeRaw shapesAndCards) false then Some raw else None)
    /\ 2%nat = List.length raw
    /\ (forall k, Listing.limitItems shapesAndCards = Some (S k) -> (List.length raw <= S k)%nat)
    /\ (forall types it,
          Listing.types shapesAndCards = Some types -> (1 < List.length types)%nat ->
          In it raw -> Listing.includes types (Board.Item.type it) = true)
    /\ true = Str.truthy_opt (Some "p2").
Proof.
  apply (listing_is_consistent None mixed 5 shapesAndCards 0
           {| Listing.boardId := "b1"; Listing.totalItems := 2;
              Listing.items := Some [bare "1" "shape"; bare "3" "card"];
              Listing.compactItems :=
                [Listing.compactOf (bare "1" "shape"); Listing.compactOf (bare "3" "card")];
              Listing.hasMore := true; Listing.nextCursor := Some "p2" |} 1).
  vm_compute. reflexivity.
Defined.

End ListingFacts.

(** ** [fetch_frame_items] *)

Module FrameItemsFacts.
Import FrameItemsSpec.

Section Facts.
Variable api : Board.Api.
Variable boardId : string.
Variable limit : option nat.

Local Abbreviation capped := (FrameItemsSpec.capped limit).
Local Abbreviation nestedCapped := (FrameItemsSpec.nestedCapped limit).

Lemma fold_push_capped : forall l items,
  capped items -> capped (fold_left (FrameItems.push limit) l items).
Proof.
  induction l as [|it l IH]; intros items H; [exact H|].
  cbn [fold_left]. apply IH. unfold FrameItems.push.
  destruct (Net.limitReached limit (List.length items)) eqn:El; [exact H|].
  intros k Hk. subst limit. cbn [Net.limitReached] in El.
  apply Nat.leb_gt in El. rewrite length_app. simpl. lia.
Qed.

Lemma fetchItemsForFrame_capped : forall fuel targetFrameId cursor items count out count',
  capped items ->
  FrameItems.fetchItemsForFrame api boardId limit fuel targetFrameId cursor items count
  = (Net.Return out, count') ->
  capped out.
Proof.
  induction fuel as [|fuel IH]; intros targetFrameId cursor items count out count' Hc H;
    [discriminate|].
  cbn [FrameItems.fetchItemsForFrame] in H.
  destruct (Net.limitReached limit (List.length items)).
  { now injection H as <- _. }
  apply PageFacts.bind_return in H as (payload & n1 & _ & H).
  pose proof (fold_push_capped (Net.data payload) items Hc) as Hc2.
  destruct (Str.truthy_opt (Str.or (Net.after payload) None)
            && negb (Net.limitReached limit _)).
  - now apply IH in H.
  - now injection H as <- _.
Qed.

Lemma fetchNested_frames : forall fuel childFrames nested count out count',
  nestedCapped nested ->
  FrameItems.fetchNested api boardId limit fuel childFrames nested count
  = (Net.Return out, count') ->
  map FrameItems.frame_id out
  = map FrameItems.frame_id nested ++ map Board.Item.id childFrames
  /\ nestedCapped out.
Proof.
  intros fuel. induction childFrames as [|frame rest IH];
    intros nested count out count' Hc H.
  - injection H as <- _. split; [now rewrite List.app_nil_r | exact Hc].
  - cbn [FrameItems.fetchNested] in H.
    apply PageFacts.bind_return in H as (nestedItems & n1 & Hf & H).
    apply fetchItemsForFrame_capped in Hf; [|intros k _; simpl; lia].
    apply IH in H.
    + destruct H as [Hm Hc2]. split; [|exact Hc2].
      rewrite Hm, map_app. cbn [map FrameItems.frame_id]. now rewrite <- List.app_assoc.
    + intros n Hin. apply in_app_or in Hin as [Hin|[<-|[]]]; [now apply Hc|].
      cbn [FrameItems.nestedItems]. intros k Hk. rewrite length_map. now apply Hf.
Qed.

End Facts.

Lemma project_frames : forall l,
  map FrameItems.id (filter isFrame (map FrameItems.project l))
  = map Board.Item.id (filter FrameItems.isFrame l).
Proof.
  induction l as [|it l IH]; [reflexivity|].
  cbn [map filter]. unfold isFrame at 1, FrameItems.isFrame at 1.
  cbn [FrameItems.project FrameItems.type].
  destruct (Str.eq_opt (Board.Item.type it) (Some "frame")); [|exact IH].
  cbn [map FrameItems.project FrameItems.id]. now rewrite IH.
Qed.

(** X23: [fetch_frame_items] goes one level down and no further: the nested
    frames of the answer are the frames among the items of the frame, one
    for one and in their order, or none when nested frames are not asked for;
    [totalItemsInFrame] is the number of items of the frame itself; the cap
    holds for the frame and for each nested frame by itself. *)
Theorem nested_frames_are_the_child_frames :
  forall activeBoardId api fuel args count r count',
    FrameItems.execute activeBoardId api fuel args count = (Net.Return r, count') ->
    FrameItems.totalItemsInFrame r = List.length (FrameItems.items r)
    /\ map FrameItems.frame_id (FrameItems.nestedFrames r)
       = (if or_else (FrameItems.includeNestedFrames args) true
          then map FrameItems.id (filter isFrame (FrameItems.items r))
          else [])
    /\ (forall k, FrameItems.limitPerFrame args = Some (S k) ->
          (List.length (FrameItems.items r) <= S k)%nat
          /\ forall n, In n (FrameItems.nestedFrames r) ->
               (List.length (FrameItems.nestedItems n) <= S k)%nat).
Proof.
  intros activeBoardId api fuel args count r count' H.
  unfold FrameItems.execute, Net.withBoard in H.
  destruct (Net.resolveBoardId activeBoardId (FrameItems.board_id args)) as [e|boardId];
    [discriminate|].
  unfold Net.try_catch in H.
  match type of H with
  | match ?m count with _ => _ end = _ => destruct (m count) as [[r0|e|] n] eqn:Em
  end; try discriminate.
  injection H as <- <-.
  apply PageFacts.bind_return in Em as (rootItems & n1 & Hroot & Em).
  apply PageFacts.bind_return in Em as (nested & n2 & Hn & Hr).
  unfold Net.ret in Hr. injection Hr as <- _.
  cbn [FrameItems.totalItemsInFrame FrameItems.items FrameItems.nestedFrames].
  apply fetchItemsForFrame_capped in Hroot; [|intros k _; simpl; lia].
  assert (Hnested :
            map FrameItems.frame_id nested
            = (if or_else (FrameItems.includeNestedFrames args) true
               then map Board.Item.id (filter FrameItems.isFrame rootItems) else [])
            /\ nestedCapped (FrameItems.limitPerFrame args) nested).
  { destruct (or_else (FrameItems.includeNestedFrames args) true).
    - apply fetchNested_frames in Hn; [exact Hn | intros n0 []].
    - injection Hn as <- _. split; [reflexivity | intros n0 []]. }
  destruct Hnested as [Hm Hc]. repeat split.
  - now rewrite length_map.
  - rewrite Hm, project_frames. reflexivity.
  - rewrite length_map. now apply Hroot.
  - intros n0 Hin. now apply (Hc n0 Hin).
Qed.

Lemma nested_frames_are_the_child_frames_witness :
  exists r,
    FrameItems.execute None nesting 5 frameArgs 0 = (Net.Return r, 2)
    /\ map FrameItems.id (FrameItems.items r) = ["G"; "A"]
    /\ map (fun n => map FrameItems.id (FrameItems.nestedItems n)) (FrameItems.nestedFrames r)
       = [["H"]]
    /\ (FrameItems.totalItemsInFrame r = List.length (FrameItems.items r)
        /\ map FrameItems.frame_id (FrameItems.nestedFrames r)
           = (if or_else (FrameItems.includeNestedFrames frameArgs) true
              then map FrameItems.id (filter isFrame (FrameItems.items r))
              else [])
        /\ (forall k, FrameItems.limitPerFrame frameArgs = Some (S k) ->
              (List.length (FrameItems.items r) <= S k)%nat
              /\ forall n, In n (FrameItems.nestedFrames r) ->
                   (List.length (FrameItems.nestedItems n) <= S k)%nat)).
Proof.
  eexists. split; [vm_compute; reflexivity|]. split; [reflexivity|]. split; [reflexivity|].
  apply (nested_frames_are_the_child_frames None nesting 5 frameArgs 0 _ 2).
  vm_compute. reflexivity.
Defined.

End FrameItemsFacts.

(** ** The active board *)

Module ActiveBoardFacts.
Import ErrorSpec.

(** X24: [set_active_board] changes the active board only when the board can
    be read: a failed call leaves the active board as it was and throws a
    formatted error; a successful call makes the trimmed id the active board,
    which [resolveBoardId] then returns for calls without [board_id], unless
    the trimmed id is empty, in which case these calls are refused.  Either
    way it issues one request.  [get_active_board] never throws, and issues
    no request when no active board is set. *)
Theorem active_board_changes_on_success :
  (forall api activeBoardId board_id count,
     match ActiveBoard.set_active_board api activeBoardId board_id count with
     | (Net.Return r, active, count') =>
         active = Some (Str.trim board_id)
         /\ ActiveBoard.activeBoardId r = Some (Str.trim board_id)
         /\ count' = S count
         /\ Net.resolveBoardId active None
            = (if Str.truthy (Str.trim board_id) then inr (Str.trim board_id)
               else inl Net.noActiveBoard)
     | (Net.Throw e, active, count') =>
         active = activeBoardId /\ formatted e /\ count' = S count
     | (Net.Diverge, _, _) => False
     end)
  /\ (forall api activeBoardId count,
        exists r count',
          ActiveBoard.get_active_board api activeBoardId count = (Net.Return r, count')
          /\ ActiveBoard.current r
             = (if Str.truthy_opt activeBoardId then activeBoardId else None)
          /\ count' = (if Str.truthy_opt activeBoardId then S count else count)).
Proof.
  split.
  - intros api activeBoardId board_id count. unfold ActiveBoard.set_active_board. cbv zeta.
    destruct (Board.getBoard api count (Str.trim board_id)) as [e|board].
    + repeat split. apply SeedFacts.formatApiError_formatted.
    + cbn [ActiveBoard.activeBoardId]. repeat split.
      unfold Net.resolveBoardId. cbn [Str.truthy_opt Str.or_empty].
      now destruct (Str.truthy (Str.trim board_id)).
  - intros api activeBoardId count. unfold ActiveBoard.get_active_board.
    destruct (Str.truthy_opt activeBoardId); cbn [negb].
    + unfold Net.try_catch, Net.bind, Net.request.
      destruct (Board.getBoard api count (Str.or_empty activeBoardId));
        eexists; eexists; repeat split.
    + eexists; eexists; repeat split.
Qed.

End ActiveBoardFacts.

(** ** Containers *)

Module ContainerFacts.
Import ContainmentSpec ContainerSpec.

Section Facts.
Variable frameItems : list Item.t.

Lemma not_leb_zero : forall a, Num.leb a Num.zero = false -> positiveOrNaN a = true.
Proof. intros [[]|[]| |[] ? ?] H; try reflexivity; discriminate. Qed.

Lemma parentStep_passes : forall childId childBox best parentId,
  Mermaid.parentStep frameItems childId childBox best parentId = best
  \/ (fst (Mermaid.parentStep frameItems childId childBox best parentId) = Some parentId
      /\ passes frameItems childId childBox parentId).
Proof.
  intros childId childBox best parentId.
  unfold Mermaid.parentStep, passes, boxOf, sameDefinedColor, largeEnough, overlaps,
    isRegionColor, colourOf, minScale.
  rewrite <- !ContainmentFacts.colour_spec.
  destruct (String.eqb parentId childId) eqn:Eid; [now left|].
  destruct (JsMap.get (Mermaid.idToBBox frameItems) parentId) as [parentBox|]; [|now left].
  destruct (Str.truthy_opt _ && Str.truthy_opt _ && Str.eq_opt _ _) eqn:Ec; [now left|].
  cbv zeta.
  destruct (Num.ltb (BBox.width parentBox) _) eqn:W; [now left|].
  destruct (Num.ltb (BBox.height parentBox) _) eqn:H; [now left|]. cbn [orb].
  fold (interWidth parentBox childBox) (interHeight parentBox childBox).
  destruct (Num.leb (interWidth parentBox childBox) Num.zero) eqn:O1; [now left|].
  destruct (Num.leb (interHeight parentBox childBox) Num.zero) eqn:O2; [now left|]. cbn [orb].
  destruct (Num.ltb (Num.div _ _) _); [now left|].
  destruct (Num.ltb _ (snd best)); [|now left].
  right. split; [reflexivity|]. split; [now apply String.eqb_neq|].
  exists parentBox.
  repeat split; try assumption; try (now rewrite W, H).
  now rewrite (not_leb_zero _ O1), (not_leb_zero _ O2).
Qed.

Lemma bestParent_passes : forall childId childBox l init parentId,
  fst (fold_left (Mermaid.parentStep frameItems childId childBox) l init) = Some parentId ->
  fst init = Some parentId \/ passes frameItems childId childBox parentId.
Proof.
  intros childId childBox l. induction l as [|x l IH]; intros init p H; [now left|].
  cbn [fold_left] in H. apply IH in H as [H|H]; [|now right].
  destruct (parentStep_passes childId childBox init x) as [E|[E P]].
  - rewrite E in H. now left.
  - rewrite E in H. injection H as <-. now right.
Qed.

End Facts.

(** X25: whatever the items are, the container assigned to an item is
    another node of the diagram: it has a box, it is not of the same defined
    colour as the item (the colour being the fill colour, else the card
    theme, else the background colour), neither of its dimensions is below
    the item's times the scale factor, and the intersection of the two boxes
    has a width that is positive or NaN and a height that is positive or
    NaN. *)
Theorem containers_are_other_nodes : forall frameItems childId parentId,
  isParentOf frameItems childId parentId ->
  In childId (Mermaid.nodeIds frameItems)
  /\ In parentId (Mermaid.nodeIds frameItems)
  /\ exists childBox,
       boxOf frameItems childId = Some childBox
       /\ passes frameItems childId childBox parentId.
Proof.
  intros frameItems c p H.
  pose proof (RenderFacts.isParentOf_in frameItems c p H) as [Hc Hp].
  apply RenderFacts.isParentOf_assigned in H as (_ & box & Hb & Ha).
  repeat split; try assumption. exists box. split; [exact Hb|].
  unfold assigned in Ha.
  destruct (fst (Mermaid.bestParent frameItems c box)) as [p'|] eqn:E; [|discriminate].
  cbn [Str.truthy_opt Str.or_empty] in Ha. destruct (Str.truthy p'); [|discriminate].
  injection Ha as ->. unfold Mermaid.bestParent in E.
  apply bestParent_passes in E as [E|E]; [discriminate | exact E].
Qed.

Lemma containers_are_other_nodes_witness :
  In "2" (Mermaid.nodeIds nested) /\ In "1" (Mermaid.nodeIds nested)
  /\ exists childBox,
       boxOf nested "2" = Some childBox /\ passes nested "2" childBox "1".
Proof.
  apply (containers_are_other_nodes nested "2" "1").
  vm_compute. reflexivity.
Defined.

End ContainerFacts.

(** ** Primary-key candidates *)

Module CandidateFacts.
Import TextSpec.

Lemma trim_plain : forall textHtml, Str.trim (htmlToPlain textHtml) = htmlToPlain textHtml.
Proof.
  intros textHtml. pose proof (TextFacts.htmlToPlain_normal textHtml) as H.
  unfold normalised in H. apply andb_prop in H as [Hh Hb]. apply negb_true_iff in Hh.
  unfold Str.trim. rewrite (TextFacts.trimStart_noop _ Hh). now apply TextFacts.trimEnd_noop.
Qed.

(** X27: the primary-key candidates of an item are its whole plain text as
    one entry, whether or not it mentions [pk] or [id], and nothing when the
    plain text is empty: the plain text never has a second line, so the
    search for matching lines and the cut to three entries change nothing. *)
Theorem pk_candidates_are_the_plain_text : forall item : option Item.t,
  Erd.extractPkCandidatesFromItem item
  = if Str.truthy (Erd.pkPlainText item) then [Erd.pkPlainText item] else [].
Proof.
  intros item. unfold Erd.extractPkCandidatesFromItem. cbv zeta.
  destruct (Str.truthy (Erd.pkPlainText item)) eqn:Ht; [|reflexivity].
  cbn [negb]. rewrite PkFacts.pkLines_single.
  assert (Hp : Str.trim (Erd.pkPlainText item) = Erd.pkPlainText item).
  { unfold Erd.pkPlainText. cbv zeta. apply trim_plain. }
  rewrite Hp. cbn [filter]. rewrite Ht. cbn [filter].
  now destruct (Re.test_word "pk" (Erd.pkPlainText item)
                || Re.test_word "id" (Erd.pkPlainText item)).
Qed.

End CandidateFacts.
